(** * hp6633: ramp / acquisition loop of the HP663xA power-supply controller

    Shallow embedding of [main] and of the [hp663X_*] helpers of
    [hp6633.c], of the command line ([GetOpt], [strclean] and the
    [switch] of [main]) and of the keyboard functions ([init_keyboard],
    [close_keyboard], [kbhit], [readch]).
    The C [float] variables are IEEE binary32 values and the
    C [double] intermediates are binary64 values; both are represented by
    [spec_float] of the Standard Library and computed with its
    operations at the matching precision. *)

From Stdlib Require Import ZArith QArith Qabs List String Ascii Bool Lia.
From Stdlib Require Import Floats.SpecFloat.
Import ListNotations.
Open Scope Z_scope.

(** ** C arithmetic on [float] and [double] *)

Module CFloat.

Definition prec32 : Z := 24.
Definition emax32 : Z := 128.
Definition prec64 : Z := 53.
Definition emax64 : Z := 1024.

(** [(double) i] for an [int]. *)
Definition double_of_int (i : Z) : spec_float :=
  binary_normalize prec64 emax64 i 0 false.

(** Conversion of a number to the format [prec], [emax]: the value is
    rounded to nearest, ties to even; infinities and NaN stay. *)
Definition convert (prec emax : Z) (x : spec_float) : spec_float :=
  match x with
  | S754_finite s m e => binary_normalize prec emax (cond_Zopp s (Zpos m)) e s
  | _ => x
  end.

(** [(double) f] for a [float] and [(float) d] for a [double]. *)
Definition double_of_float : spec_float -> spec_float := convert prec64 emax64.
Definition float_of_double : spec_float -> spec_float := convert prec32 emax32.

(** [(float) i] for an [int] (the macros MAXVOLT and MAXAMP). *)
Definition float_of_int (i : Z) : spec_float :=
  binary_normalize prec32 emax32 i 0 false.

(** The literal [0.001]: the double nearest to 1/1000,
    [0x1.0624dd2f1a9fcp-10]. *)
Definition lit_0_001 : spec_float :=
  S754_finite false 4611686018427388 (-62).

Definition dmul : spec_float -> spec_float -> spec_float :=
  SFmul prec64 emax64.
Definition dadd : spec_float -> spec_float -> spec_float :=
  SFadd prec64 emax64.

(** [a < b] and [a > b]; false as soon as one side is a NaN. *)
Definition flt (a b : spec_float) : bool := SFltb a b.
Definition fgt (a b : spec_float) : bool := SFltb b a.

Definition is_finite (x : spec_float) : bool :=
  match x with
  | S754_zero _ | S754_finite _ _ _ => true
  | _ => false
  end.

(** Some binary32 constants used in the scenarios. *)
Definition f0 : spec_float := S754_zero false.
Definition fint (i : Z) : spec_float := float_of_int i.

End CFloat.

Import CFloat.

(** ** Constants of the program *)

Definition ESC : Z := 27.
Definition KEY_q : Z := 113.
Definition ERR_FILE : Z := 4.
Definition ERR_INST : Z := 5.
Definition MAXVOLT : Z := 50.
Definition MAXAMP : Z := 2.

(** ** The ramp variables of [main] *)

Record ramp_vars := mkRamp {
  ramp : Z;                 (* int ramp: signed step in mV *)
  ramp_volt : spec_float;   (* float ramp_volt: the commanded voltage *)
  dramp : bool;             (* char dramp: dual ramp still to do *)
  dramp_avail : bool        (* char dramp_avail: second data set exists *)
}.

(** [ramp*0.001], a double. *)
Definition millivolts (r : Z) : spec_float :=
  dmul (double_of_int r) lit_0_001.

(** [ramp_volt += ramp*0.001]: the product and the sum are computed in
    double, the result is stored back into a float. *)
Definition ramp_step (rv : spec_float) (r : Z) : spec_float :=
  float_of_double (dadd (double_of_float rv) (millivolts r)).

(** The test of line 424:
    [((ramp > 0) && (ramp_volt > max_volt)) || ((ramp < 0) && (ramp_volt < set_volt))]. *)
Definition limit_reached (set_volt max_volt : spec_float) (rs : ramp_vars) : bool :=
  ((0 <? ramp rs) && fgt (ramp_volt rs) max_volt)
  || ((ramp rs <? 0) && flt (ramp_volt rs) set_volt).

(** What the [if (ramp) { ... }] block decides before it talks to the
    instrument: leave the loop, or send [VSET] with the new [ramp_volt],
    after having written the two empty lines when the ramp was just
    inverted. *)
Inductive ramp_decision :=
| RampBreak
| RampApply (separator : bool) (rs' : ramp_vars).

Definition ramp_block (set_volt max_volt : spec_float) (rs : ramp_vars)
  : ramp_decision :=
  if limit_reached set_volt max_volt rs then
    if negb (dramp rs) then RampBreak
    else
      let r' := - ramp rs in
      RampApply true (mkRamp r' (ramp_step (ramp_volt rs) r') false true)
  else
    RampApply false
      (mkRamp (ramp rs) (ramp_step (ramp_volt rs) (ramp rs))
              (dramp rs) (dramp_avail rs)).

(** [ramp_volt = (ramp > 0 ? set_volt : max_volt)] (line 414). *)
Definition ramp_init (r : Z) (dr : bool) (set_volt max_volt : spec_float)
  : ramp_vars :=
  mkRamp r (if 0 <? r then set_volt else max_volt) dr false.

(** The first [n] decisions of the ramp block in an undisturbed run
    (every bus transfer succeeds, no key is pressed), up to and
    including the one that leaves the loop. *)
Fixpoint ramp_decisions (n : nat) (set_volt max_volt : spec_float) (r : ramp_vars)
  : list ramp_decision :=
  match n with
  | O => []
  | S n' =>
      match ramp_block set_volt max_volt r with
      | RampBreak => [RampBreak]
      | RampApply sep r' =>
          RampApply sep r' :: ramp_decisions n' set_volt max_volt r'
      end
  end.

(** The same run as seen from outside: the voltages sent with VSET and
    the reversals, and whether the loop was left within the [n]
    cycles. *)
Inductive ramp_event :=
| Applied (v : spec_float)
| Reversed.

Definition events_of (d : ramp_decision) : list ramp_event :=
  match d with
  | RampBreak => []
  | RampApply sep r' =>
      (if sep then [Reversed] else []) ++ [Applied (ramp_volt r')]
  end.

Definition is_break (d : ramp_decision) : bool :=
  match d with
  | RampBreak => true
  | RampApply _ _ => false
  end.

Definition ramp_run (n : nat) (set_volt max_volt : spec_float) (r : ramp_vars)
  : list ramp_event * bool :=
  let ds := ramp_decisions n set_volt max_volt r in
  (flat_map events_of ds, existsb is_break ds).

(** ** Text produced by [printf] *)

Module Printf.

Local Open Scope string_scope.

Definition digit_char (n : Z) : ascii :=
  ascii_of_nat (48 + Z.to_nat n).

Definition is_digit (c : ascii) : bool :=
  (48 <=? nat_of_ascii c)%nat && (nat_of_ascii c <=? 57)%nat.

(** The [k] low decimal digits of [n], most significant first. *)
Fixpoint fix_digits (k : nat) (n : Z) : string :=
  match k with
  | O => EmptyString
  | S k' => fix_digits k' (n / 10) ++ String (digit_char (n mod 10)) EmptyString
  end.

(** Number of decimal digits of [n >= 0] (at least one). *)
Fixpoint dec_len (fuel : nat) (n : Z) : nat :=
  match fuel with
  | O => 1%nat
  | S f => if (n <? 10)%Z then 1%nat else S (dec_len f (n / 10))
  end.

Definition dec_string (n : Z) : string :=
  fix_digits (dec_len (Z.to_nat (Z.log2 n)) n) n.

(** [num / den] rounded to the nearest integer, ties to even
    ([num >= 0], [den > 0]). *)
Definition div_nearest_even (num den : Z) : Z :=
  let q := num / den in
  match (2 * (num mod den) ?= den) with
  | Lt => q
  | Eq => if Z.even q then q else q + 1
  | Gt => q + 1
  end.

(** [|x| * 10^d] rounded to an integer, for [x = m * 2^e]. *)
Definition scaled (d : nat) (m : positive) (e : Z) : Z :=
  if (0 <=? e)%Z then Zpos m * 2 ^ e * 10 ^ Z.of_nat d
  else div_nearest_even (Zpos m * 10 ^ Z.of_nat d) (2 ^ (- e)).

Definition fmt_fixed (d : nat) (neg : bool) (n : Z) : string :=
  (if neg then "-" else "")
  ++ dec_string (n / 10 ^ Z.of_nat d) ++ "." ++ fix_digits d (n mod 10 ^ Z.of_nat d).

(** ["%.<d>f"] of a double ([d > 0]; a float argument is promoted to
    double without changing its value). *)
Definition printf_f (d : nat) (x : spec_float) : string :=
  match x with
  | S754_zero s => fmt_fixed d s 0
  | S754_finite s m e => fmt_fixed d s (scaled d m e)
  | S754_infinity s => if s then "-inf" else "inf"
  | S754_nan => "nan"
  end.

Definition TAB : string := String (ascii_of_nat 9) EmptyString.
Definition NL : string := String (ascii_of_nat 10) EmptyString.

End Printf.

Import Printf.

(** ** Options, environment and the outside world *)

(** The variables of [main] that are fixed once the command line has
    been read (lines 191-304). *)
Record options := mkOptions {
  do_graph : bool;
  do_keypress : bool;
  do_ocp : bool;
  do_reset : bool;
  opt_dramp : bool;          (* dramp as set by -R *)
  pad : Z;
  do_flush : Z;
  delay : Z;
  opt_ramp : Z;              (* ramp as set by -r *)
  set_volt : spec_float;
  max_volt : spec_float;
  set_limvolt : spec_float;
  set_amp : spec_float;
  comment : string;
  filename : string
}.

(** [x < lo || x > hi] does not hold. *)
Definition in_range (lo hi x : spec_float) : bool :=
  negb (flt x lo || fgt x hi).

(** The checks made while and after reading the command line; [main]
    returns 1 before touching the instrument when one of them fails.
    [abs(ramp) < 1] is false for [ramp = 0] only when -r was not given. *)
Definition options_accepted (o : options) : bool :=
  in_range f0 (fint MAXVOLT) (set_volt o)
  && in_range f0 (fint MAXVOLT) (max_volt o)
  && in_range f0 (fint MAXVOLT) (set_limvolt o)
  && in_range f0 (fint MAXAMP) (set_amp o)
  && (Z.abs (opt_ramp o) <=? 1000)
  && (1 <=? do_flush o) && (do_flush o <=? 10000)
  && (0 <=? pad o) && (pad o <=? 30)
  && (0 <=? delay o) && (delay o <=? 600)
  && negb ((negb (opt_ramp o =? 0)) && flt (max_volt o) (set_volt o))
  && negb ((negb (opt_ramp o =? 0)) && fgt (max_volt o) (set_limvolt o)).

(** What the instrument answers to a query ([hp663X_read]). *)
Inductive reply :=
| WriteError                 (* ibwrt of the query fails *)
| ReadError                  (* ibrd fails *)
| Answer (raw : string).     (* bytes delivered by ibrd, CR/LF included *)

(** What one pass through the loop meets. *)
Record cycle_env := mkCycle {
  vset_ok : bool;            (* ibwrt of VSET succeeds (ramp only) *)
  now : spec_float;          (* t1, minutes since t0, a double *)
  vout : reply;
  iout : reply;
  keyhit : option Z          (* kbhit() and the key from readch() *)
}.

Record env := mkEnv {
  popen_ok : bool;           (* popen(gnuplot) returned a pipe *)
  ibdev_ok : bool;
  open_reset_ok : bool;      (* ibwrt of the reset in hp663X_open *)
  setup_ok : bool;           (* ibwrt in hp663X_setup *)
  close_reset_ok : bool;     (* ibwrt of the reset in hp663X_close *)
  ctime_start : string;      (* ctime(&t), ends with a newline *)
  ctime_stop : string;
  volt_indet : spec_float;   (* volt and amp are not initialised *)
  amp_indet : spec_float;
  cycles : list cycle_env
}.

Record world := mkWorld {
  file_disk : string;        (* bytes of outfile that reached the file *)
  file_buf : string;         (* bytes still in the stdio buffer *)
  file_open : bool;
  file_flushes : nat;        (* calls of fflush(outfile) *)
  gp_open : bool;            (* gp is an open pipe *)
  gp_sent : list string;
  bus : list (string * bool);(* ibwrt: text and success, in order *)
  close_calls : list bool;   (* hp663X_close calls with their do_reset *)
  kbd_raw : bool             (* between init_keyboard and close_keyboard *)
}.

Definition world0 : world :=
  mkWorld EmptyString EmptyString false 0 false [] [] [] false.

Definition fopen_out (w : world) : world :=
  mkWorld EmptyString EmptyString true (file_flushes w) (gp_open w) (gp_sent w)
          (bus w) (close_calls w) (kbd_raw w).

Definition fprintf_out (s : string) (w : world) : world :=
  mkWorld (file_disk w) (file_buf w ++ s) (file_open w) (file_flushes w)
          (gp_open w) (gp_sent w) (bus w) (close_calls w) (kbd_raw w).

Definition fflush_out (w : world) : world :=
  mkWorld (file_disk w ++ file_buf w) EmptyString (file_open w)
          (S (file_flushes w)) (gp_open w) (gp_sent w) (bus w)
          (close_calls w) (kbd_raw w).

Definition fclose_out (w : world) : world :=
  mkWorld (file_disk w ++ file_buf w) EmptyString false (file_flushes w)
          (gp_open w) (gp_sent w) (bus w) (close_calls w) (kbd_raw w).

Definition set_gp (b : bool) (w : world) : world :=
  mkWorld (file_disk w) (file_buf w) (file_open w) (file_flushes w)
          b (gp_sent w) (bus w) (close_calls w) (kbd_raw w).

Definition fprintf_gp (s : string) (w : world) : world :=
  mkWorld (file_disk w) (file_buf w) (file_open w) (file_flushes w)
          (gp_open w) (gp_sent w ++ [s]) (bus w) (close_calls w) (kbd_raw w).

(** [if (gp) pclose(gp);] *)
Definition pclose_if_gp (w : world) : world := set_gp false w.

Definition ibwrt (s : string) (ok : bool) (w : world) : world :=
  mkWorld (file_disk w) (file_buf w) (file_open w) (file_flushes w)
          (gp_open w) (gp_sent w) (bus w ++ [(s, ok)]) (close_calls w)
          (kbd_raw w).

Definition note_close (r : bool) (w : world) : world :=
  mkWorld (file_disk w) (file_buf w) (file_open w) (file_flushes w)
          (gp_open w) (gp_sent w) (bus w) (close_calls w ++ [r]) (kbd_raw w).

Definition set_kbd (b : bool) (w : world) : world :=
  mkWorld (file_disk w) (file_buf w) (file_open w) (file_flushes w)
          (gp_open w) (gp_sent w) (bus w) (close_calls w) b.

Definition init_keyboard : world -> world := set_kbd true.
Definition close_keyboard : world -> world := set_kbd false.

(** The whole content of outfile as a reader of the file sees it once
    the stream is closed. *)
Definition file_content (w : world) : string := (file_disk w ++ file_buf w)%string.

(** ** The hp663X functions *)

Definition RESET_CMD : string := ("OUT 0;RST;CLR" ++ NL)%string.

(** [hp663X_open]: [false] stands for the return value 0. *)
Definition hp663X_open (e : env) (reset : bool) (w : world) : bool * world :=
  if negb (ibdev_ok e) then (false, w)
  else if reset then
    let w' := ibwrt RESET_CMD (open_reset_ok e) w in
    (open_reset_ok e, w')
  else (true, w).

(** [hp663X_set]: ["%s %f\n"]. *)
Definition set_text (cmd : string) (val : spec_float) : string :=
  (cmd ++ " " ++ printf_f 6 val ++ NL)%string.

Definition hp663X_set (cmd : string) (val : spec_float) (ok : bool) (w : world)
  : bool * world :=
  (ok, ibwrt (set_text cmd val) ok w).

(** [hp663X_setup]: ["VSET %f;ISET %f;OVSET %f;OCP %d\n"]. *)
Definition setup_text (volt amp limvolt : spec_float) (ocp : bool) : string :=
  ("VSET " ++ printf_f 6 volt ++ ";ISET " ++ printf_f 6 amp
   ++ ";OVSET " ++ printf_f 6 limvolt ++ ";OCP " ++ (if ocp then "1" else "0")
   ++ NL)%string.

Definition hp663X_setup (volt amp limvolt : spec_float) (ocp : bool)
  (ok : bool) (w : world) : bool * world :=
  (ok, ibwrt (setup_text volt amp limvolt ocp) ok w).

(** What [hp663X_read] leaves behind. *)
Inductive reading :=
| NoReading                  (* it returns 0 *)
| Reading (result : string)  (* it returns 1, [result] holds this text *)
| Overrun.                   (* [result[ibcnt-2]] lies in front of the
                                buffer: nothing is defined from here on *)

(** Lines 656-666: at most 11 bytes are read, [ibcnt] is their number,
    and [result[ibcnt-2] = 0] cuts the last two of them (CR/LF) off.
    With fewer than two bytes read this assignment goes to
    [result[-1]] or [result[-2]]. *)
Definition received (raw : string) : reading :=
  let ibcnt := Nat.min (String.length raw) 11 in
  if (ibcnt <? 2)%nat then Overrun else Reading (substring 0 (ibcnt - 2) raw).

Definition hp663X_read (what : string) (r : reply) (w : world)
  : reading * world :=
  match r with
  | WriteError => (NoReading, ibwrt (what ++ NL) false w)
  | ReadError => (NoReading, ibwrt (what ++ NL) true w)
  | Answer raw => (received raw, ibwrt (what ++ NL) true w)
  end.

(** [hp663X_close] *)
Definition hp663X_close (reset : bool) (ok : bool) (w : world) : bool * world :=
  let w := note_close reset w in
  if reset then (ok, ibwrt RESET_CMD ok w) else (true, w).

(** ** [main], from the preparation of the output file on *)

(** Where [main] returns. *)
Inductive exit_site :=
| AtOpen          (* hp663X_open failed, line 372 *)
| AtSetup         (* hp663X_setup failed, line 380 *)
| AtVset          (* hp663X_set failed in the loop, line 449 *)
| AtVout          (* reading VOUT? failed, line 464 *)
| AtIout          (* reading IOUT? failed, line 476 *)
| AtClose         (* hp663X_close failed, line 523 *)
| AtEnd.          (* return 0, line 550 *)

Definition exit_code (s : exit_site) : Z :=
  match s with
  | AtEnd => 0
  | _ => ERR_INST
  end.

(** The variables that change inside the loop. *)
Record loop_vars := mkVars {
  rs : ramp_vars;
  key : Z;
  loop : Z;                  (* unsigned long *)
  volt : spec_float;
  amp : spec_float
}.

Inductive cycle_result :=
| CycleNext (v : loop_vars)     (* reached the while test *)
| CycleBreak (v : loop_vars)    (* break *)
| CycleReturn (s : exit_site)   (* return ERR_INST *)
| CycleOverrun.                 (* [hp663X_read] wrote in front of [buffer] *)

Inductive loop_result :=
| LoopLeft (v : loop_vars)      (* control is behind the loop *)
| LoopReturn (s : exit_site)
| LoopRunning (v : loop_vars)   (* the described cycles are used up *)
| LoopOverrun.

(** [Overran]: an answer of fewer than two bytes made [hp663X_read]
    write in front of [buffer]; the world is given as it was when that
    happened, what follows is not defined. *)
Inductive outcome :=
| Returned (s : exit_site)
| Running
| Overran.

Definition header_text (o : options) (e : env) : string :=
  ("# hp6633 V20250811" ++ NL
   ++ "# " ++ comment o ++ NL
   ++ "# Start: " ++ ctime_start e
   ++ "# min" ++ TAB ++ "Volt" ++ TAB ++ "Ampere" ++ NL)%string.

(** ["%.4f\t%.4f\t%.4f\n"] *)
Definition record_text (t1 v a : spec_float) : string :=
  (printf_f 4 t1 ++ TAB ++ printf_f 4 v ++ TAB ++ printf_f 4 a ++ NL)%string.

Definition SEPARATOR : string := (NL ++ NL)%string.

Definition footer_text (e : env) : string :=
  ("# Stop: " ++ ctime_stop e ++ NL)%string.

(** The plot command of lines 491-499 and 528-536. *)
Definition plot_text (o : options) (r : Z) (avail : bool) : string :=
  (if negb (r =? 0)%Z then
     if avail then
       "plot '" ++ filename o ++ "' using 2:3 index 0 ti 'I vs. U (1)', '' u 2:3 index 1 ti 'I vs. U (2)'" ++ NL
     else "plot '" ++ filename o ++ "' using 2:3 ti 'I vs. U (1)'" ++ NL
   else
     "plot '" ++ filename o ++ "' using 1:2 title 'Voltage', '' u 1:3 axis x1y2 title 'Current'" ++ NL)%string.

(** The axis labels of lines 357-360. *)
Definition plot_labels (r : Z) : string :=
  (if negb (r =? 0)%Z then "set xlabel 'V'; set ylabel 'A'" ++ NL
   else "set xlabel 'min'; set ylabel 'V'; set y2label 'A'; set y2tics" ++ NL)%string.

(** The statements shared by the three failure exits of the loop:
    [if (gp) pclose(gp); fclose(outfile); close_keyboard();]. *)
Definition leave_on_failure (w : world) : world :=
  close_keyboard (fclose_out (pclose_if_gp w)).

Section Main.

(** [sscanf(buffer, "%f", &x)] of the C library: the converted float,
    or nothing when the text does not start with a number; in the
    second case [x] keeps its value. *)
Variable sscanf_f : string -> option spec_float.

Definition scan (buffer : string) (old : spec_float) : spec_float :=
  match sscanf_f buffer with
  | Some x => x
  | None => old
  end.

(** [graph]: the value of [do_graph] when the loop starts. *)
Definition refresh (o : options) (graph : bool) (v : ramp_vars) (w : world)
  : world :=
  let w := fflush_out w in
  if graph then fprintf_gp (plot_text o (ramp v) (dramp_avail v)) w else w.

(** Lines 421-451. *)
Definition ramp_part (o : options) (c : cycle_env) (v : loop_vars) (w : world)
  : cycle_result * world :=
  if ramp (rs v) =? 0 then (CycleNext v, w)
  else
    match ramp_block (set_volt o) (max_volt o) (rs v) with
    | RampBreak => (CycleBreak (mkVars (rs v) ESC (loop v) (volt v) (amp v)), w)
    | RampApply sep rs' =>
        let w := if sep then fprintf_out SEPARATOR w else w in
        let '(ok, w) := hp663X_set "VSET" (ramp_volt rs') (vset_ok c) w in
        if ok then (CycleNext (mkVars rs' (key v) (loop v) (volt v) (amp v)), w)
        else (CycleReturn AtVset, leave_on_failure w)
    end.

(** Lines 453-506: wait, read, log, refresh, look at the keyboard. *)
Definition sample_part (o : options) (graph : bool) (c : cycle_env)
  (v : loop_vars) (w : world) : cycle_result * world :=
  match hp663X_read "VOUT?" (vout c) w with
  | (NoReading, w) => (CycleReturn AtVout, leave_on_failure w)
  | (Overrun, w) => (CycleOverrun, w)
  | (Reading buffer, w) =>
      let volt' := scan buffer (volt v) in
      match hp663X_read "IOUT?" (iout c) w with
      | (NoReading, w) => (CycleReturn AtIout, leave_on_failure w)
      | (Overrun, w) => (CycleOverrun, w)
      | (Reading buffer, w) =>
          let amp' := scan buffer (amp v) in
          let loop' := (loop v + 1) mod 2 ^ 64 in
          let w := fprintf_out (record_text (now c) volt' amp') w in
          let w := if loop' mod do_flush o =? 0
                   then refresh o graph (rs v) w else w in
          let key' := match keyhit c with Some k => k | None => key v end in
          (CycleNext (mkVars (rs v) key' loop' volt' amp'), w)
      end
  end.

Definition cycle (o : options) (graph : bool) (c : cycle_env)
  (v : loop_vars) (w : world) : cycle_result * world :=
  match ramp_part o c v w with
  | (CycleNext v, w) => sample_part o graph c v w
  | other => other
  end.

(** [while ((key != 'q') && (key != ESC))] *)
Definition again (v : loop_vars) : bool :=
  negb (key v =? KEY_q) && negb (key v =? ESC).

(** The do-while loop over the cycles that the environment describes. *)
Fixpoint main_loop (o : options) (graph : bool) (cs : list cycle_env)
  (v : loop_vars) (w : world) : loop_result * world :=
  match cs with
  | [] => (LoopRunning v, w)
  | c :: cs' =>
      match cycle o graph c v w with
      | (CycleNext v', w') =>
          if again v' then main_loop o graph cs' v' w' else (LoopLeft v', w')
      | (CycleBreak v', w') => (LoopLeft v', w')
      | (CycleReturn s, w') => (LoopReturn s, w')
      | (CycleOverrun, w') => (LoopOverrun, w')
      end
  end.

(** Lines 514-550, from the label [end] on.  The wait for a key press
    before [pclose] is not represented. *)
Definition main_end (o : options) (e : env) (graph reset : bool)
  (v : ramp_vars) (w : world) : outcome * world :=
  let '(ok, w) := hp663X_close reset (close_reset_ok e) w in
  if negb ok then (Returned AtClose, close_keyboard (pclose_if_gp w))
  else
    let w := if graph
             then set_gp false (fprintf_gp (plot_text o (ramp v) (dramp_avail v)) w)
             else w in
    (Returned AtEnd, close_keyboard w).

Definition vars0 (o : options) (e : env) : loop_vars :=
  mkVars (ramp_init (opt_ramp o) (opt_dramp o) (set_volt o) (max_volt o))
         0 0 (volt_indet e) (amp_indet e).

(** The voltage of the combined setup command, line 375. *)
Definition setup_volt (o : options) : spec_float :=
  if 0 <? opt_ramp o then f0 else set_volt o.

(** [do_graph] and [do_reset] as they stand after line 351: both are
    cleared when the delay is 0, [do_graph] also when gnuplot could not
    be started. *)
Definition timed (o : options) : bool := negb (delay o =? 0).
Definition graph_on (o : options) (e : env) : bool :=
  do_graph o && timed o && popen_ok e.
Definition reset_on (o : options) : bool := do_reset o && timed o.

(** Lines 314-381, for options that passed the checks and an output
    file that could be opened: files, gnuplot defaults, [hp663X_open]
    and [hp663X_setup].  [Some s] when [main] returns at [s]. *)
Definition prologue (o : options) (e : env) : option exit_site * world :=
  let w := if timed o then set_gp (popen_ok e) (fopen_out world0) else world0 in
  let w :=
    if graph_on o e then
      fprintf_gp (plot_labels (opt_ramp o))
        (fprintf_gp ("set grid xt; set grid yt" ++ NL)
           (fprintf_gp ("set mouse;set mouse labels; set style data lines; set title '"
                        ++ filename o ++ "'" ++ NL) w))
    else w in
  let '(ok, w) := hp663X_open e (reset_on o) w in
  if negb ok then (Some AtOpen, pclose_if_gp w)
  else
    let '(ok, w) :=
      hp663X_setup (setup_volt o) (set_amp o) (set_limvolt o) (do_ocp o)
                   (setup_ok e) w in
    if negb ok then (Some AtSetup, pclose_if_gp w) else (None, w).

(** Lines 314-550. *)
Definition main (o : options) (e : env) : outcome * world :=
  match prologue o e with
  | (Some s, w) => (Returned s, w)
  | (None, w) =>
      if negb (timed o)
      then main_end o e (graph_on o e) (reset_on o) (rs (vars0 o e)) w
      else
        let w := fprintf_out (header_text o e) w in
        let w := init_keyboard w in
        match main_loop o (graph_on o e) (cycles e) (vars0 o e) w with
        | (LoopRunning _, w) => (Running, w)
        | (LoopReturn s, w) => (Returned s, w)
        | (LoopOverrun, w) => (Overran, w)
        | (LoopLeft v, w) =>
            let w := fclose_out (fprintf_out (footer_text e) w) in
            main_end o e (graph_on o e) (reset_on o) (rs v) w
        end
  end.

End Main.

(** ** Concrete scenarios *)

Module Scenario.

Definition CRLF : string :=
  String (ascii_of_nat 13) (String (ascii_of_nat 10) EmptyString).

Fixpoint skip_blanks (s : string) : string :=
  match s with
  | String c s' => if (nat_of_ascii c =? 32)%nat then skip_blanks s' else s
  | EmptyString => s
  end.

(** Digits read so far as an integer, their number, and the rest. *)
Fixpoint take_digits (s : string) (acc : Z) (cnt : nat) : Z * nat * string :=
  match s with
  | String c s' =>
      if is_digit c
      then take_digits s' (10 * acc + Z.of_nat (nat_of_ascii c - 48)) (S cnt)
      else (acc, cnt, s)
  | EmptyString => (acc, cnt, s)
  end.

(** A scanner for the plain decimal texts the instrument sends
    ([" 12.009"], ["-0.0005"]): blanks, a sign, digits, a point, digits.
    It converts as [sscanf] does as long as the digits without the
    point form an integer below 2^24. *)
Definition scan_decimal (s : string) : option spec_float :=
  let s := skip_blanks s in
  let '(neg, s) :=
    match s with
    | String "-"%char s' => (true, s')
    | String "+"%char s' => (false, s')
    | _ => (false, s)
    end in
  let '(ip, n1, s) := take_digits s 0 0 in
  let '(mant, n2) :=
    match s with
    | String "."%char s' => let '(m, k, _) := take_digits s' ip 0 in (m, k)
    | _ => (ip, 0%nat)
    end in
  if (n1 + n2 =? 0)%nat then None
  else
    let q := SFdiv prec32 emax32 (float_of_int mant) (float_of_int (10 ^ Z.of_nat n2)) in
    Some (if neg then SFopp q else q).

Definition opts (r : Z) (dual : bool) (sv mv : spec_float) : options :=
  mkOptions true false false true dual 5 100 10 r sv mv
            (fint MAXVOLT) (fint MAXAMP) "test" "out.dat".

Definition quiet : cycle_env :=
  mkCycle true (S754_finite false 1 (-6))
          (Answer (" 12.009" ++ CRLF)) (Answer ("-0.0005" ++ CRLF)) None.

Definition lab (cs : list cycle_env) : env :=
  mkEnv true true true true true
        ("Fri Oct 30 03:58:00 2026" ++ NL) ("Fri Oct 30 04:10:00 2026" ++ NL)
        S754_nan S754_nan cs.

(** The texts sent with [ibwrt] that set a voltage. *)
Definition vsets (w : world) : list string :=
  filter (prefix "VSET ") (map fst (bus w)).

End Scenario.

Import Scenario.

(** ** What a run leaves in the data file *)

(** The variable of a reading behind its query.  When [hp663X_read]
    hands a text back, it is the scanned number, or the old value when
    nothing could be scanned.  In the other cases no record is written
    any more ([main] returns, or [hp663X_read] has written in front of
    the buffer); the old value then only fills the place, and the
    functions below are used for cycles with two texts ([healthy]). *)
Definition scan_reply (sscanf_f : string -> option spec_float)
  (r : reply) (old : spec_float) : spec_float :=
  match r with
  | Answer raw =>
      match received raw with
      | Reading buffer => scan sscanf_f buffer old
      | _ => old
      end
  | _ => old
  end.

(** The records of consecutive complete cycles, starting from the
    readings [v] and [a] left by the cycle before. *)
Fixpoint records_of (sscanf_f : string -> option spec_float)
  (cs : list cycle_env) (v a : spec_float) : list string :=
  match cs with
  | [] => []
  | c :: cs' =>
      let v' := scan_reply sscanf_f (vout c) v in
      let a' := scan_reply sscanf_f (iout c) a in
      record_text (now c) v' a' :: records_of sscanf_f cs' v' a'
  end.

(** [body_of recs txt]: [txt] is made of the records [recs], in this
    order, and of segment separators, and of nothing else. *)
Inductive body_of : list string -> string -> Prop :=
| body_end : body_of [] EmptyString
| body_record r recs txt : body_of recs txt -> body_of (r :: recs) (r ++ txt)
| body_separator recs txt : body_of recs txt -> body_of recs (SEPARATOR ++ txt).

(** The ramp block does not leave the loop during the next [n] cycles. *)
Fixpoint ramp_alive (n : nat) (set_volt max_volt : spec_float) (r : ramp_vars)
  : bool :=
  match n with
  | O => true
  | S n' =>
      if ramp r =? 0 then true
      else match ramp_block set_volt max_volt r with
           | RampBreak => false
           | RampApply _ r' => ramp_alive n' set_volt max_volt r'
           end
  end.

(** The query got an answer, of the two bytes at least that
    [hp663X_read] cuts off. *)
Definition answered (r : reply) : bool :=
  match r with
  | Answer raw =>
      match received raw with
      | Reading _ => true
      | _ => false
      end
  | _ => false
  end.

(** The query could not be sent or its answer could not be read. *)
Definition failed (r : reply) : bool :=
  match r with
  | WriteError | ReadError => true
  | Answer _ => false
  end.

(** Every transfer of the cycle succeeds, and both answers have the
    two bytes that [hp663X_read] cuts off. *)
Definition healthy (c : cycle_env) : bool :=
  vset_ok c && answered (vout c) && answered (iout c).

Definition quit_key (k : Z) : bool := (k =? KEY_q) || (k =? ESC).

Definition no_quit (c : cycle_env) : bool :=
  match keyhit c with
  | Some k => negb (quit_key k)
  | None => true
  end.

(** The conditions under which [main] reaches the loop. *)
Definition reaches_loop (o : options) (e : env) : bool :=
  timed o && ibdev_ok e && (negb (do_reset o) || open_reset_ok e) && setup_ok e.

(** ** A reader for the data file *)

Module Reader.

Definition NLc : ascii := ascii_of_nat 10.
Definition TABc : ascii := ascii_of_nat 9.

(** The lines of a text; [cur] is the line being collected.  A last
    line without newline counts when it is not empty. *)
Fixpoint lines_from (cur s : string) : list string :=
  match s with
  | EmptyString => if (String.length cur =? 0)%nat then [] else [cur]
  | String a s' =>
      if Ascii.eqb a NLc then cur :: lines_from EmptyString s'
      else lines_from (cur ++ String a EmptyString) s'
  end.

Definition lines (s : string) : list string := lines_from EmptyString s.

(** The fields of a line, separated by [c]. *)
Fixpoint fields_from (c : ascii) (cur s : string) : list string :=
  match s with
  | EmptyString => [cur]
  | String a s' =>
      if Ascii.eqb a c then cur :: fields_from c EmptyString s'
      else fields_from c (cur ++ String a EmptyString) s'
  end.

Definition fields (c : ascii) (s : string) : list string :=
  fields_from c EmptyString s.

(** The number written by a non-empty string of digits after [acc]. *)
Fixpoint digits_val (s : string) (acc : Z) : option Z :=
  match s with
  | EmptyString => Some acc
  | String c s' =>
      if is_digit c
      then digits_val s' (10 * acc + Z.of_nat (nat_of_ascii c - 48))
      else None
  end.

(** A decimal number [-]ddd.ddd as a rational. *)
Definition read_decimal (s : string) : option Q :=
  let '(neg, s) :=
    match s with
    | String c s' => if Ascii.eqb c "-"%char then (true, s') else (false, s)
    | EmptyString => (false, s)
    end in
  match fields "."%char s with
  | [ip; fp] =>
      if ((String.length ip =? 0) || (String.length fp =? 0))%nat then None
      else
        match digits_val ip 0, digits_val fp 0 with
        | Some a, Some b =>
            let k := Z.of_nat (String.length fp) in
            Some (Qmake (cond_Zopp neg (a * 10 ^ k + b)) (Z.to_pos (10 ^ k)))
        | _, _ => None
        end
  | _ => None
  end.

Definition read_record (l : string) : option (Q * Q * Q) :=
  match fields TABc l with
  | [a; b; c] =>
      match read_decimal a, read_decimal b, read_decimal c with
      | Some x, Some y, Some z => Some (x, y, z)
      | _, _, _ => None
      end
  | _ => None
  end.

Definition is_comment (l : string) : bool :=
  match l with
  | String c _ => Ascii.eqb c "#"%char
  | EmptyString => false
  end.

(** Blank lines and comment lines are passed over; every other line
    has to be a record. *)
Fixpoint read_lines (ls : list string) : option (list (Q * Q * Q)) :=
  match ls with
  | [] => Some []
  | l :: ls' =>
      if (String.length l =? 0)%nat || is_comment l then read_lines ls'
      else
        match read_record l, read_lines ls' with
        | Some t, Some ts => Some (t :: ts)
        | _, _ => None
        end
  end.

Definition read_dataset (s : string) : option (list (Q * Q * Q)) :=
  read_lines (lines s).

(** The rational value of a finite float or double. *)
Definition Q_of_float (x : spec_float) : Q :=
  match x with
  | S754_finite s m e =>
      if (0 <=? e)%Z then Qmake (cond_Zopp s (Zpos m * 2 ^ e)) 1
      else Qmake (cond_Zopp s (Zpos m)) (Z.to_pos (2 ^ (- e)))
  | _ => 0%Q
  end.

(** [q] is [x] up to half a unit of the fourth decimal. *)
Definition near4 (q : Q) (x : spec_float) : Prop :=
  (Qabs (q - Q_of_float x) <= 1 # 20000)%Q.

Definition near4_sample (t : Q * Q * Q)
  (s : spec_float * spec_float * spec_float) : Prop :=
  near4 (fst (fst t)) (fst (fst s))
  /\ near4 (snd (fst t)) (snd (fst s))
  /\ near4 (snd t) (snd s).

End Reader.

Import Reader.

(** The writer of the data set: one record per sample (line 482), two
    newlines at the change of segment (line 438). *)
Definition sample : Type := spec_float * spec_float * spec_float.

Definition write_sample (s : sample) : string :=
  record_text (fst (fst s)) (snd (fst s)) (snd s).

Definition write_samples (l : list sample) : string :=
  fold_right (fun s txt => (write_sample s ++ txt)%string) EmptyString l.

(** A record without its newline. *)
Definition sample_line (s : sample) : string :=
  (printf_f 4 (fst (fst s)) ++ TAB ++ printf_f 4 (snd (fst s)) ++ TAB
   ++ printf_f 4 (snd s))%string.

Definition finite_sample (s : sample) : Prop :=
  is_finite (fst (fst s)) = true /\ is_finite (snd (fst s)) = true
  /\ is_finite (snd s) = true.


(** ** Predicates on two states of the world *)

(** What a cycle leaves untouched when it goes on, and what it has
    released when it returns. *)
Definition held_alike (w w' : world) : Prop :=
  close_calls w' = close_calls w /\ gp_open w' = gp_open w
  /\ file_open w' = file_open w /\ kbd_raw w' = kbd_raw w.

Definition released_without_close (w w' : world) : Prop :=
  close_calls w' = close_calls w /\ gp_open w' = false
  /\ file_open w' = false /\ file_buf w' = EmptyString /\ kbd_raw w' = false.

Definition loop_failure (s : exit_site) : Prop :=
  s = AtVset \/ s = AtVout \/ s = AtIout.

(** Commands are only ever added to the bus log. *)
Definition bus_grows (w w' : world) : Prop :=
exists l, bus w' = bus w ++ l.

(** ** Predicates on texts *)

(** Every character of the string passes the test. *)
Fixpoint all_chars (p : ascii -> bool) (s : string) : bool :=
  match s with
  | EmptyString => true
  | String c s' => p c && all_chars p s'
  end.

(** The characters that [printf] produces for a number: neither a
    newline nor a tabulator nor the comment sign. *)
Definition is_plain (c : ascii) : bool :=
  negb (Ascii.eqb c NLc) && negb (Ascii.eqb c TABc) && negb (Ascii.eqb c "#"%char).

Definition is_not (c : ascii) (a : ascii) : bool := negb (Ascii.eqb a c).

(** ** Values of floating-point numbers *)

(** The value of a finite number in units of 2^-1074, the smallest
    positive double: an integer for every float and double. *)
Definition BIAS : Z := 1074.

Definition val (x : spec_float) : Z :=
  match x with
  | S754_finite s m e => cond_Zopp s (Zpos m * 2 ^ (e + BIAS))
  | _ => 0
  end.

(** A zero or a finite number in the canonical representation of the
    format [prec], [emax]. *)
Definition proper (prec emax : Z) (x : spec_float) : bool :=
  match x with
  | S754_zero _ => true
  | S754_finite _ m e => bounded prec emax m e
  | _ => false
  end.

Definition proper32 : spec_float -> bool := proper prec32 emax32.
Definition proper64 : spec_float -> bool := proper prec64 emax64.

(** 2^-60 V and one volt in units of 2^-1074. *)
Definition TICK : Z := 2 ^ (BIAS - 60).
Definition VOLT : Z := 2 ^ 60 * TICK.

(** The product [ramp*0.001] is a proper double between [ramp/1024]
    and [ramp/512]. *)
Definition amount_ok (r : Z) : bool :=
  proper64 (millivolts r)
  && (Z.min (r * (2 ^ 50 * TICK)) (r * (2 ^ 51 * TICK)) <=? val (millivolts r))
  && (val (millivolts r) <=? Z.max (r * (2 ^ 50 * TICK)) (r * (2 ^ 51 * TICK))).

(** A float that the ramp can hold: proper and between -2 V and 52 V. *)
Definition in_reach (x : spec_float) : Prop :=
  proper32 x = true /\ - (2 * VOLT) <= val x <= 52 * VOLT.


(** Every step moves the ramp by at least 2^-11 V. *)
Definition QUANTUM : Z := 2 ^ 49 * TICK.

(** How far the ramp voltage [x] is from passing its limit when the
    step is [r]: negative once the limit is passed. *)
Definition distance (set_volt max_volt : spec_float) (r : Z) (x : spec_float) : Z :=
  if 0 <? r then val max_volt - val x else val x - val set_volt.

(** A text of the form [-]ddd.dddd with exactly four digits behind the
    point. *)
Definition four_decimals (s : string) : Prop :=
  exists (neg : bool) (ip fp : string),
    s = ((if neg then "-" else "") ++ ip ++ "." ++ fp)%string
    /\ ip <> EmptyString /\ String.length fp = 4%nat
    /\ all_chars is_digit ip = true /\ all_chars is_digit fp = true.

(** ** The text of an undisturbed run *)

(** What the cycles [cs] write to the data file when the ramp block
    takes the decisions [ds] and every transfer succeeds. *)
Fixpoint run_text (sscanf_f : string -> option spec_float)
  (ds : list ramp_decision) (cs : list cycle_env) (v a : spec_float) : string :=
  match ds, cs with
  | RampApply sep _ :: ds', c :: cs' =>
      let v' := scan_reply sscanf_f (vout c) v in
      let a' := scan_reply sscanf_f (iout c) a in
      ((if sep then SEPARATOR else "") ++ record_text (now c) v' a'
       ++ run_text sscanf_f ds' cs' v' a')%string
  | _, _ => EmptyString
  end.

(** Reversals and applied setpoints among the decisions before the
    loop is left. *)
Fixpoint reversals (ds : list ramp_decision) : nat :=
  match ds with
  | RampApply sep _ :: ds' => ((if sep then 1 else 0) + reversals ds')%nat
  | _ => 0%nat
  end.

Fixpoint applications (ds : list ramp_decision) : nat :=
  match ds with
  | RampApply _ _ :: ds' => S (applications ds')
  | _ => 0%nat
  end.

(** [body_with k recs txt]: [txt] is made of the records [recs], in
    this order, and of exactly [k] segment separators. *)
Inductive body_with : nat -> list string -> string -> Prop :=
| with_end : body_with 0 [] EmptyString
| with_record k r recs txt :
    body_with k recs txt -> body_with k (r :: recs) (r ++ txt)
| with_separator k recs txt :
    body_with k recs txt -> body_with (S k) recs (SEPARATOR ++ txt).

(** ** [strclean] *)

Definition MAXLEN : Z := 81.

Definition CRc : ascii := ascii_of_nat 13.

Definition is_eol (c : ascii) : bool := Ascii.eqb c NLc || Ascii.eqb c CRc.

(** The buffer after the loop of [strclean]: the characters are looked
    at from the left; at the first CR or LF the buffer is cut
    ([buf[i] = 0; break]). *)
Fixpoint strclean_buf (buf : string) : string :=
  match buf with
  | EmptyString => EmptyString
  | String c rest =>
      if is_eol c then EmptyString else String c (strclean_buf rest)
  end.

(** [strclean]: the returned length and the buffer as it is left. *)
Definition strclean (buf : string) : Z * string :=
  let b := strclean_buf buf in (Z.of_nat (String.length b), b).

(** ** [GetOpt] *)

Definition SW : ascii := "-"%char.
Definition EOF : Z := -1.

(** An [unsigned char] as an [int]. *)
Definition code (c : ascii) : Z := Z.of_nat (nat_of_ascii c).

(** The variables that [GetOpt] keeps between its calls.  [letP] points
    into a word of the command line; it is represented by the text from
    that place to the end of the word, the pointer NULL by [None]. *)
Record getopt_vars := mkGetopt {
  optind : Z;
  letP : option string;
  optarg : option string
}.

Definition getopt_vars0 : getopt_vars := mkGetopt 1 None None.

(** [argv[i]]; [argv[argc]] is the NULL pointer. *)
Definition arg (argv : list string) (i : Z) : option string :=
  if i <? 0 then None else nth_error argv (Z.to_nat i).

(** [strchr]: the text from the first occurrence of [c] on. *)
Fixpoint strchr (s : string) (c : ascii) : option string :=
  match s with
  | EmptyString => None
  | String a s' => if Ascii.eqb a c then Some s else strchr s' c
  end.

(** [':' == *(++optP)] *)
Definition takes_argument (optP : string) : bool :=
  match optP with
  | String _ (String a _) => Ascii.eqb a ":"%char
  | _ => false
  end.

(** The first block of [GetOpt], entered with [letP == NULL]: the word
    [argv[optind]] is looked at.  [inl i] is the jump to [gopEOF] with
    [optind = i], [inr p] goes on with [letP = p]. *)
Definition next_word (argv : list string) (g : getopt_vars) : Z + string :=
  match arg argv (optind g) with
  | Some (String c p) =>
      if negb (Ascii.eqb c SW) then inl (optind g)
      else match p with
           | String c' _ => if Ascii.eqb c' SW then inl (optind g + 1) else inr p
           | EmptyString => inr p
           end
  | _ => inl (optind g)
  end.

Definition GetOpt (argv : list string) (optionS : string) (g : getopt_vars)
  : Z * getopt_vars :=
  let argc := Z.of_nat (List.length argv) in
  let gopEOF (i : Z) := (EOF, mkGetopt i None None) in
  let gopError (i : Z) (p : string) := (code "~"%char, mkGetopt i (Some p) None) in
  if optind g <? argc then
    match (match letP g with
           | Some p => inr p
           | None => next_word argv g
           end) with
    | inl i => gopEOF i
    | inr EmptyString => gopEOF (optind g + 1)
    | inr (String ch p) =>
        if Ascii.eqb ch ":"%char then gopError (optind g) p
        else
          match strchr optionS ch with
          | None => gopError (optind g) p
          | Some optP =>
              if takes_argument optP then
                let i := optind g + 1 in
                match p with
                | EmptyString =>
                    if argc <=? i then gopError i p
                    else (code ch, mkGetopt (i + 1) None (arg argv i))
                | _ => (code ch, mkGetopt i None (Some p))
                end
              else
                match p with
                | EmptyString => (code ch, mkGetopt (optind g + 1) None None)
                | _ => (code ch, mkGetopt (optind g) (Some p) None)
                end
          end
    end
  else gopEOF (optind g).

(** [n] calls of [GetOpt] one after the other: the returned values and
    the variables after the last call. *)
Fixpoint GetOpt_calls (n : nat) (argv : list string) (optionS : string)
  (g : getopt_vars) : list Z * getopt_vars :=
  match n with
  | O => ([], g)
  | S n' =>
      let '(r, g1) := GetOpt argv optionS g in
      let '(rs, g2) := GetOpt_calls n' argv optionS g1 in
      (r :: rs, g2)
  end.

(** A letter of [optionS] that is followed there by a colon. *)
Definition argument_letter (optionS : string) (c : ascii) : bool :=
  negb (Ascii.eqb c ":"%char)
  && match strchr optionS c with
     | Some optP => takes_argument optP
     | None => false
     end.

(** A letter of [optionS] that is not followed there by a colon. *)
Definition plain_letter (optionS : string) (c : ascii) : bool :=
  negb (Ascii.eqb c ":"%char)
  && match strchr optionS c with
     | Some optP => negb (takes_argument optP)
     | None => false
     end.

(** The texts that are the end of a word of the command line. *)
Definition tail_of_word (argv : list string) (p : string) : Prop :=
  exists w pre, In w argv /\ w = (pre ++ p)%string.

(** The variables of [GetOpt] as its calls leave them: [optind] is not
    negative and [letP] points into a word of the command line. *)
Definition getopt_ok (argv : list string) (g : getopt_vars) : Prop :=
  0 <= optind g
  /\ match letP g with
     | Some p => tail_of_word argv p
     | None => True
     end.

(** What a call of [GetOpt] that returns a letter leaves to be read:
    the rest of the current word and the words behind it. *)
Fixpoint words_weight (l : list string) : nat :=
  match l with
  | [] => 0%nat
  | a :: l' => (S (String.length a) + words_weight l')%nat
  end.

Definition unread (argv : list string) (g : getopt_vars) : nat :=
  match letP g with
  | Some p => (String.length p + words_weight (skipn (Z.to_nat (optind g + 1)) argv))%nat
  | None => words_weight (skipn (Z.to_nat (optind g)) argv)
  end.

(** ** The command line of [main] (lines 186-312 and 321) *)

Definition OPTIONS : string := "hfnkKIRu:U:i:M:a:w:t:c:g:r:".

(** The variables set from the command line that [options] does not
    hold. *)
Record settings := mkSettings {
  opts_of : options;
  do_overwrite : bool;
  gnuplot : string
}.

(** The initial values of lines 167-178 and 183.  [filename] is not
    initialised; it is written before it is read. *)
Definition options0 : options :=
  mkOptions true true false true false 5 100 10 0 f0 f0
            (fint MAXVOLT) (fint MAXAMP) EmptyString EmptyString.

Definition settings0 : settings := mkSettings options0 false "gnuplot".

Definition with_opts (f : options -> options) (s : settings) : settings :=
  mkSettings (f (opts_of s)) (do_overwrite s) (gnuplot s).

Definition put_do_graph (b : bool) (o : options) : options :=
  mkOptions b (do_keypress o) (do_ocp o) (do_reset o) (opt_dramp o) (pad o)
            (do_flush o) (delay o) (opt_ramp o) (set_volt o) (max_volt o)
            (set_limvolt o) (set_amp o) (comment o) (filename o).

Definition put_do_keypress (b : bool) (o : options) : options :=
  mkOptions (do_graph o) b (do_ocp o) (do_reset o) (opt_dramp o) (pad o)
            (do_flush o) (delay o) (opt_ramp o) (set_volt o) (max_volt o)
            (set_limvolt o) (set_amp o) (comment o) (filename o).

Definition put_do_ocp (b : bool) (o : options) : options :=
  mkOptions (do_graph o) (do_keypress o) b (do_reset o) (opt_dramp o) (pad o)
            (do_flush o) (delay o) (opt_ramp o) (set_volt o) (max_volt o)
            (set_limvolt o) (set_amp o) (comment o) (filename o).

Definition put_do_reset (b : bool) (o : options) : options :=
  mkOptions (do_graph o) (do_keypress o) (do_ocp o) b (opt_dramp o) (pad o)
            (do_flush o) (delay o) (opt_ramp o) (set_volt o) (max_volt o)
            (set_limvolt o) (set_amp o) (comment o) (filename o).

Definition put_dramp (b : bool) (o : options) : options :=
  mkOptions (do_graph o) (do_keypress o) (do_ocp o) (do_reset o) b (pad o)
            (do_flush o) (delay o) (opt_ramp o) (set_volt o) (max_volt o)
            (set_limvolt o) (set_amp o) (comment o) (filename o).

Definition put_pad (n : Z) (o : options) : options :=
  mkOptions (do_graph o) (do_keypress o) (do_ocp o) (do_reset o) (opt_dramp o) n
            (do_flush o) (delay o) (opt_ramp o) (set_volt o) (max_volt o)
            (set_limvolt o) (set_amp o) (comment o) (filename o).

Definition put_do_flush (n : Z) (o : options) : options :=
  mkOptions (do_graph o) (do_keypress o) (do_ocp o) (do_reset o) (opt_dramp o)
            (pad o) n (delay o) (opt_ramp o) (set_volt o) (max_volt o)
            (set_limvolt o) (set_amp o) (comment o) (filename o).

Definition put_delay (n : Z) (o : options) : options :=
  mkOptions (do_graph o) (do_keypress o) (do_ocp o) (do_reset o) (opt_dramp o)
            (pad o) (do_flush o) n (opt_ramp o) (set_volt o) (max_volt o)
            (set_limvolt o) (set_amp o) (comment o) (filename o).

Definition put_ramp (n : Z) (o : options) : options :=
  mkOptions (do_graph o) (do_keypress o) (do_ocp o) (do_reset o) (opt_dramp o)
            (pad o) (do_flush o) (delay o) n (set_volt o) (max_volt o)
            (set_limvolt o) (set_amp o) (comment o) (filename o).

Definition put_set_volt (x : spec_float) (o : options) : options :=
  mkOptions (do_graph o) (do_keypress o) (do_ocp o) (do_reset o) (opt_dramp o)
            (pad o) (do_flush o) (delay o) (opt_ramp o) x (max_volt o)
            (set_limvolt o) (set_amp o) (comment o) (filename o).

Definition put_max_volt (x : spec_float) (o : options) : options :=
  mkOptions (do_graph o) (do_keypress o) (do_ocp o) (do_reset o) (opt_dramp o)
            (pad o) (do_flush o) (delay o) (opt_ramp o) (set_volt o) x
            (set_limvolt o) (set_amp o) (comment o) (filename o).

Definition put_set_limvolt (x : spec_float) (o : options) : options :=
  mkOptions (do_graph o) (do_keypress o) (do_ocp o) (do_reset o) (opt_dramp o)
            (pad o) (do_flush o) (delay o) (opt_ramp o) (set_volt o) (max_volt o)
            x (set_amp o) (comment o) (filename o).

Definition put_set_amp (x : spec_float) (o : options) : options :=
  mkOptions (do_graph o) (do_keypress o) (do_ocp o) (do_reset o) (opt_dramp o)
            (pad o) (do_flush o) (delay o) (opt_ramp o) (set_volt o) (max_volt o)
            (set_limvolt o) x (comment o) (filename o).

Definition put_comment (t : string) (o : options) : options :=
  mkOptions (do_graph o) (do_keypress o) (do_ocp o) (do_reset o) (opt_dramp o)
            (pad o) (do_flush o) (delay o) (opt_ramp o) (set_volt o) (max_volt o)
            (set_limvolt o) (set_amp o) t (filename o).

Definition put_filename (t : string) (o : options) : options :=
  mkOptions (do_graph o) (do_keypress o) (do_ocp o) (do_reset o) (opt_dramp o)
            (pad o) (do_flush o) (delay o) (opt_ramp o) (set_volt o) (max_volt o)
            (set_limvolt o) (set_amp o) (comment o) t.

(** How the command line part of [main] ends. *)
Inductive cmd_result :=
| Exit (status : Z)       (* main returns before it opens anything *)
| Undefined               (* strcpy beyond the MAXLEN bytes of the target,
                             or a NULL pointer handed to a library call *)
| Unfinished              (* the option loop did not end *)
| Proceed (s : settings). (* the output file is prepared next *)

(** One pass through the [switch]. *)
Inductive case_result :=
| Continue (s : settings)
| Leave (r : cmd_result).

Section CommandLine.

(** The conversions of [sscanf]: the converted value, or nothing when
    the text does not start with one; the variable then keeps its
    value. *)
Variable sscanf_8f : string -> option spec_float.   (* "%8f" *)
Variable sscanf_5d : string -> option Z.            (* "%5d" *)
Variable sscanf_6d : string -> option Z.            (* "%6d" *)
Variable sscanf_80s : string -> option string.      (* "%80s" *)

Definition scanned {A : Type} (scan : string -> option A) (a : string) (old : A)
  : A :=
  match scan a with
  | Some x => x
  | None => old
  end.

(** A [float] option with its range check. *)
Definition float_case (a : string) (old : spec_float) (hi : Z)
  (put : spec_float -> options -> options) (s : settings) : case_result :=
  let x := scanned sscanf_8f a old in
  if flt x f0 || fgt x (fint hi) then Leave (Exit 1)
  else Continue (with_opts (put x) s).

(** An [int] option with its range check [x < lo || x > hi]. *)
Definition int_case (scan : string -> option Z) (a : string) (old lo hi : Z)
  (put : Z -> options -> options) (s : settings) : case_result :=
  let x := scanned scan a old in
  if (x <? lo) || (hi <? x) then Leave (Exit 1)
  else Continue (with_opts (put x) s).

(** The [switch] of lines 192-290 for the value [key] of [GetOpt] and
    the [optarg] it left. *)
Definition option_case (key : Z) (oa : option string) (s : settings)
  : case_result :=
  let o := opts_of s in
  let with_arg (f : string -> case_result) :=
    match oa with
    | Some a => f a
    | None => Leave Undefined
    end in
  if key =? code "h" then Leave (Exit 0)
  else if key =? code "f" then
    Continue (mkSettings (opts_of s) true (gnuplot s))
  else if key =? code "n" then Continue (with_opts (put_do_graph false) s)
  else if key =? code "k" then Continue (with_opts (put_do_reset false) s)
  else if key =? code "K" then Continue (with_opts (put_do_keypress false) s)
  else if key =? code "I" then Continue (with_opts (put_do_ocp true) s)
  else if key =? code "R" then Continue (with_opts (put_dramp true) s)
  else if key =? code "c" then
    with_arg (fun a =>
      let '(n, a') := strclean a in
      if n =? 0 then Continue s
      else if MAXLEN <=? n then Leave Undefined
      else Continue (with_opts (put_comment a') s))
  else if key =? code "g" then
    with_arg (fun a =>
      Continue (mkSettings (opts_of s) (do_overwrite s)
                           (scanned sscanf_80s a (gnuplot s))))
  else if key =? code "u" then
    with_arg (fun a => float_case a (set_volt o) MAXVOLT put_set_volt s)
  else if key =? code "U" then
    with_arg (fun a => float_case a (max_volt o) MAXVOLT put_max_volt s)
  else if key =? code "M" then
    with_arg (fun a => float_case a (set_limvolt o) MAXVOLT put_set_limvolt s)
  else if key =? code "i" then
    with_arg (fun a => float_case a (set_amp o) MAXAMP put_set_amp s)
  else if key =? code "r" then
    with_arg (fun a =>
      let x := scanned sscanf_6d a (opt_ramp o) in
      if (Z.abs x <? 1) || (1000 <? Z.abs x) then Leave (Exit 1)
      else Continue (with_opts (put_ramp x) s))
  else if key =? code "w" then
    with_arg (fun a => int_case sscanf_5d a (do_flush o) 1 10000 put_do_flush s)
  else if key =? code "a" then
    with_arg (fun a => int_case sscanf_5d a (pad o) 0 30 put_pad s)
  else if key =? code "t" then
    with_arg (fun a => int_case sscanf_5d a (delay o) 0 600 put_delay s)
  else Leave (Exit 1).

(** [while ((key = GetOpt(...)) != EOF) switch (key) ...], at most
    [fuel] calls of [GetOpt]. *)
Fixpoint option_loop (fuel : nat) (argv : list string) (g : getopt_vars)
  (s : settings) : option (cmd_result + getopt_vars * settings) :=
  match fuel with
  | O => None
  | S fuel' =>
      let '(key, g') := GetOpt argv OPTIONS g in
      if key =? EOF then Some (inr (g', s))
      else
        match option_case key (optarg g') s with
        | Continue s' => option_loop fuel' argv g' s'
        | Leave r => Some (inl r)
        end
  end.

(** Lines 293-321, behind the loop: the checks that need several
    options, and the name of the data file. *)
Definition after_options (argv : list string) (g : getopt_vars) (s : settings)
  : cmd_result :=
  let o := opts_of s in
  if negb (opt_ramp o =? 0) && flt (max_volt o) (set_volt o) then Exit 1
  else if negb (opt_ramp o =? 0) && fgt (max_volt o) (set_limvolt o) then Exit 1
  else
    match arg argv (optind g) with
    | None =>
        if 0 <? delay o then Exit 1
        else if delay o =? 0
        then Proceed (with_opts (put_do_reset false) (with_opts (put_do_graph false) s))
        else Undefined
    | Some name =>
        if delay o =? 0
        then Proceed (with_opts (put_do_reset false) (with_opts (put_do_graph false) s))
        else if MAXLEN <=? Z.of_nat (String.length name) then Undefined
        else Proceed (with_opts (put_filename name) s)
    end.

(** Every call of [GetOpt] that returns a letter reads at least one
    character of the command line, so this many calls are enough. *)
Definition enough_calls (argv : list string) : nat := S (words_weight argv).

Definition command_line (argv : list string) : cmd_result :=
  match option_loop (enough_calls argv) argv getopt_vars0 settings0 with
  | None => Unfinished
  | Some (inl r) => r
  | Some (inr (g, s)) => after_options argv g s
  end.

End CommandLine.

(** Scanners for the examples: a decimal integer with an optional
    sign, and a word without blanks. *)
Definition scan_int (s : string) : option Z :=
  let s := skip_blanks s in
  let '(neg, s) :=
    match s with
    | String "-"%char s' => (true, s')
    | String "+"%char s' => (false, s')
    | _ => (false, s)
    end in
  let '(n, cnt, _) := take_digits s 0 0 in
  if (cnt =? 0)%nat then None else Some (if neg then - n else n).

Definition scan_word (s : string) : option string :=
  let s := skip_blanks s in
  if (String.length s =? 0)%nat then None else Some s.

(** The ranges that the [switch] checks option by option. *)
Definition ranges_ok (o : options) : bool :=
  in_range f0 (fint MAXVOLT) (set_volt o)
  && in_range f0 (fint MAXVOLT) (max_volt o)
  && in_range f0 (fint MAXVOLT) (set_limvolt o)
  && in_range f0 (fint MAXAMP) (set_amp o)
  && (Z.abs (opt_ramp o) <=? 1000)
  && (1 <=? do_flush o) && (do_flush o <=? 10000)
  && (0 <=? pad o) && (pad o <=? 30)
  && (0 <=? delay o) && (delay o <=? 600).

(** No word is longer than the text buffers of [main] can take. *)
Definition words_fit (argv : list string) : Prop :=
  Forall (fun w => Z.of_nat (String.length w) < MAXLEN) argv.

(** ** The keyboard functions *)

Module Keyboard.

(** [struct termios].  The constants are those of Linux
    (asm-generic/termbits.h). *)
Record termios := mkTermios {
  c_iflag : Z;
  c_oflag : Z;
  c_cflag : Z;
  c_lflag : Z;
  c_line : Z;
  c_cc : list Z;
  c_ispeed : Z;
  c_ospeed : Z
}.

Definition ISIG : Z := 1.
Definition ICANON : Z := 2.
Definition ECHO : Z := 8.
Definition VTIME : nat := 5.
Definition VMIN : nat := 6.
Definition NCCS : nat := 32.

(** A static [struct termios] before anything is stored in it. *)
Definition termios0 : termios :=
  mkTermios 0 0 0 0 0 (repeat 0 NCCS) 0 0.

(** [t.c_lflag &= ~flag] *)
Definition clear_lflag (flag : Z) (t : termios) : termios :=
  mkTermios (c_iflag t) (c_oflag t) (c_cflag t)
            (Z.land (c_lflag t) (Z.lnot flag)) (c_line t) (c_cc t)
            (c_ispeed t) (c_ospeed t).

(** [l[i] = x] inside the array. *)
Fixpoint store (i : nat) (x : Z) (l : list Z) : list Z :=
  match l, i with
  | [], _ => []
  | _ :: l', O => x :: l'
  | a :: l', S i' => a :: store i' x l'
  end.

(** [t.c_cc[i] = x] *)
Definition set_cc (i : nat) (x : Z) (t : termios) : termios :=
  mkTermios (c_iflag t) (c_oflag t) (c_cflag t) (c_lflag t) (c_line t)
            (store i x (c_cc t)) (c_ispeed t) (c_ospeed t).

Definition cc (i : nat) (t : termios) : Z := nth i (c_cc t) 0.

Definition icanon (t : termios) : bool := Z.testbit (c_lflag t) 1.

(** The terminal on descriptor 0 and the static variables of the
    keyboard functions. *)
Record kbd := mkKbd {
  tty : termios;              (* the settings the terminal has *)
  pending : list ascii;       (* bytes the terminal holds ready for read *)
  initial_settings : termios;
  new_settings : termios;
  peek_character : Z
}.

(** The state in which the program starts, on a terminal with the
    settings [t]. *)
Definition kbd0 (t : termios) (input : list ascii) : kbd :=
  mkKbd t input termios0 termios0 (-1).

(** [tcsetattr(0, TCSANOW, &x)] *)
Definition tcsetattr (x : termios) (k : kbd) : kbd :=
  mkKbd x (pending k) (initial_settings k) (new_settings k) (peek_character k).

Definition put_new (x : termios) (k : kbd) : kbd :=
  mkKbd (tty k) (pending k) (initial_settings k) x (peek_character k).

Definition put_peek (p : Z) (k : kbd) : kbd :=
  mkKbd (tty k) (pending k) (initial_settings k) (new_settings k) p.

Definition put_pending (l : list ascii) (k : kbd) : kbd :=
  mkKbd (tty k) l (initial_settings k) (new_settings k) (peek_character k).

(** The terminal makes a byte ready for [read].  What the operator
    types passes the input processing of the terminal first, which
    [init_keyboard] leaves as it finds it ([c_iflag] is not touched):
    with ICRNL a typed CR becomes ready as LF, with IXON the bytes of
    Ctrl-S and Ctrl-Q never become ready.  That processing is not part
    of this model; it starts with the bytes behind it. *)
Definition deliver (c : ascii) (k : kbd) : kbd :=
  put_pending (pending k ++ [c]) k.

Definition init_keyboard (k : kbd) : kbd :=
  let initial := tty k in                       (* tcgetattr *)
  let n := initial in
  let n := clear_lflag ICANON n in
  let n := clear_lflag ECHO n in
  let n := clear_lflag ISIG n in
  let n := set_cc VMIN 1 n in
  let n := set_cc VTIME 0 n in
  tcsetattr n (mkKbd (tty k) (pending k) initial n (peek_character k)).

Definition close_keyboard (k : kbd) : kbd :=
  tcsetattr (initial_settings k) k.

(** [read(0, &ch, 1)]: a byte that is ready is delivered.  When none is
    ready the call returns 0 in non-canonical mode with VMIN = 0, and
    waits otherwise. *)
Inductive read_result :=
| ReadByte (c : ascii) (k : kbd)
| ReadNone
| ReadWaits.

Definition read (k : kbd) : read_result :=
  match pending k with
  | c :: rest => ReadByte c (put_pending rest k)
  | [] =>
      if icanon (tty k) then ReadWaits
      else if cc VMIN (tty k) =? 0 then ReadNone
      else ReadWaits
  end.

Section Chars.

(** Whether [char] is a signed type is left to the compiler; it is
    with gcc on x86. *)
Variable char_signed : bool.

(** A [char] holding the byte [c], converted to [int]. *)
Definition int_of_char (c : ascii) : Z :=
  let b := Z.of_nat (nat_of_ascii c) in
  if char_signed && (128 <=? b) then b - 256 else b.

(** [kbhit]: the returned value and the new state, or nothing when the
    call of [read] waits. *)
Definition kbhit (k : kbd) : option (Z * kbd) :=
  if negb (peek_character k =? -1) then Some (1, k)
  else
    let k := put_new (set_cc VMIN 0 (new_settings k)) k in
    let k := tcsetattr (new_settings k) k in
    let finish (k : kbd) :=
      let k := put_new (set_cc VMIN 1 (new_settings k)) k in
      tcsetattr (new_settings k) k in
    match read k with
    | ReadByte c k => Some (1, put_peek (int_of_char c) (finish k))
    | ReadNone => Some (0, finish k)
    | ReadWaits => None
    end.

(** [readch]: the returned character; [KeyLost] when [read] returned 0
    and the value of [ch] is not defined. *)
Inductive readch_result :=
| Key (c : Z) (k : kbd)
| KeyLost (k : kbd)
| KeyWaits.

(** [ch = peek_character; return ch]: through a [char]. *)
Definition char_of_int (p : Z) : Z :=
  let b := p mod 256 in
  if char_signed && (128 <=? b) then b - 256 else b.

Definition readch (k : kbd) : readch_result :=
  if negb (peek_character k =? -1) then
    Key (char_of_int (peek_character k)) (put_peek (-1) k)
  else
    match read k with
    | ReadByte c k => Key (int_of_char c) k
    | ReadNone => KeyLost k
    | ReadWaits => KeyWaits
    end.

(** [if (kbhit()) key = readch();] as the loop of [main] has it: what
    happens to [key]. *)
Inductive poll_result :=
| NoKey               (* key is left as it is *)
| GotKey (c : Z)
| GarbageKey.         (* key gets the undefined value of ch *)

Definition poll_key (k : kbd) : option (poll_result * kbd) :=
  match kbhit k with
  | None => None
  | Some (0, k) => Some (NoKey, k)
  | Some (_, k) =>
      match readch k with
      | Key c k => Some (GotKey c, k)
      | KeyLost k => Some (GarbageKey, k)
      | KeyWaits => None
      end
  end.

(** What happens between [init_keyboard] and [close_keyboard]: bytes
    become ready for [read], the program polls. *)
Inductive kbd_event :=
| Arrives (c : ascii)
| Poll.

Fixpoint run_events (evs : list kbd_event) (k : kbd)
  : option (list poll_result * kbd) :=
  match evs with
  | [] => Some ([], k)
  | Arrives c :: evs' => run_events evs' (deliver c k)
  | Poll :: evs' =>
      match poll_key k with
      | None => None
      | Some (r, k) =>
          match run_events evs' k with
          | None => None
          | Some (rs, k) => Some (r :: rs, k)
          end
      end
  end.

(** The keys that the polls delivered, and the bytes that became
    ready. *)
Definition keys_got (rs : list poll_result) : list Z :=
  flat_map (fun r => match r with GotKey c => [c] | _ => [] end) rs.

Definition bytes_arrived (evs : list kbd_event) : list ascii :=
  flat_map (fun ev => match ev with Arrives c => [c] | Poll => [] end) evs.

(** A byte that [kbhit] can tell from "no character". *)
Definition visible (c : ascii) : bool := negb (int_of_char c =? -1).

End Chars.

(** The state between two polls once [init_keyboard] was called: no
    character is held back and the settings kept for the terminal are
    those of non-canonical input. *)
Definition ready (k : kbd) : Prop :=
  peek_character k = -1 /\ icanon (new_settings k) = false.

(** What [kbhit] and [readch] keep from [k] to [k']: the saved
    settings; and, when VMIN is 1 in the settings kept for the
    terminal, these settings themselves and the fact that the terminal
    has them. *)
Definition kept (k k' : kbd) : Prop :=
  initial_settings k' = initial_settings k
  /\ (cc VMIN (new_settings k) = 1 -> new_settings k' = new_settings k)
  /\ (cc VMIN (new_settings k) = 1 -> tty k = new_settings k ->
      tty k' = new_settings k).

End Keyboard.

(** ** Predicates on the log of the bus *)

(** Every transfer in the log succeeded. *)
Definition all_sent (l : list (string * bool)) : bool := forallb snd l.

(** No transfer follows a failed one. *)
Fixpoint failure_is_last (l : list (string * bool)) : bool :=
  match l with
  | [] => true
  | x :: l' =>
      match l' with
      | [] => true
      | _ :: _ => snd x && failure_is_last l'
      end
  end.

(** The two queries of a cycle as the log shows them when they were
    sent. *)
Definition queries : list (string * bool) :=
  [(("VOUT?" ++ NL)%string, true); (("IOUT?" ++ NL)%string, true)].

(** The product [ramp*0.001] is within 2^-52 V of [ramp] millivolts. *)
Definition amount_near (r : Z) : bool :=
  Z.abs (1000 * val (millivolts r) - r * VOLT) <=? 1000 * (2 ^ 8 * TICK).

(** The voltages of a leg of the ramp that starts at [x]: every
    setpoint but the last was computed from a voltage within the limit
    and is within the limit itself; the last one was computed from a
    voltage [y] within the limit and is [x']. *)
Definition leg_shape (set_volt max_volt : spec_float) (r : Z)
  (x : spec_float) (pre : list ramp_vars) (x' : spec_float) : Prop :=
  (pre = [] /\ x' = x)
  \/ (0 <= distance set_volt max_volt r x
      /\ exists pre0 last y,
           pre = pre0 ++ [last] /\ ramp_volt last = x'
           /\ x' = ramp_step y r
           /\ 0 <= distance set_volt max_volt r y /\ in_reach y
           /\ Forall (fun v => 0 <= distance set_volt max_volt r (ramp_volt v))
                     pre0).

(** The commands of the loop. *)
Definition loop_command (s : string) : Prop :=
  s = ("VOUT?" ++ NL)%string \/ s = ("IOUT?" ++ NL)%string
  \/ exists x, s = set_text "VSET" x.

(** The values that the records of consecutive complete cycles are
    printed from (see [records_of]). *)
Fixpoint samples_of (sscanf_f : string -> option spec_float)
  (cs : list cycle_env) (v a : spec_float) : list sample :=
  match cs with
  | [] => []
  | c :: cs' =>
      let v' := scan_reply sscanf_f (vout c) v in
      let a' := scan_reply sscanf_f (iout c) a in
      (now c, v', a') :: samples_of sscanf_f cs' v' a'
  end.

(** A text as [ctime] returns it: one line with its newline. *)
Definition ctime_like (s : string) : Prop :=
  exists t, s = (t ++ NL)%string /\ all_chars (is_not NLc) t = true.

(** [q] is [x] up to half a unit of the sixth decimal. *)
Definition near6 (q : Q) (x : spec_float) : Prop :=
  (Qabs (q - Q_of_float x) <= 1 # 2000000)%Q.

(** A scanner for the examples that knows the text "nan", as [sscanf]
    does. *)
Definition scan_float (s : string) : option spec_float :=
  if String.eqb s "nan" then Some S754_nan else scan_decimal s.

(** Texts written one after the other. *)
Definition join (l : list string) : string :=
  fold_right String.append EmptyString l.

(** ** The data file (lines 319-342) *)

(** The text [s] holds the character [c]. *)
Fixpoint holds (c : ascii) (s : string) : bool :=
  match s with
  | EmptyString => false
  | String a s' => Ascii.eqb a c || holds c s'
  end.

(** A word that starts with the switch character and holds [c] behind
    it. *)
Definition switch_word (c : ascii) (w : string) : bool :=
  match w with
  | String a p => Ascii.eqb a SW && holds c p
  | EmptyString => false
  end.

(** Such a word stands on the command line, behind the name of the
    program. *)
Definition given (c : ascii) (argv : list string) : bool :=
  existsb (switch_word c) (tl argv).

(** The variables of [GetOpt] while the options are read: [optind] has
    left the name of the program behind and [letP] points into a word
    that starts with the switch character. *)
Definition in_switch_word (argv : list string) (g : getopt_vars) : Prop :=
  1 <= optind g
  /\ match letP g with
     | Some p => exists w pre, In w (tl argv) /\ w = String SW (pre ++ p)
     | None => True
     end.

(** What [main] meets when it prepares the data file. *)
Record file_env := mkFileEnv {
  access_ok : bool;      (* access(filename, 0) returns 0: the file exists *)
  answer : Z;            (* fgetc(stdin) *)
  fopen_ok : bool        (* fopen(filename, "wt") returns a stream *)
}.

Inductive file_result :=
| FileDeclined           (* return 1; the file is left as it is *)
| FileFailed             (* fopen failed: pclose(gp) is called while gp is
                            still NULL, then ERR_FILE is returned *)
| FileOpened.            (* the file is created or cut to length 0 *)

(** Lines 321-342, for a delay that is not 0. *)
Definition prepare_file (s : settings) (f : file_env) : file_result :=
  let open := if fopen_ok f then FileOpened else FileFailed in
  if access_ok f && negb (do_overwrite s) then
    if (answer f =? code "Y") || (answer f =? code "y") then open
    else FileDeclined
  else open.

(** ** Command lines written from options *)

(** [n] calls of [GetOpt] one after the other: what each call returns,
    with the [optarg] it leaves, and the variables after the last
    call. *)
Fixpoint GetOpt_run (n : nat) (argv : list string) (optionS : string)
  (g : getopt_vars) : list (Z * option string) * getopt_vars :=
  match n with
  | O => ([], g)
  | S n' =>
      let '(r, g1) := GetOpt argv optionS g in
      let '(rs, g2) := GetOpt_run n' argv optionS g1 in
      ((r, optarg g1) :: rs, g2)
  end.

(** One option word as the comment in front of [GetOpt] describes it
    ([SW [optLetter]* [argLetter space* argument]]): letters without
    argument, and possibly a last letter with its argument, written
    behind the letter or as the next word. *)
Inductive option_word :=
| Flags (l : string)
| Attached (l : string) (c : ascii) (a : string)
| Separate (l : string) (c : ascii) (a : string).

(** The words of the command line that an option is written as. *)
Definition words_of (o : option_word) : list string :=
  match o with
  | Flags l => [String SW l]
  | Attached l c a => [String SW (l ++ String c a)]
  | Separate l c a => [String SW (l ++ String c EmptyString); a]
  end.

(** What the caller of [GetOpt] is to get for it. *)
Definition letters_of (l : string) : list (Z * option string) :=
  map (fun c => (code c, None)) (list_ascii_of_string l).

Definition results_of (o : option_word) : list (Z * option string) :=
  match o with
  | Flags l => letters_of l
  | Attached l c a | Separate l c a => letters_of l ++ [(code c, Some a)]
  end.

Definition starts_with_switch (w : string) : bool :=
  match w with
  | String c _ => Ascii.eqb c SW
  | EmptyString => false
  end.

(** The letters are letters of [optionS] of the right kind, the word
    does not go on with a second switch character, there is a letter
    at least, and an argument written behind its letter is not
    empty. *)
Definition well_formed (optionS : string) (o : option_word) : bool :=
  match o with
  | Flags l =>
      all_chars (plain_letter optionS) l && negb (starts_with_switch l)
      && negb (String.length l =? 0)%nat
  | Attached l c a =>
      all_chars (plain_letter optionS) l && argument_letter optionS c
      && negb (starts_with_switch (l ++ String c EmptyString))
      && negb (String.length a =? 0)%nat
  | Separate l c a =>
      all_chars (plain_letter optionS) l && argument_letter optionS c
      && negb (starts_with_switch (l ++ String c EmptyString))
  end.

(** A command line: the name of the program, the options, and the
    other words. *)
Definition command_words (prog : string) (os : list option_word)
  (operands : list string) : list string :=
  prog :: flat_map words_of os ++ operands.

(** The first of the other words does not look like an option. *)
Definition operands_ok (operands : list string) : bool :=
  match operands with
  | [] => true
  | w :: _ => negb (starts_with_switch w)
  end.

(** * Properties *)

(** ** Strings *)

Lemma append_assoc (a b c : string) : ((a ++ b) ++ c = a ++ (b ++ c))%string.
Proof. induction a as [|x a IH]; cbn; [reflexivity | now rewrite IH]. Qed.

Lemma append_empty_r (a : string) : (a ++ "" = a)%string.
Proof. induction a as [|x a IH]; cbn; [reflexivity | now rewrite IH]. Qed.

Lemma length_append (a b : string) :
  String.length (a ++ b) = (String.length a + String.length b)%nat.
Proof. induction a as [|x a IH]; cbn; [reflexivity | now rewrite IH]. Qed.


(** ** Lines, fields and digits *)

Lemma all_chars_app p a b :
all_chars p (a ++ b) = all_chars p a && all_chars p b.
Proof.
induction a as [|c a IH]; cbn; [reflexivity|].
rewrite IH. now rewrite andb_assoc.
Qed.

Lemma all_chars_weaken (p q : ascii -> bool) s :
(forall c, p c = true -> q c = true) ->
all_chars p s = true -> all_chars q s = true.
Proof.
intros Hpq. induction s as [|c s IH]; cbn; [reflexivity|].
intros H. apply andb_prop in H. destruct H as [Hc Hs].
rewrite (Hpq c Hc). cbn. now apply IH.
Qed.

Lemma lines_from_line l : forall cur rest,
all_chars (is_not NLc) l = true ->
lines_from cur (l ++ String NLc rest) = (cur ++ l)%string :: lines_from EmptyString rest.
Proof.
induction l as [|c l IH]; intros cur rest H; cbn.
- now rewrite append_empty_r.
- cbn in H. apply andb_prop in H. destruct H as [Hc Hl].
  unfold is_not in Hc. apply negb_true_iff in Hc. rewrite Hc.
  rewrite IH by exact Hl. rewrite append_assoc. reflexivity.
Qed.

Lemma fields_from_field c l : forall cur rest,
all_chars (is_not c) l = true ->
fields_from c cur (l ++ String c rest) = (cur ++ l)%string :: fields_from c EmptyString rest.
Proof.
induction l as [|a l IH]; intros cur rest H; cbn.
- rewrite Ascii.eqb_refl. now rewrite append_empty_r.
- cbn in H. apply andb_prop in H. destruct H as [Ha Hl].
  unfold is_not in Ha. apply negb_true_iff in Ha. rewrite Ha.
  rewrite IH by exact Hl. rewrite append_assoc. reflexivity.
Qed.

Lemma fields_from_last c l : forall cur,
all_chars (is_not c) l = true ->
fields_from c cur l = [(cur ++ l)%string].
Proof.
induction l as [|a l IH]; intros cur H; cbn.
- now rewrite append_empty_r.
- cbn in H. apply andb_prop in H. destruct H as [Ha Hl].
  unfold is_not in Ha. apply negb_true_iff in Ha. rewrite Ha.
  rewrite IH by exact Hl. rewrite append_assoc. reflexivity.
Qed.

(** *** Decimal digits *)

Lemma digit_char_spec d :
0 <= d <= 9 ->
is_digit (digit_char d) = true
/\ Z.of_nat (nat_of_ascii (digit_char d) - 48) = d.
Proof.
intros H.
assert (Hd : d = 0 \/ d = 1 \/ d = 2 \/ d = 3 \/ d = 4 \/ d = 5 \/ d = 6
             \/ d = 7 \/ d = 8 \/ d = 9) by lia.
repeat (destruct Hd as [-> | Hd]; [split; reflexivity|]).
subst. split; reflexivity.
Qed.

Lemma fix_digits_are_digits k : forall n,
all_chars is_digit (fix_digits k n) = true.
Proof.
induction k as [|k IH]; intros n; cbn [fix_digits]; [reflexivity|].
rewrite all_chars_app, IH. cbn [all_chars andb].
destruct (digit_char_spec (n mod 10)) as [-> _]; [|reflexivity].
pose proof (Z.mod_pos_bound n 10). lia.
Qed.

Lemma length_fix_digits k : forall n, String.length (fix_digits k n) = k.
Proof.
induction k as [|k IH]; intros n; cbn [fix_digits]; [reflexivity|].
rewrite length_append, IH. cbn. lia.
Qed.

Lemma digits_val_app a : forall b acc,
digits_val (a ++ b) acc
= match digits_val a acc with
  | Some x => digits_val b x
  | None => None
  end.
Proof.
induction a as [|c a IH]; intros b acc; cbn; [reflexivity|].
destruct (is_digit c); [apply IH | reflexivity].
Qed.

Lemma digits_val_fix_digits k : forall n acc,
0 <= n ->
digits_val (fix_digits k n) acc = Some (acc * 10 ^ Z.of_nat k + n mod 10 ^ Z.of_nat k).
Proof.
induction k as [|k IH]; intros n acc Hn.
- cbn. rewrite Z.mod_1_r. f_equal. lia.
- cbn [fix_digits]. rewrite digits_val_app, IH by (apply Z.div_pos; lia).
  cbn [digits_val].
  destruct (digit_char_spec (n mod 10)) as [Hd Hv];
    [pose proof (Z.mod_pos_bound n 10); lia|].
  rewrite Hd, Hv. f_equal.
  rewrite Nat2Z.inj_succ, Z.pow_succ_r by lia.
  rewrite (Z.rem_mul_r n 10 (10 ^ Z.of_nat k)) by lia.
  ring.
Qed.

(** [dec_len] counts enough digits. *)
Lemma dec_len_enough fuel : forall n,
0 <= n -> n < 2 ^ Z.of_nat (S fuel) -> n < 10 ^ Z.of_nat (dec_len fuel n).
Proof.
induction fuel as [|fuel IH]; intros n Hn Hlt.
- cbn in *. lia.
- cbn [dec_len]. destruct (n <? 10) eqn:E.
  + apply Z.ltb_lt in E. cbn. lia.
  + apply Z.ltb_ge in E.
    rewrite Nat2Z.inj_succ, Z.pow_succ_r by lia.
    assert (Hq : n / 10 < 10 ^ Z.of_nat (dec_len fuel (n / 10))).
    { apply IH; [apply Z.div_pos; lia|].
      rewrite (Nat2Z.inj_succ (S fuel)), Z.pow_succ_r in Hlt by lia.
      apply Z.div_lt_upper_bound; lia. }
    pose proof (Z.mul_div_le n 10 ltac:(lia)).
    pose proof (Z.mod_pos_bound n 10 ltac:(lia)).
    pose proof (Z.div_mod n 10 ltac:(lia)). lia.
Qed.

Lemma digits_val_dec_string n :
0 <= n -> digits_val (dec_string n) 0 = Some n.
Proof.
intros Hn. unfold dec_string. rewrite digits_val_fix_digits by exact Hn.
f_equal. rewrite Z.mod_small; [lia|]. split; [exact Hn|].
apply dec_len_enough; [exact Hn|].
destruct (Z.eq_dec n 0) as [-> | Hz]; [cbn; lia|].
rewrite Nat2Z.inj_succ, Z2Nat.id by apply Z.log2_nonneg.
apply Z.log2_spec. lia.
Qed.

Lemma dec_string_not_empty n : exists c s, dec_string n = String c s /\ is_digit c = true.
Proof.
unfold dec_string.
pose proof (fix_digits_are_digits (dec_len (Z.to_nat (Z.log2 n)) n) n) as Hd.
pose proof (length_fix_digits (dec_len (Z.to_nat (Z.log2 n)) n) n) as Hl.
destruct (fix_digits _ n) as [|c s].
- cbn in Hl. destruct (Z.to_nat (Z.log2 n)); cbn in Hl;
    [discriminate | destruct (n <? 10); discriminate].
- cbn in Hd. apply andb_prop in Hd. destruct Hd as [Hc _]. eauto.
Qed.

(** ** Reading back what [printf] wrote *)

Lemma digit_is_not (a : ascii) :
is_digit a = false -> forall x, is_digit x = true -> is_not a x = true.
Proof.
intros Ha x Hx. unfold is_not. apply negb_true_iff.
destruct (Ascii.eqb x a) eqn:E; [|reflexivity].
apply Ascii.eqb_eq in E. subst. congruence.
Qed.

Lemma read_decimal_fmt_fixed neg n :
0 <= n ->
read_decimal (fmt_fixed 4 neg n) = Some (Qmake (cond_Zopp neg n) 10000).
Proof.
intros Hn. unfold fmt_fixed.
set (ip := dec_string (n / 10 ^ Z.of_nat 4)).
set (fp := fix_digits 4 (n mod 10 ^ Z.of_nat 4)).
assert (Hrest : match fields "."%char (ip ++ "." ++ fp) with
                | [a; b] =>
                    if ((String.length a =? 0) || (String.length b =? 0))%nat
                    then None
                    else
                      match digits_val a 0, digits_val b 0 with
                      | Some x, Some y =>
                          let k := Z.of_nat (String.length b) in
                          Some (Qmake (cond_Zopp neg (x * 10 ^ k + y))
                                      (Z.to_pos (10 ^ k)))
                      | _, _ => None
                      end
                | _ => None
                end = Some (Qmake (cond_Zopp neg n) 10000)).
{ unfold fields.
  change (ip ++ "." ++ fp)%string with (ip ++ String "."%char fp)%string.
  rewrite fields_from_field.
  2:{ apply (all_chars_weaken is_digit); [|apply fix_digits_are_digits].
      apply digit_is_not. reflexivity. }
  rewrite fields_from_last.
  2:{ apply (all_chars_weaken is_digit); [|apply fix_digits_are_digits].
      apply digit_is_not. reflexivity. }
  cbn [append].
  destruct (dec_string_not_empty (n / 10 ^ Z.of_nat 4)) as (c & s & Hip & _).
  fold ip in Hip.
  assert (Hlen : (String.length ip =? 0)%nat = false) by now rewrite Hip.
  rewrite Hlen. unfold fp at 1. rewrite length_fix_digits. cbn [Nat.eqb orb].
  unfold ip. rewrite digits_val_dec_string
    by (change (10 ^ Z.of_nat 4) with 10000; apply Z.div_pos; lia).
  unfold fp. rewrite digits_val_fix_digits
    by (change (10 ^ Z.of_nat 4) with 10000; apply Z.mod_pos_bound; lia).
  rewrite length_fix_digits. cbv zeta.
  change (10 ^ Z.of_nat 4) with 10000.
  rewrite Z.mod_mod by lia.
  change (Z.to_pos 10000) with 10000%positive.
  do 2 f_equal.
  pose proof (Z.div_mod n 10000 ltac:(lia)). f_equal. lia. }
unfold read_decimal. destruct neg.
- change ("-" ++ ip ++ "." ++ fp)%string
    with (String "-"%char (ip ++ "." ++ fp)).
  cbn [Ascii.eqb Bool.eqb]. exact Hrest.
- change ("" ++ ip ++ "." ++ fp)%string with (ip ++ "." ++ fp)%string.
  destruct (dec_string_not_empty (n / 10 ^ Z.of_nat 4)) as (c & s & Hip & Hc).
  fold ip in Hip. rewrite Hip in *.
  change (String c s ++ "." ++ fp)%string with (String c (s ++ "." ++ fp)) in *.
  assert (Hm : Ascii.eqb c "-"%char = false).
  { pose proof (digit_is_not "-"%char eq_refl c Hc) as H.
    unfold is_not in H. now apply negb_true_iff in H. }
  cbv beta iota. rewrite Hm. exact Hrest.
Qed.

Lemma div_nearest_even_spec num den :
0 <= num -> 0 < den ->
0 <= div_nearest_even num den
/\ Z.abs (2 * (div_nearest_even num den * den - num)) <= den.
Proof.
intros Hn Hd. unfold div_nearest_even.
pose proof (Z.div_mod num den ltac:(lia)) as Hdm.
pose proof (Z.mod_pos_bound num den Hd) as Hr.
pose proof (Z.div_pos num den Hn Hd) as Hq.
destruct (2 * (num mod den) ?= den) eqn:E;
  [apply Z.compare_eq in E | rewrite Z.compare_lt_iff in E
   | rewrite Z.compare_gt_iff in E];
  try destruct (Z.even (num / den)); split; nia.
Qed.

Lemma scaled_nonneg d m e : 0 <= scaled d m e.
Proof.
unfold scaled. destruct (0 <=? e) eqn:E.
- apply Z.leb_le in E.
  apply Z.mul_nonneg_nonneg; [apply Z.mul_nonneg_nonneg|]; try lia;
    apply Z.pow_nonneg; lia.
- apply div_nearest_even_spec.
  + apply Z.mul_nonneg_nonneg; [lia | apply Z.pow_nonneg; lia].
  + apply Z.pow_pos_nonneg; lia.
Qed.

Lemma near4_scaled s m e :
near4 (Qmake (cond_Zopp s (scaled 4 m e)) 10000) (S754_finite s m e).
Proof.
unfold near4, Q_of_float, scaled.
apply Qabs_Qle_condition.
destruct (0 <=? e) eqn:E.
- change (10 ^ Z.of_nat 4) with 10000.
  unfold Qle, Qminus, Qplus, Qopp; cbn [Qnum Qden].
  destruct s; cbn [cond_Zopp]; lia.
- apply Z.leb_gt in E.
  assert (Hd : 0 < 2 ^ (- e)) by (apply Z.pow_pos_nonneg; lia).
  destruct (div_nearest_even_spec (Zpos m * 10 ^ Z.of_nat 4) (2 ^ (- e)))
    as [H0 Hn]; [lia | exact Hd |].
  change (10 ^ Z.of_nat 4) with 10000 in *.
  set (N := div_nearest_even (Z.pos m * 10000) (2 ^ (- e))) in *.
  unfold Qle, Qminus, Qplus, Qopp; cbn [Qnum Qden].
  rewrite !Pos2Z.inj_mul, Z2Pos.id by exact Hd.
  set (D := 2 ^ (- e)) in *.
  destruct s; cbn [cond_Zopp]; split; nia.
Qed.

Lemma read_decimal_printf_f x :
is_finite x = true ->
exists q, read_decimal (printf_f 4 x) = Some q /\ near4 q x.
Proof.
destruct x as [s|s| |s m e]; try discriminate; intros _; unfold printf_f.
- exists (Qmake (cond_Zopp s 0) 10000). split.
  + apply read_decimal_fmt_fixed. lia.
  + unfold near4. destruct s; cbn; discriminate.
- exists (Qmake (cond_Zopp s (scaled 4 m e)) 10000). split.
  + apply read_decimal_fmt_fixed. apply scaled_nonneg.
  + apply near4_scaled.
Qed.

(** *** Records and lines *)

Lemma digit_is_plain c : is_digit c = true -> is_plain c = true.
Proof.
intros H. unfold is_plain.
pose proof (digit_is_not NLc eq_refl c H) as H1.
pose proof (digit_is_not TABc eq_refl c H) as H2.
pose proof (digit_is_not "#"%char eq_refl c H) as H3.
unfold is_not in *. now rewrite H1, H2, H3.
Qed.

Lemma fmt_fixed_plain d neg n : all_chars is_plain (fmt_fixed d neg n) = true.
Proof.
unfold fmt_fixed, dec_string. rewrite !all_chars_app.
assert (Hd : forall k m, all_chars is_plain (fix_digits k m) = true).
{ intros k m. apply (all_chars_weaken is_digit); [apply digit_is_plain|].
  apply fix_digits_are_digits. }
rewrite !Hd. destruct neg; reflexivity.
Qed.

Lemma printf_f_plain d x : all_chars is_plain (printf_f d x) = true.
Proof.
destruct x as [s|s| |s m e]; unfold printf_f;
  try apply fmt_fixed_plain; try destruct s; reflexivity.
Qed.

Lemma plain_is_not_newline c : is_plain c = true -> is_not NLc c = true.
Proof.
unfold is_plain, is_not. intros H.
apply andb_prop in H. destruct H as [H _].
apply andb_prop in H. destruct H as [H _]. exact H.
Qed.

Lemma plain_is_not_tab c : is_plain c = true -> is_not TABc c = true.
Proof.
unfold is_plain, is_not. intros H.
apply andb_prop in H. destruct H as [H _].
apply andb_prop in H. destruct H as [_ H]. exact H.
Qed.

Lemma printf_f_starts d x :
exists c s, printf_f d x = String c s /\ Ascii.eqb c "#"%char = false.
Proof.
pose proof (printf_f_plain d x) as Hp.
assert (Hne : printf_f d x <> EmptyString).
{ destruct x as [s|s| |s m e]; unfold printf_f, fmt_fixed;
    try (destruct s; discriminate); try discriminate;
    destruct (dec_string_not_empty (0 / 10 ^ Z.of_nat d)) as (c0 & s0 & H0 & _);
    destruct (dec_string_not_empty (scaled d m e / 10 ^ Z.of_nat d))
      as (c1 & s1 & H1 & _);
    rewrite ?H0, ?H1; destruct s; discriminate. }
destruct (printf_f d x) as [|c s]; [congruence|].
exists c, s. split; [reflexivity|].
cbn in Hp. apply andb_prop in Hp. destruct Hp as [Hc _].
unfold is_plain in Hc. apply andb_prop in Hc. destruct Hc as [_ Hc].
now apply negb_true_iff in Hc.
Qed.

Lemma sample_line_newline_free s :
all_chars (is_not NLc) (sample_line s) = true.
Proof.
unfold sample_line. rewrite !all_chars_app.
assert (Hp : forall x, all_chars (is_not NLc) (printf_f 4 x) = true).
{ intros x. apply (all_chars_weaken is_plain); [apply plain_is_not_newline|].
  apply printf_f_plain. }
rewrite !Hp. reflexivity.
Qed.

Lemma sample_line_starts s :
exists c r, sample_line s = String c r /\ Ascii.eqb c "#"%char = false.
Proof.
unfold sample_line.
destruct (printf_f_starts 4 (fst (fst s))) as (c & r & H & Hc).
rewrite H. cbn [append]. eauto.
Qed.

Lemma write_sample_line s : write_sample s = (sample_line s ++ NL)%string.
Proof.
unfold write_sample, sample_line, record_text. now rewrite !append_assoc.
Qed.

Lemma lines_write_samples l : forall rest,
lines_from EmptyString (write_samples l ++ rest)
= map sample_line l ++ lines_from EmptyString rest.
Proof.
induction l as [|s l IH]; intros rest; cbn [write_samples fold_right map app].
- reflexivity.
- fold (write_samples l). rewrite write_sample_line, !append_assoc.
  change (NL ++ write_samples l ++ rest)%string
    with (String NLc (write_samples l ++ rest)).
  rewrite lines_from_line by apply sample_line_newline_free.
  now rewrite IH.
Qed.

Lemma sample_line_fields s :
fields TABc (sample_line s)
= [printf_f 4 (fst (fst s)); printf_f 4 (snd (fst s)); printf_f 4 (snd s)].
Proof.
unfold fields, sample_line.
assert (Ht : forall x, all_chars (is_not TABc) (printf_f 4 x) = true).
{ intros x. apply (all_chars_weaken is_plain); [apply plain_is_not_tab|].
  apply printf_f_plain. }
change (TAB ++ ?x)%string with (String TABc x).
rewrite fields_from_field by apply Ht.
change (TAB ++ ?x)%string with (String TABc x).
rewrite fields_from_field by apply Ht.
rewrite fields_from_last by apply Ht.
reflexivity.
Qed.

Lemma read_record_sample_line s :
finite_sample s ->
exists t, read_record (sample_line s) = Some t /\ near4_sample t s.
Proof.
intros (H1 & H2 & H3). unfold read_record. rewrite sample_line_fields.
destruct (read_decimal_printf_f _ H1) as (q1 & -> & Hq1).
destruct (read_decimal_printf_f _ H2) as (q2 & -> & Hq2).
destruct (read_decimal_printf_f _ H3) as (q3 & -> & Hq3).
exists (q1, q2, q3). split; [reflexivity|]. repeat split; assumption.
Qed.

Lemma read_lines_samples l :
Forall finite_sample l ->
forall rest ts, read_lines rest = Some ts ->
exists back,
  read_lines (map sample_line l ++ rest) = Some (back ++ ts)
  /\ Forall2 near4_sample back l.
Proof.
induction 1 as [|s l Hs _ IH]; intros rest ts Hrest.
- exists []. split; [exact Hrest | constructor].
- destruct (IH rest ts Hrest) as (back & Hb & Hn).
  destruct (read_record_sample_line s Hs) as (t & Ht & Hts).
  exists (t :: back). split; [|now constructor].
  cbn [map app read_lines].
  destruct (sample_line_starts s) as (c & r & Hl & Hc).
  rewrite Hl in *. cbn [String.length Nat.eqb orb is_comment].
  rewrite Hc, Ht, Hb. reflexivity.
Qed.

Lemma printf_f_four_decimals x :
is_finite x = true -> four_decimals (printf_f 4 x).
Proof.
assert (H : forall neg n, four_decimals (fmt_fixed 4 neg n)).
{ intros neg n. unfold fmt_fixed.
  exists neg, (dec_string (n / 10 ^ Z.of_nat 4)), (fix_digits 4 (n mod 10 ^ Z.of_nat 4)).
  split; [reflexivity|]. split.
  - destruct (dec_string_not_empty (n / 10 ^ Z.of_nat 4)) as (c & r & -> & _).
    discriminate.
  - split; [apply length_fix_digits|].
    split; [unfold dec_string|]; apply fix_digits_are_digits. }
destruct x as [s|s| |s m e]; try discriminate; intros _; apply H.
Qed.

(** C7.  Writing N samples, the segment separator and M samples gives a
    text whose lines are the N records, exactly two empty lines, and the
    M records; every record is a non-empty line of three fields
    separated by tabulators, each with four digits behind the point;
    and reading the text back yields N+M triples, each component within
    half a unit of the fourth decimal of the value that was written. *)
Theorem dataset_round_trip (l1 l2 : list sample) :
Forall finite_sample l1 -> Forall finite_sample l2 ->
let txt := (write_samples l1 ++ SEPARATOR ++ write_samples l2)%string in
lines txt = map sample_line l1 ++ [EmptyString; EmptyString] ++ map sample_line l2
/\ Forall (fun s =>
             sample_line s <> EmptyString
             /\ fields TABc (sample_line s)
                = [printf_f 4 (fst (fst s)); printf_f 4 (snd (fst s));
                   printf_f 4 (snd s)]
             /\ Forall four_decimals (fields TABc (sample_line s))) (l1 ++ l2)
/\ exists back,
     read_dataset txt = Some back
     /\ List.length back = (List.length l1 + List.length l2)%nat
     /\ Forall2 near4_sample back (l1 ++ l2).
Proof.
intros H1 H2 txt.
assert (Hlines : lines txt
                 = map sample_line l1
                   ++ [EmptyString; EmptyString] ++ map sample_line l2).
{ unfold txt, lines. rewrite lines_write_samples.
  change (SEPARATOR ++ write_samples l2)%string
    with (String NLc (String NLc (write_samples l2))).
  cbn [lines_from Ascii.eqb Bool.eqb NLc ascii_of_nat ascii_of_pos
       ascii_of_N N.of_nat Pos.of_succ_nat Pos.succ].
  rewrite <- (append_empty_r (write_samples l2)).
  rewrite lines_write_samples. cbn. now rewrite app_nil_r. }
split; [exact Hlines|]. split.
- apply Forall_forall. intros s Hin.
  assert (Hfin : finite_sample s).
  { apply in_app_or in Hin. rewrite Forall_forall in H1, H2.
    destruct Hin; auto. }
  destruct Hfin as (Hf1 & Hf2 & Hf3).
  split; [|split].
  + destruct (sample_line_starts s) as (c & r & -> & _). discriminate.
  + apply sample_line_fields.
  + rewrite sample_line_fields.
    repeat constructor; now apply printf_f_four_decimals.
- unfold read_dataset. rewrite Hlines.
  destruct (read_lines_samples l2 H2 [] [] eq_refl) as (b2 & Hb2 & Hn2).
  rewrite app_nil_r in Hb2.
  destruct (read_lines_samples l1 H1
              ([EmptyString; EmptyString] ++ map sample_line l2) b2)
    as (b1 & Hb1 & Hn1).
  { cbn. rewrite app_nil_r in Hb2. exact Hb2. }
  exists (b1 ++ b2). split; [exact Hb1|]. split.
  + rewrite length_app.
    now rewrite (Forall2_length Hn1), (Forall2_length Hn2).
  + now apply Forall2_app.
Qed.

Lemma dataset_round_trip_witness :
let up := [(S754_finite false 1 (-6), fint 1, SFopp (S754_finite false 5 (-14)));
           (S754_finite false 1 (-5), fint 2, S754_zero true)] in
let down := [(S754_finite false 3 (-6), S754_finite false 12592349 (-20), f0)] in
let txt := (write_samples up ++ SEPARATOR ++ write_samples down)%string in
lines txt = map sample_line up ++ [EmptyString; EmptyString] ++ map sample_line down
/\ Forall (fun s =>
             sample_line s <> EmptyString
             /\ fields TABc (sample_line s)
                = [printf_f 4 (fst (fst s)); printf_f 4 (snd (fst s));
                   printf_f 4 (snd s)]
             /\ Forall four_decimals (fields TABc (sample_line s))) (up ++ down)
/\ exists back,
     read_dataset txt = Some back
     /\ List.length back = (List.length up + List.length down)%nat
     /\ Forall2 near4_sample back (up ++ down).
Proof.
intros up down.
apply (dataset_round_trip up down); repeat constructor.
Defined.

(** The texts are kept folded while the control flow is unfolded. *)
Arguments header_text : simpl never.
Arguments footer_text : simpl never.
Arguments record_text : simpl never.
Arguments setup_text : simpl never.
Arguments set_text : simpl never.
Arguments plot_text : simpl never.
Arguments plot_labels : simpl never.
Arguments printf_f : simpl never.
Arguments String.append : simpl never.

(** ** Rounding in [binary_normalize] *)

Section Digits.

Lemma digits2_pos_bounds m :
2 ^ (Zpos (digits2_pos m) - 1) <= Zpos m < 2 ^ Zpos (digits2_pos m).
Proof.
induction m as [m IH|m IH|]; cbn [digits2_pos].
- rewrite Pos2Z.inj_succ.
  replace (Z.succ (Zpos (digits2_pos m)) - 1) with (Z.succ (Zpos (digits2_pos m) - 1)) by lia.
  rewrite !Z.pow_succ_r by lia. lia.
- rewrite Pos2Z.inj_succ.
  replace (Z.succ (Zpos (digits2_pos m)) - 1) with (Z.succ (Zpos (digits2_pos m) - 1)) by lia.
  rewrite !Z.pow_succ_r by lia. lia.
- cbn. lia.
Qed.

(** The number of digits is determined by the two powers around. *)
Lemma digits2_pos_unique m d :
2 ^ (d - 1) <= Zpos m < 2 ^ d -> 0 < d -> Zpos (digits2_pos m) = d.
Proof.
intros [Hlo Hhi] Hd.
pose proof (digits2_pos_bounds m) as [Hlo' Hhi'].
assert (H1 : d - 1 < Zpos (digits2_pos m)).
{ apply (Z.pow_lt_mono_r_iff 2); lia. }
assert (H2 : Zpos (digits2_pos m) - 1 < d).
{ apply (Z.pow_lt_mono_r_iff 2); lia. }
lia.
Qed.

End Digits.

Section Shift.

Variables prec emax : Z.

Lemma shr_1_mantissa mrs :
0 <= shr_m mrs -> shr_m (shr_1 mrs) = shr_m mrs / 2.
Proof.
destruct mrs as [m r s]. cbn [shr_m]. intros Hm.
destruct m as [|[q|q|]|q]; cbn [shr_1 shr_m].
- reflexivity.
- rewrite Pos2Z.inj_xI. apply (Z.div_unique _ _ _ 1); lia.
- rewrite Pos2Z.inj_xO. apply (Z.div_unique _ _ _ 0); lia.
- reflexivity.
- lia.
Qed.

Lemma iter_shr_1_mantissa n : forall mrs,
0 <= shr_m mrs ->
shr_m (iter_pos shr_1 n mrs) = shr_m mrs / 2 ^ Zpos n.
Proof.
induction n as [n IH|n IH|]; intros mrs Hm; cbn [iter_pos].
- assert (H1 : 0 <= shr_m (shr_1 mrs)).
  { rewrite shr_1_mantissa by exact Hm. apply Z.div_pos; lia. }
  assert (H2 : 0 <= shr_m (iter_pos shr_1 n (shr_1 mrs))).
  { rewrite IH by exact H1. apply Z.div_pos; [exact H1|]. apply Z.pow_pos_nonneg; lia. }
  rewrite IH by exact H2. rewrite IH by exact H1.
  rewrite shr_1_mantissa by exact Hm.
  rewrite !Z.div_div by (try apply Z.pow_pos_nonneg; lia).
  replace (Zpos n~1) with (1 + Zpos n + Zpos n) by lia.
  rewrite !Z.pow_add_r by lia. f_equal. lia.
- assert (H2 : 0 <= shr_m (iter_pos shr_1 n mrs)).
  { rewrite IH by exact Hm. apply Z.div_pos; [exact Hm|]. apply Z.pow_pos_nonneg; lia. }
  rewrite IH by exact H2. rewrite IH by exact Hm.
  rewrite !Z.div_div by (try apply Z.pow_pos_nonneg; lia).
  replace (Zpos n~0) with (Zpos n + Zpos n) by lia.
  rewrite !Z.pow_add_r by lia. f_equal.
- apply shr_1_mantissa. exact Hm.
Qed.

Lemma shr_spec mrs e n :
0 <= shr_m mrs ->
shr_m (fst (shr mrs e n)) = shr_m mrs / 2 ^ Z.max 0 n
/\ snd (shr mrs e n) = e + Z.max 0 n.
Proof.
intros Hm. unfold shr. destruct n as [|n|n]; cbn [fst snd].
- rewrite Z.div_1_r. split; lia.
- rewrite iter_shr_1_mantissa by exact Hm.
  replace (Z.max 0 (Zpos n)) with (Zpos n) by lia. split; reflexivity.
- replace (Z.max 0 (Zneg n)) with 0 by lia. rewrite Z.div_1_r. split; lia.
Qed.

Lemma round_nearest_even_range m l :
m <= round_nearest_even m l <= m + 1.
Proof.
unfold round_nearest_even.
destruct l as [|[| |]]; try destruct (Z.even m); lia.
Qed.

Lemma fexp_mono x y : x <= y -> fexp prec emax x <= fexp prec emax y.
Proof. unfold fexp. lia. Qed.

Lemma fexp_succ x : fexp prec emax (x + 1) <= fexp prec emax x + 1.
Proof. unfold fexp. lia. Qed.

Lemma Zdigits2_nonneg a : 0 <= Zdigits2 a.
Proof. destruct a; cbn; lia. Qed.

Lemma Zdigits2_bounds a :
0 < a -> 2 ^ (Zdigits2 a - 1) <= a < 2 ^ Zdigits2 a.
Proof.
destruct a as [|m|m]; try lia. intros _. apply digits2_pos_bounds.
Qed.

Lemma Zdigits2_unique a d :
2 ^ (d - 1) <= a < 2 ^ d -> 0 < d -> Zdigits2 a = d.
Proof.
intros H Hd.
assert (Ha : 0 < a).
{ pose proof (Z.pow_pos_nonneg 2 (d - 1)). lia. }
destruct a as [|m|m]; try lia.
now apply digits2_pos_unique.
Qed.

Lemma Zdigits2_mono a b : 0 < a -> a <= b -> Zdigits2 a <= Zdigits2 b.
Proof.
intros Ha Hab.
pose proof (Zdigits2_bounds a Ha) as [Hlo _].
pose proof (Zdigits2_bounds b ltac:(lia)) as [_ Hhi].
assert (H : Zdigits2 a - 1 < Zdigits2 b).
{ apply (Z.pow_lt_mono_r_iff 2); try lia. apply Zdigits2_nonneg. }
lia.
Qed.

Lemma Zdigits2_succ a : 0 < a -> Zdigits2 (a + 1) <= Zdigits2 a + 1.
Proof.
intros Ha.
pose proof (Zdigits2_bounds a Ha) as [_ Hhi].
pose proof (Zdigits2_bounds (a + 1) ltac:(lia)) as [Hlo _].
pose proof (Zdigits2_nonneg a).
assert (H1 : 2 ^ (Zdigits2 (a + 1) - 1) < 2 ^ (Zdigits2 a + 1)).
{ rewrite (Z.pow_add_r 2 (Zdigits2 a) 1) by lia. lia. }
apply Z.pow_lt_mono_r_iff in H1; lia.
Qed.

Lemma Zdigits2_shift a n :
0 <= n -> 0 < a / 2 ^ n -> Zdigits2 (a / 2 ^ n) = Zdigits2 a - n.
Proof.
intros Hn Hq.
assert (Hp : 0 < 2 ^ n) by (apply Z.pow_pos_nonneg; lia).
assert (Ha : 0 < a).
{ destruct (Z.lt_trichotomy a 0) as [H | [H | H]]; [|subst; now rewrite Z.div_0_l in Hq by lia|exact H].
  pose proof (Z.div_lt_upper_bound a (2 ^ n) 0 Hp ltac:(lia)). lia. }
pose proof (Zdigits2_bounds a Ha) as [Hlo Hhi].
assert (Hdn : n < Zdigits2 a).
{ apply (Z.pow_lt_mono_r_iff 2); try lia; [apply Zdigits2_nonneg|].
  apply Z.le_lt_trans with a; [|exact Hhi].
  pose proof (Z.mul_div_le a (2 ^ n) Hp). nia. }
apply Zdigits2_unique; [|lia]. split.
- apply Z.div_le_lower_bound; [exact Hp|].
  rewrite <- Z.pow_add_r by lia.
  replace (n + (Zdigits2 a - n - 1)) with (Zdigits2 a - 1) by lia. exact Hlo.
- apply Z.div_lt_upper_bound; [exact Hp|].
  rewrite <- Z.pow_add_r by lia.
  replace (n + (Zdigits2 a - n)) with (Zdigits2 a) by lia. exact Hhi.
Qed.

End Shift.

Section Rounding.

Variables prec emax : Z.
Hypothesis prec_pos : 0 < prec.

(** The result of rounding [m * 2^e] when [e] is at most the exponent
    [E] that the format gives to numbers of this magnitude: a proper
    number of the format whose absolute value lies less than three
    units of [2^E] below and at most one unit above. *)
Lemma round_aux_coarse s m e :
let E := fexp prec emax (Zpos (digits2_pos m) + e) in
e <= E -> E + 1 <= emax - prec -> - BIAS <= e ->
exists a,
  proper prec emax (binary_round_aux prec emax s (Zpos m) e loc_Exact) = true
  /\ val (binary_round_aux prec emax s (Zpos m) e loc_Exact) = cond_Zopp s a
  /\ Zpos m * 2 ^ (e + BIAS) - 3 * 2 ^ (E + BIAS) <= a
     <= Zpos m * 2 ^ (e + BIAS) + 2 ^ (E + BIAS).
Proof.
intros E HeE Hmax He.
unfold binary_round_aux, shr_fexp. cbn [Zdigits2]. fold E.
(* first shift *)
destruct (shr_spec (shr_record_of_loc (Zpos m) loc_Exact) e (E - e))
  as [Hm1 He1]; [cbn; lia|].
destruct (shr (shr_record_of_loc (Zpos m) loc_Exact) e (E - e))
  as [mrs1 e1] eqn:Hshr1.
cbn [fst snd shr_record_of_loc shr_m] in Hm1, He1.
replace (Z.max 0 (E - e)) with (E - e) in * by lia.
assert (He1' : e1 = E) by lia. clear He1. subst e1.
set (m1 := shr_m mrs1) in *.
set (m2 := round_nearest_even m1 (loc_of_shr_record mrs1)).
pose proof (round_nearest_even_range m1 (loc_of_shr_record mrs1)) as Hm2.
fold m2 in Hm2.
assert (HK : 0 < 2 ^ (E - e)) by (apply Z.pow_pos_nonneg; lia).
assert (Hm1pos : 0 <= m1).
{ rewrite Hm1. apply Z.div_pos; lia. }
assert (Hdiv1 : m1 * 2 ^ (E - e) <= Zpos m < (m1 + 1) * 2 ^ (E - e)).
{ rewrite Hm1.
  pose proof (Z.mul_div_le (Zpos m) (2 ^ (E - e)) HK).
  pose proof (Z.mul_succ_div_gt (Zpos m) (2 ^ (E - e)) HK). nia. }
(* second shift *)
set (n2 := fexp prec emax (Zdigits2 m2 + E) - E).
destruct (shr_spec (shr_record_of_loc m2 loc_Exact) E n2)
  as [Hm3 He3]; [cbn; lia|].
destruct (shr (shr_record_of_loc m2 loc_Exact) E n2) as [mrs3 e3] eqn:Hshr3.
cbn [fst snd shr_record_of_loc shr_m] in Hm3, He3.
pose proof (digits2_pos_bounds m) as [Hdlo Hdhi].
set (d := Zpos (digits2_pos m)) in *.
assert (HE : E = Z.max (d + e - prec) (emin prec emax)) by reflexivity.
(* the second shift is by zero or one place *)
assert (Hn2 : m2 = 0 \/ 0 <= n2 <= 1).
{ destruct (Z.eq_dec m1 0) as [Hz | Hnz].
  - assert (Hm2' : m2 = 0 \/ m2 = 1) by lia.
    destruct Hm2' as [-> | Hm2']; [now left | right].
    rewrite Hz in Hdiv1.
    assert (Hd : d - 1 < E - e).
    { apply (Z.pow_lt_mono_r_iff 2); lia. }
    unfold n2. rewrite Hm2'. cbn [Zdigits2 digits2_pos].
    unfold fexp. fold (emin prec emax). lia.
  - right.
    assert (Hd1 : Zdigits2 m1 = d - (E - e)).
    { rewrite Hm1. rewrite Zdigits2_shift; [reflexivity | lia |].
      rewrite <- Hm1. lia. }
    pose proof (Zdigits2_mono m1 m2 ltac:(lia) ltac:(lia)).
    pose proof (Zdigits2_mono m2 (m1 + 1) ltac:(lia) ltac:(lia)).
    pose proof (Zdigits2_succ m1 ltac:(lia)).
    unfold n2.
    pose proof (fexp_mono prec emax (d + e) (Zdigits2 m2 + E) ltac:(lia)).
    pose proof (fexp_mono prec emax (Zdigits2 m2 + E) (d + e + 1) ltac:(lia)).
    pose proof (fexp_succ prec emax (d + e)).
    fold E in H2, H4. lia. }
set (P := 2 ^ (e + BIAS)).
assert (HP : 0 < P) by (apply Z.pow_pos_nonneg; lia).
assert (HEP : 2 ^ (E + BIAS) = 2 ^ (E - e) * P).
{ unfold P. rewrite <- Z.pow_add_r by lia. f_equal. lia. }
rewrite HEP.
set (K := 2 ^ (E - e)) in *.
assert (Hm3pos : 0 <= shr_m mrs3).
{ rewrite Hm3. apply Z.div_pos; [lia|]. apply Z.pow_pos_nonneg; lia. }
destruct (shr_m mrs3) as [|m3|m3] eqn:Hmrs3.
- (* the result is a zero *)
  exists 0. cbn [proper val]. split; [reflexivity|].
  split; [now destruct s|].
  assert (Hm2small : m2 <= 1).
  { destruct Hn2 as [-> | Hn2]; [lia|].
    symmetry in Hm3.
    assert (Ht : 0 < 2 ^ Z.max 0 n2) by (apply Z.pow_pos_nonneg; lia).
    apply Z.div_small_iff in Hm3; [|lia].
    assert (Hpow : 2 ^ Z.max 0 n2 <= 2 ^ 1) by (apply Z.pow_le_mono_r; lia).
    change (2 ^ 1) with 2 in Hpow. lia. }
  nia.
- (* the result is finite *)
  assert (Hm2pos : 0 < m2).
  { destruct (Z.eq_dec m2 0) as [Hz|]; [|lia].
    rewrite Hz, Z.div_0_l in Hm3; [discriminate|].
    apply Z.pow_nonzero; lia. }
  destruct Hn2 as [Hn2 | Hn2]; [lia|].
  replace (Z.max 0 n2) with n2 in * by lia.
  assert (He3' : e3 <= emax - prec) by lia.
  apply Z.leb_le in He3'. rewrite He3'.
  assert (Ht : 0 < 2 ^ n2) by (apply Z.pow_pos_nonneg; lia).
  assert (Hdiv3 : Zpos m3 * 2 ^ n2 <= m2 < (Zpos m3 + 1) * 2 ^ n2).
  { rewrite Hm3.
    pose proof (Z.mul_div_le m2 (2 ^ n2) Ht).
    pose proof (Z.mul_succ_div_gt m2 (2 ^ n2) Ht). nia. }
  assert (Hcanon : canonical_mantissa prec emax m3 e3 = true).
  { unfold canonical_mantissa. apply Z.eqb_eq.
    change (Zpos (digits2_pos m3)) with (Zdigits2 (Zpos m3)).
    rewrite Hm3, Zdigits2_shift by lia.
    replace (Zdigits2 m2 - n2 + e3) with (Zdigits2 m2 + E) by lia.
    unfold n2 in He3. lia. }
  exists (Zpos m3 * 2 ^ (e3 + BIAS)).
  cbn [proper val]. unfold bounded. rewrite Hcanon, He3'.
  split; [reflexivity|]. split; [reflexivity|].
  assert (He3P : 2 ^ (e3 + BIAS) = 2 ^ n2 * (K * P)).
  { rewrite <- HEP, <- Z.pow_add_r by lia. f_equal. lia. }
  rewrite He3P.
  assert (Hpow : 2 ^ n2 <= 2 ^ 1) by (apply Z.pow_le_mono_r; lia).
  change (2 ^ 1) with 2 in Hpow.
  set (T := 2 ^ n2) in *.
  assert (HmP : m1 * K * P <= Zpos m * P < (m1 + 1) * K * P) by nia.
  assert (H3lo : (m2 - 1) * (K * P) <= Zpos m3 * (T * (K * P))) by nia.
  assert (H3hi : Zpos m3 * (T * (K * P)) <= m2 * (K * P)) by nia.
  nia.
- (* a negative mantissa cannot come out *)
  lia.
Qed.

End Rounding.

Section Normalize.

Variables prec emax : Z.
Hypothesis prec_pos : 0 < prec.
Hypothesis emin_bias : - BIAS <= emin prec emax.

Lemma iter_xO_value d : forall m, Zpos (Pos.iter xO m d) = Zpos m * 2 ^ Zpos d.
Proof.
induction d as [|d IH] using Pos.peano_ind; intros m.
- cbn [Pos.iter]. rewrite Pos2Z.inj_xO. change (2 ^ 1) with 2. lia.
- rewrite Pos.iter_succ, Pos2Z.inj_xO, IH, Pos2Z.inj_succ.
  rewrite Z.pow_succ_r by lia. lia.
Qed.

Lemma binary_round_coarse s m e :
let E := fexp prec emax (Zpos (digits2_pos m) + e) in
E + 1 <= emax - prec -> - BIAS <= e ->
exists a,
  proper prec emax (binary_round prec emax s m e) = true
  /\ val (binary_round prec emax s m e) = cond_Zopp s a
  /\ Zpos m * 2 ^ (e + BIAS) - 3 * 2 ^ (E + BIAS) <= a
     <= Zpos m * 2 ^ (e + BIAS) + 2 ^ (E + BIAS).
Proof.
intros E Hmax He. unfold binary_round, shl_align. fold E.
assert (HEmin : emin prec emax <= E) by (unfold E, fexp; lia).
destruct (E - e) as [|k|k] eqn:Hk.
- apply round_aux_coarse; fold E; try assumption; lia.
- apply round_aux_coarse; fold E; try assumption; lia.
- (* the mantissa is shifted to the left, the value stays *)
  assert (Hek : e = E + Zpos k) by lia.
  pose proof (iter_xO_value k m) as Hv.
  assert (Hd : Zpos (digits2_pos (Pos.iter xO m k)) = Zpos (digits2_pos m) + Zpos k).
  { apply digits2_pos_unique; [|lia]. rewrite Hv.
    pose proof (digits2_pos_bounds m) as [Hlo Hhi].
    replace (Zpos (digits2_pos m) + Zpos k - 1)
      with ((Zpos (digits2_pos m) - 1) + Zpos k) by lia.
    rewrite !Z.pow_add_r by lia.
    assert (0 < 2 ^ Zpos k) by (apply Z.pow_pos_nonneg; lia). nia. }
  assert (HE' : fexp prec emax (Zpos (digits2_pos (Pos.iter xO m k)) + E) = E).
  { rewrite Hd. unfold E at 2. f_equal. lia. }
  destruct (round_aux_coarse prec emax prec_pos s (Pos.iter xO m k) E)
    as (a & Hp & Hval & Ha); rewrite ?HE'; try lia.
  exists a. split; [exact Hp|]. split; [exact Hval|].
  rewrite HE' in Ha. rewrite Hv in Ha.
  replace (Zpos m * 2 ^ Zpos k * 2 ^ (E + BIAS)) with (Zpos m * 2 ^ (e + BIAS)) in Ha.
  + exact Ha.
  + rewrite Hek. replace (E + Zpos k + BIAS) with (Zpos k + (E + BIAS)) by lia.
    rewrite Z.pow_add_r by lia. ring.
Qed.

(** Rounding an integer multiple of [2^e] to the format. *)
Lemma normalize_coarse M e sz :
let E := fexp prec emax (Zdigits2 M + e) in
E + 1 <= emax - prec -> - BIAS <= e ->
proper prec emax (binary_normalize prec emax M e sz) = true
/\ Z.abs (val (binary_normalize prec emax M e sz) - M * 2 ^ (e + BIAS))
   <= 3 * 2 ^ (E + BIAS).
Proof.
intros E Hmax He.
assert (HEB : 0 < 2 ^ (E + BIAS)).
{ apply Z.pow_pos_nonneg; [lia|]. unfold E, fexp. lia. }
destruct M as [|m|m]; cbn [binary_normalize].
- cbn [proper val]. split; [reflexivity|]. lia.
- destruct (binary_round_coarse false m e) as (a & Hp & Hv & Ha); try assumption.
  rewrite Hv. cbn [cond_Zopp]. split; [exact Hp|].
  cbn [Zdigits2] in E. fold E in Ha. lia.
- destruct (binary_round_coarse true m e) as (a & Hp & Hv & Ha); try assumption.
  rewrite Hv. cbn [cond_Zopp]. split; [exact Hp|].
  cbn [Zdigits2] in E. fold E in Ha. lia.
Qed.

(** The exponent of the format for a number below [2^k]. *)
Lemma fexp_from_bound M e k :
M <> 0 -> - BIAS <= e ->
Z.abs M * 2 ^ (e + BIAS) < 2 ^ (k + BIAS) ->
fexp prec emax (Zdigits2 M + e) <= Z.max (k - prec) (emin prec emax).
Proof.
intros HM He Hlt.
assert (Hd : Zdigits2 M + e <= k).
{ assert (Hb : 2 ^ (Zdigits2 M - 1) <= Z.abs M).
  { destruct M as [|m|m]; try lia; apply digits2_pos_bounds. }
  assert (Hdp : 0 < Zdigits2 M) by (destruct M; cbn; lia).
  assert (Hp : 0 < 2 ^ (e + BIAS)) by (apply Z.pow_pos_nonneg; lia).
  assert (H : 2 ^ (Zdigits2 M - 1 + (e + BIAS)) < 2 ^ (k + BIAS)).
  { rewrite Z.pow_add_r by lia. nia. }
  apply Z.pow_lt_mono_r_iff in H; try lia.
  destruct (Z.lt_ge_cases (k + BIAS) 0) as [Hneg|]; [|lia].
  rewrite (Z.pow_neg_r 2 (k + BIAS)) in Hlt by lia. nia. }
unfold fexp. lia.
Qed.

End Normalize.

(** ** Comparison of proper numbers *)

Section Compare.

Variables prec emax : Z.
Hypothesis prec_pos : 0 < prec.
Hypothesis emin_bias : - BIAS <= emin prec emax.

Lemma bounded_exponent m e :
bounded prec emax m e = true ->
emin prec emax <= e
/\ Zpos (digits2_pos m) <= prec
/\ (emin prec emax < e -> Zpos (digits2_pos m) = prec).
Proof.
unfold bounded, canonical_mantissa, fexp. intros H.
apply andb_prop in H. destruct H as [H _]. apply Z.eqb_eq in H.
fold (emin prec emax) in H. lia.
Qed.

(** With a smaller exponent comes a smaller value. *)
Lemma bounded_exponent_lt m1 e1 m2 e2 :
bounded prec emax m1 e1 = true -> bounded prec emax m2 e2 = true ->
e1 < e2 ->
Zpos m1 * 2 ^ (e1 + BIAS) < Zpos m2 * 2 ^ (e2 + BIAS).
Proof.
intros H1 H2 Hlt.
apply bounded_exponent in H1. destruct H1 as (Hmin1 & Hd1 & _).
apply bounded_exponent in H2. destruct H2 as (Hmin2 & _ & Hd2).
specialize (Hd2 ltac:(lia)).
pose proof (digits2_pos_bounds m1) as [_ Hhi1].
pose proof (digits2_pos_bounds m2) as [Hlo2 _].
rewrite Hd2 in Hlo2.
assert (Hm1 : Zpos m1 < 2 ^ prec).
{ apply Z.lt_le_trans with (2 ^ Zpos (digits2_pos m1)); [exact Hhi1|].
  apply Z.pow_le_mono_r; lia. }
assert (Hp1 : 0 < 2 ^ (e1 + BIAS)) by (apply Z.pow_pos_nonneg; lia).
assert (Hp2 : 2 ^ (e2 + BIAS) = 2 ^ (e2 - e1 - 1) * 2 * 2 ^ (e1 + BIAS)).
{ replace (e2 + BIAS) with ((e2 - e1 - 1) + 1 + (e1 + BIAS)) by lia.
  rewrite !Z.pow_add_r by lia. reflexivity. }
assert (Hq : 0 < 2 ^ (e2 - e1 - 1)) by (apply Z.pow_pos_nonneg; lia).
assert (Hpp : 2 ^ prec = 2 * 2 ^ (prec - 1)).
{ replace prec with (1 + (prec - 1)) at 1 by lia.
  rewrite Z.pow_add_r by lia. reflexivity. }
rewrite Hp2. nia.
Qed.

Lemma compare_bounded m1 e1 m2 e2 :
bounded prec emax m1 e1 = true -> bounded prec emax m2 e2 = true ->
match Z.compare e1 e2 with
| Lt => Lt
| Gt => Gt
| Eq => Pos.compare_cont Eq m1 m2
end = Z.compare (Zpos m1 * 2 ^ (e1 + BIAS)) (Zpos m2 * 2 ^ (e2 + BIAS)).
Proof.
intros H1 H2. symmetry.
destruct (Z.compare_spec e1 e2) as [He | He | He].
- subst e2. change (Pos.compare_cont Eq m1 m2) with (Pos.compare m1 m2).
  apply bounded_exponent in H1. destruct H1 as (Hmin & _).
  assert (Hp : 0 < 2 ^ (e1 + BIAS)) by (apply Z.pow_pos_nonneg; lia).
  destruct (Pos.compare_spec m1 m2) as [Hm | Hm | Hm].
  + rewrite Hm. apply Z.compare_refl.
  + apply Z.compare_lt_iff. nia.
  + apply Z.compare_gt_iff. nia.
- apply Z.compare_lt_iff. now apply bounded_exponent_lt.
- apply Z.compare_gt_iff. now apply bounded_exponent_lt.
Qed.

Lemma val_sign_pos m e :
bounded prec emax m e = true -> 0 < Zpos m * 2 ^ (e + BIAS).
Proof.
intros H. apply bounded_exponent in H. destruct H as (Hmin & _).
assert (0 < 2 ^ (e + BIAS)) by (apply Z.pow_pos_nonneg; lia). nia.
Qed.

(** [a < b] on proper numbers is the order of their values. *)
Lemma SFltb_val x y :
proper prec emax x = true -> proper prec emax y = true ->
SFltb x y = (val x <? val y).
Proof.
intros Hx Hy. unfold SFltb, SFcompare.
destruct x as [sx|sx| |sx mx ex], y as [sy|sy| |sy my ey];
  try discriminate; cbn [proper val] in *.
- reflexivity.
- pose proof (val_sign_pos my ey Hy).
  destruct sy; cbn [cond_Zopp]; symmetry;
    [apply Z.ltb_ge | apply Z.ltb_lt]; lia.
- pose proof (val_sign_pos mx ex Hx).
  destruct sx; cbn [cond_Zopp]; symmetry;
    [apply Z.ltb_lt | apply Z.ltb_ge]; lia.
- pose proof (val_sign_pos mx ex Hx). pose proof (val_sign_pos my ey Hy).
  pose proof (compare_bounded mx ex my ey Hx Hy) as Hc.
  destruct sx, sy; cbn [cond_Zopp].
  + assert (Hopp : match ex ?= ey with
                   | Eq => CompOpp (Pos.compare_cont Eq mx my)
                   | Lt => Gt
                   | Gt => Lt
                   end
                   = CompOpp match ex ?= ey with
                             | Eq => Pos.compare_cont Eq mx my
                             | Lt => Lt
                             | Gt => Gt
                             end) by (destruct (ex ?= ey); reflexivity).
    rewrite Hopp, Hc. symmetry.
    destruct (Z.compare_spec (Zpos mx * 2 ^ (ex + BIAS)) (Zpos my * 2 ^ (ey + BIAS)));
      cbn [CompOpp]; [apply Z.ltb_ge | apply Z.ltb_ge | apply Z.ltb_lt]; lia.
  + symmetry. apply Z.ltb_lt. lia.
  + symmetry. apply Z.ltb_ge. lia.
  + rewrite Hc. symmetry.
    destruct (Z.compare_spec (Zpos mx * 2 ^ (ex + BIAS)) (Zpos my * 2 ^ (ey + BIAS)));
      [apply Z.ltb_ge | apply Z.ltb_lt | apply Z.ltb_ge]; lia.
Qed.

End Compare.

(** ** One step of the ramp *)

Lemma TICK_pos : 0 < TICK.
Proof. unfold TICK. apply Z.pow_pos_nonneg; unfold BIAS; lia. Qed.

Lemma pow_ticks k : 0 <= k <= 1134 -> 2 ^ (k - 60 + BIAS) = 2 ^ k * TICK.
Proof.
intros Hk. unfold TICK, BIAS. rewrite <- Z.pow_add_r by lia. f_equal. lia.
Qed.

Lemma amounts_ok_table :
forallb amount_ok (map (fun n => Z.of_nat n - 1000) (seq 0 2001)) = true.
Proof. vm_compute. reflexivity. Qed.

Lemma amount_ok_all r : -1000 <= r <= 1000 -> amount_ok r = true.
Proof.
intros Hr. pose proof amounts_ok_table as H.
rewrite forallb_forall in H. apply H.
apply in_map_iff. exists (Z.to_nat (r + 1000)). split; [lia|].
apply in_seq. lia.
Qed.

Section Within.

Variables prec emax : Z.
Hypothesis prec_pos : 0 < prec.
Hypothesis emin_bias : - BIAS <= emin prec emax.

(** Rounding a number below [2^k] in absolute value. *)
Lemma normalize_within M e sz k :
- BIAS <= e ->
Z.abs M * 2 ^ (e + BIAS) < 2 ^ (k + BIAS) ->
Z.max (k - prec) (emin prec emax) + 1 <= emax - prec ->
proper prec emax (binary_normalize prec emax M e sz) = true
/\ Z.abs (val (binary_normalize prec emax M e sz) - M * 2 ^ (e + BIAS))
   <= 3 * 2 ^ (Z.max (k - prec) (emin prec emax) + BIAS).
Proof.
intros He Hlt Hmax.
destruct (Z.eq_dec M 0) as [-> | HM].
- cbn [binary_normalize proper val]. split; [reflexivity|].
  assert (0 < 2 ^ (Z.max (k - prec) (emin prec emax) + BIAS))
    by (apply Z.pow_pos_nonneg; lia).
  lia.
- pose proof (fexp_from_bound prec emax prec_pos emin_bias M e k HM He Hlt) as HE.
  destruct (normalize_coarse prec emax prec_pos emin_bias M e sz) as [Hp Hv];
    [lia | exact He |].
  split; [exact Hp|].
  eapply Z.le_trans; [exact Hv|].
  apply Z.mul_le_mono_nonneg_l; [lia|].
  apply Z.pow_le_mono_r; lia.
Qed.

Lemma shl_align_value m e e' :
e' <= e -> Zpos (fst (shl_align m e e')) = Zpos m * 2 ^ (e - e').
Proof.
intros H. unfold shl_align.
destruct (e' - e) as [|d|d] eqn:Hd; cbn [fst]; try lia.
- replace (e - e') with 0 by lia. lia.
- rewrite iter_xO_value. f_equal. f_equal. lia.
Qed.

Lemma cond_Zopp_mul s a b : cond_Zopp s a * b = cond_Zopp s (a * b).
Proof. destruct s; cbn [cond_Zopp]; lia. Qed.

(** The sum of two proper numbers whose exact sum is below [2^k]. *)
Lemma SFadd_within x y k :
proper prec emax x = true -> proper prec emax y = true ->
Z.abs (val x + val y) < 2 ^ (k + BIAS) ->
Z.max (k - prec) (emin prec emax) + 1 <= emax - prec ->
proper prec emax (SFadd prec emax x y) = true
/\ Z.abs (val (SFadd prec emax x y) - (val x + val y))
   <= 3 * 2 ^ (Z.max (k - prec) (emin prec emax) + BIAS).
Proof.
intros Hx Hy Hlt Hmax.
assert (HP : 0 < 2 ^ (Z.max (k - prec) (emin prec emax) + BIAS))
  by (apply Z.pow_pos_nonneg; lia).
destruct x as [sx|sx| |sx mx ex], y as [sy|sy| |sy my ey]; try discriminate;
  cbn [SFadd].
- split; [destruct sx, sy; reflexivity|].
  destruct sx, sy; cbn [val]; lia.
- split; [exact Hy|]. cbn [val]. lia.
- split; [exact Hx|]. cbn [val]. lia.
- cbn [proper] in Hx, Hy.
  pose proof Hx as Hex. apply bounded_exponent in Hex. destruct Hex as (Hex & _).
  pose proof Hy as Hey. apply bounded_exponent in Hey. destruct Hey as (Hey & _).
  set (ez := Z.min ex ey).
  set (M := cond_Zopp sx (Zpos (fst (shl_align mx ex ez)))
            + cond_Zopp sy (Zpos (fst (shl_align my ey ez)))).
  assert (HM : M * 2 ^ (ez + BIAS)
               = val (S754_finite sx mx ex) + val (S754_finite sy my ey)).
  { unfold M. cbn [val].
    rewrite !shl_align_value by (unfold ez; lia).
    rewrite Z.mul_add_distr_r, !cond_Zopp_mul.
    rewrite <- !Z.mul_assoc, <- !Z.pow_add_r by (unfold ez; lia).
    replace (ex - ez + (ez + BIAS)) with (ex + BIAS) by lia.
    replace (ey - ez + (ez + BIAS)) with (ey + BIAS) by lia.
    reflexivity. }
  rewrite <- HM in *.
  apply normalize_within; [unfold ez; lia | | exact Hmax].
  assert (0 < 2 ^ (ez + BIAS)) by (apply Z.pow_pos_nonneg; unfold ez; lia).
  rewrite <- (Z.abs_eq (2 ^ (ez + BIAS))) by lia.
  rewrite <- Z.abs_mul. exact Hlt.
Qed.

(** Conversion of a finite number below [2^k] in absolute value. *)
Lemma convert_within x k :
is_finite x = true ->
(forall s m e, x = S754_finite s m e -> - BIAS <= e) ->
Z.abs (val x) < 2 ^ (k + BIAS) ->
Z.max (k - prec) (emin prec emax) + 1 <= emax - prec ->
proper prec emax (convert prec emax x) = true
/\ Z.abs (val (convert prec emax x) - val x)
   <= 3 * 2 ^ (Z.max (k - prec) (emin prec emax) + BIAS).
Proof.
intros Hf He Hlt Hmax.
assert (HP : 0 < 2 ^ (Z.max (k - prec) (emin prec emax) + BIAS))
  by (apply Z.pow_pos_nonneg; lia).
destruct x as [s|s| |s m e]; try discriminate; cbn [convert].
- cbn [proper val]. split; [reflexivity | lia].
- specialize (He s m e eq_refl).
  cbn [val] in *. rewrite <- cond_Zopp_mul in *.
  apply normalize_within; [exact He | | exact Hmax].
  assert (0 < 2 ^ (e + BIAS)) by (apply Z.pow_pos_nonneg; lia).
  rewrite <- (Z.abs_eq (2 ^ (e + BIAS))) by lia.
  rewrite <- Z.abs_mul. exact Hlt.
Qed.

End Within.

Lemma proper32_exponent s m e :
proper32 (S754_finite s m e) = true -> - BIAS <= e.
Proof.
intros H. apply bounded_exponent in H.
unfold emin, prec32, emax32, BIAS in *. lia.
Qed.

Lemma proper64_exponent s m e :
proper64 (S754_finite s m e) = true -> - BIAS <= e.
Proof.
intros H. apply bounded_exponent in H.
unfold emin, prec64, emax64, BIAS in *. lia.
Qed.

Lemma proper_is_finite prec emax x : proper prec emax x = true -> is_finite x = true.
Proof. destruct x; cbn; congruence. Qed.

Lemma VOLT_ticks : VOLT = 2 ^ 60 * TICK.
Proof. reflexivity. Qed.

(** The float that [ramp_volt += ramp*0.001] stores differs from the
    exact sum of [ramp_volt] and the double [ramp*0.001] by at most
    2^-16 V. *)
Lemma ramp_step_coarse x r :
in_reach x -> -1000 <= r <= 1000 ->
proper32 (ramp_step x r) = true
/\ Z.abs (val (ramp_step x r) - (val x + val (millivolts r))) <= 2 ^ 44 * TICK.
Proof.
intros [Hp Hx] Hr.
pose proof TICK_pos as HT. rewrite VOLT_ticks in Hx.
pose proof (amount_ok_all r Hr) as Ha. unfold amount_ok in Ha.
apply andb_prop in Ha. destruct Ha as [Ha Hhi].
apply andb_prop in Ha. destruct Ha as [Hpp Hlo].
apply Z.leb_le in Hlo, Hhi.
set (p := millivolts r) in *.
assert (Hpb : Z.abs (val p) <= 1000 * (2 ^ 51 * TICK)) by nia.
assert (H66 : 2 ^ (6 + BIAS) = 2 ^ 66 * TICK) by (apply (pow_ticks 66); lia).
assert (H13 : 2 ^ (Z.max (6 - prec64) (emin prec64 emax64) + BIAS) = 2 ^ 13 * TICK)
  by (apply (pow_ticks 13); lia).
assert (H42 : 2 ^ (Z.max (6 - prec32) (emin prec32 emax32) + BIAS) = 2 ^ 42 * TICK)
  by (apply (pow_ticks 42); lia).
(* the float as a double *)
destruct (convert_within prec64 emax64 ltac:(reflexivity) ltac:(discriminate) x 6)
  as [Hxd Hxv].
{ exact (proper_is_finite _ _ _ Hp). }
{ intros s m e ->. now apply proper32_exponent in Hp. }
{ rewrite H66. lia. }
{ unfold emin, prec64, emax64. lia. }
rewrite H13 in Hxv. fold double_of_float in Hxd, Hxv.
set (xd := double_of_float x) in *.
(* the sum in double *)
destruct (SFadd_within prec64 emax64 ltac:(reflexivity) ltac:(discriminate) xd p 6)
  as [Hsd Hsv]; try assumption.
{ rewrite H66. lia. }
{ unfold emin, prec64, emax64. lia. }
rewrite H13 in Hsv. fold (dadd xd p) in Hsd, Hsv.
set (sum := dadd xd p) in *.
(* the sum as a float *)
destruct (convert_within prec32 emax32 ltac:(reflexivity) ltac:(discriminate) sum 6)
  as [Hy Hyv].
{ exact (proper_is_finite _ _ _ Hsd). }
{ intros s m e ->. now apply proper64_exponent in Hsd. }
{ rewrite H66. lia. }
{ unfold emin, prec32, emax32. lia. }
rewrite H42 in Hyv.
unfold ramp_step. fold p. fold xd. fold sum. fold float_of_double in Hy, Hyv.
split; [exact Hy|]. lia.
Qed.

(** ** The legs of a ramp *)

Lemma ramp_step_moves x r :
in_reach x -> -1000 <= r <= 1000 ->
proper32 (ramp_step x r) = true
/\ (0 < r -> val x + QUANTUM <= val (ramp_step x r) <= val x + 2 * VOLT)
/\ (r < 0 -> val x - 2 * VOLT <= val (ramp_step x r) <= val x - QUANTUM).
Proof.
intros Hx Hr.
destruct (ramp_step_coarse x r Hx Hr) as [Hp Hv].
pose proof (amount_ok_all r Hr) as Ha. unfold amount_ok in Ha.
apply andb_prop in Ha. destruct Ha as [Ha Hhi].
apply andb_prop in Ha. destruct Ha as [_ Hlo].
apply Z.leb_le in Hlo, Hhi.
pose proof TICK_pos as HT. unfold QUANTUM. rewrite VOLT_ticks.
split; [exact Hp|]. split; intros Hs.
- assert (H1 : 1 * (2 ^ 50 * TICK) <= val (millivolts r)) by nia.
  assert (H2 : val (millivolts r) <= 1000 * (2 ^ 51 * TICK)) by nia.
  lia.
- assert (H1 : val (millivolts r) <= -1 * (2 ^ 50 * TICK)) by nia.
  assert (H2 : -1000 * (2 ^ 51 * TICK) <= val (millivolts r)) by nia.
  lia.
Qed.

Section Legs.

Variables sv mv : spec_float.
Hypothesis sv_proper : proper32 sv = true.
Hypothesis mv_proper : proper32 mv = true.
Hypothesis sv_low : 0 <= val sv.
Hypothesis mv_high : val mv <= 50 * VOLT.

Variable r : Z.
Hypothesis r_size : -1000 <= r <= 1000.
Hypothesis r_nonzero : r <> 0.

Lemma limit_reached_distance x dr av :
proper32 x = true ->
limit_reached sv mv (mkRamp r x dr av) = (distance sv mv r x <? 0).
Proof.
intros Hx. unfold limit_reached, distance, fgt, flt. cbn [ramp ramp_volt].
rewrite (SFltb_val prec32 emax32 ltac:(reflexivity) ltac:(discriminate) mv x)
  by assumption.
rewrite (SFltb_val prec32 emax32 ltac:(reflexivity) ltac:(discriminate) x sv)
  by assumption.
destruct (0 <? r) eqn:Hp; cbn [andb orb].
- assert (Hn : (r <? 0) = false) by (apply Z.ltb_ge; apply Z.ltb_lt in Hp; lia).
  rewrite Hn. cbn [andb]. rewrite orb_false_r.
  destruct (val mv <? val x) eqn:E; symmetry;
    [apply Z.ltb_lt; apply Z.ltb_lt in E | apply Z.ltb_ge; apply Z.ltb_ge in E]; lia.
- assert (Hn : (r <? 0) = true) by (apply Z.ltb_lt; apply Z.ltb_ge in Hp; lia).
  rewrite Hn. cbn [andb].
  destruct (val x <? val sv) eqn:E; symmetry;
    [apply Z.ltb_lt; apply Z.ltb_lt in E | apply Z.ltb_ge; apply Z.ltb_ge in E]; lia.
Qed.

(** A step taken before the limit is passed stays in reach and brings
    the limit nearer by a quantum. *)
Lemma step_before_limit x :
in_reach x -> 0 <= distance sv mv r x ->
in_reach (ramp_step x r)
/\ distance sv mv r (ramp_step x r) <= distance sv mv r x - QUANTUM.
Proof.
intros Hx Hd.
destruct (ramp_step_moves x r Hx r_size) as (Hp & Hup & Hdown).
destruct Hx as [Hxp Hxv]. unfold in_reach, distance in *.
pose proof TICK_pos. unfold QUANTUM in *. rewrite VOLT_ticks in *.
destruct (0 <? r) eqn:Hs.
- apply Z.ltb_lt in Hs. specialize (Hup Hs). split; [split|]; [exact Hp | lia | lia].
- apply Z.ltb_ge in Hs. specialize (Hdown ltac:(lia)).
  split; [split|]; [exact Hp | lia | lia].
Qed.

(** From any voltage in reach the ramp block applies steps without
    separator until the limit is passed. *)
Lemma leg dr av (k : nat) : forall x,
in_reach x -> distance sv mv r x < Z.of_nat k * QUANTUM ->
exists pre x',
  (forall n, ramp_decisions (List.length pre + n) sv mv (mkRamp r x dr av)
             = map (RampApply false) pre
               ++ ramp_decisions n sv mv (mkRamp r x' dr av))
  /\ Forall (fun v => ramp v = r /\ dramp v = dr /\ dramp_avail v = av) pre
  /\ in_reach x'
  /\ limit_reached sv mv (mkRamp r x' dr av) = true.
Proof.
induction k as [|k IH]; intros x Hx Hd.
- exists [], x. split; [reflexivity|]. split; [constructor|]. split; [exact Hx|].
  rewrite limit_reached_distance by apply Hx. apply Z.ltb_lt. lia.
- destruct (limit_reached sv mv (mkRamp r x dr av)) eqn:Hl.
  + exists [], x. split; [reflexivity|]. split; [constructor|]. now split.
  + rewrite limit_reached_distance in Hl by apply Hx. apply Z.ltb_ge in Hl.
    destruct (step_before_limit x Hx Hl) as [Hx1 Hd1].
    destruct (IH (ramp_step x r) Hx1) as (pre & x' & Hrun & Hpre & Hx' & Hl').
    { rewrite Nat2Z.inj_succ in Hd. lia. }
    exists (mkRamp r (ramp_step x r) dr av :: pre), x'.
    split; [|split; [|split]]; try assumption.
    * intros n. cbn [List.length Nat.add ramp_decisions map app].
      unfold ramp_block. cbn [ramp ramp_volt dramp dramp_avail].
      rewrite limit_reached_distance by apply Hx.
      apply Z.ltb_ge in Hl. rewrite Hl. f_equal. apply Hrun.
    * constructor; [cbn; auto | exact Hpre].
Qed.

Lemma leg_exists dr av x :
in_reach x ->
exists pre x',
  (forall n, ramp_decisions (List.length pre + n) sv mv (mkRamp r x dr av)
             = map (RampApply false) pre
               ++ ramp_decisions n sv mv (mkRamp r x' dr av))
  /\ Forall (fun v => ramp v = r /\ dramp v = dr /\ dramp_avail v = av) pre
  /\ in_reach x'
  /\ limit_reached sv mv (mkRamp r x' dr av) = true.
Proof.
intros Hx.
apply (leg dr av (Z.to_nat (Z.abs (distance sv mv r x) + 1))); [exact Hx|].
pose proof TICK_pos. unfold QUANTUM. rewrite Z2Nat.id by lia. nia.
Qed.

End Legs.

(** ** The dual ramp *)

Lemma accepted_voltages o :
options_accepted o = true ->
proper32 (set_volt o) = true -> proper32 (max_volt o) = true ->
opt_ramp o <> 0 ->
0 <= val (set_volt o) /\ val (set_volt o) <= val (max_volt o)
/\ val (max_volt o) <= 50 * VOLT /\ -1000 <= opt_ramp o <= 1000.
Proof.
unfold options_accepted, in_range, fgt, flt. intros H Hs Hm Hr.
repeat (apply andb_prop in H; destruct H as [H ?]).
repeat match goal with
       | H : negb _ = true |- _ => apply negb_true_iff in H
       | H : _ || _ = false |- _ => apply orb_false_iff in H; destruct H
       end.
assert (Hf0 : proper32 f0 = true) by reflexivity.
assert (Hf50 : proper32 (fint MAXVOLT) = true) by reflexivity.
assert (Hv50 : val (fint MAXVOLT) = 50 * VOLT) by (vm_compute; reflexivity).
repeat match goal with
       | H : SFltb _ _ = false |- _ =>
           rewrite (SFltb_val prec32 emax32 ltac:(reflexivity) ltac:(discriminate))
             in H by assumption;
           apply Z.ltb_ge in H
       end.
apply Z.eqb_neq in Hr.
match goal with
| H : negb (opt_ramp o =? 0) && SFltb (max_volt o) (set_volt o) = false |- _ =>
    rewrite Hr in H; cbn [negb andb] in H;
    rewrite (SFltb_val prec32 emax32 ltac:(reflexivity) ltac:(discriminate))
      in H by assumption;
    apply Z.ltb_ge in H
end.
match goal with
| H : (Z.abs (opt_ramp o) <=? 1000) = true |- _ => apply Z.leb_le in H
end.
change (val f0) with 0 in *. rewrite Hv50 in *. lia.
Qed.

(** The decisions of a dual ramp: applications without separator that
    keep the step of the command line, one application with the
    separator, from which on the step is the negated one and the dual
    ramp flag is cleared, applications without separator, and the
    decision to leave the loop. *)
Lemma dual_ramp_decisions o :
options_accepted o = true ->
proper32 (set_volt o) = true -> proper32 (max_volt o) = true ->
opt_ramp o <> 0 -> opt_dramp o = true ->
exists (pre post : list ramp_vars) (turn : ramp_vars),
  ramp_decisions (List.length pre + (1 + (List.length post + 1)))
    (set_volt o) (max_volt o)
    (ramp_init (opt_ramp o) (opt_dramp o) (set_volt o) (max_volt o))
  = map (RampApply false) pre
    ++ RampApply true turn :: map (RampApply false) post ++ [RampBreak]
  /\ Forall (fun v => ramp v = opt_ramp o /\ dramp v = true
                      /\ dramp_avail v = false) pre
  /\ Forall (fun v => ramp v = - opt_ramp o /\ dramp v = false
                      /\ dramp_avail v = true) (turn :: post).
Proof.
intros Hacc Hsp Hmp Hr Hdual.
destruct (accepted_voltages o Hacc Hsp Hmp Hr) as (Hs0 & Hsm & Hm50 & Hsize).
set (sv := set_volt o) in *. set (mv := max_volt o) in *.
set (r := opt_ramp o) in *. rewrite Hdual. unfold ramp_init.
pose proof TICK_pos as HT.
set (x0 := if 0 <? r then sv else mv).
assert (Hx0 : in_reach x0).
{ unfold in_reach, x0. rewrite VOLT_ticks in *.
  destruct (0 <? r); split; try assumption; lia. }
(* the way out *)
destruct (leg_exists sv mv Hsp Hmp Hs0 Hm50 r Hsize Hr true false x0 Hx0)
  as (pre & x1 & Hrun1 & Hpre & Hx1 & Hl1).
(* the reversal *)
set (turn := mkRamp (- r) (ramp_step x1 (- r)) false true).
assert (Hturn : ramp_block sv mv (mkRamp r x1 true false) = RampApply true turn).
{ unfold ramp_block. rewrite Hl1. reflexivity. }
assert (Hx2 : in_reach (ramp_step x1 (- r))).
{ destruct (ramp_step_moves x1 (- r) Hx1 ltac:(lia)) as (Hp & Hup & Hdown).
  rewrite limit_reached_distance in Hl1 by (try assumption; apply Hx1).
  apply Z.ltb_lt in Hl1. unfold distance in Hl1.
  destruct Hx1 as [_ Hx1]. unfold in_reach. rewrite VOLT_ticks in *.
  unfold QUANTUM in *.
  split; [exact Hp|].
  destruct (0 <? r) eqn:Hs.
  - apply Z.ltb_lt in Hs. specialize (Hdown ltac:(lia)). lia.
  - apply Z.ltb_ge in Hs. specialize (Hup ltac:(lia)). lia. }
(* the way back *)
destruct (leg_exists sv mv Hsp Hmp Hs0 Hm50 (- r) ltac:(lia) ltac:(lia)
            false true (ramp_step x1 (- r)) Hx2)
  as (post & x3 & Hrun2 & Hpost & Hx3 & Hl3).
assert (Hbreak : ramp_block sv mv (mkRamp (- r) x3 false true) = RampBreak).
{ unfold ramp_block. rewrite Hl3. reflexivity. }
exists pre, post, turn.
split; [|split].
- rewrite Hrun1. f_equal.
  cbn [Nat.add ramp_decisions]. rewrite Hturn. f_equal.
  unfold turn. rewrite Hrun2. f_equal.
  cbn [ramp_decisions]. now rewrite Hbreak.
- exact Hpre.
- constructor; [cbn; auto | exact Hpost].
Qed.

(** ** The ramp on concrete configurations *)

(** C1.  Single upward ramp from 0.0 to 5.0 in steps of 1000 mV: the
    ramp block lets the setpoints 1.0, 2.0, 3.0, 4.0, 5.0 and then also
    6.0 be applied before it leaves the loop at the seventh cycle, so a
    setpoint beyond 5.0 is sent. *)
Theorem single_ramp_0_5_applies_6 :
  ramp_run 7 f0 (fint 5) (ramp_init 1000 false f0 (fint 5))
  = ([Applied (fint 1); Applied (fint 2); Applied (fint 3); Applied (fint 4);
      Applied (fint 5); Applied (fint 6)], true)
  /\ fgt (fint 6) (fint 5) = true
  /\ (forall sscanf_f,
        let r := main sscanf_f (opts 1000 false f0 (fint 5)) (lab (repeat quiet 7)) in
        fst r = Returned AtEnd
        /\ vsets (snd r)
           = [setup_text f0 (fint MAXAMP) (fint MAXVOLT) false;
              set_text "VSET" (fint 1); set_text "VSET" (fint 2);
              set_text "VSET" (fint 3); set_text "VSET" (fint 4);
              set_text "VSET" (fint 5); set_text "VSET" (fint 6)]).
Proof.
  split; [vm_compute; reflexivity|].
  split; [vm_compute; reflexivity|].
  intros sscanf_f; split; vm_compute; reflexivity.
Qed.

(** C4.  Single downward ramp from 2.0 to 0.0 in steps of -500 mV: the
    bound ceil(2.0/0.5)+1 is 5, but the first five calls of the ramp
    block all apply a setpoint, the last of them being -0.5, below the
    end voltage; the block leaves the loop at the sixth call only, and
    [main] has written VSET -0.500000 to the bus. *)
Theorem single_ramp_2_0_needs_six_calls :
  ramp_run 5 f0 (fint 2) (ramp_init (-500) false f0 (fint 2))
  = ([Applied (S754_finite false 12582912 (-23));
      Applied (fint 1);
      Applied (S754_finite false 8388608 (-24));
      Applied f0;
      Applied (S754_finite true 8388608 (-24))], false)
  /\ snd (ramp_run 6 f0 (fint 2) (ramp_init (-500) false f0 (fint 2))) = true
  /\ flt (S754_finite true 8388608 (-24)) f0 = true
  /\ (forall sscanf_f,
        let r := main sscanf_f (opts (-500) false f0 (fint 2)) (lab (repeat quiet 6)) in
        fst r = Returned AtEnd
        /\ vsets (snd r)
           = [setup_text f0 (fint MAXAMP) (fint MAXVOLT) false;
              set_text "VSET" (S754_finite false 12582912 (-23));
              set_text "VSET" (fint 1);
              set_text "VSET" (S754_finite false 8388608 (-24));
              set_text "VSET" f0;
              set_text "VSET" (S754_finite true 8388608 (-24))]
        /\ set_text "VSET" (S754_finite true 8388608 (-24))
           = ("VSET -0.500000" ++ NL)%string).
Proof.
  split; [vm_compute; reflexivity|].
  split; [vm_compute; reflexivity|].
  split; [vm_compute; reflexivity|].
  intros sscanf_f; repeat split; vm_compute; reflexivity.
Qed.

(** C5.  Dual ramp from 0.0 to 5.0 in steps of 1000 mV: after 5.0 the
    next decision applies 6.0; the reversal comes one cycle later and
    applies 5.0 in the same cycle, and the way back goes on through
    4.0, 3.0, 2.0, 1.0, 0.0 and -1.0 before the loop is left; these are
    the VSET commands that [main] writes to the bus. *)
Theorem dual_ramp_0_5_trace :
  ramp_run 14 f0 (fint 5) (ramp_init 1000 true f0 (fint 5))
  = ([Applied (fint 1); Applied (fint 2); Applied (fint 3); Applied (fint 4);
      Applied (fint 5); Applied (fint 6);
      Reversed;
      Applied (fint 5); Applied (fint 4); Applied (fint 3); Applied (fint 2);
      Applied (fint 1); Applied f0; Applied (SFopp (fint 1))], true)
  /\ (forall sscanf_f,
        let r := main sscanf_f (opts 1000 true f0 (fint 5)) (lab (repeat quiet 14)) in
        fst r = Returned AtEnd
        /\ vsets (snd r)
           = setup_text f0 (fint MAXAMP) (fint MAXVOLT) false
             :: map (fun i => set_text "VSET" (float_of_int i))
                    [1; 2; 3; 4; 5; 6; 5; 4; 3; 2; 1; 0; -1]).
Proof.
  split; [vm_compute; reflexivity|].
  intros sscanf_f; split; vm_compute; reflexivity.
Qed.

(** ** Exit paths and held resources *)

(** Case analysis on every test of a goal that runs a piece of [main]. *)
Ltac crunch :=
  repeat match goal with
         | H : (_, _) = (_, _) |- _ => inversion H; subst; clear H
         | H : context [match ?x with _ => _ end] |- _ => destruct x eqn:?
         | |- context [match ?x with _ => _ end] => destruct x eqn:?
         end.

Section Exits.

Variable sscanf_f : string -> option spec_float.


Lemma ramp_part_resources o c v w r w' :
  ramp_part o c v w = (r, w') ->
  match r with
  | CycleNext _ | CycleBreak _ | CycleOverrun => held_alike w w'
  | CycleReturn s => loop_failure s /\ released_without_close w w'
  end.
Proof.
  unfold ramp_part, hp663X_set, leave_on_failure, held_alike,
    released_without_close, loop_failure.
  intros H; crunch; cbn; intuition congruence.
Qed.

Lemma sample_part_resources o graph c v w r w' :
  sample_part sscanf_f o graph c v w = (r, w') ->
  match r with
  | CycleNext _ | CycleBreak _ | CycleOverrun => held_alike w w'
  | CycleReturn s => loop_failure s /\ released_without_close w w'
  end.
Proof.
  unfold sample_part, hp663X_read, refresh, leave_on_failure, held_alike,
    released_without_close, loop_failure.
  intros H; crunch; cbn; intuition congruence.
Qed.

Lemma cycle_resources o graph c v w r w' :
  cycle sscanf_f o graph c v w = (r, w') ->
  match r with
  | CycleNext _ | CycleBreak _ | CycleOverrun => held_alike w w'
  | CycleReturn s => loop_failure s /\ released_without_close w w'
  end.
Proof.
  unfold cycle. intros H.
  destruct (ramp_part o c v w) as [r1 w1] eqn:Hr.
  apply ramp_part_resources in Hr.
  destruct r1 as [v1|v1|s1|]; try (inversion H; subst; exact Hr).
  apply sample_part_resources in H.
  unfold held_alike, released_without_close in *.
  destruct r; intuition congruence.
Qed.

Lemma main_loop_resources o graph cs : forall v w r w',
  main_loop sscanf_f o graph cs v w = (r, w') ->
  match r with
  | LoopLeft _ | LoopRunning _ | LoopOverrun => held_alike w w'
  | LoopReturn s => loop_failure s /\ released_without_close w w'
  end.
Proof.
  induction cs as [|c cs IH]; intros v w r w' H; cbn in H.
  - inversion H; subst. unfold held_alike; auto.
  - destruct (cycle sscanf_f o graph c v w) as [cr w1] eqn:Hc.
    apply cycle_resources in Hc.
    destruct cr as [v1|v1|s|].
    + destruct (again v1).
      * apply IH in H. unfold held_alike, released_without_close in *.
        destruct r; intuition congruence.
      * inversion H; subst. exact Hc.
    + inversion H; subst. exact Hc.
    + inversion H; subst. exact Hc.
    + inversion H; subst. exact Hc.
Qed.

End Exits.

Lemma prologue_exit o e s w :
prologue o e = (Some s, w) ->
(s = AtOpen \/ s = AtSetup) /\ close_calls w = [] /\ gp_open w = false.
Proof.
unfold prologue, hp663X_open, hp663X_setup. intros H.
destruct (timed o), (graph_on o e), (ibdev_ok e), (reset_on o),
  (open_reset_ok e), (setup_ok e); cbn in H; inversion H; subst; cbn; auto.
Qed.






(** ** What the cycles write to the data file *)

Lemma body_of_app r1 t1 r2 t2 :
body_of r1 t1 -> body_of r2 t2 -> body_of (r1 ++ r2) (t1 ++ t2).
Proof.
induction 1 as [|r recs txt _ IH|recs txt _ IH]; intros H2; cbn.
- exact H2.
- rewrite append_assoc. apply body_record. now apply IH.
- rewrite append_assoc. apply body_separator. now apply IH.
Qed.

Lemma body_of_separator_or_nothing sep :
sep = EmptyString \/ sep = SEPARATOR -> body_of [] sep.
Proof.
intros [-> | ->].
- constructor.
- rewrite <- (append_empty_r SEPARATOR). apply body_separator. constructor.
Qed.

Lemma body_of_one sep r :
sep = EmptyString \/ sep = SEPARATOR -> body_of [r] (sep ++ r).
Proof.
intros H.
apply (body_of_app [] sep [r] r).
- now apply body_of_separator_or_nothing.
- rewrite <- (append_empty_r r) at 2. apply body_record. constructor.
Qed.

Section Log.

Variable sscanf_f : string -> option spec_float.

(** The ramp part of a cycle whose VSET succeeds and whose ramp block
    does not leave the loop. *)
Lemma ramp_part_alive o c v w :
vset_ok c = true ->
ramp_alive 1 (set_volt o) (max_volt o) (rs v) = true ->
exists rs' sep w',
  ramp_part o c v w
  = (CycleNext (mkVars rs' (key v) (loop v) (volt v) (amp v)), w')
  /\ (sep = EmptyString \/ sep = SEPARATOR)
  /\ file_content w' = (file_content w ++ sep)%string
  /\ file_open w' = file_open w
  /\ file_flushes w' = file_flushes w
  /\ (forall k, ramp_alive (S k) (set_volt o) (max_volt o) (rs v) = true ->
                ramp_alive k (set_volt o) (max_volt o) rs' = true).
Proof.
intros Hv Ha. unfold ramp_part, hp663X_set. cbn in Ha.
destruct (ramp (rs v) =? 0) eqn:Hr.
- exists (rs v), EmptyString, w.
  assert (Hk : forall k, ramp_alive k (set_volt o) (max_volt o) (rs v) = true).
  { intros [|k]; cbn; [reflexivity | now rewrite Hr]. }
  destruct v; cbn in *.
  repeat split; auto.
  unfold file_content. now rewrite append_empty_r.
- destruct (ramp_block (set_volt o) (max_volt o) (rs v)) as [|sep rs'] eqn:Hb;
    [discriminate|].
  rewrite Hv.
  exists rs', (if sep then SEPARATOR else EmptyString).
  eexists. split; [reflexivity|].
  destruct sep; cbn; unfold file_content; cbn; repeat split; auto.
  + now rewrite append_assoc.
  + intros k. rewrite Hr, Hb. auto.
  + now rewrite append_empty_r.
  + intros k. rewrite Hr, Hb. auto.
Qed.

(** The sampling part of a cycle whose two queries are answered. *)
Lemma sample_part_answered o graph c v w :
answered (vout c) = true -> answered (iout c) = true ->
exists w',
  sample_part sscanf_f o graph c v w
  = (CycleNext (mkVars (rs v)
                       (match keyhit c with Some k => k | None => key v end)
                       ((loop v + 1) mod 2 ^ 64)
                       (scan_reply sscanf_f (vout c) (volt v))
                       (scan_reply sscanf_f (iout c) (amp v))), w')
  /\ file_content w'
     = (file_content w
        ++ record_text (now c) (scan_reply sscanf_f (vout c) (volt v))
                       (scan_reply sscanf_f (iout c) (amp v)))%string
  /\ file_open w' = file_open w
  /\ file_flushes w'
     = (if ((loop v + 1) mod 2 ^ 64) mod do_flush o =? 0
        then S (file_flushes w) else file_flushes w).
Proof.
intros Hv Hi. unfold sample_part, hp663X_read, refresh.
destruct (vout c) as [| |rv]; try discriminate.
destruct (iout c) as [| |ri]; try discriminate.
unfold answered in Hv, Hi. unfold scan_reply.
destruct (received rv) as [|bv|]; try discriminate.
destruct (received ri) as [|bi|]; try discriminate.
eexists. split; [reflexivity|].
destruct (_ =? 0); [destruct graph|]; unfold file_content; cbn; repeat split;
  rewrite ?append_empty_r, ?append_assoc; reflexivity.
Qed.

(** C2, amended.  When the text that [hp663X_read] hands back for
    VOUT? or IOUT? (the answer without its last two bytes) cannot be
    scanned as a number, the cycle is not aborted: the result of
    [sscanf] is not looked at, the reading keeps the value it had
    before the query (the one of the previous cycle), and the record of
    the cycle is written with it. *)
Theorem unscanned_answer_keeps_old_reading o graph c v w v1 w1 rv ri bv bi :
ramp_part o c v w = (CycleNext v1, w1) ->
vout c = Answer rv -> received rv = Reading bv ->
iout c = Answer ri -> received ri = Reading bi ->
exists v' w',
  cycle sscanf_f o graph c v w = (CycleNext v', w')
  /\ (sscanf_f bv = None -> volt v' = volt v)
  /\ (sscanf_f bi = None -> amp v' = amp v)
  /\ file_content w'
     = (file_content w1 ++ record_text (now c) (volt v') (amp v'))%string.
Proof.
intros Hr Hv Hbv Hi Hbi. unfold cycle. rewrite Hr.
destruct (sample_part_answered o graph c v1 w1) as (w' & Hs & Hc & _).
{ rewrite Hv. unfold answered. now rewrite Hbv. }
{ rewrite Hi. unfold answered. now rewrite Hbi. }
assert (Hkeep : volt v1 = volt v /\ amp v1 = amp v).
{ unfold ramp_part, hp663X_set in Hr. crunch; cbn; auto. }
destruct Hkeep as [Hkv Hka].
eexists. exists w'. split; [exact Hs|]. cbn.
rewrite Hv, Hi in *. unfold scan_reply in *. rewrite Hbv, Hbi in *.
unfold scan. repeat split.
- intros ->. exact Hkv.
- intros ->. exact Hka.
- exact Hc.
Qed.

End Log.

(** C2, the claim as stated fails: in a run without ramp the second
    answer to VOUT? is not a number; the run goes on, ends with the exit
    code 0 when the operator presses q, and the second record carries
    the voltage of the first cycle. *)
Lemma garbage_answer_is_logged_with_old_reading :
let bad := mkCycle true (S754_finite false 1 (-5))
                   (Answer ("garbage" ++ CRLF)) (Answer ("-0.0005" ++ CRLF))
                   (Some KEY_q) in
let r := main scan_decimal (opts 0 false (fint 5) (fint 5)) (lab [quiet; bad]) in
received ("garbage" ++ CRLF) = Reading "garbage"
/\ scan_decimal "garbage" = None
/\ fst r = Returned AtEnd
/\ exit_code AtEnd = 0
/\ lines (file_disk (snd r))
   = ["# hp6633 V20250811"; "# test"; "# Start: Fri Oct 30 03:58:00 2026";
      "# min" ++ TAB ++ "Volt" ++ TAB ++ "Ampere";
      "0.0156" ++ TAB ++ "12.0090" ++ TAB ++ "-0.0005";
      "0.0312" ++ TAB ++ "12.0090" ++ TAB ++ "-0.0005";
      "# Stop: Fri Oct 30 04:10:00 2026"; ""]%string.
Proof. vm_compute. repeat split; reflexivity. Qed.

Lemma unscanned_answer_keeps_old_reading_witness :
let o := opts 0 false (fint 5) (fint 5) in
let c := mkCycle true (S754_finite false 1 (-5))
                 (Answer ("garbage" ++ CRLF)) (Answer ("-0.0005" ++ CRLF)) None in
let v := mkVars (ramp_init 0 false (fint 5) (fint 5)) 0 1 (fint 12) (fint 1) in
scan_decimal "garbage" = None
/\ exists v' w',
     cycle scan_decimal o true c v world0 = (CycleNext v', w')
     /\ (scan_decimal "garbage" = None -> volt v' = fint 12)
     /\ (scan_decimal "-0.0005" = None -> amp v' = fint 1)
     /\ file_content w'
        = (file_content world0 ++ record_text (now c) (volt v') (amp v'))%string.
Proof.
intros o c v. split; [reflexivity|].
apply (unscanned_answer_keeps_old_reading scan_decimal o true c v world0 v world0
         ("garbage" ++ CRLF) ("-0.0005" ++ CRLF) "garbage" "-0.0005");
  reflexivity.
Defined.

(** ** Runs of complete cycles *)

Section Runs.

Variable sscanf_f : string -> option spec_float.

Lemma healthy_cycle o graph c v w :
healthy c = true ->
ramp_alive 1 (set_volt o) (max_volt o) (rs v) = true ->
exists v' w' sep,
  cycle sscanf_f o graph c v w = (CycleNext v', w')
  /\ key v' = (match keyhit c with Some k => k | None => key v end)
  /\ loop v' = (loop v + 1) mod 2 ^ 64
  /\ volt v' = scan_reply sscanf_f (vout c) (volt v)
  /\ amp v' = scan_reply sscanf_f (iout c) (amp v)
  /\ (sep = EmptyString \/ sep = SEPARATOR)
  /\ file_content w'
     = (file_content w ++ sep ++ record_text (now c) (volt v') (amp v'))%string
  /\ file_open w' = file_open w
  /\ file_flushes w'
     = (if loop v' mod do_flush o =? 0
        then S (file_flushes w) else file_flushes w)
  /\ (forall k, ramp_alive (S k) (set_volt o) (max_volt o) (rs v) = true ->
                ramp_alive k (set_volt o) (max_volt o) (rs v') = true).
Proof.
unfold healthy. intros Hh Ha.
apply andb_prop in Hh. destruct Hh as [Hh Hi].
apply andb_prop in Hh. destruct Hh as [Hs Hv].
destruct (ramp_part_alive o c v w Hs Ha)
  as (rs' & sep & w1 & Hr & Hsep & Hc1 & Ho1 & Hf1 & Hk).
destruct (sample_part_answered sscanf_f o graph c
            (mkVars rs' (key v) (loop v) (volt v) (amp v)) w1 Hv Hi)
  as (w2 & Hsp & Hc2 & Ho2 & Hf2).
cbn in Hsp, Hc2, Hf2.
eexists. exists w2, sep. unfold cycle. rewrite Hr, Hsp. cbn.
repeat split; auto; try congruence.
- rewrite Hc2, Hc1. now rewrite append_assoc.
- cbn. rewrite Hf2, Hf1. reflexivity.
Qed.

Lemma ramp_alive_first n sv mv r :
ramp_alive (S n) sv mv r = true -> ramp_alive 1 sv mv r = true.
Proof.
cbn. destruct (ramp r =? 0); [reflexivity|].
destruct (ramp_block sv mv r); [discriminate | reflexivity].
Qed.

Lemma ramp_alive_pred sv mv n : forall r,
ramp_alive (S n) sv mv r = true -> ramp_alive n sv mv r = true.
Proof.
induction n as [|n IH]; intros r H; [reflexivity|].
cbn in H |- *. destruct (ramp r =? 0); [reflexivity|].
destruct (ramp_block sv mv r) as [|sep r']; [discriminate|].
apply IH. exact H.
Qed.

Lemma sample_part_iout_failed o graph c v w :
answered (vout c) = true -> failed (iout c) = true ->
exists w',
  sample_part sscanf_f o graph c v w = (CycleReturn AtIout, w')
  /\ file_disk w' = file_content w /\ file_buf w' = EmptyString
  /\ file_open w' = false.
Proof.
intros Hv Hi. unfold sample_part, hp663X_read, leave_on_failure.
destruct (vout c) as [| |rv]; try discriminate.
unfold answered in Hv. destruct (received rv) as [|bv|]; try discriminate.
destruct (iout c) as [| |ri]; try discriminate;
  eexists; (split; [reflexivity|]); cbn; auto.
Qed.

Lemma healthy_cycles o graph cs : forall v w,
forallb healthy cs = true -> forallb no_quit cs = true ->
again v = true ->
ramp_alive (List.length cs) (set_volt o) (max_volt o) (rs v) = true ->
exists v' w' body,
  (forall rest, main_loop sscanf_f o graph (cs ++ rest) v w
                = main_loop sscanf_f o graph rest v' w')
  /\ again v' = true
  /\ file_content w' = (file_content w ++ body)%string
  /\ body_of (records_of sscanf_f cs (volt v) (amp v)) body
  /\ (forall rest, records_of sscanf_f (cs ++ rest) (volt v) (amp v)
                   = records_of sscanf_f cs (volt v) (amp v)
                     ++ records_of sscanf_f rest (volt v') (amp v'))
  /\ file_open w' = file_open w
  /\ (forall k, ramp_alive (List.length cs + k) (set_volt o) (max_volt o) (rs v) = true ->
                ramp_alive k (set_volt o) (max_volt o) (rs v') = true)
  /\ (0 <= loop v -> loop v + Z.of_nat (List.length cs) < do_flush o ->
      do_flush o <= 2 ^ 64 ->
      loop v' = loop v + Z.of_nat (List.length cs)
      /\ file_flushes w' = file_flushes w).
Proof.
induction cs as [|c cs IH]; intros v w Hh Hq Hag Hal.
- exists v, w, EmptyString. cbn. unfold file_content.
  rewrite append_empty_r. repeat split; auto; try lia. constructor.
- cbn in Hh, Hq. apply andb_prop in Hh. destruct Hh as [Hh Hhs].
  apply andb_prop in Hq. destruct Hq as [Hq Hqs].
  destruct (healthy_cycle o graph c v w Hh (ramp_alive_first _ _ _ _ Hal))
    as (v1 & w1 & sep & Hc & Hkey & Hloop & Hvolt & Hamp & Hsep & Hcont
        & Hopen & Hfl & Hk).
  assert (Hag1 : again v1 = true).
  { unfold again in *. rewrite Hkey. unfold no_quit, quit_key in Hq.
    destruct (keyhit c) as [k|]; [|exact Hag].
    apply negb_true_iff in Hq. apply orb_false_iff in Hq.
    destruct Hq as [-> ->]. reflexivity. }
  destruct (IH v1 w1 Hhs Hqs Hag1 (Hk _ Hal))
    as (v' & w' & body & Hml & Hag' & Hcont' & Hbody & Hrec & Hopen' & Hk'
        & Hcount).
  exists v', w', (sep ++ record_text (now c) (volt v1) (amp v1) ++ body)%string.
  repeat split.
  + intros rest. cbn. rewrite Hc, Hag1. apply Hml.
  + exact Hag'.
  + rewrite Hcont', Hcont. now rewrite !append_assoc.
  + cbn. rewrite <- Hvolt, <- Hamp.
    apply (body_of_app [] sep).
    * now apply body_of_separator_or_nothing.
    * apply body_record. exact Hbody.
  + intros rest. cbn. rewrite <- Hvolt, <- Hamp. now rewrite Hrec.
  + congruence.
  + intros k Hkk. apply Hk'. apply Hk. exact Hkk.
  + destruct Hcount as [Hl' _]; try lia.
    { rewrite Hloop. cbn [List.length] in *. rewrite Z.mod_small; lia. }
    { rewrite Hloop. cbn [List.length] in *. rewrite Z.mod_small; lia. }
    rewrite Hl', Hloop. cbn [List.length] in *. rewrite Z.mod_small; lia.
  + destruct Hcount as [_ Hf']; try lia.
    { rewrite Hloop. cbn [List.length] in *. rewrite Z.mod_small; lia. }
    { rewrite Hloop. cbn [List.length] in *. rewrite Z.mod_small; lia. }
    rewrite Hf', Hfl, Hloop. cbn [List.length] in *.
    rewrite (Z.mod_small (loop v + 1)) by lia.
    rewrite Z.mod_small by lia.
    destruct (loop v + 1 =? 0) eqn:E; [lia | reflexivity].
Qed.

Lemma prologue_reaches_loop o e :
reaches_loop o e = true ->
exists w0,
  prologue o e = (None, w0)
  /\ file_disk w0 = EmptyString /\ file_buf w0 = EmptyString
  /\ file_open w0 = true /\ file_flushes w0 = 0%nat /\ timed o = true.
Proof.
unfold reaches_loop, prologue, hp663X_open, hp663X_setup, reset_on.
intros H.
destruct (timed o), (ibdev_ok e), (setup_ok e); try discriminate H;
  destruct (do_reset o), (open_reset_ok e); try discriminate H;
  destruct (graph_on o e); cbn; eexists; (split; [reflexivity|]); cbn; auto.
Qed.

Lemma main_end_file o e graph reset v w :
exists s w',
  main_end o e graph reset v w = (Returned s, w')
  /\ (s = AtEnd \/ s = AtClose)
  /\ file_disk w' = file_disk w /\ file_buf w' = file_buf w
  /\ file_open w' = file_open w /\ file_flushes w' = file_flushes w.
Proof.
unfold main_end, hp663X_close.
destruct reset, (close_reset_ok e), graph; cbn;
  eexists; eexists; (split; [reflexivity|]); cbn; auto 10.
Qed.

End Runs.

(** ** Reading the records of a data file back *)

Lemma records_of_samples sscanf_f cs : forall v a,
records_of sscanf_f cs v a = map write_sample (samples_of sscanf_f cs v a).
Proof.
induction cs as [|c cs IH]; intros v a; cbn; [reflexivity|].
now rewrite IH.
Qed.

(** A line that the reader passes over. *)
Lemma read_lines_comment l ls :
is_comment l = true -> read_lines (l :: ls) = read_lines ls.
Proof. intros H. cbn [read_lines]. now rewrite H, orb_true_r. Qed.

Lemma read_lines_empty ls : read_lines (EmptyString :: ls) = read_lines ls.
Proof. reflexivity. Qed.

(** A complete line at the beginning of a text. *)
Lemma lines_first l rest :
all_chars (is_not NLc) l = true ->
lines_from EmptyString (l ++ NL ++ rest) = l :: lines_from EmptyString rest.
Proof.
intros H.
change (l ++ NL ++ rest)%string with (l ++ String NLc rest)%string.
now rewrite lines_from_line.
Qed.

(** Records and separators, read back. *)
Lemma body_reads recs body :
body_of recs body ->
forall samples, recs = map write_sample samples ->
Forall finite_sample samples ->
forall rest ts, read_lines (lines_from EmptyString rest) = Some ts ->
exists back,
  read_lines (lines_from EmptyString (body ++ rest)) = Some (back ++ ts)
  /\ Forall2 near4_sample back samples.
Proof.
induction 1 as [|r recs txt _ IH|recs txt _ IH];
  intros samples Hrecs Hfin rest ts Hrest.
- destruct samples; [|discriminate].
  exists []. split; [exact Hrest | constructor].
- destruct samples as [|s samples]; [discriminate|].
  cbn [map] in Hrecs. inversion Hrecs. subst r recs. clear Hrecs.
  inversion Hfin as [|? ? Hs Hfin']. subst.
  destruct (IH samples eq_refl Hfin' rest ts Hrest) as (back & Hb & Hn).
  destruct (read_record_sample_line s Hs) as (t & Ht & Hts).
  exists (t :: back). split; [|now constructor].
  rewrite write_sample_line, !append_assoc.
  rewrite lines_first by apply sample_line_newline_free.
  destruct (sample_line_starts s) as (c & q & Hl & Hc).
  cbn [read_lines]. rewrite Hl in *.
  cbn [String.length Nat.eqb orb is_comment].
  rewrite Hc, Ht, Hb. reflexivity.
- destruct (IH samples Hrecs Hfin rest ts Hrest) as (back & Hb & Hn).
  exists back. split; [|exact Hn].
  rewrite append_assoc.
  change (lines_from EmptyString (SEPARATOR ++ txt ++ rest))
    with (EmptyString :: EmptyString :: lines_from EmptyString (txt ++ rest)).
  rewrite !read_lines_empty. exact Hb.
Qed.

(** The header is passed over. *)
Lemma header_reads o e rest :
all_chars (is_not NLc) (comment o) = true ->
ctime_like (ctime_start e) ->
read_lines (lines_from EmptyString (header_text o e ++ rest))
= read_lines (lines_from EmptyString rest).
Proof.
intros Hc (t & Ht & Htn). unfold header_text. rewrite Ht.
rewrite !append_assoc.
rewrite lines_first by reflexivity.
change ("# " ++ comment o ++ NL ++ ?x)%string
  with (("# " ++ comment o) ++ NL ++ x)%string.
rewrite lines_first
  by (rewrite all_chars_app; cbn [all_chars]; rewrite Hc; reflexivity).
change ("# Start: " ++ t ++ NL ++ ?x)%string
  with (("# Start: " ++ t) ++ NL ++ x)%string.
rewrite lines_first
  by (rewrite all_chars_app; cbn [all_chars]; rewrite Htn; reflexivity).
change ("# min" ++ TAB ++ "Volt" ++ TAB ++ "Ampere" ++ NL ++ rest)%string
  with (("# min" ++ TAB ++ "Volt" ++ TAB ++ "Ampere") ++ NL ++ rest)%string.
rewrite lines_first by reflexivity.
rewrite !read_lines_comment by reflexivity. reflexivity.
Qed.

(** The footer holds no record. *)
Lemma footer_reads e :
ctime_like (ctime_stop e) ->
read_lines (lines_from EmptyString (footer_text e)) = Some [].
Proof.
intros (t & Ht & Htn). unfold footer_text. rewrite Ht.
replace ("# Stop: " ++ (t ++ NL) ++ NL)%string
  with (("# Stop: " ++ t) ++ NL ++ NL)%string
  by now rewrite !append_assoc.
rewrite lines_first
  by (rewrite all_chars_app; cbn [all_chars]; rewrite Htn; reflexivity).
rewrite read_lines_comment by reflexivity. reflexivity.
Qed.

(** ** Failure and cancellation in the middle of a run *)

(** A run whose third cycle fails at the query IOUT?. *)
Lemma iout_failure_run sscanf_f o e c1 c2 c3 rest :
reaches_loop o e = true ->
cycles e = c1 :: c2 :: c3 :: rest ->
healthy c1 = true -> healthy c2 = true ->
no_quit c1 = true -> no_quit c2 = true ->
ramp_alive 3 (set_volt o) (max_volt o) (rs (vars0 o e)) = true ->
vset_ok c3 = true -> answered (vout c3) = true -> failed (iout c3) = true ->
exists w body,
  main sscanf_f o e = (Returned AtIout, w)
  /\ file_open w = false /\ file_buf w = EmptyString
  /\ file_disk w = (header_text o e ++ body)%string
  /\ body_of (records_of sscanf_f [c1; c2] (volt_indet e) (amp_indet e)) body.
Proof.
intros Hreach Hcs Hh1 Hh2 Hq1 Hq2 Hal Hs3 Hv3 Hi3.
destruct (prologue_reaches_loop o e Hreach)
  as (w0 & Hp & Hd0 & Hb0 & Ho0 & Hf0 & Ht).
unfold main. rewrite Hp, Ht, Hcs. cbn [negb].
set (w1 := init_keyboard (fprintf_out (header_text o e) w0)).
destruct (healthy_cycles sscanf_f o (graph_on o e) [c1; c2] (vars0 o e) w1)
  as (v2 & w2 & body & Hml & Hag & Hcont & Hbody & _ & Hopen & Hk & _).
{ cbn. now rewrite Hh1, Hh2. }
{ cbn. now rewrite Hq1, Hq2. }
{ reflexivity. }
{ apply ramp_alive_pred. exact Hal. }
specialize (Hml (c3 :: rest)). cbn [app] in Hml. rewrite Hml.
destruct (ramp_part_alive o c3 v2 w2 Hs3 (Hk 1%nat Hal))
  as (rs3 & sep & w3 & Hr & Hsep & Hc3 & Ho3 & _).
destruct (sample_part_iout_failed sscanf_f o (graph_on o e) c3
            (mkVars rs3 (key v2) (loop v2) (volt v2) (amp v2)) w3 Hv3 Hi3)
  as (w4 & Hsp & Hd4 & Hb4 & Ho4).
cbn [main_loop]. unfold cycle. rewrite Hr, Hsp.
exists w4, (body ++ sep)%string.
repeat split; auto.
- rewrite Hd4, Hc3, Hcont. unfold w1, file_content. cbn.
  rewrite Hd0, Hb0. cbn. now rewrite !append_assoc.
- rewrite <- (app_nil_r (records_of _ _ _ _)).
  apply body_of_app; [exact Hbody|].
  now apply body_of_separator_or_nothing.
Qed.

(** C8.  When the first two cycles are complete and the query IOUT? of
    the third cycle fails, [main] returns ERR_INST from the failure exit
    of that query; the data file is closed and nothing is left in its
    buffer.  Behind the header it holds exactly two records, the line
    "%.4f<TAB>%.4f<TAB>%.4f" of the first and of the second cycle, and
    nothing else but possibly a segment separator; when the header is
    made of single lines and the logged values are finite, reading the
    file gives two triples, the values of these two cycles up to half a
    unit of the fourth decimal. *)
Theorem iout_failure_in_third_cycle sscanf_f o e c1 c2 c3 rest :
reaches_loop o e = true ->
cycles e = c1 :: c2 :: c3 :: rest ->
healthy c1 = true -> healthy c2 = true ->
no_quit c1 = true -> no_quit c2 = true ->
ramp_alive 3 (set_volt o) (max_volt o) (rs (vars0 o e)) = true ->
vset_ok c3 = true -> answered (vout c3) = true -> failed (iout c3) = true ->
let v1 := scan_reply sscanf_f (vout c1) (volt_indet e) in
let a1 := scan_reply sscanf_f (iout c1) (amp_indet e) in
let v2 := scan_reply sscanf_f (vout c2) v1 in
let a2 := scan_reply sscanf_f (iout c2) a1 in
let s1 : sample := (now c1, v1, a1) in
let s2 : sample := (now c2, v2, a2) in
exists w body,
  main sscanf_f o e = (Returned AtIout, w)
  /\ exit_code AtIout = ERR_INST
  /\ file_open w = false /\ file_buf w = EmptyString
  /\ file_disk w = (header_text o e ++ body)%string
  /\ body_of [(sample_line s1 ++ NL)%string; (sample_line s2 ++ NL)%string] body
  /\ (all_chars (is_not NLc) (comment o) = true ->
      ctime_like (ctime_start e) ->
      finite_sample s1 -> finite_sample s2 ->
      exists t1 t2,
        read_dataset (file_disk w) = Some [t1; t2]
        /\ near4_sample t1 s1 /\ near4_sample t2 s2).
Proof.
intros Hreach Hcs Hh1 Hh2 Hq1 Hq2 Hal Hs3 Hv3 Hi3 v1 a1 v2 a2 s1 s2.
destruct (iout_failure_run sscanf_f o e c1 c2 c3 rest
            Hreach Hcs Hh1 Hh2 Hq1 Hq2 Hal Hs3 Hv3 Hi3)
  as (w & body & Hm & Ho & Hb & Hd & Hbody).
assert (Hrec : records_of sscanf_f [c1; c2] (volt_indet e) (amp_indet e)
               = map write_sample [s1; s2]) by reflexivity.
rewrite Hrec in Hbody.
assert (Hlines : map write_sample [s1; s2]
                 = [(sample_line s1 ++ NL)%string; (sample_line s2 ++ NL)%string])
  by (cbn [map]; now rewrite !write_sample_line).
exists w, body.
split; [exact Hm|]. split; [reflexivity|]. split; [exact Ho|].
split; [exact Hb|]. split; [exact Hd|]. split.
- rewrite <- Hlines. exact Hbody.
- intros Hcom Hstart Hf1 Hf2.
  assert (Hfin : Forall finite_sample [s1; s2])
    by (constructor; [exact Hf1 | constructor; [exact Hf2 | constructor]]).
  destruct (body_reads _ _ Hbody [s1; s2] eq_refl Hfin EmptyString [] eq_refl)
    as (back & Hread & Hnear).
  rewrite app_nil_r, append_empty_r in Hread.
  inversion Hnear as [|t1 ? back1 ? Hn1 Hnear1]. subst.
  inversion Hnear1 as [|t2 ? back2 ? Hn2 Hnear2]. subst.
  inversion Hnear2. subst.
  exists t1, t2. split; [|split; assumption].
  unfold read_dataset, lines. rewrite Hd.
  rewrite header_reads by assumption. exact Hread.
Qed.

Lemma iout_failure_in_third_cycle_witness :
let o := opts 1000 false f0 (fint 5) in
let bad := mkCycle true (S754_finite false 3 (-6))
                   (Answer (" 12.009" ++ CRLF)) ReadError None in
let e := lab [quiet; quiet; bad; quiet] in
let v1 := scan_reply scan_decimal (vout quiet) (volt_indet e) in
let a1 := scan_reply scan_decimal (iout quiet) (amp_indet e) in
let v2 := scan_reply scan_decimal (vout quiet) v1 in
let a2 := scan_reply scan_decimal (iout quiet) a1 in
let s1 : sample := (now quiet, v1, a1) in
let s2 : sample := (now quiet, v2, a2) in
exists w body,
  main scan_decimal o e = (Returned AtIout, w)
  /\ exit_code AtIout = ERR_INST
  /\ file_open w = false /\ file_buf w = EmptyString
  /\ file_disk w = (header_text o e ++ body)%string
  /\ body_of [(sample_line s1 ++ NL)%string; (sample_line s2 ++ NL)%string] body
  /\ (all_chars (is_not NLc) (comment o) = true ->
      ctime_like (ctime_start e) ->
      finite_sample s1 -> finite_sample s2 ->
      exists t1 t2,
        read_dataset (file_disk w) = Some [t1; t2]
        /\ near4_sample t1 s1 /\ near4_sample t2 s2).
Proof.
intros o bad e.
apply (iout_failure_in_third_cycle scan_decimal o e quiet quiet bad [quiet]);
  vm_compute; reflexivity.
Defined.

(** A run that the operator ends in its tenth cycle. *)
Lemma quit_key_run sscanf_f o e cs c10 rest k :
reaches_loop o e = true ->
do_flush o = 100 ->
cycles e = cs ++ c10 :: rest ->
List.length cs = 9%nat ->
forallb healthy cs = true -> forallb no_quit cs = true ->
healthy c10 = true -> keyhit c10 = Some k -> quit_key k = true ->
ramp_alive 10 (set_volt o) (max_volt o) (rs (vars0 o e)) = true ->
exists s w body,
  main sscanf_f o e = (Returned s, w)
  /\ (s = AtEnd \/ s = AtClose)
  /\ file_open w = false /\ file_buf w = EmptyString
  /\ file_flushes w = 0%nat
  /\ file_disk w = (header_text o e ++ body ++ footer_text e)%string
  /\ body_of (records_of sscanf_f (cs ++ [c10]) (volt_indet e) (amp_indet e)) body
  /\ List.length (records_of sscanf_f (cs ++ [c10]) (volt_indet e) (amp_indet e))
     = 10%nat.
Proof.
intros Hreach Hfl Hcs Hlen Hh Hq Hh10 Hkey Hquit Hal.
destruct (prologue_reaches_loop o e Hreach)
  as (w0 & Hp & Hd0 & Hb0 & Ho0 & Hf0 & Ht).
unfold main. rewrite Hp, Ht, Hcs. cbn [negb].
set (w1 := init_keyboard (fprintf_out (header_text o e) w0)).
destruct (healthy_cycles sscanf_f o (graph_on o e) cs (vars0 o e) w1)
  as (v9 & w9 & body & Hml & Hag & Hcont & Hbody & Hrec & Hopen & Hk & Hcount);
  auto.
{ rewrite Hlen. do 1 apply ramp_alive_pred. exact Hal. }
rewrite Hml.
destruct Hcount as [Hl9 Hf9]; cbn; try (rewrite Hfl, Hlen); try lia.
rewrite Hlen in Hl9. cbn in Hl9.
assert (Hal1 : ramp_alive 1 (set_volt o) (max_volt o) (rs v9) = true).
{ apply Hk. rewrite Hlen. exact Hal. }
destruct (healthy_cycle sscanf_f o (graph_on o e) c10 v9 w9 Hh10 Hal1)
  as (v10 & w10 & sep & Hc & Hkey10 & Hloop & Hvolt & Hamp & Hsep & Hcont10
      & Hopen10 & Hfl10 & _).
rewrite Hc.
assert (Hag10 : again v10 = false).
{ unfold again. rewrite Hkey10, Hkey. unfold quit_key in Hquit.
  destruct (k =? KEY_q), (k =? ESC); try discriminate Hquit; reflexivity. }
rewrite Hag10.
destruct (main_end_file o e (graph_on o e) (reset_on o) (rs v10)
            (fclose_out (fprintf_out (footer_text e) w10)))
  as (s & w & Hend & Hs & Hd & Hb & Ho & Hf).
rewrite Hend.
exists s, w, (body ++ sep ++ record_text (now c10) (volt v10) (amp v10))%string.
repeat split; auto.
- rewrite Hf. cbn. rewrite Hfl10, Hloop, Hl9, Hfl. cbn. rewrite Hf9. unfold w1. cbn. exact Hf0.
- rewrite Hd. cbn. rewrite <- append_assoc.
  change (file_disk w10 ++ file_buf w10)%string with (file_content w10).
  rewrite Hcont10, Hcont.
  unfold w1, file_content. cbn. rewrite Hd0, Hb0. cbn.
  now rewrite !append_assoc.
- rewrite Hrec. apply body_of_app; [exact Hbody|].
  cbn. rewrite <- Hvolt, <- Hamp. now apply body_of_one.
- rewrite Hrec, length_app.
  assert (Hn : forall l v a, List.length (records_of sscanf_f l v a) = List.length l).
  { induction l as [|c l IH]; intros v a; cbn; [reflexivity | now rewrite IH]. }
  rewrite !Hn, Hlen. reflexivity.
Qed.

(** C9.  When the quit key (q or ESC) is seen in the tenth cycle of a
    run that flushes every 100 cycles, the tenth cycle is completed,
    [main] leaves the loop and returns from its end; no periodic flush
    has happened, and the closed data file holds the header, the
    records of all ten cycles, each the line "%.4f<TAB>%.4f<TAB>%.4f"
    of its cycle, and the footer; when header and footer are made of
    single lines and the logged values are finite, reading the file
    gives ten triples, the values of the ten cycles up to half a unit
    of the fourth decimal. *)
Theorem quit_key_in_tenth_cycle sscanf_f o e cs c10 rest k :
reaches_loop o e = true ->
do_flush o = 100 ->
cycles e = cs ++ c10 :: rest ->
List.length cs = 9%nat ->
forallb healthy cs = true -> forallb no_quit cs = true ->
healthy c10 = true -> keyhit c10 = Some k -> quit_key k = true ->
ramp_alive 10 (set_volt o) (max_volt o) (rs (vars0 o e)) = true ->
let samples := samples_of sscanf_f (cs ++ [c10]) (volt_indet e) (amp_indet e) in
exists s w body,
  main sscanf_f o e = (Returned s, w)
  /\ (s = AtEnd \/ s = AtClose)
  /\ file_open w = false /\ file_buf w = EmptyString
  /\ file_flushes w = 0%nat
  /\ file_disk w = (header_text o e ++ body ++ footer_text e)%string
  /\ body_of (map (fun x => (sample_line x ++ NL)%string) samples) body
  /\ List.length samples = 10%nat
  /\ map (fun x => fst (fst x)) samples = map now (cs ++ [c10])
  /\ (all_chars (is_not NLc) (comment o) = true ->
      ctime_like (ctime_start e) -> ctime_like (ctime_stop e) ->
      Forall finite_sample samples ->
      exists triples,
        read_dataset (file_disk w) = Some triples
        /\ List.length triples = 10%nat
        /\ Forall2 near4_sample triples samples).
Proof.
intros Hreach Hfl Hcs Hlen Hh Hq Hh10 Hkey Hquit Hal samples.
destruct (quit_key_run sscanf_f o e cs c10 rest k
            Hreach Hfl Hcs Hlen Hh Hq Hh10 Hkey Hquit Hal)
  as (s & w & body & Hm & Hs & Ho & Hb & Hf & Hd & Hbody & Hn).
rewrite records_of_samples in Hbody, Hn. fold samples in Hbody, Hn.
rewrite length_map in Hn.
assert (Hlines : map write_sample samples
                 = map (fun x => (sample_line x ++ NL)%string) samples).
{ apply map_ext. intros x. apply write_sample_line. }
assert (Htimes : forall l v a,
          map (fun x : sample => fst (fst x)) (samples_of sscanf_f l v a)
          = map now l).
{ induction l as [|c l IH]; intros v a; cbn; [reflexivity | now rewrite IH]. }
exists s, w, body.
split; [exact Hm|]. split; [exact Hs|]. split; [exact Ho|].
split; [exact Hb|]. split; [exact Hf|]. split; [exact Hd|].
split; [rewrite <- Hlines; exact Hbody|]. split; [exact Hn|].
split; [apply Htimes|].
intros Hcom Hstart Hstop Hfin.
destruct (body_reads _ _ Hbody samples eq_refl Hfin
            (footer_text e) [] (footer_reads e Hstop))
  as (back & Hread & Hnear).
rewrite app_nil_r in Hread.
exists back. split; [|split; [|exact Hnear]].
- unfold read_dataset, lines. rewrite Hd.
  rewrite header_reads by assumption. exact Hread.
- rewrite (Forall2_length Hnear). exact Hn.
Qed.

Lemma quit_key_in_tenth_cycle_witness :
let o := opts 0 false (fint 5) (fint 5) in
let last := mkCycle true (S754_finite false 5 (-5))
                    (Answer (" 12.009" ++ CRLF)) (Answer ("-0.0005" ++ CRLF))
                    (Some ESC) in
let e := lab (repeat quiet 9 ++ [last; quiet]) in
let samples := samples_of scan_decimal (repeat quiet 9 ++ [last])
                 (volt_indet e) (amp_indet e) in
exists s w body,
  main scan_decimal o e = (Returned s, w)
  /\ (s = AtEnd \/ s = AtClose)
  /\ file_open w = false /\ file_buf w = EmptyString
  /\ file_flushes w = 0%nat
  /\ file_disk w = (header_text o e ++ body ++ footer_text e)%string
  /\ body_of (map (fun x => (sample_line x ++ NL)%string) samples) body
  /\ List.length samples = 10%nat
  /\ map (fun x => fst (fst x)) samples = map now (repeat quiet 9 ++ [last])
  /\ (all_chars (is_not NLc) (comment o) = true ->
      ctime_like (ctime_start e) -> ctime_like (ctime_stop e) ->
      Forall finite_sample samples ->
      exists triples,
        read_dataset (file_disk w) = Some triples
        /\ List.length triples = 10%nat
        /\ Forall2 near4_sample triples samples).
Proof.
intros o last e.
apply (quit_key_in_tenth_cycle scan_decimal o e (repeat quiet 9) last [quiet] ESC);
  vm_compute; reflexivity.
Defined.

(** ** Undisturbed runs *)

Lemma ramp_block_keeps_step sv mv st sep st' :
ramp_block sv mv st = RampApply sep st' -> ramp st <> 0 -> ramp st' <> 0.
Proof.
unfold ramp_block. intros H Hr.
destruct (limit_reached sv mv st); [destruct (negb (dramp st))|];
  inversion H; subst; cbn; lia.
Qed.

(** Once the loop is left, more cycles add no decision. *)
Lemma ramp_decisions_stable sv mv n : forall st k,
existsb is_break (ramp_decisions n sv mv st) = true ->
ramp_decisions (n + k) sv mv st = ramp_decisions n sv mv st.
Proof.
induction n as [|n IH]; intros st k H; [discriminate|].
cbn [Nat.add ramp_decisions] in *.
destruct (ramp_block sv mv st) as [|sep st']; [reflexivity|].
cbn [existsb is_break orb] in H. f_equal. now apply IH.
Qed.

Lemma applications_bound sv mv n : forall st,
(applications (ramp_decisions n sv mv st) <= n)%nat.
Proof.
induction n as [|n IH]; intros st; cbn; [lia|].
destruct (ramp_block sv mv st) as [|sep st']; cbn; [lia|].
specialize (IH st'). lia.
Qed.

Lemma run_text_body sscanf_f ds : forall cs v a,
(applications ds <= List.length cs)%nat ->
body_with (reversals ds)
  (records_of sscanf_f (firstn (applications ds) cs) v a)
  (run_text sscanf_f ds cs v a).
Proof.
induction ds as [|[|sep st] ds IH]; intros cs v a Hlen; cbn in *.
- destruct cs; constructor.
- destruct cs; constructor.
- destruct cs as [|c cs]; cbn in Hlen; [lia|].
  cbn [firstn records_of].
  destruct sep; cbn [Nat.add].
  + apply with_separator. apply with_record. apply IH. lia.
  + change ("" ++ ?x)%string with x. apply with_record. apply IH. lia.
Qed.

Lemma reversals_plain l ds :
reversals (map (RampApply false) l ++ ds) = reversals ds.
Proof. induction l as [|x l IH]; cbn; [reflexivity | exact IH]. Qed.

Lemma applications_plain l ds :
applications (map (RampApply false) l ++ ds)
= (List.length l + applications ds)%nat.
Proof. induction l as [|x l IH]; cbn; [reflexivity | now rewrite IH]. Qed.

Section Undisturbed.

Variable sscanf_f : string -> option spec_float.

(** In a cycle without failure the ramp part of [main] does what the
    ramp block decides. *)
Lemma cycle_applies o graph c v w sep st' :
ramp (rs v) <> 0 ->
ramp_block (set_volt o) (max_volt o) (rs v) = RampApply sep st' ->
healthy c = true ->
exists v' w',
  cycle sscanf_f o graph c v w = (CycleNext v', w')
  /\ rs v' = st'
  /\ key v' = (match keyhit c with Some k => k | None => key v end)
  /\ volt v' = scan_reply sscanf_f (vout c) (volt v)
  /\ amp v' = scan_reply sscanf_f (iout c) (amp v)
  /\ file_content w'
     = (file_content w ++ (if sep then SEPARATOR else "")
        ++ record_text (now c) (volt v') (amp v'))%string
  /\ file_open w' = file_open w.
Proof.
intros Hr Hb Hh. unfold healthy in Hh.
apply andb_prop in Hh. destruct Hh as [Hh Hi].
apply andb_prop in Hh. destruct Hh as [Hs Hv].
unfold cycle, ramp_part, hp663X_set.
apply Z.eqb_neq in Hr. rewrite Hr, Hb, Hs.
set (w1 := ibwrt _ _ _).
destruct (sample_part_answered sscanf_f o graph c
            (mkVars st' (key v) (loop v) (volt v) (amp v)) w1 Hv Hi)
  as (w2 & Hsp & Hc & Ho & _).
cbn [rs key loop volt amp] in Hsp, Hc.
rewrite Hsp. eexists. exists w2. split; [reflexivity|]. cbn [rs key loop volt amp].
repeat split; auto.
- rewrite Hc. unfold w1, file_content.
  destruct sep; cbn; rewrite ?append_assoc, ?append_empty_r; reflexivity.
- rewrite Ho. unfold w1. destruct sep; reflexivity.
Qed.

Lemma cycle_breaks o graph c v w :
ramp (rs v) <> 0 ->
ramp_block (set_volt o) (max_volt o) (rs v) = RampBreak ->
cycle sscanf_f o graph c v w
= (CycleBreak (mkVars (rs v) ESC (loop v) (volt v) (amp v)), w).
Proof.
intros Hr Hb. unfold cycle, ramp_part.
apply Z.eqb_neq in Hr. now rewrite Hr, Hb.
Qed.

(** A run in which every transfer succeeds and no quit key is pressed
    follows the decisions of the ramp block, writes their text, and
    leaves the loop when the ramp block says so. *)
Lemma undisturbed_run o graph cs : forall v w,
forallb healthy cs = true -> forallb no_quit cs = true ->
again v = true -> ramp (rs v) <> 0 ->
let ds := ramp_decisions (List.length cs) (set_volt o) (max_volt o) (rs v) in
exists lr w',
  main_loop sscanf_f o graph cs v w = (lr, w')
  /\ file_content w'
     = (file_content w ++ run_text sscanf_f ds cs (volt v) (amp v))%string
  /\ file_open w' = file_open w
  /\ (existsb is_break ds = true -> exists v', lr = LoopLeft v').
Proof.
induction cs as [|c cs IH]; intros v w Hh Hq Hag Hr ds.
- exists (LoopRunning v), w. cbn. unfold file_content.
  rewrite append_empty_r. repeat split; auto. discriminate.
- cbn in Hh, Hq. apply andb_prop in Hh. destruct Hh as [Hh Hhs].
  apply andb_prop in Hq. destruct Hq as [Hq Hqs].
  unfold ds. cbn [List.length ramp_decisions main_loop].
  destruct (ramp_block (set_volt o) (max_volt o) (rs v)) as [|sep st'] eqn:Hb.
  + rewrite (cycle_breaks o graph c v w Hr Hb).
    eexists. exists w. split; [reflexivity|]. cbn. unfold file_content.
    rewrite append_empty_r. repeat split; eauto.
  + destruct (cycle_applies o graph c v w sep st' Hr Hb Hh)
      as (v1 & w1 & Hc & Hrs & Hkey & Hvolt & Hamp & Hcont & Hopen).
    rewrite Hc.
    assert (Hag1 : again v1 = true).
    { unfold again in *. rewrite Hkey. unfold no_quit, quit_key in Hq.
      destruct (keyhit c) as [k|]; [|exact Hag].
      apply negb_true_iff in Hq. apply orb_false_iff in Hq.
      destruct Hq as [-> ->]. reflexivity. }
    rewrite Hag1.
    destruct (IH v1 w1 Hhs Hqs Hag1) as (lr & w' & Hml & Hcont' & Hopen' & Hleft).
    { rewrite Hrs. eapply ramp_block_keeps_step; eassumption. }
    exists lr, w'. split; [exact Hml|].
    rewrite Hrs in *. cbn [run_text existsb is_break orb].
    rewrite <- Hvolt, <- Hamp.
    split; [|split; [congruence | exact Hleft]].
    rewrite Hcont', Hcont. now rewrite !append_assoc.
Qed.

End Undisturbed.

(** ** The dual ramp in a run of [main] *)

Lemma ramp_decisions_unique sv mv st n1 n2 :
existsb is_break (ramp_decisions n1 sv mv st) = true ->
existsb is_break (ramp_decisions n2 sv mv st) = true ->
ramp_decisions n1 sv mv st = ramp_decisions n2 sv mv st.
Proof.
intros H1 H2.
destruct (Nat.le_ge_cases n1 n2) as [H | H].
- replace n2 with (n1 + (n2 - n1))%nat by lia.
  symmetry. now apply ramp_decisions_stable.
- replace n1 with (n2 + (n1 - n2))%nat by lia.
  now apply ramp_decisions_stable.
Qed.

(** C6.  For accepted options with finite limits and a dual ramp, the
    decisions of the undisturbed run are: applications without
    separator that keep the step of the command line; then one
    application with the separator, from which on the step is the
    negated one and the dual ramp flag is cleared; then applications
    without separator; then the decision to leave the loop.  A run of
    [main] in which every transfer succeeds, no quit key is pressed and
    the ramp has the cycles to finish returns from behind the loop with
    a closed data file that holds the records of the cycles and exactly
    one segment separator. *)
Theorem dual_ramp_reverses_once o :
options_accepted o = true ->
proper32 (set_volt o) = true -> proper32 (max_volt o) = true ->
opt_ramp o <> 0 -> opt_dramp o = true ->
exists (pre post : list ramp_vars) (turn : ramp_vars),
  ramp_decisions (List.length pre + (1 + (List.length post + 1)))
    (set_volt o) (max_volt o)
    (ramp_init (opt_ramp o) (opt_dramp o) (set_volt o) (max_volt o))
  = map (RampApply false) pre
    ++ RampApply true turn :: map (RampApply false) post ++ [RampBreak]
  /\ Forall (fun v => ramp v = opt_ramp o /\ dramp v = true
                      /\ dramp_avail v = false) pre
  /\ Forall (fun v => ramp v = - opt_ramp o /\ dramp v = false
                      /\ dramp_avail v = true) (turn :: post)
  /\ forall sscanf_f e,
       reaches_loop o e = true ->
       forallb healthy (cycles e) = true ->
       forallb no_quit (cycles e) = true ->
       existsb is_break
         (ramp_decisions (List.length (cycles e)) (set_volt o) (max_volt o)
                         (rs (vars0 o e))) = true ->
       exists s w body,
         main sscanf_f o e = (Returned s, w)
         /\ (s = AtEnd \/ s = AtClose)
         /\ file_open w = false
         /\ file_disk w = (header_text o e ++ body ++ footer_text e)%string
         /\ body_with 1
              (records_of sscanf_f
                 (firstn (List.length pre + 1 + List.length post) (cycles e))
                 (volt_indet e) (amp_indet e))
              body.
Proof.
intros Hacc Hsp Hmp Hr Hdual.
destruct (dual_ramp_decisions o Hacc Hsp Hmp Hr Hdual)
  as (pre & post & turn & Hds & Hpre & Hpost).
exists pre, post, turn.
split; [exact Hds|]. split; [exact Hpre|]. split; [exact Hpost|].
intros sscanf_f e Hreach Hh Hq Henough.
destruct (prologue_reaches_loop o e Hreach)
  as (w0 & Hp & Hd0 & Hb0 & Ho0 & Hf0 & Ht).
unfold main. rewrite Hp, Ht. cbn [negb].
set (w1 := init_keyboard (fprintf_out (header_text o e) w0)).
destruct (undisturbed_run sscanf_f o (graph_on o e) (cycles e) (vars0 o e) w1)
  as (lr & w2 & Hml & Hcont & Hopen & Hleft); auto.
specialize (Hleft Henough). destruct Hleft as [v2 ->].
rewrite Hml.
destruct (main_end_file o e (graph_on o e) (reset_on o) (rs v2)
            (fclose_out (fprintf_out (footer_text e) w2)))
  as (s & w & Hend & Hs & Hd & Hb & Ho & Hf).
rewrite Hend.
set (ds := map (RampApply false) pre
           ++ RampApply true turn :: map (RampApply false) post ++ [RampBreak]) in *.
assert (Hsame : ramp_decisions (List.length (cycles e)) (set_volt o) (max_volt o)
                  (rs (vars0 o e)) = ds).
{ rewrite <- Hds. apply ramp_decisions_unique; [exact Henough|].
  rewrite Hds. unfold ds. rewrite existsb_app. cbn [existsb].
  rewrite existsb_app. cbn. now rewrite !orb_true_r. }
rewrite Hsame in *.
assert (Hrev : reversals ds = 1%nat).
{ unfold ds. rewrite reversals_plain. cbn [reversals].
  now rewrite reversals_plain. }
assert (Happ : applications ds = (List.length pre + 1 + List.length post)%nat).
{ unfold ds. rewrite applications_plain. cbn [applications].
  rewrite applications_plain. cbn. lia. }
assert (Hlen : (applications ds <= List.length (cycles e))%nat).
{ rewrite <- Hsame. apply applications_bound. }
exists s, w, (run_text sscanf_f ds (cycles e) (volt_indet e) (amp_indet e)).
split; [reflexivity|]. split; [exact Hs|]. split; [rewrite Ho; reflexivity|].
split.
- rewrite Hd. cbn. rewrite <- append_assoc.
  change (file_disk w2 ++ file_buf w2)%string with (file_content w2).
  rewrite Hcont. unfold w1, file_content. cbn. rewrite Hd0, Hb0. cbn.
  now rewrite !append_assoc.
- rewrite <- Happ, <- Hrev. apply run_text_body. exact Hlen.
Qed.

Lemma dual_ramp_reverses_once_witness :
let o := opts 1000 true f0 (fint 5) in
let e := lab (repeat quiet 14) in
exists (pre post : list ramp_vars) (turn : ramp_vars),
  ramp_decisions (List.length pre + (1 + (List.length post + 1)))
    (set_volt o) (max_volt o)
    (ramp_init (opt_ramp o) (opt_dramp o) (set_volt o) (max_volt o))
  = map (RampApply false) pre
    ++ RampApply true turn :: map (RampApply false) post ++ [RampBreak]
  /\ Forall (fun v => ramp v = opt_ramp o /\ dramp v = true
                      /\ dramp_avail v = false) pre
  /\ Forall (fun v => ramp v = - opt_ramp o /\ dramp v = false
                      /\ dramp_avail v = true) (turn :: post)
  /\ exists s w body,
       main scan_decimal o e = (Returned s, w)
       /\ (s = AtEnd \/ s = AtClose)
       /\ file_open w = false
       /\ file_disk w = (header_text o e ++ body ++ footer_text e)%string
       /\ body_with 1
            (records_of scan_decimal
               (firstn (List.length pre + 1 + List.length post) (cycles e))
               (volt_indet e) (amp_indet e))
            body.
Proof.
intros o e.
destruct (dual_ramp_reverses_once o) as (pre & post & turn & Hds & Hpre & Hpost & Hrun);
  try reflexivity; [discriminate|].
exists pre, post, turn.
split; [exact Hds|]. split; [exact Hpre|]. split; [exact Hpost|].
apply Hrun; vm_compute; reflexivity.
Defined.

(** ** The commands on the bus *)

Ltac bus_list :=
  unfold bus_grows; cbn; rewrite <- ?app_assoc;
  first [ eexists; reflexivity | exists []; now rewrite app_nil_r ].

Section Bus.

Variable sscanf_f : string -> option spec_float.

Lemma bus_grows_refl w : bus_grows w w.
Proof. exists []. now rewrite app_nil_r. Qed.

Lemma bus_grows_trans w1 w2 w3 :
bus_grows w1 w2 -> bus_grows w2 w3 -> bus_grows w1 w3.
Proof.
intros [l1 H1] [l2 H2]. exists (l1 ++ l2). now rewrite H2, H1, app_assoc.
Qed.

Lemma sample_part_bus o graph c v w r w' :
sample_part sscanf_f o graph c v w = (r, w') -> bus_grows w w'.
Proof.
unfold sample_part, hp663X_read, refresh, leave_on_failure.
intros H; crunch; bus_list.
Qed.

Lemma ramp_part_bus o c v w r w' :
ramp_part o c v w = (r, w') -> bus_grows w w'.
Proof.
unfold ramp_part, hp663X_set, leave_on_failure.
intros H; crunch; bus_list.
Qed.

Lemma cycle_bus o graph c v w r w' :
cycle sscanf_f o graph c v w = (r, w') -> bus_grows w w'.
Proof.
unfold cycle. intros H.
destruct (ramp_part o c v w) as [r1 w1] eqn:Hr.
apply ramp_part_bus in Hr.
destruct r1; try (inversion H; subst; exact Hr).
apply sample_part_bus in H. eapply bus_grows_trans; eassumption.
Qed.

Lemma main_loop_bus o graph cs : forall v w r w',
main_loop sscanf_f o graph cs v w = (r, w') -> bus_grows w w'.
Proof.
induction cs as [|c cs IH]; intros v w r w' H; cbn in H.
- inversion H; subst. apply bus_grows_refl.
- destruct (cycle sscanf_f o graph c v w) as [cr w1] eqn:Hc.
  apply cycle_bus in Hc.
  destruct cr as [v1|v1|s|]; try (inversion H; subst; exact Hc).
  destruct (again v1); [|inversion H; subst; exact Hc].
  apply IH in H. eapply bus_grows_trans; eassumption.
Qed.

Lemma main_end_bus o e graph reset v w r w' :
main_end o e graph reset v w = (r, w') -> bus_grows w w'.
Proof.
unfold main_end, hp663X_close.
intros H; crunch; bus_list.
Qed.

Lemma prologue_bus o e :
reaches_loop o e = true ->
exists w0,
  prologue o e = (None, w0) /\ timed o = true
  /\ bus w0
     = (if reset_on o then [(RESET_CMD, true)] else [])
       ++ [(setup_text (setup_volt o) (set_amp o) (set_limvolt o) (do_ocp o), true)].
Proof.
unfold reaches_loop, prologue, hp663X_open, hp663X_setup, reset_on.
intros H.
destruct (timed o), (ibdev_ok e), (setup_ok e); try discriminate H;
  destruct (do_reset o), (open_reset_ok e); try discriminate H;
  destruct (graph_on o e); cbn; eexists; (split; [reflexivity|]); cbn; auto.
Qed.

(** Accepted options do not start a ramp beyond its limit. *)
Lemma accepted_start_within o :
options_accepted o = true -> opt_ramp o <> 0 ->
limit_reached (set_volt o) (max_volt o)
  (ramp_init (opt_ramp o) (opt_dramp o) (set_volt o) (max_volt o)) = false.
Proof.
unfold options_accepted, limit_reached, ramp_init, fgt, flt. intros H Hr.
repeat (apply andb_prop in H; destruct H as [H ?]).
match goal with
| H1 : negb (negb (opt_ramp o =? 0) && SFltb (max_volt o) (set_volt o)) = true |- _ =>
    rename H1 into Hlim
end.
apply Z.eqb_neq in Hr. rewrite Hr in Hlim. cbn in Hlim.
apply negb_true_iff in Hlim. cbn.
destruct (0 <? opt_ramp o) eqn:Hp; cbn.
- rewrite Hlim. cbn. destruct (opt_ramp o <? 0) eqn:Hn; [lia | reflexivity].
- rewrite Hlim. now rewrite andb_false_r.
Qed.

End Bus.

(** C10, the claim as stated fails in its last part: with -u 1 -U 2
    -r -1000 the options are accepted, the setup command carries the
    voltage 1.0, the downward stepping starts from 2.0, and the first
    setpoint applied in the loop is 2.0 - 1.0 = 1.0, the same voltage as
    in the setup command. *)
Lemma downward_first_setpoint_equals_setup_voltage :
let o := opts (-1000) false (fint 1) (fint 2) in
let r := main scan_decimal o (lab [quiet]) in
options_accepted o = true
/\ ramp_volt (rs (vars0 o (lab [quiet]))) = fint 2
/\ ramp_step (fint 2) (-1000) = fint 1
/\ vsets (snd r)
   = [setup_text (fint 1) (fint MAXAMP) (fint MAXVOLT) false;
      set_text "VSET" (fint 1)]
/\ map (prefix "VSET 1.000000") (vsets (snd r)) = [true; true].
Proof. vm_compute. repeat split; reflexivity. Qed.

(** C10, amended.  For accepted options and a run that reaches the
    loop, the first command on the bus after the optional reset is the
    combined setup command, with the voltage 0.0 when the ramp step is
    positive and with set_volt otherwise (also for a negative step); for
    a ramp the next command is the VSET of the first cycle, whose
    voltage is one step away from set_volt for a positive step and one
    step away from max_volt for a negative step.  (Nothing is said on
    whether that voltage differs from the one of the setup command.) *)
Theorem setup_voltage_and_first_setpoint sscanf_f o e c rest :
options_accepted o = true ->
reaches_loop o e = true ->
cycles e = c :: rest ->
exists tail,
  bus (snd (main sscanf_f o e))
  = (if reset_on o then [(RESET_CMD, true)] else [])
    ++ (setup_text (if 0 <? opt_ramp o then f0 else set_volt o)
                   (set_amp o) (set_limvolt o) (do_ocp o), true)
    :: (if opt_ramp o =? 0 then tail
        else (set_text "VSET"
                (ramp_step (if 0 <? opt_ramp o then set_volt o else max_volt o)
                           (opt_ramp o)), vset_ok c) :: tail).
Proof.
intros Hacc Hreach Hcs.
destruct (prologue_bus o e Hreach) as (w0 & Hp & Ht & Hbus).
unfold main. rewrite Hp, Ht, Hcs. cbn [negb].
set (w1 := init_keyboard (fprintf_out (header_text o e) w0)).
assert (Hb1 : bus w1 = bus w0) by reflexivity.
assert (Hfin : forall lr w2,
           exists wf,
             snd (match lr with
                  | LoopLeft v =>
                      main_end o e (graph_on o e) (reset_on o) (rs v)
                        (fclose_out (fprintf_out (footer_text e) w2))
                  | LoopReturn s => (Returned s, w2)
                  | LoopRunning _ => (Running, w2)
                  | LoopOverrun => (Overran, w2)
                  end) = wf /\ bus_grows w2 wf).
{ intros lr w2. eexists. split; [reflexivity|].
  destruct lr as [v|s|v|]; cbn; try apply bus_grows_refl.
  destruct (main_end _ _ _ _ _ _) as [r wf] eqn:He.
  apply main_end_bus in He. exact He. }
destruct (opt_ramp o =? 0) eqn:Hr0.
- (* no ramp *)
  destruct (main_loop _ _ _ _ _ _) as [lr w2] eqn:Hl.
  apply main_loop_bus in Hl.
  destruct (Hfin lr w2) as (wf & Hwf & Hg).
  destruct (bus_grows_trans _ _ _ Hl Hg) as [l Hl'].
  exists l.
  match goal with |- bus (snd ?x) = _ => change (snd x) with (snd
    match lr with
    | LoopLeft v =>
        main_end o e (graph_on o e) (reset_on o) (rs v)
          (fclose_out (fprintf_out (footer_text e) w2))
    | LoopReturn s => (Returned s, w2)
    | LoopRunning _ => (Running, w2)
    | LoopOverrun => (Overran, w2)
    end) end.
  rewrite Hwf, Hl', Hb1, Hbus. unfold setup_volt.
  now rewrite <- app_assoc.
- (* ramp: the first cycle sends VSET *)
  apply Z.eqb_neq in Hr0.
  pose proof (accepted_start_within o Hacc Hr0) as Hlim.
  cbn [main_loop].
  assert (Hc : exists cr wc,
             cycle sscanf_f o (graph_on o e) c (vars0 o e) w1 = (cr, wc)
             /\ bus_grows
                  (ibwrt (set_text "VSET"
                            (ramp_step (if 0 <? opt_ramp o then set_volt o
                                        else max_volt o) (opt_ramp o)))
                         (vset_ok c) w1) wc).
  { unfold cycle, ramp_part, ramp_block, hp663X_set. cbn [vars0 rs].
    rewrite Hlim. cbn [ramp ramp_init ramp_volt].
    apply Z.eqb_neq in Hr0. rewrite Hr0.
    destruct (vset_ok c).
    - destruct (sample_part _ _ _ _ _ _) as [cr wc] eqn:Hs.
      exists cr, wc. split; [reflexivity|].
      apply sample_part_bus in Hs. exact Hs.
    - eexists. eexists. split; [reflexivity|]. bus_list. }
  destruct Hc as (cr & wc & Hc & Hgc). rewrite Hc.
  assert (Hloop : exists lr w2,
             match cr with
             | CycleNext v' =>
                 if again v'
                 then main_loop sscanf_f o (graph_on o e) rest v' wc
                 else (LoopLeft v', wc)
             | CycleBreak v' => (LoopLeft v', wc)
             | CycleReturn s => (LoopReturn s, wc)
             | CycleOverrun => (LoopOverrun, wc)
             end = (lr, w2) /\ bus_grows wc w2).
  { destruct cr as [v'|v'|s|]; try (eexists; eexists; split;
                                    [reflexivity | apply bus_grows_refl]).
    destruct (again v'); [|eexists; eexists; split;
                            [reflexivity | apply bus_grows_refl]].
    destruct (main_loop _ _ _ _ _ _) as [lr w2] eqn:Hl.
    exists lr, w2. split; [reflexivity|].
    apply main_loop_bus in Hl. exact Hl. }
  destruct Hloop as (lr & w2 & Hloop & Hg2). rewrite Hloop.
  destruct (Hfin lr w2) as (wf & Hwf & Hg).
  destruct (bus_grows_trans _ _ _ Hgc (bus_grows_trans _ _ _ Hg2 Hg)) as [l Hl'].
  exists l. rewrite Hwf, Hl'. cbn [bus ibwrt]. rewrite Hb1, Hbus.
  unfold setup_volt. rewrite <- !app_assoc. reflexivity.
Qed.

Lemma setup_voltage_and_first_setpoint_witness :
let o := opts (-500) false (fint 1) (fint 2) in
let e := lab [quiet; quiet] in
exists tail,
  bus (snd (main scan_decimal o e))
  = [(RESET_CMD, true)]
    ++ (setup_text (fint 1) (fint MAXAMP) (fint MAXVOLT) false, true)
    :: (set_text "VSET" (ramp_step (fint 2) (-500)), true) :: tail.
Proof.
intros o e.
apply (setup_voltage_and_first_setpoint scan_decimal o e quiet [quiet]);
  vm_compute; reflexivity.
Defined.

(** ** [strclean] *)

Lemma strclean_buf_idempotent buf :
strclean_buf (strclean_buf buf) = strclean_buf buf.
Proof.
induction buf as [|c rest IH]; [reflexivity|].
cbn. destruct (is_eol c) eqn:E; [reflexivity|].
cbn. rewrite E. now rewrite IH.
Qed.

Lemma length_strclean_buf buf :
(String.length (strclean_buf buf) <= String.length buf)%nat.
Proof.
induction buf as [|c rest IH]; [apply Nat.le_refl|].
cbn. destruct (is_eol c); cbn; [apply Nat.le_0_l | now apply (proj1 (Nat.succ_le_mono _ _))].
Qed.

Lemma strclean_buf_one_line buf :
all_chars (fun c => negb (is_eol c)) (strclean_buf buf) = true.
Proof.
induction buf as [|c b IH]; [reflexivity|].
cbn [strclean_buf]. destruct (is_eol c) eqn:E; [reflexivity|].
cbn [all_chars]. now rewrite E, IH.
Qed.

(** X1.  [strclean] cuts the buffer in front of its first CR or LF and
    leaves a buffer without one alone: what it leaves is the longest
    beginning of the text that holds neither CR nor LF, the returned
    value is the length of that text, and a second call changes
    nothing. *)
Theorem strclean_cuts_at_first_line_end buf :
exists rest,
  buf = (snd (strclean buf) ++ rest)%string
  /\ all_chars (fun c => negb (is_eol c)) (snd (strclean buf)) = true
  /\ (rest = EmptyString
      \/ exists c r, rest = String c r /\ is_eol c = true)
  /\ fst (strclean buf) = Z.of_nat (String.length (snd (strclean buf)))
  /\ strclean (snd (strclean buf)) = strclean buf.
Proof.
unfold strclean. cbn [fst snd]. rewrite strclean_buf_idempotent.
assert (H : exists rest,
  buf = (strclean_buf buf ++ rest)%string
  /\ all_chars (fun c => negb (is_eol c)) (strclean_buf buf) = true
  /\ (rest = EmptyString \/ exists c r, rest = String c r /\ is_eol c = true)).
{ induction buf as [|c b IH].
  - exists EmptyString. repeat split. now left.
  - cbn [strclean_buf]. destruct (is_eol c) eqn:E.
    + exists (String c b). repeat split. right. now exists c, b.
    + destruct IH as (rest & Hb & Hall & Hrest).
      exists rest. split; [|split].
      * change (String c (strclean_buf b) ++ rest)%string
          with (String c (strclean_buf b ++ rest)%string).
        now rewrite <- Hb.
      * cbn [all_chars]. now rewrite E, Hall.
      * exact Hrest. }
destruct H as (rest & H1 & H2 & H3).
exists rest. repeat split; assumption.
Qed.

(** ** [GetOpt] *)

Lemma code_inj c c' : code c = code c' -> c = c'.
Proof.
unfold code. intros H. apply Nat2Z.inj in H.
rewrite <- (ascii_nat_embedding c), <- (ascii_nat_embedding c'). now rewrite H.
Qed.

Lemma code_range c : 0 <= code c < 256.
Proof.
unfold code. pose proof (nat_ascii_bounded c). lia.
Qed.

Lemma arg_word pre w post :
arg (pre ++ w :: post) (Z.of_nat (List.length pre)) = Some w.
Proof.
unfold arg. destruct (Z.ltb_spec (Z.of_nat (List.length pre)) 0) as [H|H]; [lia|].
rewrite Nat2Z.id, nth_error_app2 by apply Nat.le_refl.
now rewrite Nat.sub_diag.
Qed.

Lemma arg_next pre w a post :
arg (pre ++ w :: a :: post) (Z.of_nat (List.length pre) + 1) = Some a.
Proof.
replace (pre ++ w :: a :: post) with ((pre ++ [w]) ++ a :: post)
  by now rewrite <- app_assoc.
replace (Z.of_nat (List.length pre) + 1) with (Z.of_nat (List.length (pre ++ [w])))
  by (rewrite length_app; cbn [List.length]; lia).
apply arg_word.
Qed.

Lemma arg_some argv i w :
arg argv i = Some w -> 0 <= i < Z.of_nat (List.length argv) /\ In w argv.
Proof.
unfold arg. destruct (Z.ltb_spec i 0) as [H|H]; [discriminate|].
intros Hn. split.
- assert (Hl : (Z.to_nat i < List.length argv)%nat)
    by (apply nth_error_Some; congruence).
  lia.
- eapply nth_error_In. exact Hn.
Qed.

Lemma arg_skipn argv i w :
arg argv i = Some w ->
skipn (Z.to_nat i) argv = w :: skipn (Z.to_nat (i + 1)) argv.
Proof.
unfold arg. destruct (Z.ltb_spec i 0) as [H|H]; [discriminate|].
replace (Z.to_nat (i + 1)) with (S (Z.to_nat i)) by lia.
generalize (Z.to_nat i). clear H i. intros n. revert argv.
induction n as [|n IH]; intros [|a l] Hn; try discriminate.
- cbn in Hn. inversion Hn. reflexivity.
- cbn in Hn. cbn [skipn]. now apply IH.
Qed.

Lemma words_weight_skipn_le argv n :
(words_weight (skipn (S n) argv) <= words_weight (skipn n argv))%nat.
Proof.
revert argv. induction n as [|n IH]; intros [|a l].
- cbn. lia.
- change (skipn 1 (a :: l)) with l. cbn. lia.
- cbn. lia.
- change (skipn (S (S n)) (a :: l)) with (skipn (S n) l).
  change (skipn (S n) (a :: l)) with (skipn n l). apply IH.
Qed.

Lemma words_weight_skipn argv n :
(words_weight (skipn n argv) <= words_weight argv)%nat.
Proof.
induction n as [|n IH]; [apply Nat.le_refl|].
etransitivity; [apply words_weight_skipn_le | exact IH].
Qed.

(** The word that [next_word] goes on with. *)
Lemma next_word_inr argv g p :
next_word argv g = inr p ->
arg argv (optind g) = Some (String SW p).
Proof.
unfold next_word. destruct (arg argv (optind g)) as [[|c q]|]; try discriminate.
destruct (Ascii.eqb c SW) eqn:E; cbn [negb]; [|discriminate].
apply Ascii.eqb_eq in E. subst c.
destruct q as [|c' q']; [intros H; now inversion H|].
destruct (Ascii.eqb c' SW); [discriminate|]. intros H. now inversion H.
Qed.

Lemma GetOpt_optind argv optionS g :
optind g <= optind (snd (GetOpt argv optionS g))
         <= Z.max (optind g) (Z.of_nat (List.length argv)).
Proof.
unfold GetOpt.
destruct (Z.ltb_spec (optind g) (Z.of_nat (List.length argv))) as [Hlt|Hge];
  [|cbn; lia].
assert (Hw : forall r, next_word argv g = inl r -> optind g <= r <= optind g + 1).
{ unfold next_word. intros r.
  destruct (arg argv (optind g)) as [[|c q]|]; try (intros H; inversion H; lia).
  destruct (negb (Ascii.eqb c SW)); [intros H; inversion H; lia|].
  destruct q as [|c' q']; [discriminate|].
  destruct (Ascii.eqb c' SW); [intros H; inversion H; lia | discriminate]. }
destruct (match letP g with Some p => inr p | None => next_word argv g end)
  as [r|[|ch p]] eqn:Hs.
- assert (optind g <= r <= optind g + 1).
  { destruct (letP g); [discriminate | now apply Hw]. }
  cbn. lia.
- cbn. lia.
- destruct (Ascii.eqb ch ":"); [cbn; lia|].
  destruct (strchr optionS ch) as [optP|]; [|cbn; lia].
  destruct (takes_argument optP); destruct p as [|c' p'];
    try (cbn; lia).
  destruct (Z.leb_spec (Z.of_nat (List.length argv)) (optind g + 1)); cbn; lia.
Qed.

(** X2.  [optind] never goes back and never goes beyond [argc]: when
    it lies between 0 and [argc] before a call of [GetOpt], it lies
    between its old value and [argc] after the call, so that
    [argv[optind]] is a word or the closing NULL. *)
Theorem GetOpt_keeps_optind_within_argv argv optionS g :
0 <= optind g <= Z.of_nat (List.length argv) ->
optind g <= optind (snd (GetOpt argv optionS g)) <= Z.of_nat (List.length argv)
/\ (arg argv (optind (snd (GetOpt argv optionS g))) = None
    <-> optind (snd (GetOpt argv optionS g)) = Z.of_nat (List.length argv)).
Proof.
intros H. pose proof (GetOpt_optind argv optionS g) as Hg.
split; [lia|]. unfold arg.
destruct (Z.ltb_spec (optind (snd (GetOpt argv optionS g))) 0) as [Hn|Hn]; [lia|].
rewrite nth_error_None. lia.
Qed.

Lemma GetOpt_keeps_optind_within_argv_witness :
let argv := ["hp6633"; "-U"; "5"; "out.dat"]%string in
let g' := snd (GetOpt argv OPTIONS getopt_vars0) in
optind g' = 3
/\ optind getopt_vars0 <= optind g' <= Z.of_nat (List.length argv)
/\ (arg argv (optind g') = None <-> optind g' = Z.of_nat (List.length argv)).
Proof.
intros argv g'. split; [reflexivity|].
apply (GetOpt_keeps_optind_within_argv argv OPTIONS getopt_vars0).
cbn. lia.
Defined.

(** The texts that are the end of a word of the command line. *)
Lemma tail_of_word_arg argv i w pre p :
arg argv i = Some w -> w = (pre ++ p)%string -> tail_of_word argv p.
Proof.
intros Ha Hw. exists w, pre. split; [|exact Hw]. now apply (arg_some argv i).
Qed.

Lemma tail_of_tail argv c p :
tail_of_word argv (String c p) -> tail_of_word argv p.
Proof.
intros (w & pre & Hin & Hw). exists w, (pre ++ String c EmptyString)%string.
split; [exact Hin|]. rewrite Hw, append_assoc. reflexivity.
Qed.

Lemma GetOpt_result argv optionS g :
getopt_ok argv g ->
let r := fst (GetOpt argv optionS g) in
let g' := snd (GetOpt argv optionS g) in
getopt_ok argv g'
/\ ((r = EOF /\ optarg g' = None /\ letP g' = None)
    \/ (r = code "~" /\ optarg g' = None)
    \/ (exists c, r = code c /\ plain_letter optionS c = true
                  /\ optarg g' = None)
    \/ (exists c a, r = code c /\ argument_letter optionS c = true
                    /\ optarg g' = Some a /\ tail_of_word argv a
                    /\ letP g' = None)).
Proof.
intros [Hpos Hok]. cbv zeta.
assert (Hpos' : 0 <= optind (snd (GetOpt argv optionS g)))
  by (pose proof (GetOpt_optind argv optionS g); lia).
revert Hpos'. unfold getopt_ok, GetOpt.
destruct (Z.ltb_spec (optind g) (Z.of_nat (List.length argv))) as [Hlt|Hge];
  [|cbn; intros; split; [split; [lia | exact I] | left; auto]].
assert (Hp : forall p,
  match letP g with Some p => inr p | None => next_word argv g end = inr p ->
  tail_of_word argv p).
{ intros p. destruct (letP g) as [q|].
  - intros H. inversion H. subst. exact Hok.
  - intros H. apply next_word_inr in H.
    eapply tail_of_word_arg; [exact H|].
    instantiate (1 := String SW EmptyString). reflexivity. }
destruct (match letP g with Some p => inr p | None => next_word argv g end)
  as [r|[|ch p]] eqn:Hs.
- cbn. intros; split; [split; [lia | exact I] | left; auto].
- cbn. intros; split; [split; [lia | exact I] | left; auto].
- specialize (Hp _ eq_refl). apply tail_of_tail in Hp.
  unfold plain_letter, argument_letter.
  destruct (Ascii.eqb ch ":") eqn:Hc.
  { cbn. intros; split; [split; [lia | exact Hp] | right; left; auto]. }
  destruct (strchr optionS ch) as [optP|] eqn:Hf.
  2:{ cbn. intros; split; [split; [lia | exact Hp] | right; left; auto]. }
  destruct (takes_argument optP) eqn:Ht.
  + destruct p as [|c' p'].
    * destruct (Z.leb_spec (Z.of_nat (List.length argv)) (optind g + 1)) as [Hl|Hl].
      -- cbn. intros; split; [split; [lia | exact Hp] | right; left; auto].
      -- cbn. intros; split; [split; [lia | exact I]|]. right. right. right.
         destruct (arg argv (optind g + 1)) as [a|] eqn:Ha.
         ++ exists ch, a. rewrite Hc, Hf, Ht. repeat split.
            eapply tail_of_word_arg; [exact Ha|].
            instantiate (1 := EmptyString). reflexivity.
         ++ exfalso. unfold arg in Ha.
            destruct (Z.ltb_spec (optind g + 1) 0) as [Hn|Hn]; [lia|].
            apply nth_error_None in Ha. lia.
    * cbn. intros; split; [split; [lia | exact I]|]. right. right. right.
      exists ch, (String c' p'). rewrite Hc, Hf, Ht. repeat split. exact Hp.
  + destruct p as [|c' p'].
    * cbn. intros; split; [split; [lia | exact I]|]. right. right. left.
      exists ch. rewrite Hc, Hf, Ht. repeat split.
    * cbn. intros; split; [split; [lia | exact Hp]|]. right. right. left.
      exists ch. rewrite Hc, Hf, Ht. repeat split.
Qed.

(** X3.  What a call of [GetOpt] returns: EOF, the character '~' after an
    error, or a letter of [optionS] that is not the colon.  [optarg] is
    set exactly for the letters that [optionS] marks with a colon, and
    then it is a word of the command line or the end of one; in every
    other case it is NULL.  After EOF and after a letter with its
    argument the next call starts with a new word. *)
Theorem GetOpt_returns_letters_of_optionS argv optionS g :
getopt_ok argv g ->
let r := fst (GetOpt argv optionS g) in
let g' := snd (GetOpt argv optionS g) in
getopt_ok argv g'
/\ ((r = EOF /\ optarg g' = None /\ letP g' = None)
    \/ (r = code "~" /\ optarg g' = None)
    \/ (exists c, r = code c /\ plain_letter optionS c = true
                  /\ optarg g' = None)
    \/ (exists c a, r = code c /\ argument_letter optionS c = true
                    /\ optarg g' = Some a /\ tail_of_word argv a
                    /\ letP g' = None)).
Proof. apply GetOpt_result. Qed.

Lemma GetOpt_returns_letters_of_optionS_witness :
let argv := ["hp6633"; "-nu5"; "out.dat"]%string in
let g := mkGetopt 1 (Some "u5"%string) None in
getopt_ok argv g
/\ (let r := fst (GetOpt argv OPTIONS g) in
    let g' := snd (GetOpt argv OPTIONS g) in
    getopt_ok argv g'
    /\ ((r = EOF /\ optarg g' = None /\ letP g' = None)
        \/ (r = code "~" /\ optarg g' = None)
        \/ (exists c, r = code c /\ plain_letter OPTIONS c = true
                      /\ optarg g' = None)
        \/ (exists c a, r = code c /\ argument_letter OPTIONS c = true
                        /\ optarg g' = Some a /\ tail_of_word argv a
                        /\ letP g' = None))).
Proof.
intros argv g.
assert (Hok : getopt_ok argv g).
{ split; [cbn; lia|]. exists "-nu5"%string, "-n"%string. cbn. auto. }
split; [exact Hok|].
exact (GetOpt_returns_letters_of_optionS argv OPTIONS g Hok).
Defined.

(** A call that returns a letter has read at least one character of
    the command line. *)
Lemma GetOpt_reads argv optionS g :
fst (GetOpt argv optionS g) <> EOF ->
fst (GetOpt argv optionS g) <> code "~" ->
(unread argv (snd (GetOpt argv optionS g)) < unread argv g)%nat.
Proof.
unfold GetOpt.
destruct (Z.ltb_spec (optind g) (Z.of_nat (List.length argv))) as [Hlt|Hge];
  [|cbn; congruence].
assert (Hu : forall p,
  match letP g with Some p => inr p | None => next_word argv g end = inr p ->
  (String.length p + words_weight (skipn (Z.to_nat (optind g + 1)) argv)
   <= unread argv g)%nat).
{ intros p. unfold unread. destruct (letP g) as [q|].
  - intros H. inversion H. subst. apply Nat.le_refl.
  - intros H. apply next_word_inr in H. rewrite (arg_skipn _ _ _ H).
    cbn [words_weight String.length]. lia. }
destruct (match letP g with Some p => inr p | None => next_word argv g end)
  as [r|[|ch p]] eqn:Hs; try (cbn; congruence).
specialize (Hu _ eq_refl). cbn [String.length] in Hu.
destruct (Ascii.eqb ch ":"); [cbn; congruence|].
destruct (strchr optionS ch) as [optP|]; [|cbn; congruence].
pose proof (words_weight_skipn_le argv (Z.to_nat (optind g + 1))) as Hle.
destruct (takes_argument optP); destruct p as [|c' p'].
- destruct (Z.leb_spec (Z.of_nat (List.length argv)) (optind g + 1));
    [cbn; congruence|].
  intros _ _. unfold unread at 1. cbn [snd letP optind].
  destruct (Z.le_gt_cases 0 (optind g + 1)) as [Hn|Hn].
  + replace (Z.to_nat (optind g + 1 + 1)) with (S (Z.to_nat (optind g + 1))) by lia.
    cbn [String.length] in Hu. lia.
  + replace (Z.to_nat (optind g + 1 + 1)) with (Z.to_nat (optind g + 1)) by lia.
    cbn [String.length] in Hu. lia.
- intros _ _. unfold unread at 1. cbn [snd letP optind]. cbn [String.length] in Hu. lia.
- intros _ _. unfold unread at 1. cbn [snd letP optind]. cbn [String.length] in Hu. lia.
- intros _ _. unfold unread at 1. cbn [snd letP optind String.length] in *. lia.
Qed.

(** ** The forms of options that [GetOpt] reads *)

Lemma length_words (pre : list string) w post :
Z.of_nat (List.length pre) < Z.of_nat (List.length (pre ++ w :: post)).
Proof. rewrite length_app. cbn [List.length]. lia. Qed.

(** A word that starts with the switch character and goes on with
    another character is entered behind the switch character. *)
Lemma next_word_option pre c p post g :
optind g = Z.of_nat (List.length pre) -> c <> SW ->
next_word (pre ++ String SW (String c p) :: post) g = inr (String c p).
Proof.
intros Hi Hc. unfold next_word. rewrite Hi, arg_word.
rewrite Ascii.eqb_refl. cbn [negb].
destruct (Ascii.eqb c SW) eqn:E; [apply Ascii.eqb_eq in E; contradiction|].
reflexivity.
Qed.

Lemma argument_letter_found optionS c :
argument_letter optionS c = true ->
Ascii.eqb c ":" = false
/\ exists optP, strchr optionS c = Some optP /\ takes_argument optP = true.
Proof.
unfold argument_letter. intros H. apply andb_prop in H. destruct H as [H1 H2].
apply negb_true_iff in H1. split; [exact H1|].
destruct (strchr optionS c) as [optP|]; [|discriminate]. now exists optP.
Qed.

Lemma plain_letter_found optionS c :
plain_letter optionS c = true ->
Ascii.eqb c ":" = false
/\ exists optP, strchr optionS c = Some optP /\ takes_argument optP = false.
Proof.
unfold plain_letter. intros H. apply andb_prop in H. destruct H as [H1 H2].
apply negb_true_iff in H1. split; [exact H1|].
destruct (strchr optionS c) as [optP|]; [|discriminate].
exists optP. split; [reflexivity|]. now apply negb_true_iff.
Qed.

(** X4.  The argument of an option may follow its letter in the same word
    or be the next word; [GetOpt] delivers the same letter and the same
    [optarg] for both forms and leaves [optind] behind what it read.  A
    separate argument is taken as it stands, be it empty or an option
    word itself. *)
Theorem GetOpt_argument_attached_or_separate optionS c a pre post g :
argument_letter optionS c = true -> c <> SW ->
optind g = Z.of_nat (List.length pre) -> letP g = None ->
(a <> EmptyString ->
 GetOpt (pre ++ String SW (String c a) :: post) optionS g
 = (code c, mkGetopt (optind g + 1) None (Some a)))
/\ GetOpt (pre ++ String SW (String c EmptyString) :: a :: post) optionS g
   = (code c, mkGetopt (optind g + 2) None (Some a)).
Proof.
intros Hl Hc Hi Hp.
destruct (argument_letter_found _ _ Hl) as (Hcol & optP & Hf & Ht).
split.
- intros Ha. unfold GetOpt. rewrite Hp, (next_word_option pre c a post g Hi Hc).
  rewrite Hi at 1.
  destruct (Z.ltb_spec (Z.of_nat (List.length pre))
              (Z.of_nat (List.length (pre ++ String SW (String c a) :: post))))
    as [_|Hge]; [|pose proof (length_words pre (String SW (String c a)) post); lia].
  rewrite Hcol, Hf, Ht. destruct a; [contradiction | reflexivity].
- unfold GetOpt.
  rewrite Hp, (next_word_option pre c EmptyString (a :: post) g Hi Hc).
  rewrite Hi at 1.
  destruct (Z.ltb_spec (Z.of_nat (List.length pre))
              (Z.of_nat (List.length (pre ++ String SW (String c EmptyString) :: a :: post))))
    as [_|Hge];
    [|pose proof (length_words pre (String SW (String c EmptyString)) (a :: post)); lia].
  rewrite Hcol, Hf, Ht.
  destruct (Z.leb_spec
              (Z.of_nat (List.length (pre ++ String SW (String c EmptyString) :: a :: post)))
              (optind g + 1)) as [Hle|_].
  { rewrite length_app in Hle. cbn [List.length] in Hle. lia. }
  rewrite Hi, arg_next. f_equal. f_equal. lia.
Qed.

Lemma GetOpt_argument_attached_or_separate_witness :
let g := getopt_vars0 in
(GetOpt ["hp6633"; "-u5"; "out.dat"]%string OPTIONS g
 = (code "u", mkGetopt 2 None (Some "5"%string)))
/\ GetOpt ["hp6633"; "-u"; "5"; "out.dat"]%string OPTIONS g
   = (code "u", mkGetopt 3 None (Some "5"%string)).
Proof.
intros g.
destruct (GetOpt_argument_attached_or_separate OPTIONS "u"%char "5"%string
            ["hp6633"%string] ["out.dat"%string] g)
  as [H1 H2]; try reflexivity; try discriminate.
split; [apply H1; discriminate | exact H2].
Defined.

(** X5.  The two errors of [GetOpt]: a character behind the switch character
    that is the colon or does not occur in [optionS], and an option
    letter at the very end of the command line whose argument is
    missing.  Both return '~' and leave [optarg] NULL. *)
Theorem GetOpt_reports_errors optionS c p pre post g :
optind g = Z.of_nat (List.length pre) -> letP g = None -> c <> SW ->
(plain_letter optionS c = false -> argument_letter optionS c = false ->
 GetOpt (pre ++ String SW (String c p) :: post) optionS g
 = (code "~", mkGetopt (optind g) (Some p) None))
/\ (argument_letter optionS c = true ->
    GetOpt (pre ++ [String SW (String c EmptyString)]) optionS g
    = (code "~", mkGetopt (optind g + 1) (Some EmptyString) None)).
Proof.
intros Hi Hp Hc. split.
- intros Hpl Har. unfold GetOpt.
  rewrite Hp, (next_word_option pre c p post g Hi Hc). rewrite Hi at 1.
  destruct (Z.ltb_spec (Z.of_nat (List.length pre))
              (Z.of_nat (List.length (pre ++ String SW (String c p) :: post))))
    as [_|Hge]; [|pose proof (length_words pre (String SW (String c p)) post); lia].
  unfold plain_letter, argument_letter in Hpl, Har.
  destruct (Ascii.eqb c ":"); [reflexivity|]. cbn [negb andb] in Hpl, Har.
  destruct (strchr optionS c) as [optP|]; [|reflexivity].
  rewrite Har in Hpl. discriminate.
- intros Har.
  destruct (argument_letter_found _ _ Har) as (Hcol & optP & Hf & Ht).
  unfold GetOpt.
  rewrite Hp, (next_word_option pre c EmptyString [] g Hi Hc). rewrite Hi at 1.
  destruct (Z.ltb_spec (Z.of_nat (List.length pre))
              (Z.of_nat (List.length (pre ++ [String SW (String c EmptyString)]))))
    as [_|Hge];
    [|pose proof (length_words pre (String SW (String c EmptyString)) []); lia].
  rewrite Hcol, Hf, Ht.
  destruct (Z.leb_spec
              (Z.of_nat (List.length (pre ++ [String SW (String c EmptyString)])))
              (optind g + 1)) as [_|Hgt]; [reflexivity|].
  rewrite length_app in Hgt. cbn [List.length] in Hgt. lia.
Qed.

Lemma GetOpt_reports_errors_witness :
let g := getopt_vars0 in
(GetOpt ["hp6633"; "-x"; "out.dat"]%string OPTIONS g
 = (code "~", mkGetopt 1 (Some EmptyString) None))
/\ GetOpt ["hp6633"; "-u"]%string OPTIONS g
   = (code "~", mkGetopt 2 (Some EmptyString) None).
Proof.
intros g. split.
- apply (GetOpt_reports_errors OPTIONS "x"%char EmptyString
           ["hp6633"%string] ["out.dat"%string] g);
    try reflexivity; discriminate.
- apply (GetOpt_reports_errors OPTIONS "u"%char EmptyString
           ["hp6633"%string] [] g);
    try reflexivity; discriminate.
Defined.

(** X6.  Where the options end.  [GetOpt] returns EOF at the first word
    that does not start with the switch character and leaves [optind]
    at that word; a word that is the switch character alone, or that
    starts with two of them, also ends the options but is passed over;
    behind the last word EOF is returned and [optind] stays where it
    is.  In all three cases [optarg] is NULL afterwards. *)
Theorem GetOpt_stops_at_first_operand optionS w pre post g :
optind g = Z.of_nat (List.length pre) -> letP g = None ->
((forall p, w <> String SW p) ->
 GetOpt (pre ++ w :: post) optionS g = (EOF, mkGetopt (optind g) None None))
/\ (w = String SW EmptyString \/ (exists p, w = String SW (String SW p)) ->
    GetOpt (pre ++ w :: post) optionS g = (EOF, mkGetopt (optind g + 1) None None))
/\ GetOpt pre optionS g = (EOF, mkGetopt (optind g) None None).
Proof.
intros Hi Hp.
assert (Hin : (optind g <? Z.of_nat (List.length (pre ++ w :: post))) = true).
{ apply Z.ltb_lt. rewrite Hi. apply length_words. }
split; [|split].
- intros Hw. unfold GetOpt. rewrite Hin, Hp. unfold next_word.
  rewrite Hi, arg_word. destruct w as [|c q]; [reflexivity|].
  destruct (Ascii.eqb c SW) eqn:E; [|reflexivity].
  apply Ascii.eqb_eq in E. subst c. exfalso. now apply (Hw q).
- intros Hw. unfold GetOpt. rewrite Hin, Hp. unfold next_word.
  rewrite Hi, arg_word.
  destruct Hw as [-> | [p ->]]; rewrite Ascii.eqb_refl; reflexivity.
- unfold GetOpt. rewrite Hi, Z.ltb_irrefl. reflexivity.
Qed.

Lemma GetOpt_stops_at_first_operand_witness :
let g := mkGetopt 2 None None in
(GetOpt ["hp6633"; "-n"; "out.dat"; "-k"]%string OPTIONS g
 = (EOF, mkGetopt 2 None None))
/\ (GetOpt ["hp6633"; "-n"; "--"; "-k"]%string OPTIONS g
    = (EOF, mkGetopt 3 None None))
/\ GetOpt ["hp6633"; "-n"]%string OPTIONS g = (EOF, mkGetopt 2 None None).
Proof.
intros g.
destruct (GetOpt_stops_at_first_operand OPTIONS "out.dat"%string
            ["hp6633"; "-n"]%string ["-k"%string] g eq_refl eq_refl)
  as (H1 & _ & H3).
destruct (GetOpt_stops_at_first_operand OPTIONS "--"%string
            ["hp6633"; "-n"]%string ["-k"%string] g eq_refl eq_refl)
  as (_ & H2 & _).
split; [apply H1; discriminate|].
split; [apply H2; right; now exists EmptyString | exact H3].
Defined.

(** The call that enters a word does what a call does that finds
    [letP] inside the word. *)
Lemma GetOpt_enters argv optionS g p :
letP g = None -> next_word argv g = inr p ->
GetOpt argv optionS g
= GetOpt argv optionS (mkGetopt (optind g) (Some p) (optarg g)).
Proof.
intros Hp Hw. unfold GetOpt. cbn [optind letP]. now rewrite Hp, Hw.
Qed.

Lemma GetOpt_calls_cluster argv optionS i : forall p oa,
i < Z.of_nat (List.length argv) ->
p <> EmptyString ->
all_chars (plain_letter optionS) p = true ->
GetOpt_calls (String.length p) argv optionS (mkGetopt i (Some p) oa)
= (map code (list_ascii_of_string p), mkGetopt (i + 1) None None).
Proof.
induction p as [|c p IH]; intros oa Hi Hne Hall; [contradiction|].
cbn [all_chars] in Hall. apply andb_prop in Hall. destruct Hall as [Hc Hall].
destruct (plain_letter_found _ _ Hc) as (Hcol & optP & Hf & Ht).
cbn [String.length GetOpt_calls list_ascii_of_string map].
unfold GetOpt at 1. cbn [optind letP].
destruct (Z.ltb_spec i (Z.of_nat (List.length argv))) as [_|Hge]; [|lia].
rewrite Hcol, Hf, Ht.
destruct p as [|c' p'].
- reflexivity.
- rewrite (IH None Hi ltac:(discriminate) Hall). reflexivity.
Qed.

(** X7.  Several letters without argument may share one word: the calls of
    [GetOpt] return them one after the other, from left to right, and
    the call that returns the last one moves [optind] to the next
    word. *)
Theorem GetOpt_reads_cluster optionS l pre post g :
optind g = Z.of_nat (List.length pre) -> letP g = None ->
l <> EmptyString -> (forall p, l <> String SW p) ->
all_chars (plain_letter optionS) l = true ->
GetOpt_calls (String.length l) (pre ++ String SW l :: post) optionS g
= (map code (list_ascii_of_string l), mkGetopt (optind g + 1) None None).
Proof.
intros Hi Hp Hne Hsw Hall.
destruct l as [|c p]; [contradiction|].
assert (Hc : c <> SW) by (intros ->; now apply (Hsw p)).
pose proof (GetOpt_calls_cluster (pre ++ String SW (String c p) :: post) optionS
              (optind g) (String c p) (optarg g)) as H.
rewrite Hi in H at 1. specialize (H (length_words _ _ _) Hne Hall).
rewrite <- H. cbn [String.length GetOpt_calls].
rewrite (GetOpt_enters _ optionS g (String c p) Hp
           (next_word_option pre c p post g Hi Hc)).
reflexivity.
Qed.

Lemma GetOpt_reads_cluster_witness :
GetOpt_calls 3 ["hp6633"; "-nkK"; "out.dat"]%string OPTIONS getopt_vars0
= ([code "n"; code "k"; code "K"], mkGetopt 2 None None).
Proof.
apply (GetOpt_reads_cluster OPTIONS "nkK"%string ["hp6633"%string]
         ["out.dat"%string] getopt_vars0); try reflexivity; discriminate.
Defined.

(** ** The command line of [main] *)

Lemma strchr_In s c t :
strchr s c = Some t -> In c (list_ascii_of_string s).
Proof.
induction s as [|a s IH]; [discriminate|].
cbn. destruct (Ascii.eqb a c) eqn:E.
- apply Ascii.eqb_eq in E. now left.
- intros H. right. now apply IH.
Qed.

Lemma length_tail_of_word argv a :
words_fit argv -> tail_of_word argv a -> Z.of_nat (String.length a) < MAXLEN.
Proof.
intros Hfit (w & pre & Hin & Hw).
unfold words_fit in Hfit. rewrite Forall_forall in Hfit.
specialize (Hfit w Hin). rewrite Hw, length_append in Hfit. lia.
Qed.

Lemma in_range_checked hi x :
flt x f0 || fgt x (fint hi) = false -> in_range f0 (fint hi) x = true.
Proof. unfold in_range. now intros ->. Qed.

Ltac split_ranges H :=
  unfold ranges_ok in H;
  repeat (apply andb_prop in H; let H' := fresh "Hr" in destruct H as [H H']).

Ltac join_ranges :=
  unfold ranges_ok; cbn;
  repeat (apply andb_true_intro; split); try assumption.

Section CommandLineProofs.

Variable sscanf_8f : string -> option spec_float.
Variable sscanf_5d : string -> option Z.
Variable sscanf_6d : string -> option Z.
Variable sscanf_80s : string -> option string.

Let the_case := option_case sscanf_8f sscanf_5d sscanf_6d sscanf_80s.
Let the_loop := option_loop sscanf_8f sscanf_5d sscanf_6d sscanf_80s.

Lemma float_case_result a old hi put s :
(exists s', float_case sscanf_8f a old hi put s = Continue s'
            /\ s' = with_opts (put (scanned sscanf_8f a old)) s
            /\ in_range f0 (fint hi) (scanned sscanf_8f a old) = true)
\/ float_case sscanf_8f a old hi put s = Leave (Exit 1).
Proof.
unfold float_case.
destruct (flt _ f0 || fgt _ (fint hi)) eqn:E; [now right|].
left. eexists. split; [reflexivity|]. split; [reflexivity|].
now apply in_range_checked.
Qed.

Lemma int_case_result scan a old lo hi put s :
(exists s', int_case scan a old lo hi put s = Continue s'
            /\ s' = with_opts (put (scanned scan a old)) s
            /\ lo <= scanned scan a old <= hi)
\/ int_case scan a old lo hi put s = Leave (Exit 1).
Proof.
unfold int_case.
destruct ((_ <? lo) || (hi <? _)) eqn:E; [now right|].
left. eexists. split; [reflexivity|]. split; [reflexivity|].
apply orb_false_iff in E. destruct E as [E1 E2].
apply Z.ltb_ge in E1, E2. lia.
Qed.

(** The cases of the [switch], letter by letter. *)
Lemma case_h oa s : the_case (code "h") oa s = Leave (Exit 0).
Proof. reflexivity. Qed.

Lemma case_f oa s :
the_case (code "f") oa s = Continue (mkSettings (opts_of s) true (gnuplot s)).
Proof. reflexivity. Qed.

Lemma case_n oa s :
the_case (code "n") oa s = Continue (with_opts (put_do_graph false) s).
Proof. reflexivity. Qed.

Lemma case_k oa s :
the_case (code "k") oa s = Continue (with_opts (put_do_reset false) s).
Proof. reflexivity. Qed.

Lemma case_K oa s :
the_case (code "K") oa s = Continue (with_opts (put_do_keypress false) s).
Proof. reflexivity. Qed.

Lemma case_I oa s :
the_case (code "I") oa s = Continue (with_opts (put_do_ocp true) s).
Proof. reflexivity. Qed.

Lemma case_R oa s :
the_case (code "R") oa s = Continue (with_opts (put_dramp true) s).
Proof. reflexivity. Qed.

Lemma case_c a s :
the_case (code "c") (Some a) s
= (if fst (strclean a) =? 0 then Continue s
   else if MAXLEN <=? fst (strclean a) then Leave Undefined
   else Continue (with_opts (put_comment (snd (strclean a))) s)).
Proof. reflexivity. Qed.

Lemma case_g a s :
the_case (code "g") (Some a) s
= Continue (mkSettings (opts_of s) (do_overwrite s)
                       (scanned sscanf_80s a (gnuplot s))).
Proof. reflexivity. Qed.

Lemma case_u a s :
the_case (code "u") (Some a) s
= float_case sscanf_8f a (set_volt (opts_of s)) MAXVOLT put_set_volt s.
Proof. reflexivity. Qed.

Lemma case_U a s :
the_case (code "U") (Some a) s
= float_case sscanf_8f a (max_volt (opts_of s)) MAXVOLT put_max_volt s.
Proof. reflexivity. Qed.

Lemma case_M a s :
the_case (code "M") (Some a) s
= float_case sscanf_8f a (set_limvolt (opts_of s)) MAXVOLT put_set_limvolt s.
Proof. reflexivity. Qed.

Lemma case_i a s :
the_case (code "i") (Some a) s
= float_case sscanf_8f a (set_amp (opts_of s)) MAXAMP put_set_amp s.
Proof. reflexivity. Qed.

Lemma case_r a s :
the_case (code "r") (Some a) s
= (let x := scanned sscanf_6d a (opt_ramp (opts_of s)) in
   if (Z.abs x <? 1) || (1000 <? Z.abs x) then Leave (Exit 1)
   else Continue (with_opts (put_ramp x) s)).
Proof. reflexivity. Qed.

Lemma case_w a s :
the_case (code "w") (Some a) s
= int_case sscanf_5d a (do_flush (opts_of s)) 1 10000 put_do_flush s.
Proof. reflexivity. Qed.

Lemma case_a a s :
the_case (code "a") (Some a) s
= int_case sscanf_5d a (pad (opts_of s)) 0 30 put_pad s.
Proof. reflexivity. Qed.

Lemma case_t a s :
the_case (code "t") (Some a) s
= int_case sscanf_5d a (delay (opts_of s)) 0 600 put_delay s.
Proof. reflexivity. Qed.

Lemma case_tilde oa s : the_case (code "~") oa s = Leave (Exit 1).
Proof. reflexivity. Qed.

(** One pass through the [switch] for what [GetOpt] can deliver: the
    ranges stay checked, and the pass is defined unless the comment is
    too long. *)
Lemma option_case_inv (P : string -> Prop) key oa s :
(key = code "~"
 \/ (exists c, key = code c /\ plain_letter OPTIONS c = true)
 \/ (exists c a, key = code c /\ argument_letter OPTIONS c = true
                 /\ oa = Some a /\ P a)) ->
ranges_ok (opts_of s) = true ->
match the_case key oa s with
| Continue s' => ranges_ok (opts_of s') = true /\ key <> code "~"
| Leave r =>
    (exists st, r = Exit st)
    \/ (r = Undefined
        /\ exists a, P a /\ MAXLEN <= Z.of_nat (String.length a))
end.
Proof.
intros Hk Hr.
destruct Hk as [-> | [(c & -> & Hc) | (c & a & -> & Hc & -> & HP)]].
- rewrite case_tilde. left. now exists 1.
- destruct (plain_letter_found _ _ Hc) as (_ & optP & Hf & _).
  apply strchr_In in Hf. cbn in Hf.
  repeat (destruct Hf as [<- | Hf]; [try discriminate Hc|]); try contradiction.
  + rewrite case_h. left. now exists 0.
  + rewrite case_f. split; [exact Hr | discriminate].
  + rewrite case_n. split; [|discriminate]. split_ranges Hr. join_ranges.
  + rewrite case_k. split; [|discriminate]. split_ranges Hr. join_ranges.
  + rewrite case_K. split; [|discriminate]. split_ranges Hr. join_ranges.
  + rewrite case_I. split; [|discriminate]. split_ranges Hr. join_ranges.
  + rewrite case_R. split; [|discriminate]. split_ranges Hr. join_ranges.
- destruct (argument_letter_found _ _ Hc) as (_ & optP & Hf & _).
  apply strchr_In in Hf. cbn in Hf.
  repeat (destruct Hf as [<- | Hf]; [try discriminate Hc|]); try contradiction.
  + rewrite case_u.
    destruct (float_case_result a (set_volt (opts_of s)) MAXVOLT put_set_volt s)
      as [(s' & -> & -> & Hin) | ->]; [|left; now exists 1].
    split; [|discriminate]. split_ranges Hr. join_ranges.
  + rewrite case_U.
    destruct (float_case_result a (max_volt (opts_of s)) MAXVOLT put_max_volt s)
      as [(s' & -> & -> & Hin) | ->]; [|left; now exists 1].
    split; [|discriminate]. split_ranges Hr. join_ranges.
  + rewrite case_i.
    destruct (float_case_result a (set_amp (opts_of s)) MAXAMP put_set_amp s)
      as [(s' & -> & -> & Hin) | ->]; [|left; now exists 1].
    split; [|discriminate]. split_ranges Hr. join_ranges.
  + rewrite case_M.
    destruct (float_case_result a (set_limvolt (opts_of s)) MAXVOLT put_set_limvolt s)
      as [(s' & -> & -> & Hin) | ->]; [|left; now exists 1].
    split; [|discriminate]. split_ranges Hr. join_ranges.
  + rewrite case_a.
    destruct (int_case_result sscanf_5d a (pad (opts_of s)) 0 30 put_pad s)
      as [(s' & -> & -> & Hin) | ->]; [|left; now exists 1].
    split; [|discriminate]. split_ranges Hr. join_ranges; apply Z.leb_le; lia.
  + rewrite case_w.
    destruct (int_case_result sscanf_5d a (do_flush (opts_of s)) 1 10000 put_do_flush s)
      as [(s' & -> & -> & Hin) | ->]; [|left; now exists 1].
    split; [|discriminate]. split_ranges Hr. join_ranges; apply Z.leb_le; lia.
  + rewrite case_t.
    destruct (int_case_result sscanf_5d a (delay (opts_of s)) 0 600 put_delay s)
      as [(s' & -> & -> & Hin) | ->]; [|left; now exists 1].
    split; [|discriminate]. split_ranges Hr. join_ranges; apply Z.leb_le; lia.
  + rewrite case_c.
    destruct (fst (strclean a) =? 0); [split; [exact Hr | discriminate]|].
    destruct (Z.leb_spec MAXLEN (fst (strclean a))) as [Hlen|Hlen].
    * right. split; [reflexivity|]. exists a. split; [exact HP|].
      unfold strclean in Hlen. cbn [fst] in Hlen.
      pose proof (length_strclean_buf a). lia.
    * split; [|discriminate]. split_ranges Hr. join_ranges.
  + rewrite case_g. split; [exact Hr | discriminate].
  + rewrite case_r. cbv zeta.
    destruct ((Z.abs _ <? 1) || (1000 <? Z.abs _)) eqn:E; [left; now exists 1|].
    split; [|discriminate]. split_ranges Hr. join_ranges.
    apply orb_false_iff in E. destruct E as [E1 E2].
    apply Z.ltb_ge in E2. now apply Z.leb_le.
Qed.

(** What [GetOpt] hands to the [switch]. *)
Lemma GetOpt_for_switch argv g :
getopt_ok argv g ->
let key := fst (GetOpt argv OPTIONS g) in
let g' := snd (GetOpt argv OPTIONS g) in
getopt_ok argv g'
/\ (key = EOF
    \/ (key <> EOF
        /\ (key = code "~"
            \/ (exists c, key = code c /\ plain_letter OPTIONS c = true)
            \/ (exists c a, key = code c /\ argument_letter OPTIONS c = true
                            /\ optarg g' = Some a /\ tail_of_word argv a)))).
Proof.
intros Hok. cbv zeta.
destruct (GetOpt_result argv OPTIONS g Hok) as [Hok' H].
split; [exact Hok'|].
assert (Hne : forall c : ascii, code c <> EOF)
  by (intros c; pose proof (code_range c); unfold EOF; lia).
destruct H as [(H & _) | [(H & _) | [(c & H & Hc & _) | (c & a & H & Hc & Ha & Ht & _)]]].
- now left.
- right. rewrite H. split; [apply Hne | now left].
- right. rewrite H. split; [apply Hne|]. right. left. now exists c.
- right. rewrite H. split; [apply Hne|]. right. right. now exists c, a.
Qed.

(** The option loop: it ends when it has calls enough to read what is
    unread; it leaves [main] only with an exit status, or undefined
    because of a word that does not fit; and behind it the ranges are
    checked. *)
Lemma option_loop_inv argv fuel : forall g s,
getopt_ok argv g -> ranges_ok (opts_of s) = true ->
(unread argv g < fuel)%nat ->
match the_loop fuel argv g s with
| None => False
| Some (inl r) => (exists st, r = Exit st) \/ (r = Undefined /\ ~ words_fit argv)
| Some (inr (g', s')) => getopt_ok argv g' /\ ranges_ok (opts_of s') = true
end.
Proof.
induction fuel as [|fuel IH]; intros g s Hok Hr Hfuel; [lia|].
unfold the_loop. cbn [option_loop]. fold the_loop.
destruct (GetOpt_for_switch argv g Hok) as [Hok' Hkey].
pose proof (GetOpt_reads argv OPTIONS g) as Hread.
destruct (GetOpt argv OPTIONS g) as [key g'] eqn:Hg. cbn [fst snd] in *.
destruct Hkey as [-> | [Hne Hkey]]; [cbn; now split|].
destruct (Z.eqb_spec key EOF) as [->|_]; [contradiction|].
pose proof (option_case_inv (tail_of_word argv) key (optarg g') s Hkey Hr) as Hinv.
fold the_case.
destruct (the_case key (optarg g') s) as [s'|r].
- destruct Hinv as [Hr' Hnt]. apply IH; try assumption.
  specialize (Hread Hne Hnt). lia.
- destruct Hinv as [H | (-> & a & Ht & Hlen)]; [now left|].
  right. split; [reflexivity|]. intros Hfit.
  pose proof (length_tail_of_word argv a Hfit Ht). lia.
Qed.

Let the_line := command_line sscanf_8f sscanf_5d sscanf_6d sscanf_80s.

Lemma option_loop_of_main argv :
match the_loop (enough_calls argv) argv getopt_vars0 settings0 with
| None => False
| Some (inl r) => (exists st, r = Exit st) \/ (r = Undefined /\ ~ words_fit argv)
| Some (inr (g', s')) => getopt_ok argv g' /\ ranges_ok (opts_of s') = true
end.
Proof.
apply option_loop_inv.
- split; [cbn; lia | exact I].
- reflexivity.
- unfold unread, enough_calls. cbn [letP getopt_vars0 optind].
  pose proof (words_weight_skipn argv (Z.to_nat 1)). lia.
Qed.

Lemma accepted_of_ranges o :
ranges_ok o = true ->
negb (opt_ramp o =? 0) && flt (max_volt o) (set_volt o) = false ->
negb (opt_ramp o =? 0) && fgt (max_volt o) (set_limvolt o) = false ->
options_accepted o = true.
Proof.
intros Hr H1 H2. unfold options_accepted. unfold ranges_ok in Hr.
rewrite Hr, H1, H2. reflexivity.
Qed.

(** X8.  Whatever the command line is, the options with which [main] goes
    on to open the data file have passed all the checks: they are in
    their ranges and, for a ramp, the upper voltage is neither below
    the start voltage nor above the voltage limit.  With a delay of 0
    the graphics and the reset are switched off; otherwise the name of
    the data file is a word of the command line. *)
Theorem command_line_accepts_checked_options argv s :
the_line argv = Proceed s ->
options_accepted (opts_of s) = true
/\ (delay (opts_of s) = 0 ->
    do_graph (opts_of s) = false /\ do_reset (opts_of s) = false)
/\ (delay (opts_of s) <> 0 -> In (filename (opts_of s)) argv).
Proof.
unfold the_line, command_line. fold the_loop.
pose proof (option_loop_of_main argv) as Hinv.
destruct (the_loop (enough_calls argv) argv getopt_vars0 settings0)
  as [[r|[g' s']]|]; [| |contradiction].
- intros ->. destruct Hinv as [(st & H) | (H & _)]; discriminate.
- destruct Hinv as [Hok Hr]. unfold after_options.
  destruct (negb (opt_ramp (opts_of s') =? 0)
            && flt (max_volt (opts_of s')) (set_volt (opts_of s'))) eqn:H1;
    [discriminate|].
  destruct (negb (opt_ramp (opts_of s') =? 0)
            && fgt (max_volt (opts_of s')) (set_limvolt (opts_of s'))) eqn:H2;
    [discriminate|].
  pose proof (accepted_of_ranges _ Hr H1 H2) as Hacc.
  destruct (arg argv (optind g')) as [name|] eqn:Ha.
  + destruct (Z.eqb_spec (delay (opts_of s')) 0) as [Hd|Hd].
    * intros H. inversion H. subst s. clear H. cbn.
      repeat split; try (intros; contradiction); exact Hacc.
    * destruct (MAXLEN <=? _); [discriminate|].
      intros H. inversion H. subst s. clear H. cbn.
      split; [exact Hacc|]. split; [intros; contradiction|].
      intros _. now apply (arg_some argv (optind g')).
  + destruct (0 <? delay (opts_of s')); [discriminate|].
    destruct (Z.eqb_spec (delay (opts_of s')) 0) as [Hd|Hd]; [|discriminate].
    intros H. inversion H. subst s. clear H. cbn.
    repeat split; try (intros; contradiction); exact Hacc.
Qed.

(** X9.  The loop over the options always ends: [main] leaves the command
    line with an exit status or goes on, after at most as many calls
    of [GetOpt] as the command line has characters and words. *)
Theorem command_line_finishes argv : the_line argv <> Unfinished.
Proof.
unfold the_line, command_line. fold the_loop.
pose proof (option_loop_of_main argv) as Hinv.
destruct (the_loop (enough_calls argv) argv getopt_vars0 settings0)
  as [[r|[g' s']]|]; [| |contradiction].
- destruct Hinv as [(st & ->) | (-> & _)]; discriminate.
- unfold after_options.
  repeat match goal with
         | |- context [if ?b then _ else _] => destruct b
         | |- context [match ?x with Some _ => _ | None => _ end] => destruct x
         end; discriminate.
Qed.

(** X10.  When the command line has its first word, the name of the
    program, and no word of it is longer than 80 characters, nothing
    undefined happens while it is read: no text is copied beyond its
    buffer ([comment], [filename]) and no NULL pointer is handed to
    [sscanf], [strclean] or [strcpy]. *)
Theorem command_line_defined argv :
argv <> [] -> words_fit argv -> the_line argv <> Undefined.
Proof.
intros _ Hfit. unfold the_line, command_line. fold the_loop.
pose proof (option_loop_of_main argv) as Hinv.
destruct (the_loop (enough_calls argv) argv getopt_vars0 settings0)
  as [[r|[g' s']]|]; [| |contradiction].
- destruct Hinv as [(st & ->) | (_ & Hn)]; [discriminate | contradiction].
- destruct Hinv as [Hok Hr]. unfold after_options.
  destruct (negb _ && flt _ _); [discriminate|].
  destruct (negb _ && fgt _ _); [discriminate|].
  destruct (arg argv (optind g')) as [name|] eqn:Ha.
  + destruct (delay (opts_of s') =? 0); [discriminate|].
    destruct (Z.leb_spec MAXLEN (Z.of_nat (String.length name))) as [Hl|Hl];
      [|discriminate].
    apply arg_some in Ha. destruct Ha as [_ Hin].
    unfold words_fit in Hfit. rewrite Forall_forall in Hfit.
    specialize (Hfit name Hin). lia.
  + destruct (Z.ltb_spec 0 (delay (opts_of s'))) as [Hd|Hd]; [discriminate|].
    destruct (Z.eqb_spec (delay (opts_of s')) 0) as [Hz|Hz]; [discriminate|].
    split_ranges Hr. apply Z.leb_le in Hr0. lia.
Qed.

Lemma option_case_comment key oa s s' :
the_case key oa s = Continue s' ->
all_chars (fun c => negb (is_eol c)) (comment (opts_of s)) = true ->
all_chars (fun c => negb (is_eol c)) (comment (opts_of s')) = true.
Proof.
unfold the_case, option_case, float_case, int_case, with_opts, strclean.
intros H Hc.
repeat match type of H with
       | context [if ?b then _ else _] => destruct b
       | context [match ?x with Some _ => _ | None => _ end] => destruct x
       end;
  try discriminate H; inversion H; subst; cbn; try assumption.
apply strclean_buf_one_line.
Qed.

Lemma option_loop_comment argv fuel : forall g s g' s',
the_loop fuel argv g s = Some (inr (g', s')) ->
all_chars (fun c => negb (is_eol c)) (comment (opts_of s)) = true ->
all_chars (fun c => negb (is_eol c)) (comment (opts_of s')) = true.
Proof.
induction fuel as [|fuel IH]; intros g s g' s'; [discriminate|].
unfold the_loop. cbn [option_loop]. fold the_loop.
destruct (GetOpt argv OPTIONS g) as [key g1].
destruct (key =? EOF).
- intros H Hc. inversion H. now subst.
- fold the_case. destruct (the_case key (optarg g1) s) as [s1|r] eqn:Hcase;
    [|discriminate].
  intros H Hc. eapply IH; [exact H|].
  eapply option_case_comment; eassumption.
Qed.

(** X11.  The comment that [main] takes from the command line is a single
    line: it is empty or it is the text behind -c up to its first CR
    or LF, and so it holds neither of them.  The second line of the
    header of the data file is therefore one line. *)
Theorem comment_is_one_line argv s :
the_line argv = Proceed s ->
all_chars (fun c => negb (is_eol c)) (comment (opts_of s)) = true.
Proof.
unfold the_line, command_line. fold the_loop.
destruct (the_loop (enough_calls argv) argv getopt_vars0 settings0)
  as [[r|[g' s']]|] eqn:Hl; try discriminate.
- intros ->.
  pose proof (option_loop_of_main argv) as Hinv. fold the_loop in Hinv.
  rewrite Hl in Hinv. destruct Hinv as [(st & H) | (H & _)]; discriminate.
- apply option_loop_comment in Hl; [|reflexivity].
  unfold after_options.
  repeat match goal with
         | |- context [if ?b then _ else _] => destruct b
         | |- context [match ?x with Some _ => _ | None => _ end] => destruct x
         end; try discriminate; intros H; inversion H; subst; cbn; exact Hl.
Qed.

End CommandLineProofs.

Lemma comment_is_one_line_witness :
let argv := ["hp6633"; "-c"; String "a" (String "b" (String NLc "c")); "-t"; "0"]%string in
let s := mkSettings
           (put_do_reset false (put_do_graph false
              (put_delay 0 (put_comment "ab" options0)))) false "gnuplot" in
command_line scan_decimal scan_int scan_int scan_word argv = Proceed s
/\ all_chars (fun c => negb (is_eol c)) (comment (opts_of s)) = true.
Proof.
intros argv s.
assert (H : command_line scan_decimal scan_int scan_int scan_word argv = Proceed s)
  by (vm_compute; reflexivity).
split; [exact H|].
exact (comment_is_one_line scan_decimal scan_int scan_int scan_word argv s H).
Defined.

Lemma command_line_accepts_checked_options_witness :
let argv := ["hp6633"; "-u"; "1"; "-U5"; "-r"; "1000"; "-RK"; "-c"; "test";
             "out.dat"]%string in
let s := mkSettings (opts 1000 true (fint 1) (fint 5)) false "gnuplot" in
command_line scan_decimal scan_int scan_int scan_word argv = Proceed s
/\ options_accepted (opts_of s) = true
/\ (delay (opts_of s) = 0 ->
    do_graph (opts_of s) = false /\ do_reset (opts_of s) = false)
/\ (delay (opts_of s) <> 0 -> In (filename (opts_of s)) argv).
Proof.
intros argv s.
assert (H : command_line scan_decimal scan_int scan_int scan_word argv = Proceed s)
  by (vm_compute; reflexivity).
split; [exact H|].
exact (command_line_accepts_checked_options
         scan_decimal scan_int scan_int scan_word argv s H).
Defined.

Lemma command_line_defined_witness :
let argv := ["hp6633"; "-c"; "first run"; "-t"; "0"]%string in
argv <> [] /\ words_fit argv
/\ command_line scan_decimal scan_int scan_int scan_word argv <> Undefined.
Proof.
intros argv.
assert (H0 : argv <> []) by discriminate.
assert (H : words_fit argv) by (repeat constructor).
split; [exact H0|]. split; [exact H|].
exact (command_line_defined scan_decimal scan_int scan_int scan_word argv H0 H).
Defined.

(** ** The keyboard functions *)

Lemma store_store i x y l :
Keyboard.store i x (Keyboard.store i y l) = Keyboard.store i x l.
Proof.
revert i. induction l as [|a l IH]; intros [|i]; cbn; try reflexivity.
now rewrite IH.
Qed.

Lemma nth_store i x l :
(i < List.length l)%nat -> nth i (Keyboard.store i x l) 0 = x.
Proof.
revert i. induction l as [|a l IH]; intros [|i] H; cbn in *; try lia.
apply IH. lia.
Qed.

Lemma length_store i x l : List.length (Keyboard.store i x l) = List.length l.
Proof.
revert i. induction l as [|a l IH]; intros [|i]; cbn; auto.
Qed.

Lemma nth_store_zero i l : nth i (Keyboard.store i 0 l) 0 = 0.
Proof.
revert i. induction l as [|a l IH]; intros [|i]; cbn; try reflexivity.
apply IH.
Qed.

Lemma store_same i l : Keyboard.store i (nth i l 0) l = l \/ (List.length l <= i)%nat.
Proof.
revert i. induction l as [|a l IH]; intros [|i].
- now left.
- now left.
- now left.
- cbn [nth Keyboard.store List.length].
  destruct (IH i) as [H|H]; [left; now rewrite H | right; lia].
Qed.

Lemma store_inert i x l : (List.length l <= i)%nat -> Keyboard.store i x l = l.
Proof.
revert i. induction l as [|a l IH]; intros [|i] H; try reflexivity.
- cbn in H. lia.
- cbn [Keyboard.store]. rewrite IH; [reflexivity | cbn in H; lia].
Qed.

Lemma store_other i j x l :
i <> j -> nth j (Keyboard.store i x l) 0 = nth j l 0.
Proof.
revert i j. induction l as [|a l IH]; intros [|i] [|j] H; cbn; try reflexivity.
- contradiction.
- apply IH. congruence.
Qed.

(** Setting VMIN to 0 and back to 1 gives the settings back when VMIN
    was 1 before. *)
Lemma set_cc_back t :
Keyboard.cc Keyboard.VMIN t = 1 ->
Keyboard.set_cc Keyboard.VMIN 1 (Keyboard.set_cc Keyboard.VMIN 0 t) = t.
Proof.
destruct t as [a b c d e l f g].
unfold Keyboard.set_cc, Keyboard.cc.
cbn [Keyboard.c_iflag Keyboard.c_oflag Keyboard.c_cflag Keyboard.c_lflag
     Keyboard.c_line Keyboard.c_cc Keyboard.c_ispeed Keyboard.c_ospeed].
intros H. rewrite store_store. f_equal.
destruct (store_same Keyboard.VMIN l) as [Hs|Hs].
- rewrite H in Hs. exact Hs.
- now apply store_inert.
Qed.

Section KeyboardProofs.

Variable char_signed : bool.

Let kbhit := Keyboard.kbhit char_signed.
Let readch := Keyboard.readch char_signed.
Let poll_key := Keyboard.poll_key char_signed.
Let run_events := Keyboard.run_events char_signed.
Let int_of_char := Keyboard.int_of_char char_signed.

Lemma char_of_int_of_char c :
Keyboard.char_of_int char_signed (int_of_char c) = int_of_char c.
Proof.
unfold Keyboard.char_of_int, int_of_char, Keyboard.int_of_char. cbv zeta.
pose proof (nat_ascii_bounded c) as Hb.
set (b := Z.of_nat (nat_of_ascii c)). assert (Hr : 0 <= b < 256) by (subst b; lia).
clearbody b.
destruct char_signed; cbn [andb].
- destruct (Z.leb_spec 128 b) as [H|H].
  + replace ((b - 256) mod 256) with b
      by (rewrite <- (Z.mod_small b 256) at 1 by lia;
          replace (b - 256) with (b + (-1) * 256) by lia;
          now rewrite Z.mod_add by lia).
    destruct (Z.leb_spec 128 b); [reflexivity | lia].
  + rewrite Z.mod_small by lia.
    destruct (Z.leb_spec 128 b); [lia | reflexivity].
- now rewrite Z.mod_small by lia.
Qed.

Let kept := Keyboard.kept.

Lemma kept_refl k : kept k k.
Proof. unfold kept, Keyboard.kept. auto. Qed.

Lemma kept_trans k1 k2 k3 : kept k1 k2 -> kept k2 k3 -> kept k1 k3.
Proof.
unfold kept, Keyboard.kept. intros (A1 & B1 & C1) (A2 & B2 & C2).
split; [congruence|]. split.
- intros H. rewrite <- (B1 H). apply B2. now rewrite (B1 H).
- intros H Ht. rewrite <- (B1 H). apply C2.
  + now rewrite (B1 H).
  + rewrite (B1 H). now apply C1.
Qed.

(** [kbhit] without the steps in between. *)
Lemma kbhit_unfold k :
kbhit k =
  if negb (Keyboard.peek_character k =? -1) then Some (1, k)
  else
    let n1 := Keyboard.set_cc Keyboard.VMIN 1
                (Keyboard.set_cc Keyboard.VMIN 0 (Keyboard.new_settings k)) in
    match Keyboard.pending k with
    | c :: rest =>
        Some (1, Keyboard.mkKbd n1 rest (Keyboard.initial_settings k) n1
                   (int_of_char c))
    | [] =>
        if Keyboard.icanon (Keyboard.new_settings k) then None
        else Some (0, Keyboard.mkKbd n1 [] (Keyboard.initial_settings k) n1
                        (Keyboard.peek_character k))
    end.
Proof.
unfold kbhit, Keyboard.kbhit.
destruct (negb (Keyboard.peek_character k =? -1)); [reflexivity|].
unfold Keyboard.read, Keyboard.tcsetattr, Keyboard.put_new, Keyboard.put_pending,
  Keyboard.put_peek.
cbn [Keyboard.tty Keyboard.pending Keyboard.initial_settings
     Keyboard.new_settings Keyboard.peek_character].
destruct (Keyboard.pending k) as [|c rest]; [|reflexivity].
change (Keyboard.icanon (Keyboard.set_cc Keyboard.VMIN 0 (Keyboard.new_settings k)))
  with (Keyboard.icanon (Keyboard.new_settings k)).
destruct (Keyboard.icanon (Keyboard.new_settings k)); [reflexivity|].
unfold Keyboard.cc, Keyboard.set_cc at 1.
cbn [Keyboard.c_cc]. rewrite nth_store_zero. reflexivity.
Qed.

Lemma kbhit_kept k r k' : kbhit k = Some (r, k') -> kept k k'.
Proof.
rewrite kbhit_unfold.
destruct (negb (Keyboard.peek_character k =? -1)).
- intros H. inversion H. apply kept_refl.
- cbv zeta. destruct (Keyboard.pending k) as [|c rest].
  + destruct (Keyboard.icanon _); [discriminate|].
    intros H. inversion H. subst. unfold kept, Keyboard.kept.
    cbn [Keyboard.tty Keyboard.pending Keyboard.initial_settings
         Keyboard.new_settings Keyboard.peek_character].
    split; [reflexivity|].
    split; intros; now apply set_cc_back.
  + intros H. inversion H. subst. unfold kept, Keyboard.kept.
    cbn [Keyboard.tty Keyboard.pending Keyboard.initial_settings
         Keyboard.new_settings Keyboard.peek_character].
    split; [reflexivity|].
    split; intros; now apply set_cc_back.
Qed.

Lemma readch_kept k c k' : readch k = Keyboard.Key c k' -> kept k k'.
Proof.
unfold readch, Keyboard.readch.
destruct (negb (Keyboard.peek_character k =? -1)).
- intros H. inversion H. unfold kept, Keyboard.kept. cbn. auto.
- unfold Keyboard.read. destruct (Keyboard.pending k) as [|a rest].
  + destruct (Keyboard.icanon _); [discriminate|].
    destruct (_ =? 0); discriminate.
  + intros H. inversion H. unfold kept, Keyboard.kept. cbn. auto.
Qed.

Lemma readch_lost_kept k k' : readch k = Keyboard.KeyLost k' -> kept k k'.
Proof.
unfold readch, Keyboard.readch.
destruct (negb (Keyboard.peek_character k =? -1)); [discriminate|].
unfold Keyboard.read. destruct (Keyboard.pending k) as [|a rest]; [|discriminate].
destruct (Keyboard.icanon _); [discriminate|].
destruct (_ =? 0); [|discriminate].
intros H. inversion H. apply kept_refl.
Qed.

Lemma poll_key_kept k r k' : poll_key k = Some (r, k') -> kept k k'.
Proof.
unfold poll_key, Keyboard.poll_key. fold kbhit.
destruct (kbhit k) as [[h k1]|] eqn:Hk; [|discriminate].
apply kbhit_kept in Hk.
assert (Hread : match readch k1 with
                | Keyboard.Key c k2 => Some (Keyboard.GotKey c, k2)
                | Keyboard.KeyLost k2 => Some (Keyboard.GarbageKey, k2)
                | Keyboard.KeyWaits => None
                end = Some (r, k') -> kept k k').
{ destruct (readch k1) as [c k2|k2|] eqn:Hr; try discriminate;
    intros H; inversion H; subst.
  - apply (kept_trans _ _ _ Hk). eapply readch_kept. exact Hr.
  - apply (kept_trans _ _ _ Hk). now apply readch_lost_kept. }
fold readch.
destruct h as [|p|p]; try exact Hread.
intros H. inversion H. subst. exact Hk.
Qed.

Lemma deliver_kept c k : kept k (Keyboard.deliver c k).
Proof. unfold kept, Keyboard.kept. cbn. auto. Qed.

Lemma run_events_kept evs : forall k rs k',
run_events evs k = Some (rs, k') -> kept k k'.
Proof.
induction evs as [|[c|] evs IH]; intros k rs k'.
- intros H. inversion H. apply kept_refl.
- cbn. intros H. apply (kept_trans _ _ _ (deliver_kept c k)).
  eapply IH. exact H.
- unfold run_events. cbn. fold run_events. fold poll_key.
  destruct (poll_key k) as [[r k1]|] eqn:Hp; [|discriminate].
  destruct (run_events evs k1) as [[rs1 k2]|] eqn:Hr; [|discriminate].
  intros H. inversion H. subst.
  apply (kept_trans _ _ _ (poll_key_kept _ _ _ Hp)). eapply IH. exact Hr.
Qed.

Lemma testbit_cleared l n :
0 <= n ->
Z.testbit (Z.land (Z.land (Z.land l (Z.lnot Keyboard.ICANON))
                          (Z.lnot Keyboard.ECHO)) (Z.lnot Keyboard.ISIG)) n
= Z.testbit l n && negb ((n =? 0) || (n =? 1) || (n =? 3)).
Proof.
intros Hn. rewrite !Z.land_spec, !Z.lnot_spec by exact Hn.
change Keyboard.ICANON with (2 ^ 1). change Keyboard.ECHO with (2 ^ 3).
change Keyboard.ISIG with (2 ^ 0).
rewrite !Z.pow2_bits_eqb by lia.
rewrite (Z.eqb_sym 1 n), (Z.eqb_sym 3 n), (Z.eqb_sym 0 n).
destruct (Z.testbit l n), (n =? 0), (n =? 1), (n =? 3); reflexivity.
Qed.

(** X12.  From [init_keyboard] to [close_keyboard].  While the program polls
    the keyboard and bytes arrive, the terminal stays in the mode
    that [init_keyboard] gave it: the flags ICANON, ECHO and ISIG are
    off and every other flag of [c_lflag] is as it was; VMIN is 1
    again after every poll.  [close_keyboard] then gives the terminal
    exactly the settings it had when [init_keyboard] was called. *)
Theorem keyboard_settings_restored k evs rs k' :
(Keyboard.VMIN < List.length (Keyboard.c_cc (Keyboard.tty k)))%nat ->
run_events evs (Keyboard.init_keyboard k) = Some (rs, k') ->
(forall n, 0 <= n ->
   Z.testbit (Keyboard.c_lflag (Keyboard.tty k')) n
   = Z.testbit (Keyboard.c_lflag (Keyboard.tty k)) n
     && negb ((n =? 0) || (n =? 1) || (n =? 3)))
/\ Keyboard.cc Keyboard.VMIN (Keyboard.tty k') = 1
/\ Keyboard.cc Keyboard.VTIME (Keyboard.tty k') = 0
/\ Keyboard.tty (Keyboard.close_keyboard k') = Keyboard.tty k.
Proof.
intros Hlen Hrun. apply run_events_kept in Hrun.
destruct Hrun as (Hi & Hn & Ht).
set (raw := Keyboard.set_cc Keyboard.VTIME 0
              (Keyboard.set_cc Keyboard.VMIN 1
                 (Keyboard.clear_lflag Keyboard.ISIG
                    (Keyboard.clear_lflag Keyboard.ECHO
                       (Keyboard.clear_lflag Keyboard.ICANON (Keyboard.tty k)))))).
change (Keyboard.new_settings (Keyboard.init_keyboard k)) with raw in *.
change (Keyboard.tty (Keyboard.init_keyboard k)) with raw in *.
change (Keyboard.initial_settings (Keyboard.init_keyboard k))
  with (Keyboard.tty k) in *.
assert (Hmin : Keyboard.cc Keyboard.VMIN raw = 1).
{ unfold Keyboard.cc, raw, Keyboard.set_cc. cbn [Keyboard.c_cc].
  rewrite store_other by discriminate. now apply nth_store. }
specialize (Ht Hmin eq_refl). rewrite Ht.
split; [|split; [|split]].
- intros n Hpos. unfold raw, Keyboard.set_cc, Keyboard.clear_lflag.
  cbn [Keyboard.c_lflag]. now apply testbit_cleared.
- exact Hmin.
- unfold Keyboard.cc, raw, Keyboard.set_cc, Keyboard.clear_lflag.
  cbn [Keyboard.c_cc].
  apply nth_store. rewrite length_store.
  unfold Keyboard.VTIME, Keyboard.VMIN in *. lia.
- unfold Keyboard.close_keyboard, Keyboard.tcsetattr. cbn [Keyboard.tty].
  exact Hi.
Qed.

Lemma kbhit_ready k :
Keyboard.ready k ->
(Keyboard.pending k = [] ->
 exists k1, kbhit k = Some (0, k1)
            /\ Keyboard.ready k1 /\ Keyboard.pending k1 = [])
/\ (forall c rest,
      Keyboard.pending k = c :: rest -> Keyboard.visible char_signed c = true ->
      exists k1 k2,
        kbhit k = Some (1, k1)
        /\ kbhit k1 = Some (1, k1)
        /\ readch k1 = Keyboard.Key (int_of_char c) k2
        /\ Keyboard.pending k2 = rest /\ Keyboard.ready k2).
Proof.
intros [Hpeek Hcan]. split.
- intros Ht. rewrite kbhit_unfold, Hpeek, Ht, Hcan. cbn [Z.eqb negb].
  eexists. split; [reflexivity|]. split; [|reflexivity].
  split; [reflexivity | exact Hcan].
- intros c rest Ht Hvis. unfold Keyboard.visible in Hvis. fold int_of_char in Hvis.
  rewrite kbhit_unfold, Hpeek, Ht. cbn [Z.eqb negb]. cbv zeta.
  eexists. eexists. split; [reflexivity|]. split; [|split; [|split]].
  + rewrite kbhit_unfold. cbn [Keyboard.peek_character]. now rewrite Hvis.
  + unfold readch, Keyboard.readch. cbn [Keyboard.peek_character].
    rewrite Hvis. fold int_of_char. rewrite char_of_int_of_char. reflexivity.
  + reflexivity.
  + split; [reflexivity | exact Hcan].
Qed.

(** X13.  How [kbhit] and [readch] work together when no character is held
    back.  Without a key [kbhit] returns 0 at once.  With a key it
    returns 1 and holds the key back: calling it again returns 1 again
    and reads nothing, and [readch] then returns this key and leaves
    the bytes that are ready behind it where they are. *)
Theorem kbhit_holds_the_key_for_readch k :
Keyboard.ready k ->
(Keyboard.pending k = [] ->
 exists k1, kbhit k = Some (0, k1)
            /\ Keyboard.ready k1 /\ Keyboard.pending k1 = [])
/\ (forall c rest,
      Keyboard.pending k = c :: rest -> Keyboard.visible char_signed c = true ->
      exists k1 k2,
        kbhit k = Some (1, k1)
        /\ kbhit k1 = Some (1, k1)
        /\ readch k1 = Keyboard.Key (int_of_char c) k2
        /\ Keyboard.pending k2 = rest /\ Keyboard.ready k2).
Proof. apply kbhit_ready. Qed.

Lemma poll_key_ready k :
Keyboard.ready k ->
match Keyboard.pending k with
| [] => exists k', poll_key k = Some (Keyboard.NoKey, k')
                   /\ Keyboard.ready k' /\ Keyboard.pending k' = []
| c :: rest =>
    Keyboard.visible char_signed c = true ->
    exists k', poll_key k = Some (Keyboard.GotKey (int_of_char c), k')
               /\ Keyboard.ready k' /\ Keyboard.pending k' = rest
end.
Proof.
intros Hr. destruct (kbhit_ready k Hr) as [H0 H1].
destruct (Keyboard.pending k) as [|c rest].
- destruct (H0 eq_refl) as (k1 & Hk & Hr1 & Ht1).
  exists k1. unfold poll_key, Keyboard.poll_key. fold kbhit. rewrite Hk. auto.
- intros Hvis. destruct (H1 c rest eq_refl Hvis) as (k1 & k2 & Hk & _ & Hrc & Ht & Hr2).
  exists k2. unfold poll_key, Keyboard.poll_key. fold kbhit. rewrite Hk.
  fold readch. rewrite Hrc. auto.
Qed.

(** X14.  The bytes that the terminal makes ready for [read] reach the
    program in the order in which they became ready, none is lost and
    none comes twice, however their arrival and the polls are
    interleaved: the keys delivered by the polls, followed by the bytes
    that still wait, are the bytes that became ready.  No poll waits
    and none leaves [key] undefined.  (Which bytes a typed key makes
    ready is decided by the input processing of the terminal, before
    [read]; e.g. CR becomes LF under ICRNL.) *)
Theorem polls_deliver_keys_in_order evs : forall k,
Keyboard.ready k ->
forallb (Keyboard.visible char_signed)
        (Keyboard.pending k ++ Keyboard.bytes_arrived evs) = true ->
exists rs k',
  run_events evs k = Some (rs, k')
  /\ Keyboard.ready k'
  /\ Keyboard.keys_got rs ++ map int_of_char (Keyboard.pending k')
     = map int_of_char (Keyboard.pending k ++ Keyboard.bytes_arrived evs)
  /\ ~ In Keyboard.GarbageKey rs.
Proof.
induction evs as [|[c|] evs IH]; intros k Hr Hvis.
- exists [], k. cbn. rewrite app_nil_r. auto.
- destruct (IH (Keyboard.deliver c k)) as (rs & k' & Hrun & Hr' & Hkeys & Hg).
  + exact Hr.
  + cbn [Keyboard.deliver Keyboard.put_pending Keyboard.pending].
    rewrite <- app_assoc. exact Hvis.
  + exists rs, k'. split; [exact Hrun|]. split; [exact Hr'|].
    split; [|exact Hg]. rewrite Hkeys.
    cbn [Keyboard.deliver Keyboard.put_pending Keyboard.pending Keyboard.bytes_arrived
         flat_map].
    now rewrite <- app_assoc.
- pose proof (poll_key_ready k Hr) as Hp.
  unfold run_events. cbn [Keyboard.run_events]. fold run_events. fold poll_key.
  cbn [Keyboard.bytes_arrived flat_map app] in *.
  destruct (Keyboard.pending k) as [|c rest] eqn:Ht.
  + destruct Hp as (k1 & Hp & Hr1 & Ht1). rewrite Hp.
    destruct (IH k1 Hr1) as (rs & k' & Hrun & Hr' & Hkeys & Hg).
    { rewrite Ht1. exact Hvis. }
    rewrite Hrun. exists (Keyboard.NoKey :: rs), k'.
    split; [reflexivity|]. split; [exact Hr'|]. split.
    * cbn [Keyboard.keys_got flat_map app]. fold (Keyboard.keys_got rs).
      rewrite Hkeys, Ht1. reflexivity.
    * intros [H|H]; [discriminate | contradiction].
  + cbn [app forallb] in Hvis. apply andb_prop in Hvis. destruct Hvis as [Hc Hvis].
    destruct (Hp Hc) as (k1 & Hp1 & Hr1 & Ht1). rewrite Hp1.
    destruct (IH k1 Hr1) as (rs & k' & Hrun & Hr' & Hkeys & Hg).
    { rewrite Ht1. exact Hvis. }
    rewrite Hrun. exists (Keyboard.GotKey (int_of_char c) :: rs), k'.
    split; [reflexivity|]. split; [exact Hr'|]. split.
    * cbn [Keyboard.keys_got flat_map app map]. fold (Keyboard.keys_got rs).
      rewrite Hkeys, Ht1. reflexivity.
    * intros [H|H]; [discriminate | contradiction].
Qed.

(** X15.  With a signed [char] the byte 255 is taken for "no character":
    [kbhit] returns 1 for it but holds nothing back, so that [readch]
    reads from the terminal again; it returns the next byte that is
    ready, and waits when there is none. *)
Theorem byte_255_is_taken_for_no_key k rest :
char_signed = true ->
Keyboard.ready k ->
(Keyboard.VMIN < List.length (Keyboard.c_cc (Keyboard.new_settings k)))%nat ->
Keyboard.pending k = ascii_of_nat 255 :: rest ->
exists k1,
  kbhit k = Some (1, k1)
  /\ Keyboard.peek_character k1 = -1
  /\ match rest with
     | [] => readch k1 = Keyboard.KeyWaits
     | c :: rest' =>
         exists k2, readch k1 = Keyboard.Key (int_of_char c) k2
                    /\ Keyboard.pending k2 = rest'
     end.
Proof.
intros Hs [Hpeek Hcan] Hlen Ht.
rewrite kbhit_unfold, Hpeek, Ht. cbn [Z.eqb negb]. cbv zeta.
eexists. split; [reflexivity|].
assert (H255 : int_of_char (ascii_of_nat 255) = -1).
{ unfold int_of_char, Keyboard.int_of_char. rewrite Hs. reflexivity. }
split; [exact H255|].
unfold readch, Keyboard.readch. cbn [Keyboard.peek_character].
fold int_of_char. rewrite H255. cbn [Z.eqb negb].
unfold Keyboard.read. cbn [Keyboard.pending Keyboard.tty].
destruct rest as [|c rest'].
- change (Keyboard.icanon
            (Keyboard.set_cc Keyboard.VMIN 1
               (Keyboard.set_cc Keyboard.VMIN 0 (Keyboard.new_settings k))))
    with (Keyboard.icanon (Keyboard.new_settings k)).
  rewrite Hcan.
  unfold Keyboard.cc, Keyboard.set_cc. cbn [Keyboard.c_cc].
  rewrite store_store, nth_store by exact Hlen. reflexivity.
- eexists. split; reflexivity.
Qed.

End KeyboardProofs.

Lemma kbhit_holds_the_key_for_readch_witness :
let k := Keyboard.init_keyboard
           (Keyboard.kbd0 Keyboard.termios0 ["q"; "x"]%char) in
Keyboard.ready k
/\ exists k1 k2,
     Keyboard.kbhit true k = Some (1, k1)
     /\ Keyboard.kbhit true k1 = Some (1, k1)
     /\ Keyboard.readch true k1 = Keyboard.Key KEY_q k2
     /\ Keyboard.pending k2 = ["x"%char] /\ Keyboard.ready k2.
Proof.
intros k.
assert (Hr : Keyboard.ready k) by (split; reflexivity).
split; [exact Hr|].
destruct (kbhit_holds_the_key_for_readch true k Hr) as [_ H].
exact (H "q"%char ["x"%char] eq_refl eq_refl).
Defined.

Lemma polls_deliver_keys_in_order_witness :
let k := Keyboard.init_keyboard (Keyboard.kbd0 Keyboard.termios0 []) in
let evs := [Keyboard.Poll; Keyboard.Arrives "a"; Keyboard.Arrives "q";
            Keyboard.Poll; Keyboard.Poll; Keyboard.Poll] in
Keyboard.ready k
/\ exists rs k',
     Keyboard.run_events true evs k = Some (rs, k')
     /\ Keyboard.ready k'
     /\ Keyboard.keys_got rs ++ map (Keyboard.int_of_char true) (Keyboard.pending k')
        = map (Keyboard.int_of_char true)
              (Keyboard.pending k ++ Keyboard.bytes_arrived evs)
     /\ ~ In Keyboard.GarbageKey rs.
Proof.
intros k evs.
assert (Hr : Keyboard.ready k) by (split; reflexivity).
split; [exact Hr|].
exact (polls_deliver_keys_in_order true evs k Hr eq_refl).
Defined.

Lemma byte_255_is_taken_for_no_key_witness :
let k := Keyboard.init_keyboard
           (Keyboard.kbd0 (Keyboard.mkTermios 0 0 0 0 0 (repeat 0 32) 0 0)
                          [ascii_of_nat 255; "q"%char]) in
exists k1,
  Keyboard.kbhit true k = Some (1, k1)
  /\ Keyboard.peek_character k1 = -1
  /\ exists k2, Keyboard.readch true k1 = Keyboard.Key KEY_q k2
                /\ Keyboard.pending k2 = [].
Proof.
intros k.
assert (Hr : Keyboard.ready k) by (split; reflexivity).
assert (Hlen : (Keyboard.VMIN
                < List.length (Keyboard.c_cc (Keyboard.new_settings k)))%nat)
  by (vm_compute; lia).
exact (byte_255_is_taken_for_no_key true k ["q"%char] eq_refl Hr Hlen eq_refl).
Defined.

Lemma keyboard_settings_restored_witness :
let t := Keyboard.mkTermios 17664 5 191 35387 0
           (3 :: 28 :: 127 :: 21 :: 4 :: 0 :: 1 :: repeat 0 25) 15 15 in
let k := Keyboard.kbd0 t [] in
let evs := [Keyboard.Poll; Keyboard.Arrives "q"%char; Keyboard.Poll] in
exists k',
  Keyboard.run_events true evs (Keyboard.init_keyboard k)
  = Some ([Keyboard.NoKey; Keyboard.GotKey 113], k')
  /\ Keyboard.c_lflag (Keyboard.tty k') = 35376
  /\ Keyboard.tty (Keyboard.close_keyboard k') = t.
Proof.
intros t k evs.
destruct (Keyboard.run_events true evs (Keyboard.init_keyboard k))
  as [[rs k']|] eqn:Hrun; [|discriminate Hrun].
exists k'.
assert (Hlen : (Keyboard.VMIN < List.length (Keyboard.c_cc (Keyboard.tty k)))%nat)
  by (unfold Keyboard.VMIN; cbn; lia).
destruct (keyboard_settings_restored true k evs rs k' Hlen Hrun)
  as (_ & _ & _ & Hclose).
vm_compute in Hrun. inversion Hrun. subst.
split; [reflexivity|]. split; [reflexivity | exact Hclose].
Defined.

(** ** Failed transfers *)

Lemma all_sent_snoc l s b : all_sent (l ++ [(s, b)]) = all_sent l && b.
Proof.
unfold all_sent. rewrite forallb_app. cbn. now rewrite andb_true_r.
Qed.

Lemma failure_is_last_snoc l x :
all_sent l = true -> failure_is_last (l ++ [x]) = true.
Proof.
induction l as [|a l IH]; [reflexivity|].
unfold all_sent. cbn [forallb]. intros H. apply andb_prop in H.
destruct H as [Ha Hl]. specialize (IH Hl).
change (failure_is_last ((a :: l) ++ [x]))
  with (match l ++ [x] with
        | [] => true
        | _ :: _ => snd a && failure_is_last (l ++ [x])
        end).
destruct (l ++ [x]); [reflexivity|]. now rewrite Ha, IH.
Qed.

Lemma failure_is_last_sent l : all_sent l = true -> failure_is_last l = true.
Proof.
induction l as [|a l IH]; [reflexivity|].
unfold all_sent. cbn [forallb]. intros H. apply andb_prop in H.
destruct H as [Ha Hl]. specialize (IH Hl).
change (failure_is_last (a :: l))
  with (match l with
        | [] => true
        | _ :: _ => snd a && failure_is_last l
        end).
destruct l; [reflexivity|]. now rewrite Ha, IH.
Qed.

(** After a step that talks to the instrument: either every transfer
    so far succeeded, or the run is over and the failed transfer is the
    last one. *)
Ltac sent_or_last :=
  cbn [bus ibwrt note_close fprintf_out fflush_out fclose_out set_gp fprintf_gp
       pclose_if_gp set_kbd close_keyboard init_keyboard leave_on_failure
       fopen_out];
  rewrite ?all_sent_snoc;
  repeat match goal with
         | H : all_sent _ = true |- _ => rewrite H
         end;
  cbn [andb];
  first [ reflexivity
        | apply failure_is_last_snoc; rewrite ?all_sent_snoc;
          repeat match goal with
                 | H : all_sent _ = true |- _ => rewrite H
                 end; reflexivity
        | apply failure_is_last_sent; rewrite ?all_sent_snoc;
          repeat match goal with
                 | H : all_sent _ = true |- _ => rewrite H
                 end; reflexivity ].

Section Failures.

Variable sscanf_f : string -> option spec_float.

Lemma ramp_part_sent o c v w r w' :
all_sent (bus w) = true ->
ramp_part o c v w = (r, w') ->
match r with
| CycleReturn _ => failure_is_last (bus w') = true
| _ => all_sent (bus w') = true
end.
Proof.
unfold ramp_part, hp663X_set. intros Hs H.
destruct (ramp (rs v) =? 0); [inversion H; subst; exact Hs|].
destruct (ramp_block (set_volt o) (max_volt o) (rs v)) as [|sep rs'];
  [inversion H; subst; exact Hs|].
destruct (vset_ok c); destruct sep; inversion H; subst; sent_or_last.
Qed.

Lemma sample_part_sent o graph c v w r w' :
all_sent (bus w) = true ->
sample_part sscanf_f o graph c v w = (r, w') ->
match r with
| CycleReturn _ => failure_is_last (bus w') = true
| _ => all_sent (bus w') = true
end.
Proof.
unfold sample_part, hp663X_read, refresh. intros Hs H.
destruct (vout c) as [| |rv]; [| |destruct (received rv) as [|bv|]];
  (destruct (iout c) as [| |ri]; [| |destruct (received ri) as [|bi|]]);
  try (inversion H; subst; sent_or_last).
destruct (_ =? 0); [destruct graph|]; inversion H; subst; sent_or_last.
Qed.

Lemma cycle_sent o graph c v w r w' :
all_sent (bus w) = true ->
cycle sscanf_f o graph c v w = (r, w') ->
match r with
| CycleReturn _ => failure_is_last (bus w') = true
| _ => all_sent (bus w') = true
end.
Proof.
unfold cycle. intros Hs H.
destruct (ramp_part o c v w) as [r1 w1] eqn:Hr.
apply (ramp_part_sent _ _ _ _ _ _ Hs) in Hr.
destruct r1 as [v1|v1|s1|]; try (inversion H; subst; exact Hr).
now apply (sample_part_sent _ _ _ _ _ _ _ Hr) in H.
Qed.

Lemma main_loop_sent o graph cs : forall v w r w',
all_sent (bus w) = true ->
main_loop sscanf_f o graph cs v w = (r, w') ->
match r with
| LoopReturn _ => failure_is_last (bus w') = true
| _ => all_sent (bus w') = true
end.
Proof.
induction cs as [|c cs IH]; intros v w r w' Hs H; cbn in H.
- inversion H; subst. exact Hs.
- destruct (cycle sscanf_f o graph c v w) as [cr w1] eqn:Hc.
  apply (cycle_sent _ _ _ _ _ _ _ Hs) in Hc.
  destruct cr as [v1|v1|s|]; try (inversion H; subst; exact Hc).
  destruct (again v1); [|inversion H; subst; exact Hc].
  now apply (IH _ _ _ _ Hc) in H.
Qed.

Lemma prologue_sent o e r w :
prologue o e = (r, w) ->
match r with
| Some _ => failure_is_last (bus w) = true
| None => all_sent (bus w) = true
end.
Proof.
unfold prologue, hp663X_open, hp663X_setup.
destruct (timed o), (graph_on o e), (ibdev_ok e), (reset_on o),
  (open_reset_ok e), (setup_ok e); cbn; intros H; inversion H; reflexivity.
Qed.

Lemma main_end_sent o e graph reset v w s w' :
all_sent (bus w) = true ->
main_end o e graph reset v w = (Returned s, w') ->
failure_is_last (bus w') = true
/\ (s = AtEnd -> all_sent (bus w') = true)
/\ (s = AtEnd \/ s = AtClose).
Proof.
unfold main_end, hp663X_close. intros Hs.
destruct reset, (close_reset_ok e), graph; cbn [negb]; intros H;
  inversion H; subst; (split; [sent_or_last|]);
  (split; [try discriminate; intros _; sent_or_last | auto]).
Qed.

Lemma main_end_returns o e graph reset v w :
exists s, fst (main_end o e graph reset v w) = Returned s.
Proof.
unfold main_end, hp663X_close.
destruct reset, (close_reset_ok e), graph; cbn; eexists; reflexivity.
Qed.

Lemma main_sent o e :
let r := main sscanf_f o e in
failure_is_last (bus (snd r)) = true
/\ match fst r with
   | Running | Overran | Returned AtEnd => all_sent (bus (snd r)) = true
   | Returned _ => True
   end.
Proof.
cbv zeta. unfold main.
destruct (prologue o e) as [[s|] w0] eqn:Hp;
  pose proof (prologue_sent _ _ _ _ Hp) as Hps.
- apply prologue_exit in Hp. destruct Hp as [[-> | ->] _]; cbn; now split.
- clear Hp. rename Hps into Hp. assert (Hend : forall v w,
    all_sent (bus w) = true ->
    let r := main_end o e (graph_on o e) (reset_on o) v w in
    failure_is_last (bus (snd r)) = true
    /\ match fst r with
       | Running | Overran | Returned AtEnd => all_sent (bus (snd r)) = true
       | Returned _ => True
       end).
  { intros v w Hs. cbv zeta.
    destruct (main_end o e (graph_on o e) (reset_on o) v w) as [out w'] eqn:He.
    destruct (main_end_returns o e (graph_on o e) (reset_on o) v w) as [s Hs'].
    rewrite He in Hs'. cbn in Hs'. subst out.
    destruct (main_end_sent _ _ _ _ _ _ _ _ Hs He) as (H1 & H2 & H3).
    cbn. split; [exact H1|]. destruct s; auto. }
  destruct (negb (timed o)); [now apply Hend|].
  destruct (main_loop sscanf_f o (graph_on o e) (cycles e) (vars0 o e)
              (init_keyboard (fprintf_out (header_text o e) w0)))
    as [lr w1] eqn:Hl.
  pose proof (main_loop_resources _ _ _ _ _ _ _ _ Hl) as Hres.
  apply main_loop_sent in Hl; [|exact Hp].
  destruct lr as [v|s|v|].
  + apply Hend. exact Hl.
  + cbn. split; [exact Hl|].
    destruct Hres as [[-> | [-> | ->]] _]; exact I.
  + cbn. split; [now apply failure_is_last_sent | exact Hl].
  + cbn. split; [now apply failure_is_last_sent | exact Hl].
Qed.

End Failures.

(** X16.  A transfer to the instrument that fails is the last one of the
    run: nothing is sent after it, [main] returns ERR_INST, and a run
    that ends with the status 0 or is still going on has seen all its
    transfers succeed. *)
Theorem failed_transfer_ends_the_run sscanf_f o e :
let r := main sscanf_f o e in
failure_is_last (bus (snd r)) = true
/\ (all_sent (bus (snd r)) = false ->
    exists s, fst r = Returned s /\ s <> AtEnd /\ exit_code s = ERR_INST).
Proof.
cbv zeta. destruct (main_sent sscanf_f o e) as [H1 H2].
split; [exact H1|]. intros Hf.
destruct (fst (main sscanf_f o e)) as [s| |]; [|congruence|congruence].
exists s. split; [reflexivity|].
destruct s; try (split; [discriminate | reflexivity]). congruence.
Qed.

Lemma failed_transfer_ends_the_run_witness :
let bad := mkCycle true (S754_finite false 3 (-6))
             (Answer (" 12.009" ++ CRLF)) WriteError None in
let r := main scan_decimal (opts 0 false (fint 5) (fint 5))
              (lab [quiet; quiet; bad; quiet]) in
all_sent (bus (snd r)) = false
/\ exists s, fst r = Returned s /\ s <> AtEnd /\ exit_code s = ERR_INST.
Proof.
intros bad r.
assert (H : all_sent (bus (snd r)) = false) by (vm_compute; reflexivity).
split; [exact H|].
exact (proj2 (failed_transfer_ends_the_run scan_decimal
                (opts 0 false (fint 5) (fint 5))
                (lab [quiet; quiet; bad; quiet])) H).
Defined.

(** ** What has reached the data file during a run *)

Lemma succ_div_mod n k :
0 <= n -> 1 <= k ->
((n + 1) mod k = 0 /\ (n + 1) / k = n / k + 1 /\ k <= n + 1)
\/ ((n + 1) mod k <> 0 /\ (n + 1) / k = n / k
    /\ (n + 1) mod k = n mod k + 1).
Proof.
intros Hn Hk.
pose proof (Z.div_mod n k ltac:(lia)) as Hdm.
pose proof (Z.mod_pos_bound n k ltac:(lia)) as Hr.
pose proof (Z.div_pos n k Hn ltac:(lia)) as Hq.
destruct (Z.eq_dec (n mod k + 1) k) as [E|E].
- left.
  assert (H : n + 1 = k * (n / k + 1) + 0) by nia.
  rewrite <- (Z.mod_unique_pos (n + 1) k (n / k + 1) 0 ltac:(lia) H).
  rewrite <- (Z.div_unique_pos (n + 1) k (n / k + 1) 0 ltac:(lia) H).
  repeat split; nia.
- right.
  assert (H : n + 1 = k * (n / k) + (n mod k + 1)) by nia.
  rewrite <- (Z.mod_unique_pos (n + 1) k (n / k) (n mod k + 1) ltac:(lia) H).
  rewrite <- (Z.div_unique_pos (n + 1) k (n / k) (n mod k + 1) ltac:(lia) H).
  repeat split; lia.
Qed.

Lemma records_of_length sscanf_f cs : forall v a,
List.length (records_of sscanf_f cs v a) = List.length cs.
Proof.
induction cs as [|c cs IH]; intros v a; cbn; [reflexivity | now rewrite IH].
Qed.

Section Flush.

Variable sscanf_f : string -> option spec_float.

(** A cycle without failure: what is in the file and what is in the
    buffer behind it. *)
Lemma healthy_cycle_disk o graph c v w :
healthy c = true ->
ramp_alive 1 (set_volt o) (max_volt o) (rs v) = true ->
exists v' w' sep,
  cycle sscanf_f o graph c v w = (CycleNext v', w')
  /\ (sep = EmptyString \/ sep = SEPARATOR)
  /\ (if loop v' mod do_flush o =? 0
      then file_disk w'
           = (file_disk w ++ file_buf w ++ sep
              ++ record_text (now c) (volt v') (amp v'))%string
           /\ file_buf w' = EmptyString
      else file_disk w' = file_disk w
           /\ file_buf w'
              = (file_buf w ++ sep
                 ++ record_text (now c) (volt v') (amp v'))%string).
Proof.
unfold healthy. intros Hh Ha.
apply andb_prop in Hh. destruct Hh as [Hh Hi].
apply andb_prop in Hh. destruct Hh as [Hs Hv].
unfold cycle, ramp_part, hp663X_set. cbn in Ha.
assert (Hsample : forall rs' w1,
  exists v' w',
    sample_part sscanf_f o graph c
      (mkVars rs' (key v) (loop v) (volt v) (amp v)) w1 = (CycleNext v', w')
    /\ (if loop v' mod do_flush o =? 0
        then file_disk w'
             = (file_disk w1 ++ file_buf w1
                ++ record_text (now c) (volt v') (amp v'))%string
             /\ file_buf w' = EmptyString
        else file_disk w' = file_disk w1
             /\ file_buf w'
                = (file_buf w1 ++ record_text (now c) (volt v') (amp v'))%string)).
{ intros rs' w1. unfold sample_part, hp663X_read, refresh.
  destruct (vout c) as [| |rv]; try discriminate.
  destruct (iout c) as [| |ri]; try discriminate.
  unfold answered in Hv, Hi.
  destruct (received rv) as [|bv|]; try discriminate.
  destruct (received ri) as [|bi|]; try discriminate.
  eexists. eexists. split; [reflexivity|].
  cbn [loop volt amp rs key].
  destruct (_ mod do_flush o =? 0); [destruct graph|]; cbn;
    rewrite ?append_assoc; split; reflexivity. }
destruct (ramp (rs v) =? 0) eqn:Hr.
- destruct (Hsample (rs v) w) as (v' & w' & Hsp & Hf).
  exists v', w', EmptyString. destruct v. cbn in *. rewrite Hsp.
  split; [reflexivity|]. split; [now left|].
  destruct (_ =? 0); exact Hf.
- destruct (ramp_block (set_volt o) (max_volt o) (rs v)) as [|sep rs'] eqn:Hb;
    [discriminate|].
  rewrite Hs.
  destruct (Hsample rs'
              (ibwrt (set_text "VSET" (ramp_volt rs')) true
                 (if sep then fprintf_out SEPARATOR w else w)))
    as (v' & w' & Hsp & Hf).
  exists v', w', (if sep then SEPARATOR else EmptyString).
  cbn. rewrite Hsp. split; [reflexivity|].
  split; [destruct sep; auto|].
  destruct (_ =? 0); destruct sep; cbn in Hf; rewrite ?append_assoc in Hf;
    exact Hf.
Qed.

(** The state of the file after the cycles [cs], for a loop that
    started with the header in the buffer. *)
Lemma flushed_cycles o graph header v0 w0 :
1 <= do_flush o ->
loop v0 = 0 -> again v0 = true ->
file_disk w0 = EmptyString -> file_buf w0 = header ->
file_flushes w0 = 0%nat ->
forall cs,
forallb healthy cs = true -> forallb no_quit cs = true ->
ramp_alive (List.length cs) (set_volt o) (max_volt o) (rs v0) = true ->
Z.of_nat (List.length cs) < 2 ^ 64 ->
let n := Z.of_nat (List.length cs) in
let m := Z.to_nat (n - n mod do_flush o) in
let recs := records_of sscanf_f cs (volt v0) (amp v0) in
exists v w,
  main_loop sscanf_f o graph cs v0 w0 = (LoopRunning v, w)
  /\ loop v = n
  /\ (n < do_flush o ->
      file_disk w = EmptyString
      /\ exists b, file_buf w = (header ++ b)%string /\ body_of recs b)
  /\ (do_flush o <= n ->
      exists d, file_disk w = (header ++ d)%string
                /\ body_of (firstn m recs) d
                /\ body_of (skipn m recs) (file_buf w)).
Proof.
intros Hk Hl0 Hag0 Hd0 Hb0 Hf0 cs.
induction cs as [|c cs IH] using rev_ind; intros Hh Hq Hal Hlen; cbv zeta.
- exists v0, w0. cbn. split; [reflexivity|]. split; [exact Hl0|]. split.
  + intros _. split; [exact Hd0|]. exists EmptyString.
    rewrite append_empty_r. split; [exact Hb0 | constructor].
  + intros H. lia.
- rewrite forallb_app in Hh, Hq. cbn in Hh, Hq.
  apply andb_prop in Hh. destruct Hh as [Hh Hhc].
  apply andb_prop in Hq. destruct Hq as [Hq Hqc].
  rewrite andb_true_r in Hhc, Hqc.
  rewrite length_app in Hal, Hlen. cbn [List.length] in Hal, Hlen.
  assert (Hal' : ramp_alive (List.length cs) (set_volt o) (max_volt o) (rs v0) = true).
  { apply ramp_alive_pred. rewrite Nat.add_1_r in Hal. exact Hal. }
  destruct (IH Hh Hq Hal' ltac:(lia)) as (v & w & Hml & Hloop & Hsmall & Hbig).
  clear IH.
  destruct (healthy_cycles sscanf_f o graph cs v0 w0 Hh Hq Hag0 Hal')
    as (v' & w' & body & Hcomp & Hag & _ & _ & Hrec & _ & Halive & _).
  pose proof (Hcomp []) as Hsame. rewrite app_nil_r, Hml in Hsame.
  cbn in Hsame. inversion Hsame. subst v' w'. clear Hsame.
  assert (Ha1 : ramp_alive 1 (set_volt o) (max_volt o) (rs v) = true)
    by (apply Halive; exact Hal).
  destruct (healthy_cycle sscanf_f o graph c v w Hhc Ha1)
    as (v2 & w2 & sep0 & Hc & Hkey & Hloop2 & Hvolt & Hamp & _).
  destruct (healthy_cycle_disk o graph c v w Hhc Ha1)
    as (v3 & w3 & sep & Hc3 & Hsep & Hfile).
  rewrite Hc in Hc3. inversion Hc3. subst v3 w3. clear Hc3.
  assert (Hag2 : again v2 = true).
  { unfold again in *. rewrite Hkey. unfold no_quit, quit_key in Hqc.
    destruct (keyhit c) as [kk|]; [|exact Hag].
    apply negb_true_iff in Hqc. apply orb_false_iff in Hqc.
    destruct Hqc as [-> ->]. reflexivity. }
  exists v2, w2.
  set (n := Z.of_nat (List.length cs)) in *.
  assert (Hn : 0 <= n) by (subst n; lia).
  assert (Hn1 : Z.of_nat (List.length cs + 1) = n + 1) by (subst n; lia).
  assert (Hl2 : loop v2 = n + 1).
  { rewrite Hloop2, Hloop. apply Z.mod_small. lia. }
  set (recs := records_of sscanf_f cs (volt v0) (amp v0)) in *.
  set (rec := record_text (now c) (volt v2) (amp v2)) in *.
  assert (Hrecs : records_of sscanf_f (cs ++ [c]) (volt v0) (amp v0)
                  = recs ++ [rec]).
  { rewrite Hrec. cbn. unfold rec. now rewrite Hvolt, Hamp. }
  assert (Hlr : List.length recs = List.length cs)
    by (unfold recs; apply records_of_length).
  rewrite length_app. cbn [List.length]. rewrite Hn1, Hrecs.
  split; [rewrite Hcomp; cbn; now rewrite Hc, Hag2|].
  split; [exact Hl2|].
  rewrite Hl2 in Hfile.
  destruct (succ_div_mod n (do_flush o) Hn Hk)
    as [(Hm & Hq' & Hge) | (Hm & Hq' & Hm')].
  + rewrite Hm in Hfile. cbn in Hfile. destruct Hfile as [Hd2 Hb2].
    split; [intros; lia|]. intros _. rewrite Hm, Z.sub_0_r.
    replace (Z.to_nat (n + 1)) with (List.length (recs ++ [rec]))
      by (rewrite length_app, Hlr; cbn [List.length]; subst n; lia).
    rewrite firstn_all, skipn_all, Hb2.
    destruct (Z.lt_ge_cases n (do_flush o)) as [Hlt|Hnk].
    * destruct (Hsmall Hlt) as (Hd & b & Hb & Hbody).
      exists (b ++ sep ++ rec)%string. rewrite Hd2, Hd, Hb.
      split; [cbn; now rewrite !append_assoc|].
      split; [|constructor].
      apply body_of_app; [exact Hbody | now apply body_of_one].
    * destruct (Hbig Hnk) as (d & Hd & Hbd & Hbb).
      exists (d ++ file_buf w ++ sep ++ rec)%string. rewrite Hd2, Hd.
      split; [now rewrite !append_assoc|].
      split; [|constructor].
      rewrite <- (firstn_skipn (Z.to_nat (n - n mod do_flush o)) recs).
      rewrite <- app_assoc.
      apply body_of_app; [exact Hbd|].
      apply body_of_app; [exact Hbb | now apply body_of_one].
  + apply Z.eqb_neq in Hm. rewrite Hm in Hfile. destruct Hfile as [Hd2 Hb2].
    apply Z.eqb_neq in Hm. split.
    * intros Hlt. destruct (Hsmall ltac:(lia)) as (Hd & b & Hb & Hbody).
      split; [congruence|].
      exists (b ++ sep ++ rec)%string. rewrite Hb2, Hb.
      split; [now rewrite !append_assoc|].
      apply body_of_app; [exact Hbody | now apply body_of_one].
    * intros Hge.
      pose proof (Z.mod_pos_bound n (do_flush o) ltac:(lia)) as Hmb.
      assert (Hnk : do_flush o <= n).
      { destruct (Z.eq_dec (n + 1) (do_flush o)) as [E|E]; [|lia].
        exfalso. apply Hm. rewrite E. apply Z.mod_same. lia. }
      destruct (Hbig Hnk) as (d & Hd & Hbd & Hbb).
      exists d. rewrite Hd2. split; [exact Hd|].
      replace (n + 1 - (n + 1) mod do_flush o) with (n - n mod do_flush o) by lia.
      set (m := Z.to_nat (n - n mod do_flush o)) in *.
      assert (Hmn : (m <= List.length recs)%nat) by (subst m n; lia).
      rewrite firstn_app, skipn_app.
      replace (m - List.length recs)%nat with 0%nat by lia.
      cbn [firstn skipn]. rewrite app_nil_r. split; [exact Hbd|].
      rewrite Hb2. apply body_of_app; [exact Hbb | now apply body_of_one].
Qed.

(** X17.  What the program itself writes out.  In a run without failure
    and without quit key, after n cycles with a flush every k cycles:
    as long as n < k the program has flushed nothing, header and
    records are what it handed to the stream since; from then on what
    it has flushed is the header and the records of the first
    n - n mod k cycles, and the records of the last n mod k cycles,
    fewer than k, have been handed to the stream after the last
    flush. *)
Theorem records_wait_for_the_periodic_flush o e :
reaches_loop o e = true -> 1 <= do_flush o ->
forallb healthy (cycles e) = true -> forallb no_quit (cycles e) = true ->
ramp_alive (List.length (cycles e)) (set_volt o) (max_volt o)
  (ramp_init (opt_ramp o) (opt_dramp o) (set_volt o) (max_volt o)) = true ->
Z.of_nat (List.length (cycles e)) < 2 ^ 64 ->
let n := Z.of_nat (List.length (cycles e)) in
let m := Z.to_nat (n - n mod do_flush o) in
let recs := records_of sscanf_f (cycles e) (volt_indet e) (amp_indet e) in
exists w,
  main sscanf_f o e = (Running, w)
  /\ (n < do_flush o ->
      file_disk w = EmptyString
      /\ exists b, file_buf w = (header_text o e ++ b)%string /\ body_of recs b)
  /\ (do_flush o <= n ->
      exists d, file_disk w = (header_text o e ++ d)%string
                /\ body_of (firstn m recs) d
                /\ body_of (skipn m recs) (file_buf w)).
Proof.
intros Hreach Hk Hh Hq Hal Hlen. cbv zeta.
destruct (prologue_reaches_loop o e Hreach)
  as (w0 & Hp & Hd0 & Hb0 & Ho0 & Hf0 & Ht).
unfold main. rewrite Hp, Ht. cbn [negb].
assert (Hd1 : file_disk (init_keyboard (fprintf_out (header_text o e) w0))
              = EmptyString) by exact Hd0.
assert (Hb1 : file_buf (init_keyboard (fprintf_out (header_text o e) w0))
              = header_text o e) by (cbn; now rewrite Hb0).
assert (Hf1 : file_flushes (init_keyboard (fprintf_out (header_text o e) w0))
              = 0%nat) by exact Hf0.
destruct (flushed_cycles o (graph_on o e) (header_text o e) (vars0 o e)
            (init_keyboard (fprintf_out (header_text o e) w0))
            Hk eq_refl eq_refl Hd1 Hb1 Hf1 (cycles e) Hh Hq Hal Hlen)
  as (v & w & Hml & _ & Hsmall & Hbig).
exists w. rewrite Hml. split; [reflexivity|]. split; assumption.
Qed.

End Flush.

Lemma records_wait_for_the_periodic_flush_witness :
let o := put_do_flush 2 (opts 0 false (fint 5) (fint 5)) in
let e := lab (repeat quiet 5) in
let recs := records_of scan_decimal (cycles e) (volt_indet e) (amp_indet e) in
exists w,
  main scan_decimal o e = (Running, w)
  /\ exists d, file_disk w = (header_text o e ++ d)%string
               /\ body_of (firstn 4 recs) d
               /\ body_of (skipn 4 recs) (file_buf w).
Proof.
intros o e recs.
destruct (records_wait_for_the_periodic_flush scan_decimal o e)
  as (w & Hm & _ & Hbig); try (vm_compute; reflexivity).
{ vm_compute. discriminate. }
exists w. split; [exact Hm|]. apply Hbig. vm_compute. discriminate.
Defined.

(** ** Runs without ramp, runs without graphics, and early failures *)

Section NoRamp.

Variable sscanf_f : string -> option spec_float.

(** A cycle of a run without ramp in which both queries are
    answered. *)
Lemma plain_cycle o graph c v w :
ramp (rs v) = 0 -> healthy c = true ->
exists w',
  cycle sscanf_f o graph c v w
  = (CycleNext (mkVars (rs v)
                       (match keyhit c with Some k => k | None => key v end)
                       ((loop v + 1) mod 2 ^ 64)
                       (scan_reply sscanf_f (vout c) (volt v))
                       (scan_reply sscanf_f (iout c) (amp v))), w')
  /\ bus w' = bus w ++ queries
  /\ file_content w'
     = (file_content w
        ++ record_text (now c) (scan_reply sscanf_f (vout c) (volt v))
                       (scan_reply sscanf_f (iout c) (amp v)))%string.
Proof.
intros Hr Hh. unfold healthy in Hh.
apply andb_prop in Hh. destruct Hh as [Hh Hi].
apply andb_prop in Hh. destruct Hh as [_ Hv].
unfold cycle, ramp_part. rewrite Hr. cbn [Z.eqb].
unfold sample_part, hp663X_read, refresh.
destruct (vout c) as [| |rv]; try discriminate.
destruct (iout c) as [| |ri]; try discriminate.
unfold answered in Hv, Hi. unfold scan_reply.
destruct (received rv) as [|bv|]; try discriminate.
destruct (received ri) as [|bi|]; try discriminate.
eexists. split; [reflexivity|].
destruct (_ =? 0); [destruct graph|]; unfold file_content, queries; cbn;
  rewrite <- ?app_assoc, ?append_empty_r, ?append_assoc; split; reflexivity.
Qed.

Lemma plain_cycles o graph cs : forall v w,
ramp (rs v) = 0 -> again v = true ->
forallb healthy cs = true -> forallb no_quit cs = true ->
exists v' w',
  main_loop sscanf_f o graph cs v w = (LoopRunning v', w')
  /\ bus w' = bus w ++ flat_map (fun _ => queries) cs
  /\ file_content w'
     = (file_content w ++ join (records_of sscanf_f cs (volt v) (amp v)))%string.
Proof.
induction cs as [|c cs IH]; intros v w Hr Hag Hh Hq.
- exists v, w. cbn. rewrite app_nil_r, append_empty_r. auto.
- cbn in Hh, Hq. apply andb_prop in Hh. destruct Hh as [Hh Hhs].
  apply andb_prop in Hq. destruct Hq as [Hq Hqs].
  destruct (plain_cycle o graph c v w Hr Hh) as (w1 & Hc & Hb1 & Hf1).
  cbn [main_loop]. rewrite Hc.
  set (v1 := mkVars _ _ _ _ _) in *.
  assert (Hag1 : again v1 = true).
  { unfold again, v1 in *. cbn [key]. unfold no_quit, quit_key in Hq.
    destruct (keyhit c) as [k|]; [|exact Hag].
    apply negb_true_iff in Hq. apply orb_false_iff in Hq.
    destruct Hq as [-> ->]. reflexivity. }
  rewrite Hag1.
  destruct (IH v1 w1 Hr Hag1 Hhs Hqs) as (v' & w' & Hml & Hb & Hf).
  exists v', w'. split; [exact Hml|]. split.
  + rewrite Hb, Hb1. cbn [flat_map]. now rewrite app_assoc.
  + rewrite Hf, Hf1. cbn [records_of join fold_right volt amp v1].
    now rewrite append_assoc.
Qed.

(** X18.  A run without ramp does not end by itself, and in its loop it only
    asks: as long as the queries are answered and neither q nor ESC is
    pressed, [main] stays in the loop; behind the optional reset and
    the setup command the bus has seen nothing but the two queries of
    every cycle, and the data file holds the header and one record for
    every cycle, without separator. *)
Theorem run_without_ramp_only_asks o e :
opt_ramp o = 0 -> reaches_loop o e = true ->
forallb healthy (cycles e) = true -> forallb no_quit (cycles e) = true ->
exists w,
  main sscanf_f o e = (Running, w)
  /\ bus w
     = (if reset_on o then [(RESET_CMD, true)] else [])
       ++ [(setup_text (setup_volt o) (set_amp o) (set_limvolt o) (do_ocp o), true)]
       ++ flat_map (fun _ => queries) (cycles e)
  /\ file_content w
     = (header_text o e
        ++ join (records_of sscanf_f (cycles e) (volt_indet e) (amp_indet e)))%string.
Proof.
intros Hr Hreach Hh Hq.
destruct (prologue_bus o e Hreach) as (w0 & Hp & Ht & Hb0).
destruct (prologue_reaches_loop o e Hreach)
  as (w0' & Hp' & Hd0 & Hbf0 & _).
rewrite Hp in Hp'. inversion Hp'. subst w0'. clear Hp'.
unfold main. rewrite Hp, Ht. cbn [negb].
destruct (plain_cycles o (graph_on o e) (cycles e) (vars0 o e)
            (init_keyboard (fprintf_out (header_text o e) w0)))
  as (v & w & Hml & Hb & Hf); try assumption; try reflexivity.
exists w. rewrite Hml. split; [reflexivity|]. split.
- rewrite Hb. cbn [bus init_keyboard set_kbd fprintf_out]. rewrite Hb0.
  now rewrite <- app_assoc.
- rewrite Hf. unfold file_content. cbn. now rewrite Hd0, Hbf0.
Qed.

Lemma cycle_without_graph o c v w r w' :
cycle sscanf_f o false c v w = (r, w') -> gp_sent w' = gp_sent w.
Proof.
unfold cycle, ramp_part, sample_part, hp663X_set, hp663X_read, refresh,
  leave_on_failure.
intros H; crunch; reflexivity.
Qed.

Lemma main_loop_without_graph o cs : forall v w r w',
main_loop sscanf_f o false cs v w = (r, w') -> gp_sent w' = gp_sent w.
Proof.
induction cs as [|c cs IH]; intros v w r w' H; cbn in H.
- now inversion H.
- destruct (cycle sscanf_f o false c v w) as [cr w1] eqn:Hc.
  apply cycle_without_graph in Hc.
  destruct cr as [v1|v1|s|]; try (inversion H; subst; exact Hc).
  destruct (again v1); [|inversion H; subst; exact Hc].
  apply IH in H. congruence.
Qed.

(** X19.  Without graphics nothing is ever written to gnuplot; but gnuplot
    was started all the same when the run is a timed one, and where
    [main] returns 0 the pipe to it has not been closed. *)
Theorem without_graphics_gnuplot_is_started_but_idle o e :
do_graph o = false ->
gp_sent (snd (main sscanf_f o e)) = []
/\ (fst (main sscanf_f o e) = Returned AtEnd ->
    gp_open (snd (main sscanf_f o e)) = timed o && popen_ok e).
Proof.
intros Hg.
assert (Hgo : graph_on o e = false) by (unfold graph_on; now rewrite Hg).
unfold main. rewrite Hgo.
assert (Hpro : forall r w, prologue o e = (r, w) ->
  gp_sent w = []
  /\ (r = None -> gp_open w = timed o && popen_ok e)).
{ unfold prologue, hp663X_open, hp663X_setup. rewrite Hgo. intros r w H.
  destruct (timed o), (popen_ok e), (ibdev_ok e), (reset_on o),
    (open_reset_ok e), (setup_ok e); cbn in H; inversion H; subst; cbn;
    split; try reflexivity; discriminate. }
assert (Hend : forall v w,
  gp_sent (snd (main_end o e false (reset_on o) v w)) = gp_sent w
  /\ (fst (main_end o e false (reset_on o) v w) = Returned AtEnd ->
      gp_open (snd (main_end o e false (reset_on o) v w)) = gp_open w)).
{ intros v w. unfold main_end, hp663X_close.
  destruct (reset_on o), (close_reset_ok e); cbn; split;
    try reflexivity; discriminate. }
destruct (prologue o e) as [[s|] w0] eqn:Hp;
  destruct (Hpro _ _ eq_refl) as [Hs0 Ho0].
- cbn. split; [exact Hs0|]. intros H. inversion H. subst s.
  apply prologue_exit in Hp. destruct Hp as [[H1|H1] _]; discriminate.
- specialize (Ho0 eq_refl).
  destruct (negb (timed o)).
  + destruct (Hend (rs (vars0 o e)) w0) as [H1 H2].
    split; [congruence|]. intros H. rewrite (H2 H). exact Ho0.
  + destruct (main_loop sscanf_f o false (cycles e) (vars0 o e)
                (init_keyboard (fprintf_out (header_text o e) w0)))
      as [lr w1] eqn:Hl.
    pose proof (main_loop_without_graph _ _ _ _ _ _ Hl) as Hs1.
    pose proof (main_loop_resources _ _ _ _ _ _ _ _ Hl) as Hres.
    cbn [gp_sent init_keyboard set_kbd fprintf_out] in Hs1.
    destruct lr as [v|s|v|].
    * destruct (Hend (rs v) (fclose_out (fprintf_out (footer_text e) w1)))
        as [H1 H2].
      split; [rewrite H1; cbn; congruence|].
      intros H. rewrite (H2 H). cbn.
      destruct Hres as (_ & Hgp & _). cbn in Hgp. congruence.
    * cbn. split; [congruence|]. intros H. inversion H. subst s.
      destruct Hres as [[H1 | [H1 | H1]] _]; discriminate.
    * cbn. split; [congruence | discriminate].
    * cbn. split; [congruence | discriminate].
Qed.

End NoRamp.

Lemma run_without_ramp_only_asks_witness :
let o := opts 0 false (fint 5) (fint 5) in
let e := lab [quiet; quiet; quiet] in
exists w,
  main scan_decimal o e = (Running, w)
  /\ bus w
     = (if reset_on o then [(RESET_CMD, true)] else [])
       ++ [(setup_text (setup_volt o) (set_amp o) (set_limvolt o) (do_ocp o), true)]
       ++ flat_map (fun _ => queries) (cycles e)
  /\ file_content w
     = (header_text o e
        ++ join (records_of scan_decimal (cycles e) (volt_indet e) (amp_indet e)))%string.
Proof.
intros o e.
apply (run_without_ramp_only_asks scan_decimal o e); vm_compute; reflexivity.
Defined.

Lemma without_graphics_gnuplot_is_started_but_idle_witness :
let o := put_do_graph false (opts 0 false (fint 5) (fint 5)) in
let e := lab [quiet; mkCycle true (S754_finite false 1 (-5))
                       (Answer (" 12.009" ++ CRLF)) (Answer ("-0.0005" ++ CRLF))
                       (Some KEY_q)] in
fst (main scan_decimal o e) = Returned AtEnd
/\ gp_sent (snd (main scan_decimal o e)) = []
/\ gp_open (snd (main scan_decimal o e)) = true.
Proof.
intros o e.
destruct (without_graphics_gnuplot_is_started_but_idle scan_decimal o e eq_refl)
  as [H1 H2].
assert (H : fst (main scan_decimal o e) = Returned AtEnd)
  by (vm_compute; reflexivity).
split; [exact H|]. split; [exact H1|]. rewrite (H2 H). reflexivity.
Defined.

(** ** The single ramp in general *)

Lemma amounts_near_table :
forallb amount_near (map (fun n => Z.of_nat n - 1000) (seq 0 2001)) = true.
Proof. vm_compute. reflexivity. Qed.

Lemma amount_near_all r : -1000 <= r <= 1000 -> amount_near r = true.
Proof.
intros Hr. pose proof amounts_near_table as H.
rewrite forallb_forall in H. apply H.
apply in_map_iff. exists (Z.to_nat (r + 1000)). split; [lia|].
apply in_seq. lia.
Qed.

Section Trace.

Variables sv mv : spec_float.
Hypothesis sv_proper : proper32 sv = true.
Hypothesis mv_proper : proper32 mv = true.
Hypothesis sv_low : 0 <= val sv.
Hypothesis mv_high : val mv <= 50 * VOLT.

Variable r : Z.
Hypothesis r_size : -1000 <= r <= 1000.
Hypothesis r_nonzero : r <> 0.

(** A leg with the voltages it goes through. *)
Lemma leg_trace dr av (k : nat) : forall x,
in_reach x -> distance sv mv r x < Z.of_nat k * QUANTUM ->
exists pre x',
  (forall n, ramp_decisions (List.length pre + n) sv mv (mkRamp r x dr av)
             = map (RampApply false) pre
               ++ ramp_decisions n sv mv (mkRamp r x' dr av))
  /\ in_reach x'
  /\ limit_reached sv mv (mkRamp r x' dr av) = true
  /\ leg_shape sv mv r x pre x'.
Proof.
induction k as [|k IH]; intros x Hx Hd.
- exists [], x. split; [reflexivity|]. split; [exact Hx|]. split.
  + rewrite (limit_reached_distance sv mv sv_proper mv_proper r r_nonzero) by apply Hx.
    apply Z.ltb_lt. lia.
  + now left.
- destruct (limit_reached sv mv (mkRamp r x dr av)) eqn:Hl.
  + exists [], x. split; [reflexivity|]. split; [exact Hx|].
    split; [exact Hl | now left].
  + rewrite (limit_reached_distance sv mv sv_proper mv_proper r r_nonzero) in Hl
      by apply Hx.
    apply Z.ltb_ge in Hl.
    destruct (step_before_limit sv mv sv_low mv_high r r_size r_nonzero
                x Hx Hl) as [Hx1 Hd1].
    destruct (IH (ramp_step x r) Hx1) as (pre & x' & Hrun & Hx' & Hl' & Hshape).
    { rewrite Nat2Z.inj_succ in Hd. lia. }
    exists (mkRamp r (ramp_step x r) dr av :: pre), x'.
    split; [|split; [|split]]; try assumption.
    * intros n. cbn [List.length Nat.add ramp_decisions map app].
      unfold ramp_block. cbn [ramp ramp_volt dramp dramp_avail].
      rewrite (limit_reached_distance sv mv sv_proper mv_proper r r_nonzero) by apply Hx.
      apply Z.ltb_ge in Hl. rewrite Hl. f_equal. apply Hrun.
    * right. split; [exact Hl|].
      destruct Hshape as [[-> ->] | (Hd0 & pre0 & last & y & -> & Hlast & Hy & Hdy & Hry & Hall)].
      -- exists [], (mkRamp r (ramp_step x r) dr av), x.
         split; [reflexivity|]. split; [reflexivity|]. split; [reflexivity|].
         split; [exact Hl|]. split; [exact Hx | constructor].
      -- exists (mkRamp r (ramp_step x r) dr av :: pre0), last, y.
         split; [reflexivity|]. split; [exact Hlast|]. split; [exact Hy|].
         split; [exact Hdy|]. split; [exact Hry|].
         constructor; [exact Hd0 | exact Hall].
Qed.

End Trace.

(** How far a step can carry the voltage beyond the limit. *)
Lemma step_beyond_limit sv mv r y :
-1000 <= r <= 1000 -> r <> 0 ->
in_reach y -> 0 <= distance sv mv r y ->
1000 * (- distance sv mv r (ramp_step y r))
<= Z.abs r * VOLT + 1000 * (2 ^ 45 * TICK).
Proof.
intros Hr Hnz Hy Hd.
destruct (ramp_step_coarse y r Hy Hr) as [_ Hstep].
pose proof (amount_near_all r Hr) as Hnear. unfold amount_near in Hnear.
apply Z.leb_le in Hnear.
pose proof TICK_pos as HT.
unfold distance in *.
destruct (0 <? r) eqn:Hs.
- apply Z.ltb_lt in Hs. lia.
- apply Z.ltb_ge in Hs. lia.
Qed.

(** X20.  For every single ramp that the command line accepts (finite
    voltages): the loop ends by itself; at least one setpoint is
    applied; every setpoint but the last lies within the limit of the
    ramp (not above max_volt when the step is positive, not below
    set_volt when it is negative); and the last setpoint applied lies
    beyond that limit, by no more than one step and 2^-15 V.  The limit
    is tested before the step is added. *)
Theorem single_ramp_ends_one_step_beyond_its_limit o :
options_accepted o = true ->
proper32 (set_volt o) = true -> proper32 (max_volt o) = true ->
opt_ramp o <> 0 -> opt_dramp o = false ->
exists (pre : list ramp_vars) (last : ramp_vars),
  ramp_decisions (List.length pre + 2) (set_volt o) (max_volt o)
    (ramp_init (opt_ramp o) false (set_volt o) (max_volt o))
  = map (RampApply false) (pre ++ [last]) ++ [RampBreak]
  /\ Forall (fun v => 0 <= distance (set_volt o) (max_volt o) (opt_ramp o)
                                    (ramp_volt v)) pre
  /\ distance (set_volt o) (max_volt o) (opt_ramp o) (ramp_volt last) < 0
  /\ 1000 * (- distance (set_volt o) (max_volt o) (opt_ramp o) (ramp_volt last))
     <= Z.abs (opt_ramp o) * VOLT + 1000 * (2 ^ 45 * TICK).
Proof.
intros Hacc Hsp Hmp Hnz Hdr.
destruct (accepted_voltages o Hacc Hsp Hmp Hnz) as (Hlow & Hle & Hhigh & Hr).
pose proof (accepted_start_within o Hacc Hnz) as Hstart. rewrite Hdr in Hstart.
set (x0 := if 0 <? opt_ramp o then set_volt o else max_volt o).
assert (Hx0 : in_reach x0).
{ unfold in_reach, x0. pose proof TICK_pos. rewrite VOLT_ticks.
  destruct (0 <? opt_ramp o); split; try assumption;
    rewrite VOLT_ticks in Hhigh; lia. }
destruct (leg_trace (set_volt o) (max_volt o) Hsp Hmp Hlow Hhigh (opt_ramp o)
            Hr Hnz false false
            (Z.to_nat (Z.abs (distance (set_volt o) (max_volt o) (opt_ramp o) x0) + 1))
            x0 Hx0)
  as (pre & x' & Hrun & Hx' & Hlim & Hshape).
{ pose proof TICK_pos. unfold QUANTUM. rewrite Z2Nat.id by lia. nia. }
change (ramp_init (opt_ramp o) false (set_volt o) (max_volt o))
  with (mkRamp (opt_ramp o) x0 false false) in *.
destruct Hshape as [[-> ->] | (Hd0 & pre0 & last & y & -> & Hlast & Hy & Hdy & Hry & Hall)].
- rewrite Hlim in Hstart. discriminate.
- exists pre0, last.
  rewrite (limit_reached_distance (set_volt o) (max_volt o) Hsp Hmp (opt_ramp o) Hnz)
    in Hlim by apply Hx'.
  apply Z.ltb_lt in Hlim.
  split; [|split; [exact Hall|split]].
  + specialize (Hrun 1%nat). rewrite length_app in Hrun. cbn [List.length] in Hrun.
    replace (List.length pre0 + 2)%nat with (List.length pre0 + 1 + 1)%nat by lia.
    rewrite Hrun. f_equal. cbn [ramp_decisions]. unfold ramp_block.
    rewrite (limit_reached_distance (set_volt o) (max_volt o) Hsp Hmp (opt_ramp o) Hnz)
      by apply Hx'.
    apply Z.ltb_lt in Hlim. now rewrite Hlim.
  + rewrite Hlast. exact Hlim.
  + rewrite Hlast, Hy. now apply step_beyond_limit.
Qed.

Lemma single_ramp_ends_one_step_beyond_its_limit_witness :
let o := opts 1000 false f0 (fint 5) in
exists (pre : list ramp_vars) (last : ramp_vars),
  ramp_decisions (List.length pre + 2) (set_volt o) (max_volt o)
    (ramp_init (opt_ramp o) false (set_volt o) (max_volt o))
  = map (RampApply false) (pre ++ [last]) ++ [RampBreak]
  /\ Forall (fun v => 0 <= distance (set_volt o) (max_volt o) (opt_ramp o)
                                    (ramp_volt v)) pre
  /\ distance (set_volt o) (max_volt o) (opt_ramp o) (ramp_volt last) < 0
  /\ 1000 * (- distance (set_volt o) (max_volt o) (opt_ramp o) (ramp_volt last))
     <= Z.abs (opt_ramp o) * VOLT + 1000 * (2 ^ 45 * TICK).
Proof.
intros o.
apply (single_ramp_ends_one_step_beyond_its_limit o);
  try (vm_compute; reflexivity).
vm_compute. discriminate.
Defined.

(** ** Talking to the instrument *)

Lemma substring_prefix s : forall n t,
(n <= String.length s)%nat ->
substring 0 n (s ++ t) = substring 0 n s.
Proof.
induction s as [|c s IH]; intros [|n] t H; cbn in H; try lia.
- destruct t; reflexivity.
- reflexivity.
- change (String c s ++ t)%string with (String c (s ++ t)%string).
  cbn [substring]. rewrite IH by lia. reflexivity.
Qed.

Lemma substring_all s : substring 0 (String.length s) s = s.
Proof.
induction s as [|c s IH]; [reflexivity|]. cbn. now rewrite IH.
Qed.

(** X21.  [hp663X_read] sends the query with a newline and drops the last two
    bytes of the answer, whatever they are.  An answer of up to nine
    characters before these two bytes comes back whole; of a longer one
    only the first nine characters are kept, because no more than 11
    bytes are read.  With an answer of fewer than two bytes the
    terminating 0 is written in front of the buffer. *)
Theorem hp663X_read_drops_two_bytes what s tail w :
String.length tail = 2%nat ->
snd (hp663X_read what (Answer (s ++ tail)) w) = ibwrt (what ++ NL) true w
/\ ((String.length s <= 9)%nat ->
    fst (hp663X_read what (Answer (s ++ tail)) w) = Reading s)
/\ ((9 < String.length s)%nat ->
    fst (hp663X_read what (Answer (s ++ tail)) w) = Reading (substring 0 9 s))
/\ (forall raw, (String.length raw < 2)%nat ->
    fst (hp663X_read what (Answer raw) w) = Overrun).
Proof.
intros Ht. unfold hp663X_read, received. cbn [fst snd].
rewrite length_append, Ht.
split; [reflexivity|]. split; [|split]; [intros Hs | intros Hs | intros raw Hs].
- destruct (Nat.ltb_spec (Nat.min (String.length s + 2) 11) 2) as [H|_]; [lia|].
  replace (Nat.min (String.length s + 2) 11 - 2)%nat with (String.length s)
    by lia.
  rewrite substring_prefix by apply Nat.le_refl.
  now rewrite substring_all.
- destruct (Nat.ltb_spec (Nat.min (String.length s + 2) 11) 2) as [H|_]; [lia|].
  replace (Nat.min (String.length s + 2) 11 - 2)%nat with 9%nat by lia.
  rewrite substring_prefix by lia. reflexivity.
- destruct (Nat.ltb_spec (Nat.min (String.length raw) 11) 2) as [_|H];
    [reflexivity | lia].
Qed.

Lemma hp663X_read_drops_two_bytes_witness :
fst (hp663X_read "VOUT?" (Answer (" 12.009" ++ CRLF)) world0) = Reading " 12.009"%string
/\ fst (hp663X_read "VOUT?" (Answer ("+12.009876" ++ CRLF)) world0)
   = Reading "+12.00987"%string.
Proof.
split.
- destruct (hp663X_read_drops_two_bytes "VOUT?" " 12.009" CRLF world0 eq_refl)
    as (_ & H & _).
  apply H. cbn. lia.
- destruct (hp663X_read_drops_two_bytes "VOUT?" "+12.009876" CRLF world0 eq_refl)
    as (_ & _ & H & _).
  apply H. cbn. lia.
Defined.

(** The texts that the program can send. *)
Lemma texts_differ_from_reset :
(forall cmd x, cmd <> EmptyString ->
   (forall t, cmd <> String "O" t) -> set_text cmd x <> RESET_CMD)
/\ (forall v a l ocp, setup_text v a l ocp <> RESET_CMD)
/\ ("VOUT?" ++ NL)%string <> RESET_CMD
/\ ("IOUT?" ++ NL)%string <> RESET_CMD.
Proof.
split; [|split; [|split]].
- intros [|c cmd] x Hne Ho; [contradiction|].
  unfold set_text, RESET_CMD. intros H.
  change (String c cmd ++ " " ++ printf_f 6 x ++ NL)%string
    with (String c (cmd ++ " " ++ printf_f 6 x ++ NL)%string) in H.
  inversion H. subst c. now apply (Ho cmd).
- intros v a l ocp. unfold setup_text, RESET_CMD. intros H. inversion H.
- discriminate.
- discriminate.
Qed.

Section Protocol.

Variable sscanf_f : string -> option spec_float.

Lemma loop_command_vset x : loop_command (set_text "VSET" x).
Proof. right. right. now exists x. Qed.

Lemma cycle_commands o graph c v w r w' :
cycle sscanf_f o graph c v w = (r, w') ->
exists l, bus w' = bus w ++ l /\ Forall (fun p => loop_command (fst p)) l.
Proof.
unfold cycle, ramp_part, sample_part, hp663X_set, hp663X_read, refresh,
  leave_on_failure.
assert (Hv : loop_command ("VOUT?" ++ NL)) by now left.
assert (Hi : loop_command ("IOUT?" ++ NL)) by (right; now left).
intros H; crunch;
  cbn [bus ibwrt note_close fprintf_out fflush_out fclose_out set_gp fprintf_gp
       pclose_if_gp set_kbd close_keyboard init_keyboard];
  rewrite <- ?app_assoc; cbn [app];
  first [ exists []; split; [now rewrite app_nil_r | constructor]
        | eexists; split; [reflexivity|];
          repeat (apply Forall_cons;
                  [cbn [fst]; first [ exact Hv | exact Hi | apply loop_command_vset ]|]);
          apply Forall_nil ].
Qed.

Lemma main_loop_commands o graph cs : forall v w r w',
main_loop sscanf_f o graph cs v w = (r, w') ->
exists l, bus w' = bus w ++ l /\ Forall (fun p => loop_command (fst p)) l.
Proof.
induction cs as [|c cs IH]; intros v w r w' H; cbn in H.
- inversion H; subst. exists []. split; [now rewrite app_nil_r | constructor].
- destruct (cycle sscanf_f o graph c v w) as [cr w1] eqn:Hc.
  apply cycle_commands in Hc. destruct Hc as (l1 & Hb1 & Hl1).
  destruct cr as [v1|v1|s|];
    try (inversion H; subst; exists l1; now split).
  destruct (again v1); [|inversion H; subst; exists l1; now split].
  apply IH in H. destruct H as (l2 & Hb2 & Hl2).
  exists (l1 ++ l2). split.
  + now rewrite Hb2, Hb1, app_assoc.
  + apply Forall_app. now split.
Qed.

Lemma bus_shape o e :
exists opening inside closing,
  map fst (bus (snd (main sscanf_f o e))) = opening ++ inside ++ closing
  /\ (opening = []
      \/ (opening = [RESET_CMD] /\ reset_on o = true)
      \/ opening = [setup_text (setup_volt o) (set_amp o) (set_limvolt o) (do_ocp o)]
      \/ (opening = [RESET_CMD;
                     setup_text (setup_volt o) (set_amp o) (set_limvolt o) (do_ocp o)]
          /\ reset_on o = true))
  /\ Forall loop_command inside
  /\ (closing = [] \/ (closing = [RESET_CMD] /\ reset_on o = true)).
Proof.
unfold main.
assert (Hpro : forall r w, prologue o e = (r, w) ->
  map fst (bus w) = []
  \/ (map fst (bus w) = [RESET_CMD] /\ reset_on o = true)
  \/ map fst (bus w)
     = [setup_text (setup_volt o) (set_amp o) (set_limvolt o) (do_ocp o)]
  \/ (map fst (bus w)
      = [RESET_CMD;
         setup_text (setup_volt o) (set_amp o) (set_limvolt o) (do_ocp o)]
      /\ reset_on o = true)).
{ unfold prologue, hp663X_open, hp663X_setup. intros r w H.
  destruct (timed o), (graph_on o e), (ibdev_ok e), (reset_on o),
    (open_reset_ok e), (setup_ok e); cbn in H; inversion H; subst; cbn; auto. }
assert (Hend : forall v w,
  exists closing,
    map fst (bus (snd (main_end o e (graph_on o e) (reset_on o) v w)))
    = map fst (bus w) ++ closing
    /\ (closing = [] \/ (closing = [RESET_CMD] /\ reset_on o = true))).
{ intros v w. unfold main_end, hp663X_close.
  destruct (reset_on o), (close_reset_ok e), (graph_on o e); cbn;
    rewrite ?map_app; cbn;
    first [ exists []; split; [now rewrite app_nil_r | now left]
          | exists [RESET_CMD]; split; [reflexivity | right; now split] ]. }
destruct (prologue o e) as [[s|] w0] eqn:Hp; pose proof (Hpro _ _ eq_refl) as Hopen.
- exists (map fst (bus w0)), [], []. cbn. rewrite !app_nil_r.
  split; [reflexivity|]. split; [exact Hopen|]. split; [constructor | now left].
- destruct (negb (timed o)).
  + destruct (Hend (rs (vars0 o e)) w0) as (closing & Hb & Hc).
    exists (map fst (bus w0)), [], closing. cbn [app].
    split; [exact Hb|]. split; [exact Hopen|]. split; [constructor | exact Hc].
  + destruct (main_loop sscanf_f o (graph_on o e) (cycles e) (vars0 o e)
                (init_keyboard (fprintf_out (header_text o e) w0)))
      as [lr w1] eqn:Hl.
    apply main_loop_commands in Hl. destruct Hl as (l & Hb1 & Hl).
    cbn [bus init_keyboard set_kbd fprintf_out] in Hb1.
    assert (Hin : Forall loop_command (map fst l)).
    { rewrite Forall_map. exact Hl. }
    destruct lr as [v|s|v|].
    * destruct (Hend (rs v) (fclose_out (fprintf_out (footer_text e) w1)))
        as (closing & Hb & Hc).
      exists (map fst (bus w0)), (map fst l), closing.
      split; [|split; [exact Hopen | split; [exact Hin | exact Hc]]].
      rewrite Hb. cbn [bus fclose_out fprintf_out].
      now rewrite Hb1, map_app, <- app_assoc.
    * exists (map fst (bus w0)), (map fst l), []. cbn [snd].
      split; [|split; [exact Hopen | split; [exact Hin | now left]]].
      now rewrite Hb1, map_app, app_nil_r.
    * exists (map fst (bus w0)), (map fst l), []. cbn [snd].
      split; [|split; [exact Hopen | split; [exact Hin | now left]]].
      now rewrite Hb1, map_app, app_nil_r.
    * exists (map fst (bus w0)), (map fst l), []. cbn [snd].
      split; [|split; [exact Hopen | split; [exact Hin | now left]]].
      now rewrite Hb1, map_app, app_nil_r.
Qed.

(** X22.  The whole traffic of a run, whatever happens: an opening, made of
    the reset (only when it is wanted) and the setup command; then
    nothing but VSET commands and the queries VOUT? and IOUT?; and at
    the end at most one reset (only when it is wanted).  A reset is
    wanted when -k was not given and the delay is not 0. *)
Theorem only_known_commands_are_sent o e :
exists opening inside closing,
  map fst (bus (snd (main sscanf_f o e))) = opening ++ inside ++ closing
  /\ (opening = []
      \/ (opening = [RESET_CMD] /\ reset_on o = true)
      \/ opening = [setup_text (setup_volt o) (set_amp o) (set_limvolt o) (do_ocp o)]
      \/ (opening = [RESET_CMD;
                     setup_text (setup_volt o) (set_amp o) (set_limvolt o) (do_ocp o)]
          /\ reset_on o = true))
  /\ Forall loop_command inside
  /\ (closing = [] \/ (closing = [RESET_CMD] /\ reset_on o = true)).
Proof. apply bus_shape. Qed.

Lemma loop_command_not_reset s : loop_command s -> s <> RESET_CMD.
Proof.
destruct texts_differ_from_reset as (Hset & _ & Hv & Hi).
intros [-> | [-> | [x ->]]]; auto.
apply Hset; [discriminate|]. intros t H. inversion H.
Qed.

(** X23.  The option -k is honoured, and so is the delay 0: when no reset is
    wanted, the reset command is never sent, whatever happens. *)
Theorem no_reset_when_kept o e :
reset_on o = false ->
~ In RESET_CMD (map fst (bus (snd (main sscanf_f o e)))).
Proof.
intros Hk.
destruct (bus_shape o e)
  as (opening & inside & closing & Hb & Hopen & Hin & Hclose).
rewrite Hb. intros H. apply in_app_or in H. destruct H as [H | H].
- destruct Hopen as [-> | [[_ Hr] | [-> | [_ Hr]]]]; try congruence.
  + contradiction.
  + destruct H as [H | []].
    destruct texts_differ_from_reset as (_ & Hsetup & _). now apply Hsetup in H.
- apply in_app_or in H. destruct H as [H | H].
  + rewrite Forall_forall in Hin. now apply (loop_command_not_reset _ (Hin _ H)).
  + destruct Hclose as [-> | [_ Hr]]; [contradiction | congruence].
Qed.

End Protocol.

Lemma no_reset_when_kept_witness :
let o := put_do_reset false (opts 1000 false f0 (fint 2)) in
let e := lab (repeat quiet 6) in
fst (main scan_decimal o e) = Returned AtEnd
/\ ~ In RESET_CMD (map fst (bus (snd (main scan_decimal o e)))).
Proof.
intros o e. split; [vm_compute; reflexivity|].
exact (no_reset_when_kept scan_decimal o e eq_refl).
Defined.

(** ** Failures before the loop *)

Lemma main_without_prologue_exit sscanf_f o e w0 :
prologue o e = (None, w0) ->
fst (main sscanf_f o e) <> Returned AtOpen
/\ fst (main sscanf_f o e) <> Returned AtSetup.
Proof.
intros Hp. unfold main. rewrite Hp.
assert (Hend : forall v w,
  fst (main_end o e (graph_on o e) (reset_on o) v w) <> Returned AtOpen
  /\ fst (main_end o e (graph_on o e) (reset_on o) v w) <> Returned AtSetup).
{ intros v w.
  destruct (main_end_file o e (graph_on o e) (reset_on o) v w)
    as (s & w' & -> & [-> | ->] & _); cbn; split; discriminate. }
destruct (negb (timed o)); [apply Hend|].
destruct (main_loop sscanf_f o (graph_on o e) (cycles e) (vars0 o e)
            (init_keyboard (fprintf_out (header_text o e) w0)))
  as [lr w1] eqn:Hl.
apply main_loop_resources in Hl.
destruct lr as [v|s|v|].
- apply Hend.
- destruct Hl as [[-> | [-> | ->]] _]; cbn; split; discriminate.
- cbn. split; discriminate.
- cbn. split; discriminate.
Qed.

(** X24.  When the instrument cannot be opened or does not take the setup
    command, [main] returns ERR_INST before the loop: from
    [hp663X_open] exactly when the device is not found or the wanted
    reset cannot be written, from [hp663X_setup] exactly when the
    opening went well and the setup command cannot be written.  By then
    the data file of a timed run has been created and is left empty
    and open; gnuplot has been closed again; the keyboard has not been
    touched and [hp663X_close] has not been called. *)
Theorem failure_before_the_loop sscanf_f o e :
let r := main sscanf_f o e in
(fst r = Returned AtOpen
 <-> ibdev_ok e = false \/ (reset_on o = true /\ open_reset_ok e = false))
/\ (fst r = Returned AtSetup
    <-> ibdev_ok e = true /\ (reset_on o = false \/ open_reset_ok e = true)
        /\ setup_ok e = false)
/\ (fst r = Returned AtOpen \/ fst r = Returned AtSetup ->
    exit_code AtOpen = ERR_INST /\ exit_code AtSetup = ERR_INST
    /\ file_disk (snd r) = EmptyString /\ file_buf (snd r) = EmptyString
    /\ file_open (snd r) = timed o
    /\ gp_open (snd r) = false
    /\ kbd_raw (snd r) = false /\ close_calls (snd r) = []).
Proof.
cbv zeta.
destruct (prologue o e) as [[s|] w0] eqn:Hp.
- assert (Hm : main sscanf_f o e = (Returned s, w0))
    by (unfold main; now rewrite Hp).
  rewrite Hm. cbn [fst snd].
  unfold prologue, hp663X_open, hp663X_setup in Hp.
  destruct (timed o), (graph_on o e), (ibdev_ok e), (reset_on o),
    (open_reset_ok e), (setup_ok e); cbn in Hp; inversion Hp; subst; cbn;
    (split; [|split]);
    try (split; [intros H; try discriminate H; tauto
                | intros H; try reflexivity; exfalso;
                  intuition discriminate]);
    intros _; repeat split; reflexivity.
- destruct (main_without_prologue_exit sscanf_f o e w0 Hp) as [H1 H2].
  unfold prologue, hp663X_open, hp663X_setup in Hp.
  destruct (ibdev_ok e), (reset_on o), (open_reset_ok e), (setup_ok e);
    destruct (timed o), (graph_on o e); cbn in Hp; try discriminate Hp;
    (split; [|split]);
    try (split; [intros H; contradiction
                | intros H; exfalso; intuition discriminate]);
    intros [H | H]; contradiction.
Qed.

(** ** Reading the data file of a finished run *)

Section ReadBack.

Variable sscanf_f : string -> option spec_float.

(** A run that the operator ends with q or ESC in the cycle [c]. *)
Lemma run_ended_by_key o e cs c rest k :
reaches_loop o e = true ->
cycles e = cs ++ c :: rest ->
forallb healthy cs = true -> forallb no_quit cs = true ->
healthy c = true -> keyhit c = Some k -> quit_key k = true ->
ramp_alive (List.length cs + 1) (set_volt o) (max_volt o) (rs (vars0 o e)) = true ->
exists s w body,
  main sscanf_f o e = (Returned s, w)
  /\ (s = AtEnd \/ s = AtClose)
  /\ file_open w = false /\ file_buf w = EmptyString
  /\ file_disk w = (header_text o e ++ body ++ footer_text e)%string
  /\ body_of (records_of sscanf_f (cs ++ [c]) (volt_indet e) (amp_indet e)) body.
Proof.
intros Hreach Hcs Hh Hq Hhc Hkey Hquit Hal.
destruct (prologue_reaches_loop o e Hreach)
  as (w0 & Hp & Hd0 & Hb0 & Ho0 & Hf0 & Ht).
unfold main. rewrite Hp, Ht, Hcs. cbn [negb].
set (w1 := init_keyboard (fprintf_out (header_text o e) w0)).
destruct (healthy_cycles sscanf_f o (graph_on o e) cs (vars0 o e) w1)
  as (v9 & w9 & body & Hml & Hag & Hcont & Hbody & Hrec & Hopen & Hk & _);
  auto.
{ rewrite Nat.add_1_r in Hal. now apply ramp_alive_pred. }
rewrite Hml.
assert (Hal1 : ramp_alive 1 (set_volt o) (max_volt o) (rs v9) = true)
  by (apply Hk; exact Hal).
destruct (healthy_cycle sscanf_f o (graph_on o e) c v9 w9 Hhc Hal1)
  as (v10 & w10 & sep & Hc & Hkey10 & Hloop & Hvolt & Hamp & Hsep & Hcont10
      & Hopen10 & _).
cbn [main_loop]. rewrite Hc.
assert (Hag10 : again v10 = false).
{ unfold again. rewrite Hkey10, Hkey. unfold quit_key in Hquit.
  destruct (k =? KEY_q), (k =? ESC); try discriminate Hquit; reflexivity. }
rewrite Hag10.
destruct (main_end_file o e (graph_on o e) (reset_on o) (rs v10)
            (fclose_out (fprintf_out (footer_text e) w10)))
  as (s & w & Hend & Hs & Hd & Hb & Ho & Hf).
rewrite Hend.
exists s, w, (body ++ sep ++ record_text (now c) (volt v10) (amp v10))%string.
repeat split; auto.
- rewrite Hd. cbn. rewrite <- append_assoc.
  change (file_disk w10 ++ file_buf w10)%string with (file_content w10).
  rewrite Hcont10, Hcont.
  unfold w1, file_content. cbn. rewrite Hd0, Hb0. cbn.
  now rewrite !append_assoc.
- rewrite Hrec. apply body_of_app; [exact Hbody|].
  cbn. rewrite <- Hvolt, <- Hamp. now apply body_of_one.
Qed.

(** X25.  The data file of a run that the operator ended can be read back.
    When the comment holds no newline, the two time stamps are single
    lines and every logged value is finite, the closed file is made of
    comment lines, empty lines and records; reading it yields one
    triple for every cycle, in the order of the cycles, and every
    number read is within half a unit of the fourth decimal of the
    value that was logged. *)
Theorem data_file_of_a_finished_run_reads_back o e cs c rest k :
reaches_loop o e = true ->
cycles e = cs ++ c :: rest ->
forallb healthy cs = true -> forallb no_quit cs = true ->
healthy c = true -> keyhit c = Some k -> quit_key k = true ->
ramp_alive (List.length cs + 1) (set_volt o) (max_volt o) (rs (vars0 o e)) = true ->
all_chars (is_not NLc) (comment o) = true ->
ctime_like (ctime_start e) -> ctime_like (ctime_stop e) ->
Forall finite_sample
  (samples_of sscanf_f (cs ++ [c]) (volt_indet e) (amp_indet e)) ->
exists s w triples,
  main sscanf_f o e = (Returned s, w)
  /\ (s = AtEnd \/ s = AtClose)
  /\ file_open w = false
  /\ read_dataset (file_disk w) = Some triples
  /\ Forall2 near4_sample triples
       (samples_of sscanf_f (cs ++ [c]) (volt_indet e) (amp_indet e)).
Proof.
intros Hreach Hcs Hh Hq Hhc Hkey Hquit Hal Hcom Hstart Hstop Hfin.
destruct (run_ended_by_key o e cs c rest k Hreach Hcs Hh Hq Hhc Hkey Hquit Hal)
  as (s & w & body & Hm & Hs & Ho & _ & Hd & Hbody).
destruct (body_reads _ _ Hbody _ (records_of_samples _ _ _ _) Hfin
            (footer_text e) [] (footer_reads e Hstop))
  as (back & Hread & Hnear).
exists s, w, back. rewrite app_nil_r in Hread.
split; [exact Hm|]. split; [exact Hs|]. split; [exact Ho|].
split; [|exact Hnear].
unfold read_dataset, lines. rewrite Hd.
rewrite header_reads by assumption. exact Hread.
Qed.

End ReadBack.

Lemma data_file_of_a_finished_run_reads_back_witness :
let last := mkCycle true (S754_finite false 3 (-6))
              (Answer (" 12.011" ++ CRLF)) (Answer (" 0.0012" ++ CRLF))
              (Some KEY_q) in
let o := opts 1000 true f0 (fint 5) in
let e := lab (repeat quiet 7 ++ [last; quiet]) in
exists s w triples,
  main scan_decimal o e = (Returned s, w)
  /\ (s = AtEnd \/ s = AtClose)
  /\ file_open w = false
  /\ read_dataset (file_disk w) = Some triples
  /\ Forall2 near4_sample triples
       (samples_of scan_decimal (repeat quiet 7 ++ [last])
          (volt_indet e) (amp_indet e)).
Proof.
intros last o e.
apply (data_file_of_a_finished_run_reads_back scan_decimal o e
         (repeat quiet 7) last [quiet] KEY_q);
  try (vm_compute; reflexivity).
- exists "Fri Oct 30 03:58:00 2026"%string. split; reflexivity.
- exists "Fri Oct 30 04:10:00 2026"%string. split; reflexivity.
- repeat constructor.
Defined.

(** ** The numbers in the commands *)

Lemma read_decimal_fmt_fixed6 neg n :
0 <= n ->
read_decimal (fmt_fixed 6 neg n) = Some (Qmake (cond_Zopp neg n) 1000000).
Proof.
intros Hn. unfold fmt_fixed.
set (ip := dec_string (n / 10 ^ Z.of_nat 6)).
set (fp := fix_digits 6 (n mod 10 ^ Z.of_nat 6)).
assert (Hrest : match fields "."%char (ip ++ "." ++ fp) with
                | [a; b] =>
                    if ((String.length a =? 0) || (String.length b =? 0))%nat
                    then None
                    else
                      match digits_val a 0, digits_val b 0 with
                      | Some x, Some y =>
                          let k := Z.of_nat (String.length b) in
                          Some (Qmake (cond_Zopp neg (x * 10 ^ k + y))
                                      (Z.to_pos (10 ^ k)))
                      | _, _ => None
                      end
                | _ => None
                end = Some (Qmake (cond_Zopp neg n) 1000000)).
{ unfold fields.
  change (ip ++ "." ++ fp)%string with (ip ++ String "."%char fp)%string.
  rewrite fields_from_field.
  2:{ apply (all_chars_weaken is_digit); [|apply fix_digits_are_digits].
      apply digit_is_not. reflexivity. }
  rewrite fields_from_last.
  2:{ apply (all_chars_weaken is_digit); [|apply fix_digits_are_digits].
      apply digit_is_not. reflexivity. }
  change (EmptyString ++ ip)%string with ip.
  change (EmptyString ++ fp)%string with fp.
  cbv beta iota.
  destruct (dec_string_not_empty (n / 10 ^ Z.of_nat 6)) as (c & s & Hip & _).
  fold ip in Hip.
  assert (Hlen : (String.length ip =? 0)%nat = false) by now rewrite Hip.
  rewrite Hlen. unfold fp at 1. rewrite length_fix_digits. cbn [Nat.eqb orb].
  unfold ip. rewrite digits_val_dec_string
    by (change (10 ^ Z.of_nat 6) with 1000000; apply Z.div_pos; lia).
  unfold fp. rewrite digits_val_fix_digits
    by (change (10 ^ Z.of_nat 6) with 1000000; apply Z.mod_pos_bound; lia).
  rewrite length_fix_digits. cbv zeta.
  change (10 ^ Z.of_nat 6) with 1000000.
  rewrite Z.mod_mod by lia.
  change (Z.to_pos 1000000) with 1000000%positive.
  do 2 f_equal.
  pose proof (Z.div_mod n 1000000 ltac:(lia)). f_equal. lia. }
unfold read_decimal. destruct neg.
- change ("-" ++ ip ++ "." ++ fp)%string
    with (String "-"%char (ip ++ "." ++ fp)).
  cbn [Ascii.eqb Bool.eqb]. exact Hrest.
- change ("" ++ ip ++ "." ++ fp)%string with (ip ++ "." ++ fp)%string.
  destruct (dec_string_not_empty (n / 10 ^ Z.of_nat 6)) as (c & s & Hip & Hc).
  fold ip in Hip. rewrite Hip in *.
  change (String c s ++ "." ++ fp)%string with (String c (s ++ "." ++ fp)) in *.
  assert (Hm : Ascii.eqb c "-"%char = false).
  { pose proof (digit_is_not "-"%char eq_refl c Hc) as H.
    unfold is_not in H. now apply negb_true_iff in H. }
  cbv beta iota. rewrite Hm. exact Hrest.
Qed.

Lemma near6_scaled s m e :
near6 (Qmake (cond_Zopp s (scaled 6 m e)) 1000000) (S754_finite s m e).
Proof.
unfold near6, Q_of_float, scaled.
apply Qabs_Qle_condition.
destruct (0 <=? e) eqn:E.
- change (10 ^ Z.of_nat 6) with 1000000.
  unfold Qle, Qminus, Qplus, Qopp; cbn [Qnum Qden].
  destruct s; cbn [cond_Zopp]; lia.
- apply Z.leb_gt in E.
  assert (Hd : 0 < 2 ^ (- e)) by (apply Z.pow_pos_nonneg; lia).
  destruct (div_nearest_even_spec (Zpos m * 10 ^ Z.of_nat 6) (2 ^ (- e)))
    as [H0 Hn]; [lia | exact Hd |].
  change (10 ^ Z.of_nat 6) with 1000000 in *.
  set (N := div_nearest_even (Z.pos m * 1000000) (2 ^ (- e))) in *.
  unfold Qle, Qminus, Qplus, Qopp; cbn [Qnum Qden].
  rewrite !Pos2Z.inj_mul, Z2Pos.id by exact Hd.
  set (D := 2 ^ (- e)) in *.
  destruct s; cbn [cond_Zopp]; split; nia.
Qed.

(** X26.  [hp663X_set] sends the name of the command, a blank, the value and
    a newline, and reports whether the transfer succeeded.  For a
    finite value the text of the value is a decimal number with six
    digits behind the point, without blank, tabulator or newline, and
    it denotes the value within half a unit of the sixth decimal: a
    voltage reaches the instrument within half a microvolt. *)
Theorem hp663X_set_sends_six_decimals cmd x ok w :
is_finite x = true ->
exists t q,
  hp663X_set cmd x ok w = (ok, ibwrt (cmd ++ " " ++ t ++ NL) ok w)
  /\ all_chars is_plain t = true
  /\ read_decimal t = Some q
  /\ near6 q x
  /\ exists sign ip fp,
       t = (sign ++ ip ++ "." ++ fp)%string
       /\ (sign = EmptyString \/ sign = "-"%string)
       /\ all_chars is_digit ip = true
       /\ all_chars is_digit fp = true /\ String.length fp = 6%nat.
Proof.
intros Hx. exists (printf_f 6 x).
assert (H : exists q, read_decimal (printf_f 6 x) = Some q /\ near6 q x).
{ destruct x as [s|s| |s m e]; try discriminate; unfold printf_f.
  - exists (Qmake (cond_Zopp s 0) 1000000). split.
    + apply read_decimal_fmt_fixed6. lia.
    + unfold near6. destruct s; cbn; discriminate.
  - exists (Qmake (cond_Zopp s (scaled 6 m e)) 1000000). split.
    + apply read_decimal_fmt_fixed6. apply scaled_nonneg.
    + apply near6_scaled. }
assert (Hform : forall neg n,
  exists sign ip fp,
    fmt_fixed 6 neg n = (sign ++ ip ++ "." ++ fp)%string
    /\ (sign = EmptyString \/ sign = "-"%string)
    /\ all_chars is_digit ip = true
    /\ all_chars is_digit fp = true /\ String.length fp = 6%nat).
{ intros neg n. unfold fmt_fixed.
  exists (if neg then "-" else "")%string,
         (dec_string (n / 10 ^ Z.of_nat 6)),
         (fix_digits 6 (n mod 10 ^ Z.of_nat 6)).
  split; [reflexivity|]. split; [destruct neg; auto|].
  split; [unfold dec_string; apply fix_digits_are_digits|].
  split; [apply fix_digits_are_digits | apply length_fix_digits]. }
destruct H as (q & Hq & Hn). exists q.
split; [reflexivity|]. split; [apply printf_f_plain|].
split; [exact Hq|]. split; [exact Hn|].
destruct x as [s|s| |s m e]; try discriminate; unfold printf_f; apply Hform.
Qed.

Lemma hp663X_set_sends_six_decimals_witness :
let x := ramp_step (fint 5) 1000 in
is_finite x = true
/\ exists t q,
     hp663X_set "VSET" x true world0
     = (true, ibwrt ("VSET" ++ " " ++ t ++ NL) true world0)
     /\ all_chars is_plain t = true
     /\ read_decimal t = Some q
     /\ near6 q x
     /\ exists sign ip fp,
          t = (sign ++ ip ++ "." ++ fp)%string
          /\ (sign = EmptyString \/ sign = "-"%string)
          /\ all_chars is_digit ip = true
          /\ all_chars is_digit fp = true /\ String.length fp = 6%nat.
Proof.
intros x.
assert (H : is_finite x = true) by reflexivity.
split; [exact H|].
exact (hp663X_set_sends_six_decimals "VSET" x true world0 H).
Defined.

Lemma option_loop_step f8 f5 f6 f80 fuel argv g s key g' :
GetOpt argv OPTIONS g = (key, g') ->
option_loop f8 f5 f6 f80 (S fuel) argv g s
= if key =? EOF then Some (inr (g', s))
  else match option_case f8 f5 f6 f80 key (optarg g') s with
       | Continue s' => option_loop f8 f5 f6 f80 fuel argv g' s'
       | Leave r => Some (inl r)
       end.
Proof. intros H. cbn [option_loop]. now rewrite H. Qed.

(** X27.  The range checks of the voltages and of the current are written
    as [x < 0.0 || x > MAX]; a NaN passes them.  When the text behind
    -u is scanned as a NaN, the command line is accepted, the checks
    that guard the run hold, and the voltage of the setup command is
    that NaN. *)
Theorem range_check_lets_nan_through sscanf_8f sscanf_5d sscanf_6d sscanf_80s a name :
sscanf_8f a = Some S754_nan ->
(forall p, name <> String SW p) ->
Z.of_nat (String.length name) < MAXLEN ->
let o := put_filename name (put_set_volt S754_nan options0) in
command_line sscanf_8f sscanf_5d sscanf_6d sscanf_80s ["hp6633"; "-u"; a; name]%string
= Proceed (mkSettings o false "gnuplot")
/\ options_accepted o = true
/\ setup_volt o = S754_nan.
Proof.
intros Hnan Hname Hlen. cbv zeta.
split; [|split; reflexivity].
assert (Hg1 : GetOpt ["hp6633"; "-u"; a; name]%string OPTIONS getopt_vars0
              = (code "u", mkGetopt 3 None (Some a))) by reflexivity.
unfold command_line, enough_calls.
cbn [words_weight String.length Nat.add].
rewrite (option_loop_step _ _ _ _ _ _ _ _ _ _ Hg1).
change (code "u" =? EOF) with false. cbv iota. cbn [optarg].
rewrite case_u.
unfold float_case, scanned. rewrite Hnan.
change (flt S754_nan f0 || fgt S754_nan (fint MAXVOLT)) with false. cbv iota.
assert (Hg : GetOpt ["hp6633"; "-u"; a; name]%string OPTIONS (mkGetopt 3 None (Some a))
             = (EOF, mkGetopt 3 None None)).
{ unfold GetOpt. cbn [List.length optind letP]. unfold next_word.
  change (arg ["hp6633"; "-u"; a; name]%string
              (optind (mkGetopt 3 None (Some a))))
    with (Some name).
  change (3 <? Z.of_nat 4) with true. cbv iota.
  destruct name as [|c p]; [reflexivity|].
  destruct (Ascii.eqb c SW) eqn:E; [|reflexivity].
  apply Ascii.eqb_eq in E. subst c. exfalso. now apply (Hname p). }
rewrite (option_loop_step _ _ _ _ _ _ _ _ _ _ Hg).
change (EOF =? EOF) with true. cbv iota.
unfold after_options.
change (arg ["hp6633"; "-u"; a; name]%string (optind (mkGetopt 3 None None)))
  with (Some name).
cbn [opts_of with_opts put_set_volt opt_ramp options0 delay Z.eqb negb andb].
destruct (Z.leb_spec MAXLEN (Z.of_nat (String.length name))) as [H|H]; [lia|].
reflexivity.
Qed.

Lemma range_check_lets_nan_through_witness :
let o := put_filename "out.dat" (put_set_volt S754_nan options0) in
command_line scan_float scan_int scan_int scan_word
  ["hp6633"; "-u"; "nan"; "out.dat"]%string
= Proceed (mkSettings o false "gnuplot")
/\ options_accepted o = true
/\ setup_volt o = S754_nan.
Proof.
apply (range_check_lets_nan_through scan_float scan_int scan_int scan_word
         "nan" "out.dat" eq_refl).
- discriminate.
- vm_compute. reflexivity.
Defined.

(** ** The data file *)

Lemma holds_middle c pre rest : holds c (pre ++ String c rest) = true.
Proof.
induction pre as [|a pre IH].
- change (EmptyString ++ String c rest)%string with (String c rest).
  cbn [holds]. now rewrite Ascii.eqb_refl.
- change (String a pre ++ String c rest)%string
    with (String a (pre ++ String c rest)).
  cbn [holds]. rewrite IH. apply orb_true_r.
Qed.

Lemma given_of_word argv c pre rest :
In (String SW (pre ++ String c rest)) (tl argv) -> given c argv = true.
Proof.
intros Hin. unfold given. apply existsb_exists.
exists (String SW (pre ++ String c rest)). split; [exact Hin|].
cbn [switch_word]. now rewrite Ascii.eqb_refl, holds_middle.
Qed.

Lemma arg_tl argv i w : arg argv i = Some w -> 1 <= i -> In w (tl argv).
Proof.
unfold arg. destruct (Z.ltb_spec i 0) as [H|H]; [discriminate|].
intros Hn Hi. destruct argv as [|a l].
- destruct (Z.to_nat i); discriminate.
- replace (Z.to_nat i) with (S (Z.to_nat (i - 1))) in Hn by lia.
  cbn in Hn. cbn [tl]. eapply nth_error_In. exact Hn.
Qed.

(** The character that [GetOpt] looks at stands in a word that starts
    with the switch character. *)
Lemma GetOpt_looks_at argv g ch p :
in_switch_word argv g ->
match letP g with Some q => inr q | None => next_word argv g end
= inr (String ch p) ->
exists pre, In (String SW (pre ++ String ch p)) (tl argv).
Proof.
intros [Hpos Hok] H. destruct (letP g) as [q|].
- inversion H. subst q. destruct Hok as (w & pre & Hin & ->). now exists pre.
- apply next_word_inr in H. exists EmptyString.
  change (EmptyString ++ String ch p)%string with (String ch p).
  now apply (arg_tl argv (optind g)).
Qed.

Lemma GetOpt_letter_source argv optionS g :
in_switch_word argv g ->
let r := fst (GetOpt argv optionS g) in
let g' := snd (GetOpt argv optionS g) in
in_switch_word argv g'
/\ (r <> EOF -> exists c, (r = code c \/ r = code "~") /\ given c argv = true).
Proof.
intros Hin. cbv zeta.
assert (Hpos' : 1 <= optind (snd (GetOpt argv optionS g))).
{ pose proof (GetOpt_optind argv optionS g). destruct Hin. lia. }
revert Hpos'. unfold in_switch_word. unfold GetOpt.
destruct (Z.ltb_spec (optind g) (Z.of_nat (List.length argv))) as [Hlt|Hge];
  [|cbn; intros; split; [split; [lia | exact I] | congruence]].
pose proof (GetOpt_looks_at argv g) as Hat. specialize (fun ch p => Hat ch p Hin).
destruct (match letP g with Some p => inr p | None => next_word argv g end)
  as [r|[|ch p]].
- cbn. intros; split; [split; [lia | exact I] | congruence].
- cbn. intros; split; [split; [lia | exact I] | congruence].
- destruct (Hat ch p eq_refl) as (pre & Hw).
  assert (Hgiven : given ch argv = true) by (eapply given_of_word; exact Hw).
  assert (Hnext : exists w pre', In w (tl argv) /\ w = String SW (pre' ++ p)).
  { exists (String SW (pre ++ String ch p)), (pre ++ String ch EmptyString)%string.
    split; [exact Hw|]. now rewrite append_assoc. }
  destruct (Ascii.eqb ch ":").
  { cbn. intros; split; [split; [lia | exact Hnext]|].
    intros _. exists ch. split; [now right | exact Hgiven]. }
  destruct (strchr optionS ch) as [optP|].
  2:{ cbn. intros; split; [split; [lia | exact Hnext]|].
      intros _. exists ch. split; [now right | exact Hgiven]. }
  destruct (takes_argument optP); destruct p as [|c' p'].
  + destruct (Z.leb_spec (Z.of_nat (List.length argv)) (optind g + 1)).
    * cbn. intros; split; [split; [lia | exact Hnext]|].
      intros _. exists ch. split; [now right | exact Hgiven].
    * cbn. intros; split; [split; [lia | exact I]|].
      intros _. exists ch. split; [now left | exact Hgiven].
  + cbn. intros; split; [split; [lia | exact I]|].
    intros _. exists ch. split; [now left | exact Hgiven].
  + cbn. intros; split; [split; [lia | exact I]|].
    intros _. exists ch. split; [now left | exact Hgiven].
  + cbn. intros; split; [split; [lia | exact Hnext]|].
    intros _. exists ch. split; [now left | exact Hgiven].
Qed.

Section DataFile.

Variable sscanf_8f : string -> option spec_float.
Variable sscanf_5d : string -> option Z.
Variable sscanf_6d : string -> option Z.
Variable sscanf_80s : string -> option string.

(** Only the case 'f' of the [switch] sets [do_overwrite]. *)
Lemma option_case_overwrite key oa s s' :
option_case sscanf_8f sscanf_5d sscanf_6d sscanf_80s key oa s = Continue s' ->
do_overwrite s' = do_overwrite s \/ key = code "f".
Proof.
intros H.
destruct (Z.eqb_spec key (code "f")) as [->|Hne]; [now right|]. left.
apply Z.eqb_neq in Hne.
unfold option_case, float_case, int_case, with_opts, strclean in H.
rewrite Hne in H.
repeat match type of H with
       | context [if ?b then _ else _] => destruct b
       | context [match ?x with Some _ => _ | None => _ end] => destruct x
       end;
  try discriminate H; inversion H; subst; reflexivity.
Qed.

Lemma option_loop_overwrite argv fuel : forall g s g' s',
in_switch_word argv g ->
(do_overwrite s = true -> given "f" argv = true) ->
option_loop sscanf_8f sscanf_5d sscanf_6d sscanf_80s fuel argv g s
= Some (inr (g', s')) ->
do_overwrite s' = true -> given "f" argv = true.
Proof.
induction fuel as [|fuel IH]; intros g s g' s' Hin Hs; [discriminate|].
cbn [option_loop].
destruct (GetOpt_letter_source argv OPTIONS g Hin) as [Hin' Hkey].
destruct (GetOpt argv OPTIONS g) as [key g1]. cbn [fst snd] in *.
destruct (Z.eqb_spec key EOF) as [->|Hne].
- intros H. inversion H. now subst.
- destruct (option_case sscanf_8f sscanf_5d sscanf_6d sscanf_80s key (optarg g1) s)
    as [s1|r] eqn:Hcase; [|discriminate].
  apply IH; [exact Hin'|].
  destruct (option_case_overwrite _ _ _ _ Hcase) as [Hsame | ->].
  + rewrite Hsame. exact Hs.
  + intros _. destruct (Hkey Hne) as (c & [Hc | Hc] & Hg).
    * apply code_inj in Hc. now subst c.
    * discriminate Hc.
Qed.

(** X29.  An existing data file is safe unless the operator wants
    otherwise: when the command line is accepted for a run with a
    delay other than 0, the file exists, no option word of the command
    line holds the letter f, and the answer to the question is neither
    Y nor y, [main] returns before it opens the file.  Without the
    question, that is with [do_overwrite] set or for a file that does
    not exist, and after the answer Y or y, [fopen] is called for
    writing, which empties the file when it succeeds. *)
Theorem existing_file_is_kept_without_f_or_yes argv s f :
command_line sscanf_8f sscanf_5d sscanf_6d sscanf_80s argv = Proceed s ->
delay (opts_of s) <> 0 ->
(access_ok f = true -> given "f" argv = false ->
 answer f <> code "Y" -> answer f <> code "y" ->
 prepare_file s f = FileDeclined)
/\ (access_ok f = false \/ do_overwrite s = true
    \/ answer f = code "Y" \/ answer f = code "y" ->
    prepare_file s f = if fopen_ok f then FileOpened else FileFailed).
Proof.
intros Hline _.
assert (Hover : do_overwrite s = true -> given "f" argv = true).
{ revert Hline. unfold command_line.
  destruct (option_loop sscanf_8f sscanf_5d sscanf_6d sscanf_80s
              (enough_calls argv) argv getopt_vars0 settings0)
    as [[r|[g' s']]|] eqn:Hl; try discriminate.
  - intros ->.
    pose proof (option_loop_of_main sscanf_8f sscanf_5d sscanf_6d sscanf_80s argv)
      as Hinv.
    rewrite Hl in Hinv. destruct Hinv as [(st & H) | (H & _)]; discriminate.
  - intros Hafter.
    assert (Hs : do_overwrite s = do_overwrite s').
    { revert Hafter. unfold after_options.
      repeat match goal with
             | |- context [if ?b then _ else _] => destruct b
             | |- context [match ?x with Some _ => _ | None => _ end] => destruct x
             end; try discriminate; intros H; inversion H; reflexivity. }
    rewrite Hs.
    assert (H0 : in_switch_word argv getopt_vars0)
      by (split; [cbn; lia | exact I]).
    apply (option_loop_overwrite argv (enough_calls argv) getopt_vars0 settings0
             g' s' H0); [discriminate | exact Hl]. }
unfold prepare_file. split.
- intros Ha Hf HY Hy. rewrite Ha.
  destruct (do_overwrite s); [specialize (Hover eq_refl); congruence|].
  apply Z.eqb_neq in HY, Hy. cbn [negb andb]. now rewrite HY, Hy.
- intros [Ha | [Ho | [HY | Hy]]].
  + now rewrite Ha.
  + rewrite Ho. now rewrite andb_false_r.
  + rewrite HY, Z.eqb_refl. cbn [orb]. now destruct (access_ok f && _).
  + rewrite Hy, Z.eqb_refl, orb_true_r. now destruct (access_ok f && _).
Qed.

End DataFile.

Lemma existing_file_is_kept_without_f_or_yes_witness :
let argv := ["hp6633"; "-c"; "ab"; "f.dat"]%string in
let s := mkSettings (put_filename "f.dat" (put_comment "ab" options0))
                    false "gnuplot" in
let f := mkFileEnv true (code "n") true in
command_line scan_decimal scan_int scan_int scan_word argv = Proceed s
/\ delay (opts_of s) <> 0
/\ given "f" argv = false
/\ prepare_file s f = FileDeclined.
Proof.
intros argv s f.
assert (H : command_line scan_decimal scan_int scan_int scan_word argv = Proceed s)
  by (vm_compute; reflexivity).
assert (Hd : delay (opts_of s) <> 0) by discriminate.
split; [exact H|]. split; [exact Hd|]. split; [reflexivity|].
apply (proj1 (existing_file_is_kept_without_f_or_yes
                scan_decimal scan_int scan_int scan_word argv s f H Hd));
  [reflexivity | reflexivity | discriminate | discriminate].
Defined.

(** ** Reading back a command line written from options *)

Lemma GetOpt_run_app n m argv optionS : forall g,
GetOpt_run (n + m) argv optionS g
= (fst (GetOpt_run n argv optionS g)
   ++ fst (GetOpt_run m argv optionS (snd (GetOpt_run n argv optionS g))),
   snd (GetOpt_run m argv optionS (snd (GetOpt_run n argv optionS g)))).
Proof.
induction n as [|n IH]; intros g.
- cbn. now destruct (GetOpt_run m argv optionS g).
- cbn [Nat.add GetOpt_run]. destruct (GetOpt argv optionS g) as [r g1].
  rewrite IH. destruct (GetOpt_run n argv optionS g1) as [rs g2].
  reflexivity.
Qed.

Lemma length_letters_of l : List.length (letters_of l) = String.length l.
Proof.
unfold letters_of. rewrite length_map.
induction l as [|c l IH]; [reflexivity|]. cbn. now rewrite IH.
Qed.

(** The call that enters an option word goes on as a call does that
    finds [letP] behind the switch character. *)
Lemma GetOpt_run_enters optionS pre p post g n :
optind g = Z.of_nat (List.length pre) -> letP g = None ->
starts_with_switch p = false -> p <> EmptyString ->
GetOpt_run (S n) (pre ++ String SW p :: post) optionS g
= GetOpt_run (S n) (pre ++ String SW p :: post) optionS
    (mkGetopt (optind g) (Some p) (optarg g)).
Proof.
intros Hi Hp Hsw Hne. destruct p as [|c p]; [contradiction|].
assert (Hc : c <> SW).
{ intros ->. unfold starts_with_switch in Hsw.
  rewrite Ascii.eqb_refl in Hsw. discriminate. }
cbn [GetOpt_run].
rewrite (GetOpt_enters _ optionS g (String c p) Hp
           (next_word_option pre c p post g Hi Hc)).
reflexivity.
Qed.

(** Letters without argument, read one after the other. *)
Lemma GetOpt_run_plain argv optionS i : forall l rest oa,
i < Z.of_nat (List.length argv) ->
all_chars (plain_letter optionS) l = true ->
GetOpt_run (String.length l) argv optionS (mkGetopt i (Some (l ++ rest)%string) oa)
= (letters_of l,
   match l with
   | EmptyString => mkGetopt i (Some rest) oa
   | String _ _ =>
       match rest with
       | EmptyString => mkGetopt (i + 1) None None
       | String _ _ => mkGetopt i (Some rest) None
       end
   end).
Proof.
induction l as [|c l IH]; intros rest oa Hi Hall; [reflexivity|].
cbn [all_chars] in Hall. apply andb_prop in Hall. destruct Hall as [Hc Hall].
destruct (plain_letter_found _ _ Hc) as (Hcol & optP & Hf & Ht).
change (String c l ++ rest)%string with (String c (l ++ rest)).
cbn [String.length GetOpt_run].
unfold GetOpt at 1. cbn [optind letP].
destruct (Z.ltb_spec i (Z.of_nat (List.length argv))) as [_|Hge]; [|lia].
rewrite Hcol, Hf, Ht.
destruct l as [|c' l'].
- change (EmptyString ++ rest)%string with rest.
  destruct rest; reflexivity.
- change (String c' l' ++ rest)%string with (String c' (l' ++ rest)).
  cbv iota.
  change (String c' (l' ++ rest)) with (String c' l' ++ rest)%string.
  rewrite (IH rest None Hi Hall). reflexivity.
Qed.

(** A letter with its argument behind it, and with its argument in the
    next word. *)
Lemma GetOpt_attached argv optionS i c a oa :
i < Z.of_nat (List.length argv) ->
argument_letter optionS c = true -> a <> EmptyString ->
GetOpt argv optionS (mkGetopt i (Some (String c a)) oa)
= (code c, mkGetopt (i + 1) None (Some a)).
Proof.
intros Hi Hc Ha.
destruct (argument_letter_found _ _ Hc) as (Hcol & optP & Hf & Ht).
unfold GetOpt. cbn [optind letP].
destruct (Z.ltb_spec i (Z.of_nat (List.length argv))) as [_|Hge]; [|lia].
rewrite Hcol, Hf, Ht. destruct a; [contradiction | reflexivity].
Qed.

Lemma GetOpt_separate argv optionS i c a oa :
0 <= i -> arg argv (i + 1) = Some a ->
argument_letter optionS c = true ->
GetOpt argv optionS (mkGetopt i (Some (String c EmptyString)) oa)
= (code c, mkGetopt (i + 1 + 1) None (Some a)).
Proof.
intros Hi Ha Hc.
destruct (argument_letter_found _ _ Hc) as (Hcol & optP & Hf & Ht).
pose proof (arg_some _ _ _ Ha) as [Hlen _].
unfold GetOpt. cbn [optind letP].
destruct (Z.ltb_spec i (Z.of_nat (List.length argv))) as [_|Hge]; [|lia].
rewrite Hcol, Hf, Ht.
destruct (Z.leb_spec (Z.of_nat (List.length argv)) (i + 1)) as [Hle|_]; [lia|].
now rewrite Ha.
Qed.

Lemma starts_with_switch_app l r :
l <> EmptyString -> starts_with_switch (l ++ r) = starts_with_switch l.
Proof. destruct l; [contradiction | reflexivity]. Qed.

(** One option, from the call that enters its word to the call that
    leaves it. *)
Lemma GetOpt_run_option optionS o pre post g :
well_formed optionS o = true ->
optind g = Z.of_nat (List.length pre) -> letP g = None ->
exists oa,
  GetOpt_run (List.length (results_of o)) (pre ++ words_of o ++ post) optionS g
  = (results_of o,
     mkGetopt (optind g + Z.of_nat (List.length (words_of o))) None oa).
Proof.
intros Hwf Hi Hp.
assert (Hin : forall w rest,
          Z.of_nat (List.length pre) < Z.of_nat (List.length (pre ++ w :: rest)))
  by (intros; apply length_words).
destruct o as [l|l c a|l c a]; cbn [well_formed] in Hwf;
  cbn [words_of results_of List.length app].
- (* letters only *)
  apply andb_prop in Hwf. destruct Hwf as [Hwf Hne].
  apply andb_prop in Hwf. destruct Hwf as [Hall Hsw].
  apply negb_true_iff in Hsw. apply negb_true_iff in Hne.
  assert (Hl : l <> EmptyString) by (intros ->; discriminate).
  exists None. rewrite length_letters_of.
  destruct l as [|c0 l0] eqn:El; [contradiction|]. rewrite <- El in *.
  assert (Hlen : String.length l = S (String.length l0)) by now rewrite El.
  rewrite Hlen, (GetOpt_run_enters optionS pre l post g _ Hi Hp Hsw Hl).
  rewrite <- Hlen.
  rewrite <- (append_empty_r l) at 3.
  rewrite (GetOpt_run_plain _ optionS (optind g) l EmptyString (optarg g));
    [|rewrite Hi; apply Hin | exact Hall].
  rewrite El. reflexivity.
- (* a letter with its argument behind it *)
  apply andb_prop in Hwf. destruct Hwf as [Hwf Hna].
  apply andb_prop in Hwf. destruct Hwf as [Hwf Hsw].
  apply andb_prop in Hwf. destruct Hwf as [Hall Harg].
  apply negb_true_iff in Hsw. apply negb_true_iff in Hna.
  assert (Ha : a <> EmptyString) by (intros ->; discriminate).
  exists (Some a). rewrite length_app, length_letters_of. cbn [List.length].
  assert (Hw : starts_with_switch (l ++ String c a) = false).
  { destruct l; [exact Hsw|]. exact Hsw. }
  assert (Hne : (l ++ String c a)%string <> EmptyString)
    by (destruct l; discriminate).
  rewrite Nat.add_1_r,
    (GetOpt_run_enters optionS pre (l ++ String c a) post g _ Hi Hp Hw Hne).
  rewrite <- Nat.add_1_r, GetOpt_run_app.
  rewrite (GetOpt_run_plain _ optionS (optind g) l (String c a) (optarg g));
    [|rewrite Hi; apply Hin | exact Hall].
  cbn [fst snd GetOpt_run].
  assert (Hstep : forall oa,
            GetOpt (pre ++ String SW (l ++ String c a) :: post) optionS
              (mkGetopt (optind g) (Some (String c a)) oa)
            = (code c, mkGetopt (optind g + 1) None (Some a))).
  { intros oa. apply GetOpt_attached; [rewrite Hi; apply Hin | exact Harg | exact Ha]. }
  destruct l; rewrite Hstep; reflexivity.
- (* a letter with its argument in the next word *)
  apply andb_prop in Hwf. destruct Hwf as [Hwf Hsw].
  apply andb_prop in Hwf. destruct Hwf as [Hall Harg].
  apply negb_true_iff in Hsw.
  exists (Some a). rewrite length_app, length_letters_of. cbn [List.length].
  assert (Hne : (l ++ String c EmptyString)%string <> EmptyString)
    by (destruct l; discriminate).
  rewrite Nat.add_1_r,
    (GetOpt_run_enters optionS pre (l ++ String c EmptyString) (a :: post) g _
       Hi Hp Hsw Hne).
  rewrite <- Nat.add_1_r, GetOpt_run_app.
  rewrite (GetOpt_run_plain _ optionS (optind g) l (String c EmptyString) (optarg g));
    [|rewrite Hi; apply Hin | exact Hall].
  cbn [fst snd GetOpt_run].
  assert (Hstep : forall oa,
            GetOpt (pre ++ String SW (l ++ String c EmptyString) :: a :: post) optionS
              (mkGetopt (optind g) (Some (String c EmptyString)) oa)
            = (code c, mkGetopt (optind g + 1 + 1) None (Some a))).
  { intros oa. apply GetOpt_separate; [lia | rewrite Hi; apply arg_next | exact Harg]. }
  replace (optind g + Z.of_nat 2) with (optind g + 1 + 1) by lia.
  destruct l; rewrite Hstep; reflexivity.
Qed.

(** Where the options end: behind the last word, or at a word that
    does not start with the switch character. *)
Lemma GetOpt_at_operands optionS pre operands g :
operands_ok operands = true ->
optind g = Z.of_nat (List.length pre) -> letP g = None ->
GetOpt (pre ++ operands) optionS g = (EOF, mkGetopt (optind g) None None).
Proof.
intros Hok Hi Hp. unfold GetOpt. destruct operands as [|w rest].
- rewrite app_nil_r, Hi, Z.ltb_irrefl. reflexivity.
- assert (Hin : (optind g <? Z.of_nat (List.length (pre ++ w :: rest))) = true)
    by (apply Z.ltb_lt; rewrite Hi; apply length_words).
  rewrite Hin, Hp. unfold next_word. rewrite Hi, arg_word.
  destruct w as [|c q]; [reflexivity|].
  cbn in Hok. now rewrite Hok.
Qed.

Lemma GetOpt_run_options optionS operands : forall os pre g,
forallb (well_formed optionS) os = true -> operands_ok operands = true ->
optind g = Z.of_nat (List.length pre) -> letP g = None ->
GetOpt_run (S (List.length (flat_map results_of os)))
  (pre ++ flat_map words_of os ++ operands) optionS g
= (flat_map results_of os ++ [(EOF, None)],
   mkGetopt (optind g + Z.of_nat (List.length (flat_map words_of os))) None None).
Proof.
induction os as [|o os IH]; intros pre g Hwf Hok Hi Hp.
- cbn [flat_map List.length app GetOpt_run].
  rewrite (GetOpt_at_operands optionS pre operands g Hok Hi Hp).
  cbn [optarg]. now rewrite Z.add_0_r.
- cbn [forallb] in Hwf. apply andb_prop in Hwf. destruct Hwf as [Ho Hwf].
  cbn [flat_map]. rewrite !length_app, <- app_assoc.
  rewrite <- Nat.add_succ_r, GetOpt_run_app.
  destruct (GetOpt_run_option optionS o pre (flat_map words_of os ++ operands) g
              Ho Hi Hp) as (oa & Hrun).
  rewrite Hrun. cbn [fst snd].
  set (g1 := mkGetopt (optind g + Z.of_nat (List.length (words_of o))) None oa).
  replace (pre ++ words_of o ++ flat_map words_of os ++ operands)
    with ((pre ++ words_of o) ++ flat_map words_of os ++ operands)
    by now rewrite <- app_assoc.
  rewrite (IH (pre ++ words_of o) g1 Hwf Hok);
    [|unfold g1; cbn [optind]; rewrite length_app; lia | reflexivity].
  cbn [fst snd]. unfold g1. cbn [optind].
  rewrite <- app_assoc. f_equal. f_equal. lia.
Qed.

(** X28.  [GetOpt] reads back what was written.  For a command line
    written from options of the documented form (letters without
    argument, then possibly a letter with its argument, behind it or
    as the next word), followed by other words of which the first does
    not start with the switch character, the calls of [GetOpt] return
    the letters in the order written, each argument with its letter in
    [optarg] and NULL there for the letters without argument, and then
    EOF with [optind] at the first of the other words.  An argument is
    never taken for letters, whatever it holds, and the other words
    are not read. *)
Theorem GetOpt_reads_back_the_options optionS prog os operands :
forallb (well_formed optionS) os = true -> operands_ok operands = true ->
GetOpt_run (S (List.length (flat_map results_of os)))
  (command_words prog os operands) optionS getopt_vars0
= (flat_map results_of os ++ [(EOF, None)],
   mkGetopt (1 + Z.of_nat (List.length (flat_map words_of os))) None None).
Proof.
intros Hwf Hok.
apply (GetOpt_run_options optionS operands os [prog] getopt_vars0 Hwf Hok);
  reflexivity.
Qed.

Lemma GetOpt_reads_back_the_options_witness :
let os := [Flags "nK"; Separate "" "c" "-f"; Attached "k" "U" "5"] in
command_words "hp6633" os ["out.dat"; "-n"]%string
= ["hp6633"; "-nK"; "-c"; "-f"; "-kU5"; "out.dat"; "-n"]%string
/\ GetOpt_run 6 (command_words "hp6633" os ["out.dat"; "-n"]%string)
     OPTIONS getopt_vars0
   = ([(code "n", None); (code "K", None); (code "c", Some "-f"%string);
       (code "k", None); (code "U", Some "5"%string); (EOF, None)],
      mkGetopt 5 None None).
Proof.
intros os. split; [reflexivity|].
apply (GetOpt_reads_back_the_options OPTIONS "hp6633"
         os ["out.dat"; "-n"]%string); reflexivity.
Defined.
